(* ===== verification/_CoqProject ===== *)
-Q . S2P
Prelude.v
MachineInt.v
BoundedQueue.v
Float32.v
Identity.v
SerialFraming.v
Components.v
UdpWire.v
NeighbourTable.v
JsonWriter.v
Trace.v
Scheduler.v
ThreadPool.v
SchedulerParallel.v
Registry.v
ChaCha20.v
PeerKeys.v
FaultMonitor.v
TaskAlloc.v
ClockSync.v
PartitionMerge.v
Transport.v
Actions.v
Flocking.v
WorldState.v
Discovery.v
Links.v
LinkSetup.v
Beacon.v
World.v
WorldSafety.v
WorldFootprint.v
WorldParallel.v
WorldDeterminism.v
WorldDump.v
Sim.v
SimSafety.v
Demos.v
SimNeighbours.v
Benchmarks.v
