(* ===== verification/Prelude.v ===== *)
(** MITH, a runtime for swarms of autonomous units: a model of its library
    ([src/include/mith], [src/src]) and the theorems that make it correct.

    * The program

    A [World] is one unit.  It owns a registry of components (its own entity's
    data), a scheduler of systems, a neighbour table, the keys of its peers and the
    transports it was given.  [World::init] registers the built-in components, gives
    the entity its identity and defaults, locks the registry and builds the
    scheduler's graph; [World::tick] advances the clock, runs every system once in an
    order that respects their declared conflicts, and rotates the identity when its
    period is over.  The systems talk to other worlds through a transport: beacons
    (state vectors, signed in authenticated mode) and messages.  Transports run over
    UDP multicast, over a serial line, or inside the process over the simulation bus.

    * The files

    - [Prelude]: outcomes ([Ok], [Aborted] for a call of [abort], [Undefined] for
      what the language leaves undefined), buffers, tactics and hint databases.
    - [MachineInt]: integers of 8 to 64 bits as [Z] with wrap-around, bytes, the
      byte-order helpers every file of the sources repeats.
    - [Float32]: IEEE binary32, on the Standard Library's [SpecFloat], and the
      conversions the code uses.
    - [BoundedQueue] ([core/bounded_queue.h]): the ring buffer, its policies.
    - [Identity] ([identity/uuid], [identity/hierarchical_id]): order, text, hash.
    - [Components] ([core/builtin_components.h], [behaviour/action*.h],
      [comms/message.h], [comms/state_vector.h]): the records that the rest shares.
    - [UdpWire], [SerialFraming] ([comms/udp_wire], [comms/serial_framing]): the
      formats of datagrams and of frames on a byte stream.
    - [NeighbourTable] ([comms/neighbour_table]): entries, hash grid, queries.
    - [JsonWriter], [Trace] ([core/json_writer], [core/trace_sink],
      [core/binary_trace_sink]): JSON text and the two trace sinks.
    - [Scheduler], [ThreadPool], [SchedulerParallel] ([core/system.h],
      [core/scheduler]): registration, hazard graph and the sequential tick; the pool
      of threads with its condition variable and destructor; the parallel tick as a
      step relation of the caller and its workers.
    - [Registry] ([core/registry], [core/component.h], [core/entity_snapshot.h]).
    - [ChaCha20] ([identity/chacha20]), [PeerKeys] ([identity/ed25519],
      [identity/identity_rotation], [comms/peer_key_registry]): the random stream;
      keys, certificates and first-use pinning over a signature scheme.
    - [FaultMonitor], [TaskAlloc], [ClockSync], [PartitionMerge], [Flocking],
      [Actions] ([systems/*], [behaviour/*]): one tick of each system.
    - [Transport] ([comms/transport.h]): the interface of transports, a type class.
    - [Links], [LinkSetup] ([comms/serial_transport],
      [comms/udp_multicast_transport]): two instances of it, over a kernel; how they
      are opened, configured and destroyed.
    - [WorldState], [World], [WorldSafety], [WorldFootprint], [WorldParallel],
      [WorldDeterminism], [WorldDump] ([core/world]): the state and identity rotation;
      construction, [init], [tick], [run]; their safety; what each system reads and
      writes; the tick in parallel mode and its determinism; the JSON dump of the
      state.
    - [Discovery], [Beacon] ([systems/discovery_system], [comms/beacon_system]): the
      two systems that use the transport.
    - [Sim], [SimSafety] ([sim/sim_bus], [sim/sim_clock]): the bus, a third transport,
      and the clock that ticks several worlds; the safety of whole simulations.
    - [Demos], [SimNeighbours], [Benchmarks] ([examples/*]): the programs of the
      repository, over the simulation and the neighbour table; how their robots come
      to know each other through the beacon systems, the bus and the tables.

    Definitions carry the names of the sources, each under a comment that
    names its file and lines.  A member function takes the object as an argument and returns
    the new one; a [std::vector] is a list, a hash map a [gmap] (its iteration order
    is not used by the code modelled), a float its 32 bits in a [Z], a [FILE] the
    characters written to it.

    * The theorems

    - The runtime as a whole: no sequence of setup calls that keeps the documented
      conditions, followed by [init] and any number of ticks, aborts or reaches
      undefined behaviour, and the invariant of the world survives
      ([Safe.runtime_never_aborts], [Safe.init_establishes]); nor does a simulation of
      several worlds on one bus ([SimSafe.simulation_never_aborts]), nor a world with the
      parallel scheduler, in any interleaving ([WPar.parallel_runtime_never_aborts]).
    - Scheduling: conflicting systems are ordered by name in the graph; a sequential tick runs each system once in that order; every complete
      interleaving of the parallel tick runs each system once and, if systems without
      a conflict commute, ends with the state of the sequential one; it
      never runs two conflicting systems at once, and ends ([Par.parallel_tick_*]).
      The pool behind it loses no wake-up and no closure, and its destructor returns
      ([Pool.pool_runs_every_closure]).  The built-in systems keep to what they
      declare, two pairs apart ([Det.undeclared_races]), so that those without a
      conflict commute ([Det.hazard_free_ticks_commute]) and a run of a world in
      parallel mode computes what the sequential run does
      ([Det.parallel_run_is_sequential]).
      These assume that the caller has seeded the ready systems before a worker
      releases a dependent; [Par.seeding_race] shows what happens otherwise.
    - Data structures refine their abstract meaning: the queue a bounded FIFO with a
      drop count, the table a map of observations with an exact grid, the binary sink
      the latest events, the random generator the ChaCha20 key stream.
    - Formats: what is encoded decodes to itself and nothing else decodes; the frame
      parser resynchronises after noise, stays in its buffer and accounts for each
      byte; JSON text reads back to the document; the dump of a world reads back to
      the values of its state.
    - Transports: an opened transport owns one descriptor, a failed one none
      ([Setup.transports_own_their_descriptors]); a serial line delivers everything once and in order; a datagram
      socket sorts whatever arrives; the simulation bus delivers each broadcast once
      to those in range.
    - Security: the signed bytes determine a beacon; only authentic beacons of the
      first key seen under a name enter the table; a chain of certificates links each
      identity to the first; a forbidden action has no effect; discovery pins the two
      keys of a handshake, and an active node sends nothing but answers to greetings.
    - Systems: hysteresis of the fault monitor, role switches, bounded clock steps,
      detection of a healed partition, speed limits of flocking and what NaN does on each axis.

    - Programs: the flocking demonstrations end and print, for every tick, what each
      robot is and where ([Demo.demo_prints_robots]); in them every robot learns, over the
      bus, of those within earshot, in at most two ticks of the sending, with or without
      signatures ([Hear.robots_learn_of_neighbours]), and of nobody else
      ([Hear.neighbours_are_real]); the swarm benchmark ends with its
      statistics for every command line but those whose texts are no numbers, whose box
      makes no distribution, or whose counts are rejected or lead it out of bounds
      ([Bench.swarm_benchmark_reports]).

    Where the code does not do what it says, a theorem shows it: [Par.seeding_race],
    [Par.late_notification], [NT.radius_query_misses], [FM.unreachable_recovery],
    [Det.undeclared_races], [Bench.lcg_exceeds_one], [Flock.flocking_and_nan], [Disc.discovery_identity_goes_stale],
    [Safe.refused_discovery_dangles].

    * Parameters

    What is not under [src] is an argument: the compiler's text of a function
    signature ([Reg.Toolchain], with the text of gcc as instance [Reg.gcc]); the
    signature scheme ([Auth.Crypto] and its laws, with a toy instance); random words,
    the result of float-to-integer conversions out of range and the number of
    processors ([WS.Platform]); the calls of the operating system ([Link.Kernel],
    with [Link.Progress], [Link.Line] and [Link.Datagrams] for what they promise, and
    [Setup.Posix] with [Setup.PosixLaws]); for the programs, the numbers a random
    engine yields, what [atoi] and [stof] make of a text, the times measured and the text of [%.17g];
    the application's systems and handlers, which are assumed to keep the state's
    invariant ([Safe.user_code_sound]).  Each theorem under such a hypothesis has an
    example with a concrete instance.

    * Fuel

    Loops that are not structural have fuel, and each has a theorem that some amount
    is enough: the drain of the action queue (one more than its size), the loops on
    descriptors (the bounds of [Link.Progress]), [World::run] (one more than the turns
    before the stop flag is read as set), the random generator (the bytes asked for).

    * Not modelled

    Pacing by the real clock in [World::run]; interleavings inside the tick of one system (a system's
    tick is one step of the parallel scheduler); locks other than the scheduler's; TweetNaCl; what the
    benchmarks read of the memory in use and how they format numbers; the Python visualisers and the tests; headers that are empty so far ([action_executor_system.h],
    [action_provider.h]).

    The safety theorems are proved against the interface: they ask for a transport
    that is [Disc.Reliable], that is, whose sends succeed for an entity with a position
    in the environments it calls good.  [Link.serial_reliable], [Link.udp_reliable] and
    [SimSafe.sim_reliable] discharge that for the three transports.  The theorems on
    parallel mode ask in the same way what a send may read of the sender
    ([Net.Sends]). *)

From stdpp Require Export base numbers list gmap strings.
From Stdlib Require Export ZArith Lia.

Declare Scope mith_scope.
Delimit Scope mith_scope with mith.
#[global] Open Scope mith_scope.

(** ** Fallible operations

    The runtime is built without exceptions: a violated precondition prints a
    message and calls [abort].  An operation that can do so returns an
    [outcome]; one whose behaviour the language leaves undefined on some state
    (an access outside a vector, a cast to the wrong type) returns [Undefined]
    there, so that its theorems must show that the state is not reached. *)

Inductive outcome (A : Type) : Type :=
| Ok (a : A)
| Aborted (msg : string)
| Undefined (why : string).
Arguments Ok {A} a.
Arguments Aborted {A} msg.
Arguments Undefined {A} why.

Definition obind {A B : Type} (o : outcome A) (k : A -> outcome B) : outcome B :=
  match o with
  | Ok a => k a
  | Aborted m => Aborted m
  | Undefined w => Undefined w
  end.

(** [injection] on computed states looks into them. *)
Lemma Ok_inj {A : Type} (a b : A) : Ok a = Ok b -> a = b.
Proof. congruence. Qed.

Notation "'let!' x ':=' o 'in' k" := (obind o (fun x => k))
  (at level 10, x pattern, o at level 100, k at level 200)
  : mith_scope.

Definition is_ok {A : Type} (o : outcome A) : bool :=
  match o with Ok _ => true | _ => false end.

(** Two computations that fail alike, or succeed with related results. *)
Definition out_rel {A B : Type} (Q : A -> B -> Prop) (o1 : outcome A) (o2 : outcome B) : Prop :=
  match o1, o2 with
  | Ok a, Ok b => Q a b
  | Aborted _, Aborted _ | Undefined _, Undefined _ => True
  | _, _ => False
  end.

Lemma out_rel_bind {A B C D : Type} (P : A -> B -> Prop) (Q : C -> D -> Prop) o1 o2 k1 k2 :
  out_rel P o1 o2 -> (forall a b, P a b -> out_rel Q (k1 a) (k2 b)) -> out_rel Q (obind o1 k1) (obind o2 k2).
Proof. destruct o1, o2; cbn; try done. auto. Qed.

Lemma out_rel_mono {A B : Type} (P Q : A -> B -> Prop) o1 o2 :
  (forall a b, P a b -> Q a b) -> out_rel P o1 o2 -> out_rel Q o1 o2.
Proof. destruct o1, o2; cbn; auto. Qed.

Lemma out_rel_refl {A : Type} (Q : A -> A -> Prop) o : (forall a, Q a a) -> out_rel Q o o.
Proof. destruct o; cbn; auto. Qed.

(** ** Tactics *)

(** Split every [andb]-style hypothesis and turn boolean comparisons into
    propositions, then try linear arithmetic. *)
Ltac zbool :=
  repeat match goal with
  | H : andb _ _ = true |- _ => apply andb_true_iff in H; destruct H
  | H : orb _ _ = false |- _ => apply orb_false_iff in H; destruct H
  | H : negb _ = true |- _ => apply negb_true_iff in H
  | H : negb _ = false |- _ => apply negb_false_iff in H
  | H : (_ <? _)%Z = true |- _ => apply Z.ltb_lt in H
  | H : (_ <? _)%Z = false |- _ => apply Z.ltb_ge in H
  | H : (_ <=? _)%Z = true |- _ => apply Z.leb_le in H
  | H : (_ <=? _)%Z = false |- _ => apply Z.leb_gt in H
  | H : (_ =? _)%Z = true |- _ => apply Z.eqb_eq in H
  | H : (_ =? _)%Z = false |- _ => apply Z.eqb_neq in H
  end.

(** Case analysis on the next [match]/[if] of the goal, recording equations. *)
Ltac step_case :=
  match goal with
  | |- context [if ?b then _ else _] => destruct b eqn:?
  | |- context [match ?x with _ => _ end] => destruct x eqn:?
  end.

(** The record [e] with the field [old] replaced by [new]: the body of a field
    update, from the record's eta expansion. *)
Ltac record_set e old new :=
  let e := eval hnf in e in
  let f := eval pattern old in e in
  match f with ?g _ => let r := eval cbv beta in (g new) in exact r end.

(** The character codes of a string literal: a [std::string] is modelled as the
    list of its characters' codes. *)
Fixpoint codes (s : string) : list Z :=
  match s with
  | EmptyString => []
  | String a s => Z.of_N (Ascii.N_of_ascii a) :: codes s
  end.

(** [std::string]'s order: lexicographic on character codes. *)
Fixpoint str_ltb (a b : list Z) : bool :=
  match a, b with
  | _, [] => false
  | [], _ :: _ => true
  | x :: a, y :: b => if (x =? y)%Z then str_ltb a b else (x <? y)%Z
  end.

Lemma str_ltb_irrefl a : str_ltb a a = false.
Proof. induction a as [|x a IH]; [done|]. cbn. by rewrite Z.eqb_refl. Qed.

Lemma str_ltb_trans a b c : str_ltb a b = true -> str_ltb b c = true -> str_ltb a c = true.
Proof.
  revert b c. induction a as [|x a IH]; intros [|y b] [|z c]; cbn; try done.
  destruct (Z.eqb_spec x y), (Z.eqb_spec y z), (Z.eqb_spec x z); subst; try lia; eauto.
Qed.

Lemma str_ltb_total a b : str_ltb a b = false -> str_ltb b a = false -> a = b.
Proof.
  revert b. induction a as [|x a IH]; intros [|y b]; cbn; try done.
  destruct (Z.eqb_spec x y), (Z.eqb_spec y x); subst; try lia.
  intros H1 H2. f_equal. by apply IH.
Qed.

(** A weaker filter keeps at least as many. *)
Lemma length_filter_impl {A} (P Q : A -> Prop) `{!forall x, Decision (P x)} `{!forall x, Decision (Q x)} (l : list A) :
  (forall x, P x -> Q x) -> (length (filter P l) <= length (filter Q l))%nat.
Proof.
  intros Hi. induction l as [|a l IH]; [done|]. rewrite !filter_cons.
  destruct (decide (P a)), (decide (Q a)); cbn [length]; try lia. exfalso. auto.
Qed.

(** Replacing one element of a list under [≫=], up to order. *)
Lemma bind_insert {A B} (f : A -> list B) (l : list A) i a b :
  l !! i = Some a -> (<[i := b]> l ≫= f) ++ f a ≡ₚ (l ≫= f) ++ f b.
Proof.
  revert i. induction l as [|x l IH]; intros [|i] E; try done.
  - injection E as ->. cbn. rewrite <- !app_assoc.
    rewrite (Permutation_app_comm (_ ≫= f) (f a)), (Permutation_app_comm (_ ≫= f) (f b)).
    rewrite !(assoc_L (++)). apply Permutation_app_tail, Permutation_app_comm.
  - cbn. rewrite <- !app_assoc. apply Permutation_app_head. by apply IH.
Qed.

Create HintDb mith.
Create Rewrite HintDb mith_len.

(** ** Lists as byte buffers

    [slice p n l] is the [n] elements of [l] from offset [p]; [write_at l p bs]
    is [memcpy(l + p, bs, len)].  Both are total; the code only uses them inside
    the buffer, which the lemmas ask for. *)

Definition slice {A : Type} (p n : nat) (l : list A) : list A := take n (drop p l).

Definition write_at {A : Type} (l : list A) (p : nat) (bs : list A) : list A :=
  take p l ++ bs ++ drop (p + length bs) l.

Section Buffers.
Context {A : Type}.
Implicit Types l a b : list A.

Lemma length_slice p n l : p + n <= length l -> length (slice p n l) = n.
Proof. intros H. unfold slice. rewrite length_take, length_drop. lia. Qed.

Lemma length_write_at l p b :
  p + length b <= length l -> length (write_at l p b) = length l.
Proof.
  intros H. unfold write_at.
  rewrite !length_app, length_take, length_drop. lia.
Qed.

(** Writing [b] right behind [a] is writing [a ++ b]. *)
Lemma write_at_app l p q a b :
  q = p + length a -> p + length a + length b <= length l ->
  write_at (write_at l p a) q b = write_at l p (a ++ b).
Proof.
  intros -> H. unfold write_at.
  rewrite (take_app_ge _ (a ++ _)) by (rewrite length_take; lia).
  rewrite length_take, Nat.min_l by lia.
  replace (p + length a - p) with (length a) by lia.
  rewrite take_app_length.
  rewrite (drop_app_ge _ (a ++ _)) by (rewrite length_take; lia).
  rewrite length_take, Nat.min_l by lia.
  rewrite (drop_app_ge a) by lia.
  rewrite drop_drop, length_app, <- !app_assoc.
  do 3 f_equal. f_equal. lia.
Qed.

Lemma write_at_insert l p x :
  p < length l -> <[p := x]> l = write_at l p [x].
Proof.
  intros H. unfold write_at. cbn [length].
  rewrite insert_take_drop by lia. cbn. do 3 f_equal. lia.
Qed.

Lemma take_write_at_0 l b :
  length b <= length l -> take (length b) (write_at l 0 b) = b.
Proof. intros H. change (take (length b) (b ++ drop (length b) l) = b). apply take_app_length. Qed.

Lemma write_at_0 l b : write_at l 0 b = b ++ drop (length b) l.
Proof. done. Qed.

Lemma slice_0_app n a b : n = length a -> slice 0 n (a ++ b) = a.
Proof. intros ->. unfold slice. cbn. apply take_app_length. Qed.

Lemma slice_skip p n a b :
  length a <= p -> slice p n (a ++ b) = slice (p - length a) n b.
Proof. intros H. unfold slice. by rewrite drop_app_ge. Qed.

Lemma slice_all n l : n = length l -> slice 0 n l = l.
Proof. intros ->. unfold slice. cbn. apply take_ge. lia. Qed.

Lemma slice_cons_S p n x l : slice (S p) n (x :: l) = slice p n l.
Proof. done. Qed.

(** A slice that stays inside the part written is the slice of what was
    written. *)
Lemma slice_write_at_0 p n l b :
  p + n <= length b -> slice p n (write_at l 0 b) = slice p n b.
Proof.
  intros H. rewrite write_at_0. unfold slice.
  rewrite drop_app_le by lia. apply take_app_le. rewrite length_drop. lia.
Qed.

Lemma lookup_write_at_0 l b i :
  i < length b -> write_at l 0 b !! i = b !! i.
Proof. intros H. rewrite write_at_0. by apply lookup_app_l. Qed.

(** Writing inside a block just written is writing the updated block. *)
Lemma write_at_nested l p k (f b : list A) :
  k + length b <= length f -> p + length f <= length l ->
  write_at (write_at l p f) (p + k) b = write_at l p (write_at f k b).
Proof.
  intros Hk Hp. unfold write_at.
  rewrite (take_app_ge _ (f ++ _)) by (rewrite length_take; lia).
  rewrite length_take, Nat.min_l by lia. replace (p + k - p) with k by lia.
  rewrite take_app_le by lia.
  rewrite (drop_app_ge _ (f ++ _)) by (rewrite length_take; lia).
  rewrite length_take, Nat.min_l by lia.
  replace (p + k + length b - p) with (k + length b) by lia.
  rewrite drop_app_le by lia. rewrite <- !app_assoc. do 4 f_equal.
  rewrite !length_app, length_take, length_drop. f_equal. lia.
Qed.

(** Writing past a prefix into a block of zeros, [g] places on. *)
Lemma write_at_fill (pre b : list A) g n z q :
  q = length pre + g -> g + length b <= n ->
  write_at (pre ++ replicate n z) q b =
  (pre ++ replicate g z ++ b) ++ replicate (n - (g + length b)) z.
Proof.
  intros -> H. unfold write_at.
  rewrite take_app_ge by lia. replace (length pre + g - length pre) with g by lia.
  rewrite take_replicate, Nat.min_l by lia.
  rewrite drop_app_ge by lia. rewrite drop_replicate, <- !app_assoc.
  by replace (n - (length pre + g + length b - length pre)) with (n - (g + length b)) by lia.
Qed.

(** Blocks written beside a slice leave it alone. *)
Lemma slice_write_at_other q n p (b l : list A) :
  p + length b <= length l -> (q + n <= p \/ p + length b <= q) ->
  slice q n (write_at l p b) = slice q n l.
Proof.
  intros Hp Hq. unfold slice, write_at. destruct Hq as [Hq|Hq].
  - rewrite drop_app_le by (rewrite length_take; lia).
    rewrite take_app_le by (rewrite length_drop, length_take; lia).
    rewrite skipn_firstn_comm, take_take. f_equal. lia.
  - rewrite drop_app_ge by (rewrite length_take; lia).
    rewrite drop_app_ge by (rewrite length_take; lia).
    rewrite drop_drop, length_take, Nat.min_l by lia. do 2 f_equal. lia.
Qed.

Lemma slice_write_at_same p (b l : list A) :
  p + length b <= length l -> slice p (length b) (write_at l p b) = b.
Proof.
  intros Hp. unfold slice, write_at.
  rewrite drop_app_ge by (rewrite length_take; lia).
  rewrite length_take, Nat.min_l, Nat.sub_diag by lia. apply take_app_length.
Qed.

Lemma slice_app_split p m n l :
  slice p (m + n) l = slice p m l ++ slice (p + m) n l.
Proof.
  unfold slice. rewrite <- (take_drop m (take (m + n) (drop p l))).
  rewrite take_take, Nat.min_l by lia. f_equal.
  rewrite skipn_firstn_comm, drop_drop. f_equal. lia.
Qed.
End Buffers.

#[export] Hint Rewrite @length_app @length_take @length_drop @length_insert
  @length_replicate @length_fmap @length_seq @length_rev : mith_len.

(** Solve goals about lengths of concatenations. *)
Ltac len :=
  repeat (progress (autorewrite with mith_len; cbn [length])); try lia.

(** The same below writes to a buffer. *)
Ltac blen :=
  len;
  lazymatch goal with
  | |- context [length (write_at ?l ?p ?b)] =>
      rewrite (length_write_at l p b) by blen; blen
  | _ => idtac
  end.

(** Slices of a concatenation of fields of known lengths, left to right. *)
Ltac slice_field :=
  first [ rewrite slice_0_app by (len; congruence)
        | rewrite slice_skip by len ].
