(* ===== verification/MachineInt.v ===== *)
(** Machine integers and little-endian byte packing.

    An unsigned integer of the C++ code is a [Z] together with the range of its
    type; a conversion to a narrower type is the reduction modulo its size.  The
    packing helpers that [udp_wire.cpp], [builtin_action_handlers.cpp],
    [binary_trace_sink.cpp], [chacha20.cpp] and [identity_rotation.cpp] each
    define locally are translated here once; the lemmas say that each of them is
    the little-endian encoding [le_bytes], and that decoding inverts it. *)

From S2P Require Import Prelude.
Local Open Scope Z_scope.

Module MI.

(** ** Widths *)

Definition u8  (z : Z) : Z := z mod 2 ^ 8.
Definition u16 (z : Z) : Z := z mod 2 ^ 16.
Definition u32 (z : Z) : Z := z mod 2 ^ 32.
Definition u64 (z : Z) : Z := z mod 2 ^ 64.

Definition in_width (w z : Z) : Prop := 0 <= z < 2 ^ w.
Definition is_u8  (z : Z) : Prop := 0 <= z < 2 ^ 8.
Definition is_u16 (z : Z) : Prop := 0 <= z < 2 ^ 16.
Definition is_u32 (z : Z) : Prop := 0 <= z < 2 ^ 32.
Definition is_u64 (z : Z) : Prop := 0 <= z < 2 ^ 64.

(** A buffer of [std::uint8_t]. *)
Definition is_bytes (l : list Z) : Prop := Forall is_u8 l.

(** Decision procedures for the ranges, so that closed instances compute. *)
Definition u8b (z : Z) : bool := (0 <=? z) && (z <? 256).
Definition bytesb (l : list Z) : bool := forallb u8b l.

Lemma u8_range z : is_u8 (u8 z).
Proof. unfold is_u8, u8. apply Z.mod_pos_bound. lia. Qed.
Lemma u16_range z : is_u16 (u16 z).
Proof. unfold is_u16, u16. apply Z.mod_pos_bound. lia. Qed.
Lemma u32_range z : is_u32 (u32 z).
Proof. unfold is_u32, u32. apply Z.mod_pos_bound. lia. Qed.
Lemma u64_range z : is_u64 (u64 z).
Proof. unfold is_u64, u64. apply Z.mod_pos_bound. lia. Qed.

Lemma u8_id z : is_u8 z -> u8 z = z.
Proof. intros H. by apply Z.mod_small. Qed.
Lemma u32_id z : is_u32 z -> u32 z = z.
Proof. intros H. by apply Z.mod_small. Qed.
Lemma u64_id z : is_u64 z -> u64 z = z.
Proof. intros H. by apply Z.mod_small. Qed.

Lemma u8b_spec z : u8b z = true <-> is_u8 z.
Proof. unfold u8b, is_u8. rewrite andb_true_iff, Z.leb_le, Z.ltb_lt. lia. Qed.

Lemma bytesb_spec l : bytesb l = true <-> is_bytes l.
Proof.
  unfold bytesb, is_bytes. rewrite forallb_forall, Forall_forall.
  split; intros H x Hx; apply u8b_spec, H; by apply list_elem_of_In.
Qed.

Lemma is_bytes_app a b : is_bytes (a ++ b) <-> is_bytes a /\ is_bytes b.
Proof. apply Forall_app. Qed.

Lemma is_bytes_take n l : is_bytes l -> is_bytes (take n l).
Proof. apply Forall_take. Qed.

Lemma is_bytes_drop n l : is_bytes l -> is_bytes (drop n l).
Proof. apply Forall_drop. Qed.

Lemma is_bytes_slice p n l : is_bytes l -> is_bytes (slice p n l).
Proof. intros H. by apply is_bytes_take, is_bytes_drop. Qed.

Lemma is_bytes_write_at l p b :
  is_bytes l -> is_bytes b -> is_bytes (write_at l p b).
Proof.
  intros Hl Hb. unfold write_at. rewrite !is_bytes_app.
  auto using is_bytes_take, is_bytes_drop.
Qed.

Lemma is_bytes_replicate_u8 n b : is_u8 b -> is_bytes (replicate n b).
Proof. intros H. induction n; constructor; done. Qed.

Lemma is_bytes_replicate_0 n : is_bytes (replicate n 0).
Proof. apply Forall_replicate. unfold is_u8. lia. Qed.

#[global] Hint Resolve u8_range u16_range u32_range u64_range is_bytes_take
  is_bytes_drop is_bytes_slice is_bytes_write_at is_bytes_replicate_0 : mith.

(** ** Little-endian encoding *)

Fixpoint le_bytes (n : nat) (v : Z) : list Z :=
  match n with
  | O => []
  | S n => Z.land v 255 :: le_bytes n (Z.shiftr v 8)
  end.

Fixpoint le_value (l : list Z) : Z :=
  match l with
  | [] => 0
  | b :: l => Z.lor b (Z.shiftl (le_value l) 8)
  end.

Lemma length_le_bytes n v : length (le_bytes n v) = n.
Proof. revert v. induction n; cbn; auto. Qed.

Lemma land_255_u8 v : Z.land v 255 = u8 v.
Proof. change 255 with (Z.ones 8). rewrite Z.land_ones by lia. done. Qed.

Lemma le_bytes_is_bytes n v : is_bytes (le_bytes n v).
Proof.
  revert v. induction n; intros v; cbn; constructor.
  - rewrite land_255_u8. apply u8_range.
  - apply IHn.
Qed.

(** A byte below a shifted value is addition: the bits do not overlap. *)
Lemma lor_shiftl_add b x k :
  0 <= k -> 0 <= b < 2 ^ k -> Z.lor b (Z.shiftl x k) = b + x * 2 ^ k.
Proof.
  intros Hk Hb. rewrite Z.shiftl_mul_pow2 by lia.
  assert (Z.land b (x * 2 ^ k) = 0) as Hand.
  { apply Z.bits_inj'. intros n Hn. rewrite Z.land_spec, Z.bits_0.
    destruct (Z.lt_ge_cases n k).
    - rewrite Z.mul_pow2_bits_low by lia. apply andb_false_r.
    - rewrite <- (Z.mod_small b (2 ^ k)) by lia.
      by rewrite Z.mod_pow2_bits_high by lia. }
  by rewrite Z.add_nocarry_lxor, Z.lxor_lor.
Qed.

Lemma le_value_cons b l :
  is_u8 b -> le_value (b :: l) = b + le_value l * 256.
Proof. intros Hb. cbn [le_value]. by rewrite lor_shiftl_add by (auto; lia). Qed.

Lemma le_value_bytes n v :
  le_value (le_bytes n v) = v mod 2 ^ (8 * Z.of_nat n).
Proof.
  revert v. induction n as [|n IH]; intros v.
  - cbn. by rewrite Z.mod_1_r.
  - cbn [le_bytes]. rewrite le_value_cons by (rewrite land_255_u8; apply u8_range).
    rewrite IH, land_255_u8, Z.shiftr_div_pow2 by lia. unfold u8.
    replace (8 * Z.of_nat (S n)) with (8 + 8 * Z.of_nat n) by lia.
    rewrite Z.pow_add_r by lia.
    rewrite Z.rem_mul_r by (try apply Z.pow_nonzero; lia).
    change (2 ^ 8) with 256. lia.
Qed.

Lemma le_value_bytes_id n v :
  0 <= v < 2 ^ (8 * Z.of_nat n) -> le_value (le_bytes n v) = v.
Proof. intros H. rewrite le_value_bytes. by apply Z.mod_small. Qed.

Lemma le_value_range l : is_bytes l -> 0 <= le_value l < 2 ^ (8 * Z.of_nat (length l)).
Proof.
  induction 1 as [|b l Hb Hl IH]; [cbn; lia|].
  rewrite le_value_cons by done. cbn [length].
  replace (8 * Z.of_nat (S (length l))) with (8 + 8 * Z.of_nat (length l)) by lia.
  rewrite Z.pow_add_r by lia. unfold is_u8 in Hb. change (2 ^ 8) with 256 in *. nia.
Qed.

Lemma le_bytes_value l : is_bytes l -> le_bytes (length l) (le_value l) = l.
Proof.
  induction 1 as [|b l Hb Hl IH]; [done|].
  cbn [length le_bytes]. rewrite land_255_u8, le_value_cons by done.
  unfold is_u8 in Hb. f_equal.
  - unfold u8. change (2 ^ 8) with 256 in *. rewrite Z.mod_add by lia. by apply Z.mod_small.
  - etransitivity; [|exact IH]. f_equal. rewrite Z.shiftr_div_pow2 by lia.
    change (2 ^ 8) with 256 in *. rewrite Z.div_add by lia. rewrite Z.div_small by lia. lia.
Qed.

#[global] Hint Rewrite length_le_bytes : mith_len.
#[global] Hint Resolve le_bytes_is_bytes : mith.

(** ** The packing helpers of the sources *)

(* @src src/comms/udp_wire.cpp:11-14 put_u16 *)
Definition put_u16 (buf : list Z) (p : nat) (v : Z) : list Z :=
  <[(p + 1)%nat := Z.land (Z.shiftr v 8) 255]>
    (<[p := Z.land v 255]> buf).

(* @src src/comms/udp_wire.cpp:15-20 put_u32 *)
Definition put_u32 (buf : list Z) (p : nat) (v : Z) : list Z :=
  <[(p + 3)%nat := Z.land (Z.shiftr v 24) 255]>
    (<[(p + 2)%nat := Z.land (Z.shiftr v 16) 255]>
      (<[(p + 1)%nat := Z.land (Z.shiftr v 8) 255]>
        (<[p := Z.land v 255]> buf))).

(* @src src/core/binary_trace_sink.cpp:22-26 put_u64_le *)
Definition put_u64 (buf : list Z) (p : nat) (v : Z) : list Z :=
  fold_left (fun b i => <[(p + i)%nat := Z.land (Z.shiftr v (Z.of_nat i * 8)) 255]> b)
    (seq 0 8) buf.

(** [p\[i\]] for an offset inside the buffer. *)
Definition at_ (buf : list Z) (i : nat) : Z := nth i buf 0.

(* @src src/comms/udp_wire.cpp:26-29 get_u16 *)
Definition get_u16 (buf : list Z) (p : nat) : Z :=
  Z.lor (at_ buf p) (Z.shiftl (at_ buf (p + 1)) 8).

(* @src src/comms/udp_wire.cpp:30-35 get_u32 *)
Definition get_u32 (buf : list Z) (p : nat) : Z :=
  Z.lor (Z.lor (Z.lor (at_ buf p) (Z.shiftl (at_ buf (p + 1)) 8))
               (Z.shiftl (at_ buf (p + 2)) 16))
        (Z.shiftl (at_ buf (p + 3)) 24).

Lemma length_put_u16 buf p v : length (put_u16 buf p v) = length buf.
Proof. unfold put_u16. by rewrite !length_insert. Qed.

Lemma length_put_u32 buf p v : length (put_u32 buf p v) = length buf.
Proof. unfold put_u32. by rewrite !length_insert. Qed.

Ltac collapse_writes :=
  repeat (rewrite write_at_insert by (repeat rewrite ?length_insert, ?length_write_at; cbn [length]; lia));
  repeat (rewrite write_at_app by (repeat rewrite ?length_insert, ?length_write_at; cbn [length app]; lia)).

Lemma put_u16_spec buf p v :
  (p + 2 <= length buf)%nat -> put_u16 buf p v = write_at buf p (le_bytes 2 v).
Proof. intros H. unfold put_u16. by collapse_writes. Qed.

Lemma put_u32_spec buf p v :
  (p + 4 <= length buf)%nat -> put_u32 buf p v = write_at buf p (le_bytes 4 v).
Proof.
  intros H. unfold put_u32. by collapse_writes.
Qed.

Lemma put_u64_spec buf p v :
  (p + 8 <= length buf)%nat -> put_u64 buf p v = write_at buf p (le_bytes 8 v).
Proof.
  intros H. unfold put_u64. cbn [seq fold_left Z.of_nat].
  replace (p + 0)%nat with p by lia. by collapse_writes.
Qed.

Lemma at_slice buf p n i :
  (i < n)%nat -> at_ buf (p + i) = at_ (slice p n buf) i.
Proof.
  intros H. unfold at_, slice. rewrite !nth_lookup. rewrite lookup_take_lt by done. by rewrite lookup_drop.
Qed.

Lemma get_u16_spec buf p :
  (p + 2 <= length buf)%nat -> get_u16 buf p = le_value (slice p 2 buf).
Proof.
  intros H. unfold get_u16.
  rewrite <- (Nat.add_0_r p) at 1. rewrite !(at_slice _ _ 2) by lia.
  pose proof (length_slice p 2 buf H) as HL.
  destruct (slice p 2 buf) as [|b0 [|b1 [|]]]; try discriminate HL.
  cbn. by rewrite Z.lor_0_r.
Qed.

Lemma get_u32_spec buf p :
  (p + 4 <= length buf)%nat -> get_u32 buf p = le_value (slice p 4 buf).
Proof.
  intros H. unfold get_u32.
  rewrite <- (Nat.add_0_r p) at 1. rewrite !(at_slice _ _ 4) by lia.
  pose proof (length_slice p 4 buf H) as HL.
  destruct (slice p 4 buf) as [|b0 [|b1 [|b2 [|b3 [|]]]]]; try discriminate HL.
  unfold at_. cbn [nth le_value]. rewrite Z.shiftl_0_l, Z.lor_0_r.
  rewrite !Z.shiftl_lor, !Z.shiftl_shiftl by lia. cbn [Z.add Pos.add].
  rewrite !Z.lor_assoc. done.
Qed.

(** Reading back what was encoded. *)
Lemma get_u16_field buf p v :
  (p + 2 <= length buf)%nat -> is_u16 v -> slice p 2 buf = le_bytes 2 v -> get_u16 buf p = v.
Proof. intros H Hv E. rewrite get_u16_spec, E by done. by apply le_value_bytes_id. Qed.

Lemma get_u32_field buf p v :
  (p + 4 <= length buf)%nat -> is_u32 v -> slice p 4 buf = le_bytes 4 v -> get_u32 buf p = v.
Proof. intros H Hv E. rewrite get_u32_spec, E by done. by apply le_value_bytes_id. Qed.

Lemma get_u16_range buf p :
  is_bytes buf -> (p + 2 <= length buf)%nat -> is_u16 (get_u16 buf p).
Proof.
  intros Hb H. rewrite get_u16_spec by done.
  pose proof (le_value_range (slice p 2 buf)) as R. rewrite length_slice in R by done.
  apply R. auto with mith.
Qed.

Lemma get_u32_range buf p :
  is_bytes buf -> (p + 4 <= length buf)%nat -> is_u32 (get_u32 buf p).
Proof.
  intros Hb H. rewrite get_u32_spec by done.
  pose proof (le_value_range (slice p 4 buf)) as R. rewrite length_slice in R by done.
  apply R. auto with mith.
Qed.

End MI.
