(* ===== verification/BoundedQueue.v ===== *)
(** [BoundedQueue<T, N, Policy>] ([include/mith/core/bounded_queue.h]).

    The ring buffer with its three overflow policies, and the proof that it
    implements a bounded first-in first-out queue: [contents] reads the window
    [head_ .. head_ + size_) of the ring, and every operation commutes with the
    list operation of [BQSpec]. *)

From S2P Require Import Prelude MachineInt.

Module BQ.

(* @src include/mith/core/bounded_queue.h:46-50 OverflowPolicy *)
Inductive OverflowPolicy := DropOldest | DropNewest | FaultTrigger.

#[global] Instance OverflowPolicy_eq_dec : EqDecision OverflowPolicy.
Proof. solve_decision. Defined.

(* @src include/mith/core/bounded_queue.h:117-122 BoundedQueue (state) *)
Record t (T : Type) : Type := mk {
  buffer_ : list T;
  head_ : nat;
  tail_ : nat;
  size_ : nat;
  dropped_count_ : Z;
  overflow_events_ : Z;
}.
Arguments mk {T}.
Arguments buffer_ {T}.
Arguments head_ {T}.
Arguments tail_ {T}.
Arguments size_ {T}.
Arguments dropped_count_ {T}.
Arguments overflow_events_ {T}.

Section Queue.
Context {T : Type} (dflt : T) (N : nat) (Policy : OverflowPolicy).

(** The default-constructed queue: value-initialised slots, zero counters. *)
(* @src include/mith/core/bounded_queue.h:69-69 BoundedQueue::BoundedQueue *)
Definition empty_queue : t T := mk (replicate N dflt) 0 0 0 0%Z 0%Z.

(* @src include/mith/core/bounded_queue.h:113-115 BoundedQueue::next_index *)
Definition next_index (i : nat) : nat := (i + 1) mod N.

(** [T] is trivially copyable for every instance in the runtime, so moving out
    of or into a slot is a copy. *)
(* @src include/mith/core/bounded_queue.h:71-92 BoundedQueue::push *)
Definition push (item : T) (q : t T) : t T * bool :=
  if q.(size_) =? N then
    let ov := MI.u32 (q.(overflow_events_) + 1) in
    let dr := MI.u32 (q.(dropped_count_) + 1) in
    match Policy with
    | DropOldest =>
        (mk (<[q.(tail_) := item]> q.(buffer_))
            (next_index q.(head_)) (next_index q.(tail_)) q.(size_) dr ov, true)
    | _ => (mk q.(buffer_) q.(head_) q.(tail_) q.(size_) dr ov, false)
    end
  else
    (mk (<[q.(tail_) := item]> q.(buffer_))
        q.(head_) (next_index q.(tail_)) (q.(size_) + 1)
        q.(dropped_count_) q.(overflow_events_), true).

(* @src include/mith/core/bounded_queue.h:94-101 BoundedQueue::pop *)
Definition pop (q : t T) : t T * option T :=
  if q.(size_) =? 0 then (q, None)
  else
    (mk q.(buffer_) (next_index q.(head_)) q.(tail_) (q.(size_) - 1)
        q.(dropped_count_) q.(overflow_events_),
     Some (nth q.(head_) q.(buffer_) dflt)).

(* @src include/mith/core/bounded_queue.h:103-103 BoundedQueue::size *)
Definition size (q : t T) : nat := q.(size_).
(* @src include/mith/core/bounded_queue.h:104-104 BoundedQueue::capacity *)
Definition capacity (q : t T) : nat := N.
(* @src include/mith/core/bounded_queue.h:105-105 BoundedQueue::empty *)
Definition empty (q : t T) : bool := q.(size_) =? 0.
(* @src include/mith/core/bounded_queue.h:106-106 BoundedQueue::full *)
Definition full (q : t T) : bool := q.(size_) =? N.
(* @src include/mith/core/bounded_queue.h:108-109 BoundedQueue::dropped_count *)
Definition dropped_count (q : t T) : Z := q.(dropped_count_).
(* @src include/mith/core/bounded_queue.h:110-110 BoundedQueue::overflow_events *)
Definition overflow_events (q : t T) : Z := q.(overflow_events_).

(** ** Abstraction and invariant *)

Definition slot (q : t T) (i : nat) : T :=
  nth ((q.(head_) + i) mod N) q.(buffer_) dflt.

Definition contents (q : t T) : list T := map (slot q) (seq 0 q.(size_)).

Record wf (q : t T) : Prop := {
  wf_buffer : length q.(buffer_) = N;
  wf_head : q.(head_) < N;
  wf_size : q.(size_) <= N;
  wf_tail : q.(tail_) = (q.(head_) + q.(size_)) mod N;
  wf_counters : q.(dropped_count_) = q.(overflow_events_);
  wf_u32 : MI.is_u32 q.(dropped_count_);
}.

(** ** The abstract queue *)

Record spec := mk_spec { items : list T; lost : Z }.

Definition spec_push (item : T) (s : spec) : spec * bool :=
  if length s.(items) =? N then
    match Policy with
    | DropOldest =>
        (mk_spec (tail s.(items) ++ [item]) (MI.u32 (s.(lost) + 1)), true)
    | _ => (mk_spec s.(items) (MI.u32 (s.(lost) + 1)), false)
    end
  else (mk_spec (s.(items) ++ [item]) s.(lost), true).

Definition spec_pop (s : spec) : spec * option T :=
  match s.(items) with
  | [] => (s, None)
  | x :: l => (mk_spec l s.(lost), Some x)
  end.

Definition abs (q : t T) : spec := mk_spec (contents q) q.(dropped_count_).

(** A run of the queue: any sequence of calls, with the answers given. *)
Inductive op := Push (item : T) | Pop.
Inductive answer := Pushed (accepted : bool) | Popped (item : option T).

Definition exec (q : t T) (o : op) : t T * answer :=
  match o with
  | Push x => let '(q', b) := push x q in (q', Pushed b)
  | Pop => let '(q', r) := pop q in (q', Popped r)
  end.

Definition spec_exec (s : spec) (o : op) : spec * answer :=
  match o with
  | Push x => let '(s', b) := spec_push x s in (s', Pushed b)
  | Pop => let '(s', r) := spec_pop s in (s', Popped r)
  end.

Fixpoint run {S A : Type} (step : S -> op -> S * A) (s : S) (os : list op) : S * list A :=
  match os with
  | [] => (s, [])
  | o :: os =>
      let '(s1, a) := step s o in
      let '(s2, l) := run step s1 os in (s2, a :: l)
  end.
End Queue.

(** ** Proofs *)

Section QueueProofs.
Context {T : Type} (dflt : T) (N : nat) (Policy : OverflowPolicy).
Hypothesis N_pos : 0 < N.

Abbreviation contents := (contents dflt N).
Abbreviation slot := (slot dflt N).
Abbreviation push := (push N Policy).
Abbreviation pop := (pop dflt N).
Abbreviation wf := (BQ.wf (T := T) N).

Lemma length_contents q : length (contents q) = q.(size_).
Proof. unfold contents. by rewrite length_map, length_seq. Qed.

Lemma mod_shift a i : (a mod N + i) mod N = (a + i) mod N.
Proof. apply Nat.Div0.add_mod_idemp_l. Qed.

(** Distinct offsets below [N] name distinct slots. *)
Lemma ring_ne h i j : i < N -> j < N -> i <> j -> (h + i) mod N <> (h + j) mod N.
Proof.
  intros Hi Hj Hne E.
  pose proof (Nat.div_mod_eq (h + i) N). pose proof (Nat.div_mod_eq (h + j) N).
  assert ((h + i) / N = (h + j) / N) by nia. nia.
Qed.

Lemma empty_wf : wf (empty_queue dflt N).
Proof.
  constructor; cbn; rewrite ?length_replicate; try lia.
  - by rewrite Nat.Div0.mod_0_l.
  - unfold MI.is_u32. lia.
Qed.

Lemma nth_insert_eq (l : list T) i x : i < length l -> nth i (<[i := x]> l) dflt = x.
Proof. intros H. by rewrite nth_lookup, list_lookup_insert_eq. Qed.

Lemma nth_insert_ne (l : list T) i j x : i <> j -> nth j (<[i := x]> l) dflt = nth j l dflt.
Proof. intros H. by rewrite !nth_lookup, list_lookup_insert_ne. Qed.

(** Writing slot [tail_] of a queue that is not full appends. *)
Lemma contents_append q item d o :
  wf q -> q.(size_) < N ->
  contents (mk (<[q.(tail_) := item]> q.(buffer_)) q.(head_)
               (next_index N q.(tail_)) (q.(size_) + 1) d o)
  = contents q ++ [item].
Proof.
  intros [Hb Hh Hs Ht _ _] Hlt. unfold contents, BQ.contents. cbn [size_ head_].
  rewrite Nat.add_1_r, seq_S, map_app. cbn [map Nat.add]. f_equal.
  - apply map_ext_in. intros i [_ Hi]%in_seq. unfold BQ.slot. cbn.
    apply nth_insert_ne. rewrite Ht. apply ring_ne; lia.
  - f_equal. unfold BQ.slot. cbn. rewrite <- Ht. apply nth_insert_eq.
    rewrite Hb, Ht. apply Nat.mod_upper_bound. lia.
Qed.

(** Overwriting the oldest slot of a full queue drops it and appends. *)
Lemma contents_overwrite q item d o :
  wf q -> q.(size_) = N ->
  contents (mk (<[q.(tail_) := item]> q.(buffer_)) (next_index N q.(head_))
               (next_index N q.(tail_)) q.(size_) d o)
  = tail (contents q) ++ [item].
Proof.
  intros [Hb Hh Hs Ht _ _] Hfull. unfold contents, BQ.contents. cbn [size_ head_].
  assert (q.(tail_) = q.(head_)) as Hth.
  { rewrite Ht, Hfull, <- Nat.Div0.add_mod_idemp_r, Nat.Div0.mod_same, Nat.add_0_r.
    by apply Nat.mod_small. }
  rewrite Hfull. assert (exists n, N = S n) as [n EN] by (exists (N - 1); lia).
  replace (seq 0 N) with (seq 0 n ++ [n]) at 1 by (by rewrite EN, seq_S).
  replace (seq 0 N) with (0 :: seq 1 n) by (by rewrite EN).
  rewrite map_app. cbn [map tail]. f_equal.
  - rewrite <- seq_shift, map_map. apply map_ext_in. intros i [_ Hi]%in_seq.
    unfold BQ.slot. cbn. unfold next_index. rewrite mod_shift.
    replace (head_ q + 1 + i) with (head_ q + S i) by lia.
    apply nth_insert_ne. rewrite Hth, <- (Nat.mod_small (head_ q) N) at 1 by lia.
    rewrite <- (Nat.add_0_r (head_ q)) at 1. apply ring_ne; lia.
  - f_equal. unfold BQ.slot. cbn. unfold next_index. rewrite mod_shift.
    replace (head_ q + 1 + n) with (head_ q + 1 * N) by lia.
    rewrite Nat.Div0.mod_add, Nat.mod_small, Hth by lia.
    apply nth_insert_eq. lia.
Qed.

(** Advancing [head_] of a non-empty queue removes its first item. *)
Lemma contents_pop q d o :
  wf q -> q.(size_) <> 0 ->
  contents q = slot q 0 ::
    contents (mk q.(buffer_) (next_index N q.(head_)) q.(tail_) (q.(size_) - 1) d o).
Proof.
  intros [Hb Hh Hs Ht _ _] Hne. unfold contents, BQ.contents. cbn [size_ head_].
  destruct (size_ q) as [|n]; [done|]. cbn [seq map]. f_equal.
  replace (S n - 1) with n by lia. rewrite <- seq_shift, map_map.
  apply map_ext. intros i. unfold BQ.slot. cbn. unfold next_index.
  rewrite mod_shift. do 2 f_equal. lia.
Qed.

Lemma push_wf q item : wf q -> wf (push item q).1.
Proof.
  intros W. destruct W as [Hb Hh Hs Ht Hc Hu].
  assert (forall i, next_index N i < N) as Hn
    by (intros i; apply Nat.mod_upper_bound; lia).
  assert (next_index N (tail_ q) = (head_ q + size_ q + 1) mod N) as Hnt
    by (unfold next_index; by rewrite Ht, mod_shift).
  unfold push, BQ.push.
  destruct (Nat.eqb_spec (size_ q) N) as [E|E]; [destruct Policy|];
    constructor; cbn; rewrite ?length_insert; auto with mith; try lia; try congruence.
  - rewrite Hnt. unfold next_index. rewrite mod_shift. f_equal. lia.
  - rewrite Hnt. f_equal. lia.
Qed.

Lemma pop_wf q : wf q -> wf (pop q).1.
Proof.
  intros W. pose proof W as [Hb Hh Hs Ht Hc Hu]. unfold pop, BQ.pop.
  destruct (Nat.eqb_spec (size_ q) 0) as [E|E]; [done|].
  constructor; cbn; auto; try lia; unfold next_index.
  - apply Nat.mod_upper_bound. lia.
  - rewrite Ht, Nat.Div0.add_mod_idemp_l. f_equal. lia.
Qed.

Lemma push_refines q item :
  wf q ->
  (abs dflt N (push item q).1, (push item q).2) = spec_push N Policy item (abs dflt N q).
Proof.
  intros W. unfold push, BQ.push, spec_push, abs. cbn [items lost].
  rewrite length_contents. destruct (Nat.eqb_spec (size_ q) N) as [E|E].
  - destruct Policy; cbn [fst snd]; try done.
    f_equal. f_equal. by apply contents_overwrite.
  - cbn [fst snd]. f_equal. f_equal. apply contents_append; [done|].
    destruct W. lia.
Qed.

Lemma pop_refines q :
  wf q -> (abs dflt N (pop q).1, (pop q).2) = spec_pop (abs dflt N q).
Proof.
  intros W. unfold pop, BQ.pop, spec_pop, abs. cbn [items lost].
  destruct (Nat.eqb_spec (size_ q) 0) as [E|E].
  - cbn [fst snd]. unfold contents, BQ.contents. by rewrite E.
  - rewrite (contents_pop q (dropped_count_ q) (overflow_events_ q)) by done.
    cbn [fst snd]. f_equal. f_equal. unfold BQ.slot.
    rewrite Nat.add_0_r, Nat.mod_small by (by destruct W). done.
Qed.

Lemma exec_refines q o :
  wf q ->
  wf (exec dflt N Policy q o).1 /\
  (abs dflt N (exec dflt N Policy q o).1, (exec dflt N Policy q o).2)
  = spec_exec N Policy (abs dflt N q) o.
Proof.
  intros W. destruct o as [x|]; cbn.
  - pose proof (push_refines q x W) as R. pose proof (push_wf q x W) as W'.
    destruct (push x q) as [q' b]. cbn in *. by rewrite <- R.
  - pose proof (pop_refines q W) as R. pose proof (pop_wf q W) as W'.
    destruct (pop q) as [q' r]. cbn in *. by rewrite <- R.
Qed.

Lemma run_refines_from os q :
  wf q ->
  wf (run (exec dflt N Policy) q os).1 /\
  (abs dflt N (run (exec dflt N Policy) q os).1, (run (exec dflt N Policy) q os).2)
  = run (spec_exec N Policy) (abs dflt N q) os.
Proof.
  revert q. induction os as [|o os IH]; intros q W; [done|]. cbn.
  destruct (exec_refines q o W) as [W1 R1].
  destruct (exec dflt N Policy q o) as [q1 a]. cbn in *. rewrite <- R1.
  destruct (IH q1 W1) as [W2 R2].
  destruct (run (exec dflt N Policy) q1 os) as [q2 l]. cbn in *. by rewrite <- R2.
Qed.
End QueueProofs.

#[global] Hint Resolve empty_wf push_wf pop_wf : mith.

(** Pushing a list into an overwriting queue leaves the latest [N] items. *)
Lemma push_all_latest {T} (dflt : T) N (l : list T) q :
  0 < N -> wf N q ->
  let q' := fold_left (fun q x => (push N DropOldest x q).1) l q in
  wf N q' /\ contents dflt N q' = drop (length (contents dflt N q ++ l) - N) (contents dflt N q ++ l).
Proof.
  intros HN. revert q. induction l as [|x l IH]; intros q W; cbn [fold_left]; cbv zeta.
  { split; [done|]. rewrite app_nil_r, length_contents.
    destruct W as [_ _ Hs _ _ _]. by rewrite (proj2 (Nat.sub_0_le _ _)) by done. }
  destruct (IH (push N DropOldest x q).1) as [W' ->]; [by apply push_wf|]. split; [done|].
  pose proof (push_refines dflt N DropOldest HN q x W) as R. unfold spec_push, abs in R. cbn [items lost] in R.
  assert (length (contents dflt N q) <= N) as Hs by (rewrite length_contents; by destruct W).
  destruct (Nat.eqb_spec (length (contents dflt N q)) N) as [Hf|Hf]; injection R as -> _ _.
  - destruct (contents dflt N q) as [|y c] eqn:Ec; cbn in Hf, Hs; [lia|]. cbn [tail].
    rewrite <- app_assoc. cbn [app]. rewrite !length_cons, !length_app, !length_cons.
    replace (S (length c + S (length l)) - N) with (S (length c + S (length l) - N)) by lia. done.
  - by rewrite <- app_assoc.
Qed.

(** C16: starting from the default-constructed queue, any sequence of [push] and
    [pop] calls gives exactly the answers of the abstract bounded FIFO with the
    same overflow policy, ends with its items in its order, never holds more than
    [N] items, and its two counters are equal and count the refused or evicted
    items modulo 2^32. *)
Theorem queue_is_bounded_fifo {T} (dflt : T) (N : nat) (Policy : OverflowPolicy)
    (os : list (op (T := T))) (HN : 0 < N) :
  let r := run (exec dflt N Policy) (empty_queue dflt N) os in
  (mk_spec (contents dflt N r.1) (dropped_count r.1), r.2)
    = run (spec_exec N Policy) (mk_spec [] 0%Z) os
  /\ size r.1 = length (contents dflt N r.1)
  /\ size r.1 <= N
  /\ dropped_count r.1 = overflow_events r.1
  /\ MI.is_u32 (dropped_count r.1).
Proof.
  destruct (run_refines_from dflt N Policy HN os _ (empty_wf dflt N HN)) as [W R].
  cbn zeta. split_and!; [exact R|by rewrite length_contents|..]; by destruct W.
Qed.

Lemma queue_is_bounded_fifo_witness :
  let os := [Push 1; Push 2; Push 3; Pop; Push 4] in
  0 < 2 /\ contents 0 2 (run (exec 0 2 DropOldest) (empty_queue 0 2) os).1 = [3; 4]
  /\ dropped_count (run (exec 0 2 DropOldest) (empty_queue 0 2) os).1 = 1%Z
  /\ size (run (exec 0 2 DropOldest) (empty_queue 0 2) os).1 <= 2.
Proof.
  cbn zeta. split; [lia|]. split; [reflexivity|]. split; [reflexivity|].
  refine (proj1 (proj2 (proj2 (queue_is_bounded_fifo 0 2 DropOldest _ _)))). lia.
Defined.

End BQ.
