(* ===== verification/Float32.v ===== *)
(** IEEE-754 [float] as the code uses it.

    A [float] object is its 32-bit pattern (a [Z] below 2^32), so that the
    [memcpy]s between [float] and [std::uint32_t] in the wire formats are the
    identity and keep NaN payloads.  Arithmetic decodes the pattern into
    [SpecFloat], the Standard Library's executable specification of binary
    floating point, rounds to nearest even as the default environment does, and
    encodes the result.  A NaN produced by arithmetic is the quiet NaN
    [0x7fc00000]; the code never looks at its sign or payload.  Contraction of
    [a * b + c] into a fused operation is not modelled (the build uses the
    baseline instruction sets). *)

From Stdlib Require Import Floats.SpecFloat.
From S2P Require Import Prelude MachineInt.
Local Open Scope Z_scope.

Module F32.

Definition prec : Z := 24.
Definition emax : Z := 128.

Definition dec (b : Z) : spec_float :=
  let s := Z.testbit b 31 in
  let ex := Z.land (Z.shiftr b 23) 255 in
  let m := Z.land b 8388607 in
  if ex =? 255 then (if m =? 0 then S754_infinity s else S754_nan)
  else if ex =? 0 then
    match m with
    | Zpos p => S754_finite s p (-149)
    | _ => S754_zero s
    end
  else
    match m + 8388608 with
    | Zpos p => S754_finite s p (ex - 150)
    | _ => S754_nan
    end.

Definition sign_bits (s : bool) : Z := if s then 2147483648 else 0.

Definition enc (f : spec_float) : Z :=
  MI.u32
    match f with
    | S754_zero s => sign_bits s
    | S754_infinity s => sign_bits s + 2139095040
    | S754_nan => 2143289344
    | S754_finite s m e =>
        if Z.pos m <? 8388608 then sign_bits s + Z.pos m
        else sign_bits s + (e + 150) * 8388608 + (Z.pos m - 8388608)
    end.

Definition zero : Z := 0.
Definition one : Z := 1065353216.
Definition quiet_nan : Z := 2143289344.

Definition add (a b : Z) : Z := enc (SFadd prec emax (dec a) (dec b)).
Definition sub (a b : Z) : Z := enc (SFsub prec emax (dec a) (dec b)).
Definition mul (a b : Z) : Z := enc (SFmul prec emax (dec a) (dec b)).
Definition div (a b : Z) : Z := enc (SFdiv prec emax (dec a) (dec b)).
Definition sqrt (a : Z) : Z := enc (SFsqrt prec emax (dec a)).
(** Unary minus flips the sign bit, [std::fabs] clears it. *)
Definition neg (a : Z) : Z := Z.lxor a 2147483648.
Definition abs (a : Z) : Z := Z.land a 2147483647.

Definition ltb (a b : Z) : bool := SFltb (dec a) (dec b).
Definition leb (a b : Z) : bool := SFleb (dec a) (dec b).
Definition gtb (a b : Z) : bool := ltb b a.
Definition geb (a b : Z) : bool := leb b a.
Definition is_nan (a : Z) : bool :=
  match dec a with S754_nan => true | _ => false end.

(** [static_cast<float>(n)] for an integer. *)
Definition of_Z (n : Z) : Z := enc (binary_normalize prec emax n 0 false).

(** The integer part towards minus infinity of a finite value, [None] for an
    infinity or NaN. *)
Definition floor_Z (a : Z) : option Z :=
  match dec a with
  | S754_zero _ => Some 0
  | S754_finite s m e =>
      let v := if s then Z.neg m else Z.pos m in
      Some (if 0 <=? e then v * 2 ^ e else v / 2 ^ (- e))
  | _ => None
  end.

Definition ceil_Z (a : Z) : option Z := Z.opp <$> floor_Z (neg a).

(** [static_cast<std::int32_t>(std::floor(a))]: the language leaves the
    conversion of a value outside the range of the type undefined; [oob] is
    whatever the compiled code produces then. *)
Definition to_i32 (oob : Z -> Z) (a : Z) (r : option Z) : Z :=
  match r with
  | Some z => if (- 2 ^ 31 <=? z) && (z <? 2 ^ 31) then z else oob a
  | None => oob a
  end.

Definition floor_i32 (oob : Z -> Z) (a : Z) : Z := to_i32 oob a (floor_Z a).
Definition ceil_i32 (oob : Z -> Z) (a : Z) : Z := to_i32 oob a (ceil_Z a).

(** [std::clamp(v, lo, hi)]. *)
Definition clamp (v lo hi : Z) : Z :=
  if ltb v lo then lo else if ltb hi v then hi else v.

(** [static_cast<double>(f)], as the 64-bit pattern of the result; it is exact. *)
Definition enc64 (f : spec_float) : Z :=
  let sign (s : bool) := if s then 2 ^ 63 else 0 in
  match f with
  | S754_zero s => sign s
  | S754_infinity s => sign s + 9218868437227405312
  | S754_nan => 9221120237041090560
  | S754_finite s m e =>
      if Z.pos m <? 2 ^ 52 then sign s + Z.pos m
      else sign s + (e + 1075) * 2 ^ 52 + (Z.pos m - 2 ^ 52)
  end.

Definition to_f64 (a : Z) : Z :=
  MI.u64
    match dec a with
    | S754_finite s m e =>
        enc64 (binary_normalize 53 1024 (if s then Z.neg m else Z.pos m) e s)
    | f => enc64 f
    end.

(** ** Range and order facts *)

Lemma enc_range f : MI.is_u32 (enc f).
Proof. apply MI.u32_range. Qed.

Lemma add_range a b : MI.is_u32 (add a b). Proof. apply enc_range. Qed.
Lemma sub_range a b : MI.is_u32 (sub a b). Proof. apply enc_range. Qed.
Lemma mul_range a b : MI.is_u32 (mul a b). Proof. apply enc_range. Qed.
Lemma div_range a b : MI.is_u32 (div a b). Proof. apply enc_range. Qed.
#[global] Hint Resolve enc_range add_range sub_range mul_range div_range : mith.

Lemma compare_none f g :
  SFcompare f g = None <-> f = S754_nan \/ g = S754_nan.
Proof.
  destruct f as [s|s| |s m e], g as [t|t| |t n k]; cbn; split; intros H;
    try destruct s; try destruct t; try discriminate; auto;
    destruct H as [H|H]; discriminate.
Qed.

Lemma pos_compare_cont_opp m n :
  Pos.compare_cont Eq n m = CompOpp (Pos.compare_cont Eq m n).
Proof. change (Pos.compare n m = CompOpp (Pos.compare m n)). apply Pos.compare_antisym. Qed.

Lemma compare_opp f g :
  SFcompare g f = option_map CompOpp (SFcompare f g).
Proof.
  destruct f as [s|s| |s m e], g as [t|t| |t n k]; cbn;
    try destruct s; try destruct t; try done;
    rewrite (Z.compare_antisym e k), (pos_compare_cont_opp m n);
    destruct (Z.compare e k); cbn; try done;
    by destruct (Pos.compare_cont Eq m n).
Qed.

Lemma is_nan_dec a : is_nan a = true <-> dec a = S754_nan.
Proof. unfold is_nan. by destruct (dec a). Qed.

Lemma not_nan a : is_nan a = false -> dec a <> S754_nan.
Proof. unfold is_nan. by destruct (dec a). Qed.

(** The comparison of two numbers that are not NaN is total. *)
Lemma ltb_false_leb a b :
  is_nan a = false -> is_nan b = false -> ltb a b = false -> leb b a = true.
Proof.
  intros Ha%not_nan Hb%not_nan. unfold ltb, leb, SFltb, SFleb.
  rewrite (compare_opp (dec a) (dec b)).
  destruct (SFcompare (dec a) (dec b)) as [[| |]|] eqn:E; cbn; try done.
  apply compare_none in E. by destruct E.
Qed.

Lemma leb_false_ltb a b :
  is_nan a = false -> is_nan b = false -> leb a b = false -> ltb b a = true.
Proof.
  intros Ha%not_nan Hb%not_nan. unfold ltb, leb, SFltb, SFleb.
  rewrite (compare_opp (dec a) (dec b)).
  destruct (SFcompare (dec a) (dec b)) as [[| |]|] eqn:E; cbn; try done.
  apply compare_none in E. by destruct E.
Qed.

Lemma leb_refl a : is_nan a = false -> leb a a = true.
Proof.
  intros Ha%not_nan. unfold leb, SFleb.
  destruct (dec a) as [s|s| |s m e]; cbn; try destruct s; try done;
    rewrite Z.compare_refl;
    change (Pos.compare_cont Eq m m) with (Pos.compare m m);
    by rewrite Pos.compare_refl.
Qed.

Lemma ltb_leb a b : ltb a b = true -> leb a b = true.
Proof. unfold ltb, leb, SFltb, SFleb. by destruct (SFcompare _ _) as [[| |]|]. Qed.

(** A comparison with a NaN is false. *)
Lemma ltb_nan a b : is_nan a = true \/ is_nan b = true -> ltb a b = false.
Proof.
  rewrite !is_nan_dec. intros H. unfold ltb, SFltb.
  by rewrite (proj2 (compare_none _ _) H).
Qed.

Lemma leb_nan a b : is_nan a = true \/ is_nan b = true -> leb a b = false.
Proof.
  rewrite !is_nan_dec. intros H. unfold leb, SFleb.
  by rewrite (proj2 (compare_none _ _) H).
Qed.

Lemma ltb_not_nan a b : ltb a b = true -> is_nan a = false /\ is_nan b = false.
Proof.
  intros H. split; apply not_true_is_false; intros N;
    rewrite ltb_nan in H; auto; discriminate.
Qed.

Lemma leb_not_nan a b : leb a b = true -> is_nan a = false /\ is_nan b = false.
Proof.
  intros H. split; apply not_true_is_false; intros N;
    rewrite leb_nan in H; auto; discriminate.
Qed.

Lemma gtb_not_leb a b : gtb a b = true -> leb a b = false.
Proof.
  unfold gtb, ltb, leb, SFltb, SFleb. rewrite (compare_opp (dec a) (dec b)).
  by destruct (SFcompare (dec a) (dec b)) as [[| |]|].
Qed.

(** The order of the numbers as the lexicographic order of a rank. *)
Definition rank (f : spec_float) : option (Z * Z * Z) :=
  match f with
  | S754_nan => None
  | S754_zero _ => Some (0, 0, 0)
  | S754_infinity s => Some (if s then -2 else 2, 0, 0)
  | S754_finite s m e => Some (if s then (-1, - e, Zneg m) else (1, e, Zpos m))
  end.
Definition lex (a b : Z * Z * Z) : comparison :=
  match a.1.1 ?= b.1.1 with
  | Eq => match a.1.2 ?= b.1.2 with Eq => a.2 ?= b.2 | c => c end
  | c => c
  end.

Lemma compare_rank f g :
  SFcompare f g = match rank f, rank g with Some a, Some b => Some (lex a b) | _, _ => None end.
Proof.
  destruct f as [[]|[]| |[] m e], g as [[]|[]| |[] n k]; try done; cbn; unfold lex; cbn [fst snd Z.compare].
  rewrite (Z.compare_opp e k). rewrite (Z.compare_antisym e k). by destruct (e ?= k).
Qed.

Lemma lex_lt a b : lex a b = Lt <->
  a.1.1 < b.1.1 \/ (a.1.1 = b.1.1 /\ (a.1.2 < b.1.2 \/ (a.1.2 = b.1.2 /\ a.2 < b.2))).
Proof.
  unfold lex. destruct (Z.compare_spec a.1.1 b.1.1), (Z.compare_spec a.1.2 b.1.2), (Z.compare_spec a.2 b.2);
    split; intros; try done; lia.
Qed.
Lemma lex_gt a b : lex a b = Gt <-> lex b a = Lt.
Proof.
  rewrite (lex_lt b a). unfold lex.
  destruct (Z.compare_spec a.1.1 b.1.1), (Z.compare_spec a.1.2 b.1.2), (Z.compare_spec a.2 b.2);
    split; intros; try done; lia.
Qed.

Lemma ltb_rank a b : ltb a b = true <->
  exists ra rb, rank (dec a) = Some ra /\ rank (dec b) = Some rb /\ lex ra rb = Lt.
Proof.
  unfold ltb, SFltb. rewrite compare_rank.
  destruct (rank (dec a)) as [ra|], (rank (dec b)) as [rb|];
    [|by split; [|intros (? & ? & ? & ? & ?)]..].
  split.
  - intros H. exists ra, rb. split_and!; [done..|]. by destruct (lex ra rb).
  - intros (? & ? & [= <-] & [= <-] & E). by rewrite E.
Qed.

Lemma ltb_trans a b c : ltb a b = true -> ltb b c = true -> ltb a c = true.
Proof.
  rewrite !ltb_rank. intros (ra & rb & Ea & Eb & H1) (rb' & rc & Eb' & Ec & H2).
  exists ra, rc. split_and!; [done..|]. simplify_eq. rewrite lex_lt in *. lia.
Qed.

(** What is not above [b] is not above anything greater. *)
Lemma not_gtb_trans a b c : gtb a b = false -> ltb b c = true -> gtb a c = false.
Proof.
  intros H1 H2. apply not_true_is_false. unfold gtb in *. intros H3.
  by rewrite (ltb_trans _ _ _ H2 H3) in H1.
Qed.

Lemma rank_some a : is_nan a = false -> exists ra, rank (dec a) = Some ra.
Proof. intros H%not_nan. destruct (dec a); [by eexists..|done|by eexists]. Qed.

Lemma not_gtb_ltb a b c : is_nan a = false -> gtb a b = false -> ltb b c = true -> ltb a c = true.
Proof.
  intros Ha Hg. destruct (rank_some a Ha) as [ra Ea]. rewrite !ltb_rank.
  intros (rb & rc & Eb & Ec & H). exists ra, rc. split_and!; [done..|].
  assert (~ lex rb ra = Lt) as Hn.
  { intros C. assert (gtb a b = true) as G; [|congruence]. apply ltb_rank. eauto. }
  rewrite lex_lt in *. lia.
Qed.

Lemma ltb_irrefl a : ltb a a = false.
Proof.
  apply not_true_is_false. rewrite ltb_rank. intros (ra & rb & E1 & E2 & H). simplify_eq.
  apply lex_lt in H. lia.
Qed.

(** [clamp] stays in the interval for every value that is a number. *)
Lemma clamp_in v lo hi :
  is_nan v = false -> leb lo hi = true ->
  leb lo (clamp v lo hi) = true /\ leb (clamp v lo hi) hi = true.
Proof.
  intros Hv Hlh. destruct (leb_not_nan _ _ Hlh) as [Hlo Hhi]. unfold clamp.
  destruct (ltb v lo) eqn:E1; [auto using leb_refl|].
  destruct (ltb hi v) eqn:E2; [auto using leb_refl|].
  split; by apply ltb_false_leb.
Qed.

Lemma clamp_nan v lo hi : is_nan v = true -> clamp v lo hi = v.
Proof. intros H. unfold clamp. rewrite !ltb_nan by auto. done. Qed.

(** Negation and [std::fabs] touch the sign only. *)
Lemma dec_sign a b :
  Z.land (Z.shiftr a 23) 255 = Z.land (Z.shiftr b 23) 255 -> Z.land a 8388607 = Z.land b 8388607 ->
  is_nan a = is_nan b /\ (Z.testbit a 31 = negb (Z.testbit b 31) -> dec a = SFopp (dec b)).
Proof.
  intros Ee Em. unfold is_nan, dec. rewrite Ee, Em. split.
  - destruct (_ =? 255); [by destruct (_ =? 0)|]. destruct (_ =? 0); by destruct (Z.land b 8388607 + _) || destruct (Z.land b 8388607).
  - intros ->. destruct (_ =? 255); [by destruct (_ =? 0)|]. destruct (_ =? 0).
    + by destruct (Z.land b 8388607).
    + by destruct (Z.land b 8388607 + 8388608).
Qed.

Lemma dec_neg a : dec (neg a) = SFopp (dec a).
Proof.
  unfold neg. change 2147483648 with (2 ^ 31). apply dec_sign.
  - apply Z.bits_inj'. intros n Hn. rewrite !Z.land_spec, !Z.shiftr_spec, Z.lxor_spec, Z.pow2_bits_eqb by lia.
    change 255 with (Z.ones 8). rewrite Z.testbit_ones_nonneg by lia.
    destruct (Z.eqb_spec 31 (n + 23)); [|by rewrite xorb_false_r]. by rewrite (proj2 (Z.ltb_ge n 8)), !andb_false_r by lia.
  - apply Z.bits_inj'. intros n Hn. rewrite !Z.land_spec, Z.lxor_spec, Z.pow2_bits_eqb by lia.
    change 8388607 with (Z.ones 23). rewrite Z.testbit_ones_nonneg by lia.
    destruct (Z.eqb_spec 31 n); [|by rewrite xorb_false_r]. by rewrite (proj2 (Z.ltb_ge n 23)), !andb_false_r by lia.
  - rewrite Z.lxor_spec, Z.pow2_bits_true by lia. by rewrite xorb_true_r.
Qed.

Lemma is_nan_abs a : is_nan (abs a) = is_nan a.
Proof.
  unfold abs. change 2147483647 with (Z.ones 31). apply dec_sign; apply Z.bits_inj'; intros n Hn.
  - rewrite !Z.land_spec, !Z.shiftr_spec, Z.land_spec, Z.testbit_ones_nonneg by lia.
    change 255 with (Z.ones 8). rewrite Z.testbit_ones_nonneg by lia.
    destruct (Z.ltb_spec n 8); [|by rewrite !andb_false_r]. by rewrite (proj2 (Z.ltb_lt (n + 23) 31)), !andb_true_r by lia.
  - rewrite !Z.land_spec, Z.testbit_ones_nonneg by lia. change 8388607 with (Z.ones 23). rewrite Z.testbit_ones_nonneg by lia.
    destruct (Z.ltb_spec n 23); [|by rewrite !andb_false_r]. by rewrite (proj2 (Z.ltb_lt n 31)), !andb_true_r by lia.
Qed.

(** A positive limit bounds an interval. *)
Lemma leb_neg m : gtb m zero = true -> leb (neg m) m = true.
Proof.
  unfold gtb, ltb, leb. rewrite dec_neg. change (dec zero) with (S754_zero false). unfold SFltb, SFleb.
  by destruct (dec m) as [[]|[]| |[]].
Qed.

(** ** Decoding and encoding agree *)

Lemma split_bits b :
  MI.is_u32 b ->
  b = sign_bits (Z.testbit b 31) + Z.land (Z.shiftr b 23) 255 * 8388608
      + Z.land b 8388607.
Proof.
  intros Hb. unfold MI.is_u32 in Hb.
  change 8388607 with (Z.ones 23). change 255 with (Z.ones 8).
  rewrite !Z.land_ones, Z.shiftr_div_pow2, Z.testbit_eqb by lia.
  change (2 ^ 23) with 8388608. change (2 ^ 31) with 2147483648. change (2 ^ 8) with 256.
  unfold sign_bits. change (2 ^ 32) with 4294967296 in Hb.
  destruct (Z.eqb_spec (b / 2147483648 mod 2) 1);
    Z.to_euclidean_division_equations; lia.
Qed.

Lemma enc_dec b : MI.is_u32 b -> is_nan b = false -> enc (dec b) = b.
Proof.
  intros Hb Hn. pose proof (split_bits b Hb) as E. unfold is_nan in Hn.
  assert (0 <= Z.land (Z.shiftr b 23) 255 < 256) as Hex
    by (change 255 with (Z.ones 8); rewrite Z.land_ones by lia; apply Z.mod_pos_bound; lia).
  assert (0 <= Z.land b 8388607 < 8388608) as Hm
    by (change 8388607 with (Z.ones 23); rewrite Z.land_ones by lia; apply Z.mod_pos_bound; lia).
  revert Hn. unfold dec.
  set (ex := Z.land (Z.shiftr b 23) 255) in *. set (m := Z.land b 8388607) in *.
  set (s := Z.testbit b 31) in *. clearbody ex m s.
  assert (forall z, z = b -> MI.u32 z = b) as K by (intros z ->; by apply MI.u32_id).
  destruct (Z.eqb_spec ex 255) as [->|Hne].
  { destruct (Z.eqb_spec m 0) as [->|]; [|done]. intros _. cbn. apply K. lia. }
  destruct (Z.eqb_spec ex 0) as [->|Hne0].
  - destruct m as [|p|p]; [| |lia]; intros _; cbn; apply K; [lia|].
    destruct (Z.ltb_spec (Z.pos p) 8388608); lia.
  - destruct (m + 8388608) as [|p|p] eqn:Ep; [lia| |lia]. intros _. cbn. apply K.
    destruct (Z.ltb_spec (Z.pos p) 8388608); lia.
Qed.

(** The ordinary constants of the runtime, as bit patterns. *)
Example of_Z_1 : of_Z 1 = one. Proof. reflexivity. Qed.
Example div_1_20 : div one (of_Z 20) = 1028443341. Proof. reflexivity. Qed.
Example add_tenths : add (div one (of_Z 10)) (div (of_Z 2) (of_Z 10)) = 1050253722.
Proof. reflexivity. Qed.
Example to_f64_twentieth : to_f64 1028443341 = 4587366580546961408.
Proof. vm_compute. reflexivity. Qed.
Example sqrt_25 : sqrt (of_Z 25) = of_Z 5. Proof. reflexivity. Qed.

End F32.
