(* ===== verification/Identity.v ===== *)
(** [UUID] and [HierarchicalID] ([include/mith/identity/uuid.h],
    [src/identity/uuid.cpp], [include/mith/identity/hierarchical_id.h],
    [src/identity/hierarchical_id.cpp]).

    A [std::string] is the list of its character codes.  [std::random_device] is
    a parameter: the stream of 32-bit values its calls return. *)

From S2P Require Import Prelude MachineInt.
Local Open Scope Z_scope.

Module Id.

(** ** Types *)

(* @src include/mith/identity/uuid.h:23-31 UUID *)
Record UUID := mk_uuid { bytes_ : list Z }.

(* @src include/mith/identity/hierarchical_id.h:37-39 HierarchicalID *)
Record HierarchicalID := mk_hid { swarm_id : Z; unit_id : UUID }.

Definition SIZE : nat := 16.
Definition nil_uuid : UUID := mk_uuid (replicate 16 0).
Definition nil_hid : HierarchicalID := mk_hid 0 nil_uuid.

Definition wf_uuid (u : UUID) : Prop := length u.(bytes_) = SIZE /\ MI.is_bytes u.(bytes_).
Definition wf_hid (h : HierarchicalID) : Prop :=
  MI.is_u16 h.(swarm_id) /\ wf_uuid h.(unit_id).

#[global] Instance UUID_eq_dec : EqDecision UUID.
Proof. solve_decision. Defined.
#[global] Instance HierarchicalID_eq_dec : EqDecision HierarchicalID.
Proof. solve_decision. Defined.
#[global] Instance UUID_countable : Countable UUID.
Proof.
  refine (inj_countable' bytes_ mk_uuid _). by intros [].
Defined.
#[global] Instance HierarchicalID_countable : Countable HierarchicalID.
Proof.
  refine (inj_countable' (fun h => (h.(swarm_id), h.(unit_id))) (fun p => mk_hid p.1 p.2) _).
  by intros [].
Defined.

(** ** Predicates and comparisons *)

(* @src include/mith/identity/uuid.h:46-51 UUID::is_nil *)
Definition is_nil (u : UUID) : bool := forallb (fun b => b =? 0) u.(bytes_).

(* @src include/mith/identity/uuid.h:53-57 UUID::version *)
Definition version (u : UUID) : Z :=
  MI.u8 (Z.shiftr (Z.land (MI.at_ u.(bytes_) 6) 240) 4).

Fixpoint eq_loop (a b : list Z) : bool :=
  match a, b with
  | [], [] => true
  | x :: a, y :: b => if negb (x =? y) then false else eq_loop a b
  | _, _ => false
  end.

(* @src include/mith/identity/uuid.h:62-70 UUID::operator== *)
Definition uuid_eqb (a b : UUID) : bool := eq_loop a.(bytes_) b.(bytes_).

Fixpoint lt_loop (a b : list Z) : bool :=
  match a, b with
  | x :: a, y :: b => if negb (x =? y) then x <? y else lt_loop a b
  | _, _ => false
  end.

(* @src include/mith/identity/uuid.h:71-87 UUID::operator< *)
Definition uuid_ltb (a b : UUID) : bool := lt_loop a.(bytes_) b.(bytes_).

(* @src include/mith/identity/hierarchical_id.h:51-56 HierarchicalID::operator== *)
Definition hid_eqb (a b : HierarchicalID) : bool :=
  (a.(swarm_id) =? b.(swarm_id)) && uuid_eqb a.(unit_id) b.(unit_id).

(* @src include/mith/identity/hierarchical_id.h:57-69 HierarchicalID::operator< *)
Definition hid_ltb (a b : HierarchicalID) : bool :=
  if negb (a.(swarm_id) =? b.(swarm_id)) then a.(swarm_id) <? b.(swarm_id)
  else uuid_ltb a.(unit_id) b.(unit_id).

(** ** Hashing (64-bit [std::size_t], little-endian loads) *)

Definition golden : Z := 11400714819323198485.

Definition hash_mix (result chunk : Z) : Z :=
  Z.lxor result
    (MI.u64 (chunk + golden + MI.u64 (Z.shiftl result 6) + Z.shiftr result 2)).

(* @src src/identity/uuid.cpp:136-151 hash<UUID>::operator() *)
Definition uuid_hash (u : UUID) : Z :=
  fold_left (fun r i => hash_mix r (MI.le_value (slice i 8 u.(bytes_)))) [0; 8]%nat 0.

(* @src src/identity/hierarchical_id.cpp:62-68 hash<HierarchicalID>::operator() *)
Definition hid_hash (h : HierarchicalID) : Z := hash_mix (uuid_hash h.(unit_id)) h.(swarm_id).

(** ** Text form *)

(* @src src/identity/uuid.cpp:39-43 hex_char *)
Definition hex_char (nibble : Z) : Z := if nibble <? 10 then 48 + nibble else 97 + (nibble - 10).

(* @src src/identity/uuid.cpp:45-50 hex_value *)
Definition hex_value (c : Z) : Z :=
  if (48 <=? c) && (c <=? 57) then c - 48
  else if (97 <=? c) && (c <=? 102) then c - 97 + 10
  else if (65 <=? c) && (c <=? 70) then c - 65 + 10
  else -1.

Definition offsets : list nat := [0; 2; 4; 6; 9; 11; 14; 16; 19; 21; 24; 26; 28; 30; 32; 34]%nat.
Definition hyphens : list nat := [8; 13; 18; 23]%nat.
Definition hyphen : Z := 45.
Definition colon : Z := 58.

Definition write_byte (s : list Z) (out_idx : nat) (byte : Z) : list Z :=
  <[(out_idx + 1)%nat := hex_char (Z.land byte 15)]>
    (<[out_idx := hex_char (Z.shiftr byte 4)]> s).

(* @src src/identity/uuid.cpp:80-107 UUID::to_string *)
Definition uuid_to_string (u : UUID) : list Z :=
  let s := replicate 36 0 in
  let s := fold_left (fun s ib => write_byte s ib.1 ib.2) (combine offsets u.(bytes_)) s in
  fold_left (fun s i => <[i := hyphen]> s) hyphens s.

Fixpoint parse_bytes (s : list Z) (offs : list nat) : option (list Z) :=
  match offs with
  | [] => Some []
  | o :: offs =>
      let hi := hex_value (MI.at_ s o) in
      let lo := hex_value (MI.at_ s (o + 1)) in
      if (hi <? 0) || (lo <? 0) then None
      else bs ← parse_bytes s offs; Some (MI.u8 (Z.lor (Z.shiftl hi 4) lo) :: bs)
  end.

(* @src src/identity/uuid.cpp:109-130 UUID::from_string *)
Definition uuid_from_string (s : list Z) : option UUID :=
  if negb (length s =? 36)%nat then None
  else if existsb (fun i => negb (MI.at_ s i =? hyphen)) hyphens then None
  else mk_uuid <$> parse_bytes s offsets.

Definition SWARM_HEX_LEN : nat := 4.
Definition TOTAL_LEN : nat := SWARM_HEX_LEN + 1 + 36.

(* @src src/identity/hierarchical_id.cpp:29-39 HierarchicalID::to_string *)
Definition to_string (h : HierarchicalID) : list Z :=
  [hex_char (Z.land (Z.shiftr h.(swarm_id) 12) 15);
   hex_char (Z.land (Z.shiftr h.(swarm_id) 8) 15);
   hex_char (Z.land (Z.shiftr h.(swarm_id) 4) 15);
   hex_char (Z.land h.(swarm_id) 15);
   colon] ++ uuid_to_string h.(unit_id).

Fixpoint parse_swarm (sid : Z) (cs : list Z) : option Z :=
  match cs with
  | [] => Some sid
  | c :: cs =>
      let v := hex_value c in
      if v <? 0 then None else parse_swarm (MI.u16 (Z.lor (Z.shiftl sid 4) v)) cs
  end.

(* @src src/identity/hierarchical_id.cpp:41-56 HierarchicalID::from_string *)
Definition from_string (s : list Z) : option HierarchicalID :=
  if negb (length s =? TOTAL_LEN)%nat then None
  else if negb (MI.at_ s SWARM_HEX_LEN =? colon) then None
  else
    sid ← parse_swarm 0 (take SWARM_HEX_LEN s);
    uuid ← uuid_from_string (drop (SWARM_HEX_LEN + 1) s);
    Some (mk_hid sid uuid).

(** ** Generation *)

Section Generate.
(** The values returned by successive calls of the thread's
    [std::random_device]. *)
Variable rd : nat -> Z.

Fixpoint fill_loop (fuel calls filled : nat) (b : list Z) : list Z :=
  match fuel with
  | O => b
  | S fuel =>
      if (filled <? SIZE)%nat then
        let value := rd calls in
        let take := if (4 <? SIZE - filled)%nat then 4%nat else (SIZE - filled)%nat in
        fill_loop fuel (S calls) (filled + take)
          (write_at b filled (MI.le_bytes take value))
      else b
  end.

(* @src src/identity/uuid.cpp:54-78 UUID::generate *)
Definition generate : UUID :=
  let b := fill_loop (S SIZE) 0 0 (replicate SIZE 0) in
  let b := <[6%nat := MI.u8 (Z.lor (Z.land (MI.at_ b 6) 15) 64)]> b in
  let b := <[8%nat := MI.u8 (Z.lor (Z.land (MI.at_ b 8) 63) 128)]> b in
  mk_uuid b.

(* @src src/identity/hierarchical_id.cpp:25-27 HierarchicalID::generate *)
Definition generate_hid (swarm : Z) : HierarchicalID := mk_hid swarm generate.
End Generate.

(** ** Equality *)

Lemma eq_loop_spec a b : eq_loop a b = true <-> a = b.
Proof.
  revert b. induction a as [|x a IH]; intros [|y b]; cbn; split; try done.
  - destruct (Z.eqb_spec x y) as [->|]; cbn; [|done]. by intros ->%IH.
  - intros [= -> ->]. rewrite Z.eqb_refl. cbn. by apply IH.
Qed.

Lemma uuid_eqb_eq a b : uuid_eqb a b = true <-> a = b.
Proof.
  unfold uuid_eqb. rewrite eq_loop_spec. destruct a, b; cbn.
  split; [by intros ->|by intros [= ->]].
Qed.

Lemma hid_eqb_eq a b : hid_eqb a b = true <-> a = b.
Proof.
  unfold hid_eqb. rewrite andb_true_iff, Z.eqb_eq, uuid_eqb_eq. destruct a, b; cbn.
  split; [by intros [-> ->]|by intros [= -> ->]].
Qed.

Lemma hid_eqb_refl a : hid_eqb a a = true.
Proof. by apply hid_eqb_eq. Qed.

Lemma hid_eqb_ne a b : a <> b -> hid_eqb a b = false.
Proof. intros H. apply not_true_is_false. by intros E%hid_eqb_eq. Qed.

Lemma hid_eqb_decide a b : hid_eqb a b = bool_decide (a = b).
Proof.
  case_bool_decide as E; [by apply hid_eqb_eq|by apply hid_eqb_ne].
Qed.

Lemma is_nil_spec u : wf_uuid u -> is_nil u = true <-> u = nil_uuid.
Proof.
  intros [Hl _]. destruct u as [l]. unfold is_nil, nil_uuid. cbn [bytes_] in *. split.
  - intros H. f_equal. apply (list_eq_same_length _ _ 16); [done|done|].
    intros i x y Hi Hx Hy. apply lookup_replicate in Hy as [-> _].
    rewrite forallb_forall in H. apply Z.eqb_eq, H, list_elem_of_In.
    by eapply list_elem_of_lookup_2.
  - by intros [= ->].
Qed.

(** ** Text form: proofs *)

(** Replace a list of known length by its elements. *)
Ltac explode l H :=
  repeat (let x := fresh "x" in destruct l as [|x l]; [discriminate H|]);
  try (destruct l; [|discriminate H]).

Definition lower (c : Z) : Z := if (65 <=? c) && (c <=? 90) then c + 32 else c.

Definition is_hex (c : Z) : bool := 0 <=? hex_value c.

(** The text [from_string] accepts. *)
Definition uuid_text (s : list Z) : bool :=
  (length s =? 36)%nat
  && forallb (fun i => MI.at_ s i =? hyphen) hyphens
  && forallb (fun o => is_hex (MI.at_ s o) && is_hex (MI.at_ s (o + 1))) offsets.

Definition hid_text (s : list Z) : bool :=
  (length s =? TOTAL_LEN)%nat
  && (MI.at_ s 4 =? colon)
  && forallb is_hex (take 4 s)
  && uuid_text (drop 5 s).

Lemma hex_value_char n : 0 <= n < 16 -> hex_value (hex_char n) = n.
Proof.
  intros H. unfold hex_char. destruct (Z.ltb_spec n 10);
    unfold hex_value; repeat step_case; lia.
Qed.

Lemma hex_value_range c : -1 <= hex_value c < 16.
Proof. unfold hex_value. repeat step_case; lia. Qed.

Lemma hex_char_value c : is_hex c = true -> hex_char (hex_value c) = lower c.
Proof.
  unfold is_hex, hex_value. intros H. revert H.
  repeat step_case; intros H; unfold hex_char, lower; repeat step_case; lia.
Qed.

Lemma hex_char_lower n : 0 <= n < 16 -> lower (hex_char n) = hex_char n.
Proof.
  intros H. unfold hex_char. destruct (Z.ltb_spec n 10); unfold lower; repeat step_case; lia.
Qed.

Lemma is_hex_ltb c : (hex_value c <? 0) = negb (is_hex c).
Proof. unfold is_hex. rewrite Z.leb_antisym. by rewrite negb_involutive. Qed.

Lemma byte_nibbles b :
  MI.is_u8 b -> 0 <= Z.shiftr b 4 < 16 /\ 0 <= Z.land b 15 < 16.
Proof.
  unfold MI.is_u8. intros H. change 15 with (Z.ones 4).
  rewrite Z.land_ones, Z.shiftr_div_pow2 by lia.
  Z.to_euclidean_division_equations; lia.
Qed.

Lemma join_nibbles hi lo :
  0 <= hi < 16 -> 0 <= lo < 16 ->
  MI.u8 (Z.lor (Z.shiftl hi 4) lo) = hi * 16 + lo.
Proof.
  intros Hh Hl. rewrite Z.lor_comm, MI.lor_shiftl_add by lia.
  rewrite MI.u8_id; unfold MI.is_u8; lia.
Qed.

Lemma nibbles_join hi lo :
  0 <= hi < 16 -> 0 <= lo < 16 ->
  Z.shiftr (hi * 16 + lo) 4 = hi /\ Z.land (hi * 16 + lo) 15 = lo.
Proof.
  intros Hh Hl. change 15 with (Z.ones 4). rewrite Z.land_ones, Z.shiftr_div_pow2 by lia.
  change (2 ^ 4) with 16. split; Z.to_euclidean_division_equations; lia.
Qed.

Lemma byte_split b : b = Z.shiftr b 4 * 16 + Z.land b 15.
Proof.
  change 15 with (Z.ones 4). rewrite Z.land_ones, Z.shiftr_div_pow2 by lia.
  change (2 ^ 4) with 16. Z.to_euclidean_division_equations; lia.
Qed.

Lemma parse_byte b :
  MI.is_u8 b ->
  (hex_value (hex_char (Z.shiftr b 4)) <? 0) = false /\
  (hex_value (hex_char (Z.land b 15)) <? 0) = false /\
  MI.u8 (Z.lor (Z.shiftl (hex_value (hex_char (Z.shiftr b 4))) 4)
               (hex_value (hex_char (Z.land b 15)))) = b.
Proof.
  intros Hb. destruct (byte_nibbles b Hb) as [H1 H2].
  rewrite !hex_value_char by done. split_and!; [lia|lia|].
  rewrite join_nibbles by done. symmetry. apply byte_split.
Qed.

Lemma uuid_parse_print u : wf_uuid u -> uuid_from_string (uuid_to_string u) = Some u.
Proof.
  intros [Hl Hb]. destruct u as [l]. cbn [bytes_] in *. explode l Hl.
  unfold MI.is_bytes in Hb. decompose_Forall_hyps.
  cbv -[hex_char hex_value Z.ltb Z.shiftr Z.land Z.lor Z.shiftl MI.u8].
  repeat match goal with
  | H : MI.is_u8 ?b |- _ =>
      destruct (parse_byte b H) as (-> & -> & ->); clear H
  end.
  done.
Qed.

(** What a successful parse says about the text. *)
Lemma parse_bytes_some s offs :
  is_Some (parse_bytes s offs) <->
  forallb (fun o => is_hex (MI.at_ s o) && is_hex (MI.at_ s (o + 1))) offs = true.
Proof.
  induction offs as [|o offs IH]; cbn [parse_bytes forallb]; [by split; eauto|].
  rewrite !is_hex_ltb, <- negb_andb, andb_true_iff, <- IH.
  destruct (is_hex _ && is_hex _) eqn:E; cbn.
  - split.
    + intros [l Hl]. destruct (parse_bytes s offs); [eauto|discriminate].
    + intros [_ [l ->]]. cbn. eauto.
  - split; [by intros [? ?]|by intros [? _]].
Qed.

Lemma uuid_from_string_some s : is_Some (uuid_from_string s) <-> uuid_text s = true.
Proof.
  unfold uuid_from_string, uuid_text.
  destruct (length s =? 36)%nat; cbn [negb andb]; [|by split; [intros [? ?]|]].
  assert (existsb (fun i => negb (MI.at_ s i =? hyphen)) hyphens
          = negb (forallb (fun i => MI.at_ s i =? hyphen) hyphens)) as ->.
  { generalize hyphens. intros l. induction l as [|i l IH]; [done|]. cbn. rewrite IH.
    by destruct (MI.at_ s i =? hyphen). }
  destruct (forallb (fun i => MI.at_ s i =? hyphen) hyphens); cbn [negb andb];
    [|by split; [intros [? ?]|]].
  rewrite fmap_is_Some. apply parse_bytes_some.
Qed.

Lemma parse_bytes_cons s o offs bs :
  parse_bytes s (o :: offs) = Some bs ->
  exists b bs', bs = b :: bs' /\ parse_bytes s offs = Some bs' /\ MI.is_u8 b /\
    hex_char (Z.shiftr b 4) = lower (MI.at_ s o) /\
    hex_char (Z.land b 15) = lower (MI.at_ s (o + 1)).
Proof.
  cbn [parse_bytes]. rewrite !is_hex_ltb, <- negb_andb.
  destruct (is_hex _ && is_hex _) eqn:E; cbn [negb]; [|done].
  destruct (parse_bytes s offs) as [bs'|]; cbn; [|done]. intros [= <-].
  apply andb_true_iff in E as [E1 E2].
  pose proof (hex_value_range (MI.at_ s o)). pose proof (hex_value_range (MI.at_ s (o + 1))).
  assert (0 <= hex_value (MI.at_ s o)) by (unfold is_hex in E1; lia).
  assert (0 <= hex_value (MI.at_ s (o + 1))) by (unfold is_hex in E2; lia).
  destruct (nibbles_join (hex_value (MI.at_ s o)) (hex_value (MI.at_ s (o + 1))))
    as [J1 J2]; [lia..|].
  do 2 eexists. split_and!; [done|done|apply MI.u8_range|..];
    rewrite join_nibbles by lia.
  - rewrite J1. by apply hex_char_value.
  - rewrite J2. by apply hex_char_value.
Qed.

Lemma uuid_print_parse s u :
  uuid_from_string s = Some u -> wf_uuid u /\ uuid_to_string u = map lower s.
Proof.
  unfold uuid_from_string. destruct (Nat.eqb_spec (length s) 36) as [Hl|]; [|done]. cbn [negb].
  destruct (existsb _ hyphens) eqn:Eh; [done|].
  destruct (parse_bytes s offsets) as [bs|] eqn:Ep; [|done]. intros [= <-].
  unfold offsets in Ep.
  repeat (apply parse_bytes_cons in Ep as (? & ? & -> & Ep & ? & ? & ?)).
  cbn in Ep. injection Ep as <-.
  split; [split; [done|]; unfold MI.is_bytes;
    repeat first [apply Forall_nil_2 | apply Forall_cons_2; [assumption|]]|].
  unfold hyphens in Eh. cbn [existsb] in Eh. zbool.
  assert (lower 45 = 45) as Hhy by done.
  explode s Hl. cbv -[hex_char Z.shiftr Z.land lower] in *. cbn [map].
  congruence.
Qed.

Lemma length_uuid_to_string u : length (uuid_to_string u) = 36%nat.
Proof.
  unfold uuid_to_string. cbn [hyphens fold_left]. rewrite !length_insert.
  generalize (combine offsets (bytes_ u)). intros l.
  assert (forall s, length (fold_left (fun s ib => write_byte s ib.1 ib.2) l s) = length s)
    as ->; [|done].
  induction l as [|ib l IH]; intros s; [done|]. cbn. rewrite IH.
  unfold write_byte. by rewrite !length_insert.
Qed.

Lemma swarm_nibble a v :
  0 <= a < 4096 -> 0 <= v < 16 -> MI.u16 (Z.lor (Z.shiftl a 4) v) = a * 16 + v.
Proof.
  intros Ha Hv. rewrite Z.lor_comm, MI.lor_shiftl_add by lia.
  unfold MI.u16. rewrite Z.mod_small; lia.
Qed.

Lemma parse_swarm_4 c3 c2 c1 c0 :
  is_hex c3 = true -> is_hex c2 = true -> is_hex c1 = true -> is_hex c0 = true ->
  parse_swarm 0 [c3; c2; c1; c0]
  = Some (((hex_value c3 * 16 + hex_value c2) * 16 + hex_value c1) * 16 + hex_value c0).
Proof.
  intros H3 H2 H1 H0. cbn [parse_swarm]. rewrite !is_hex_ltb, H3, H2, H1, H0. cbn [negb].
  pose proof (hex_value_range c3). pose proof (hex_value_range c2).
  pose proof (hex_value_range c1). pose proof (hex_value_range c0).
  unfold is_hex in *. f_equal.
  rewrite (swarm_nibble 0), (swarm_nibble (0 * 16 + _)) by lia.
  rewrite (swarm_nibble ((0 * 16 + _) * 16 + _)) by lia.
  rewrite swarm_nibble by lia. lia.
Qed.

Lemma is_hex_char n : 0 <= n < 16 -> is_hex (hex_char n) = true.
Proof. intros H. unfold is_hex. rewrite hex_value_char by done. lia. Qed.

Lemma swarm_split sid :
  MI.is_u16 sid ->
  let n3 := Z.land (Z.shiftr sid 12) 15 in let n2 := Z.land (Z.shiftr sid 8) 15 in
  let n1 := Z.land (Z.shiftr sid 4) 15 in let n0 := Z.land sid 15 in
  (0 <= n3 < 16 /\ 0 <= n2 < 16 /\ 0 <= n1 < 16 /\ 0 <= n0 < 16) /\
  sid = ((n3 * 16 + n2) * 16 + n1) * 16 + n0.
Proof.
  unfold MI.is_u16. intros H. cbn zeta. change 15 with (Z.ones 4).
  rewrite !Z.land_ones, !Z.shiftr_div_pow2 by lia.
  change (2 ^ 4) with 16. change (2 ^ 8) with 256. change (2 ^ 12) with 4096.
  change (2 ^ 16) with 65536 in H.
  Z.to_euclidean_division_equations; lia.
Qed.

Lemma swarm_join n3 n2 n1 n0 :
  0 <= n3 < 16 -> 0 <= n2 < 16 -> 0 <= n1 < 16 -> 0 <= n0 < 16 ->
  let sid := ((n3 * 16 + n2) * 16 + n1) * 16 + n0 in
  MI.is_u16 sid /\ Z.land (Z.shiftr sid 12) 15 = n3 /\ Z.land (Z.shiftr sid 8) 15 = n2 /\
  Z.land (Z.shiftr sid 4) 15 = n1 /\ Z.land sid 15 = n0.
Proof.
  intros H3 H2 H1 H0 sid. unfold MI.is_u16. change 15 with (Z.ones 4).
  rewrite !Z.land_ones, !Z.shiftr_div_pow2 by lia.
  change (2 ^ 4) with 16. change (2 ^ 8) with 256. change (2 ^ 12) with 4096.
  change (2 ^ 16) with 65536. subst sid.
  split_and!; Z.to_euclidean_division_equations; lia.
Qed.

Lemma parse_print h : wf_hid h -> from_string (to_string h) = Some h.
Proof.
  intros [Hs Hu]. destruct h as [sid u]. cbn [swarm_id unit_id] in *.
  unfold from_string, to_string, TOTAL_LEN, SWARM_HEX_LEN. cbn [swarm_id unit_id].
  rewrite length_app, length_uuid_to_string. cbn [length Nat.add Nat.eqb negb].
  destruct (swarm_split sid Hs) as [(H3 & H2 & H1 & H0) E].
  unfold MI.at_. cbn [app nth take drop]. rewrite Z.eqb_refl. cbn [negb].
  rewrite parse_swarm_4 by (by apply is_hex_char). rewrite !hex_value_char by done.
  rewrite <- E, drop_0. cbn [mbind option_bind]. by rewrite uuid_parse_print.
Qed.

Lemma print_parse s h :
  from_string s = Some h -> wf_hid h /\ to_string h = map lower s.
Proof.
  unfold from_string. destruct (Nat.eqb_spec (length s) TOTAL_LEN) as [Hl|]; [|done]. cbn [negb].
  destruct s as [|c3 [|c2 [|c1 [|c0 [|cc s]]]]]; try discriminate Hl.
  unfold MI.at_, SWARM_HEX_LEN. cbn [nth].
  destruct (Z.eqb_spec cc colon) as [->|]; [|done]. cbn [negb take drop Nat.add].
  destruct (parse_swarm 0 [c3; c2; c1; c0]) as [sid|] eqn:Es; [|done].
  assert (is_hex c3 = true /\ is_hex c2 = true /\ is_hex c1 = true /\ is_hex c0 = true)
    as (X3 & X2 & X1 & X0).
  { cbn [parse_swarm] in Es. rewrite !is_hex_ltb in Es.
    destruct (is_hex c3), (is_hex c2), (is_hex c1), (is_hex c0);
      cbn [negb] in Es; first [discriminate Es|done]. }
  rewrite parse_swarm_4 in Es by done. injection Es as <-. rewrite drop_0.
  cbn [mbind option_bind].
  destruct (uuid_from_string s) as [u|] eqn:Eu; cbn [mbind option_bind]; [|done].
  intros [= <-]. apply uuid_print_parse in Eu as [Wu Pu].
  pose proof (hex_value_range c3). pose proof (hex_value_range c2).
  pose proof (hex_value_range c1). pose proof (hex_value_range c0).
  unfold wf_hid, to_string. cbn [swarm_id unit_id map]. rewrite Pu.
  rewrite <- (hex_char_value _ X3), <- (hex_char_value _ X2),
    <- (hex_char_value _ X1), <- (hex_char_value _ X0).
  unfold is_hex in *.
  destruct (swarm_join (hex_value c3) (hex_value c2) (hex_value c1) (hex_value c0))
    as (R & -> & -> & -> & ->); [lia..|]. done.
Qed.

Lemma from_string_some s : is_Some (from_string s) <-> hid_text s = true.
Proof.
  unfold from_string, hid_text.
  destruct (length s =? TOTAL_LEN)%nat; cbn [negb andb]; [|by split; [intros [? ?]|]].
  unfold SWARM_HEX_LEN. destruct (MI.at_ s 4 =? colon); cbn [negb andb];
    [|by split; [intros [? ?]|]].
  rewrite andb_true_iff. cbn [Nat.add].
  assert (forall sid, is_Some (parse_swarm sid (take 4 s)) <-> forallb is_hex (take 4 s) = true)
    as HS.
  { generalize (take 4 s). intros l. induction l as [|c l IH]; intros sid; cbn; [by split; eauto|].
    rewrite is_hex_ltb, andb_true_iff. destruct (is_hex c); cbn; [rewrite IH; tauto|].
    split; [by intros [? ?]|by intros [? _]]. }
  rewrite <- (HS 0), <- uuid_from_string_some. split.
  - intros [h Hh]. destruct (parse_swarm 0 (take 4 s)); [|done]. cbn in Hh.
    destruct (uuid_from_string (drop 5 s)); [|done]. eauto.
  - intros [[sid ->] [u ->]]. cbn. eauto.
Qed.

(** A well-formed identity prints to text that parses back to it; a text
    parses exactly when it has the canonical shape (41 characters, the colon, the
    four hyphens, hexadecimal digits everywhere else), and then the identity is
    well-formed and prints to the lower-case text. *)
Theorem hid_text_roundtrip (h : HierarchicalID) (s : list Z) (Hh : wf_hid h) :
  from_string (to_string h) = Some h
  /\ (is_Some (from_string s) <-> hid_text s = true)
  /\ (forall h', from_string s = Some h' -> wf_hid h' /\ to_string h' = map lower s).
Proof.
  split_and!; [by apply parse_print|apply from_string_some|apply print_parse].
Qed.

Definition sample_hid : HierarchicalID :=
  mk_hid 43981 (mk_uuid [222; 173; 190; 239; 0; 1; 66; 3; 132; 5; 6; 7; 8; 9; 10; 255]).

Lemma hid_text_roundtrip_witness :
  wf_hid sample_hid /\ from_string (to_string sample_hid) = Some sample_hid
  /\ from_string (map (fun c => if is_hex c && (97 <=? c) then c - 32 else c)
                      (to_string sample_hid)) = Some sample_hid.
Proof.
  assert (wf_hid sample_hid) as W.
  { split; [unfold MI.is_u16; cbn; lia|]. split; [reflexivity|].
    apply MI.bytesb_spec. reflexivity. }
  split; [exact W|]. split.
  - exact (proj1 (hid_text_roundtrip sample_hid [] W)).
  - vm_compute. reflexivity.
Defined.

(** ** Order *)

Lemma hex_char_mono m n :
  0 <= m < 16 -> 0 <= n < 16 ->
  (hex_char m =? hex_char n) = (m =? n) /\ (hex_char m <? hex_char n) = (m <? n).
Proof.
  intros Hm Hn. unfold hex_char. destruct (Z.ltb_spec m 10), (Z.ltb_spec n 10); lia.
Qed.

Lemma str_ltb_hex m n a b :
  0 <= m < 16 -> 0 <= n < 16 ->
  str_ltb (hex_char m :: a) (hex_char n :: b) = if m =? n then str_ltb a b else m <? n.
Proof. intros Hm Hn. cbn. destruct (hex_char_mono m n Hm Hn) as [-> ->]. done. Qed.

Lemma str_ltb_same c a b : str_ltb (c :: a) (c :: b) = str_ltb a b.
Proof. cbn. by rewrite Z.eqb_refl. Qed.

Lemma str_ltb_byte x y a b :
  MI.is_u8 x -> MI.is_u8 y ->
  str_ltb (hex_char (Z.shiftr x 4) :: hex_char (Z.land x 15) :: a)
          (hex_char (Z.shiftr y 4) :: hex_char (Z.land y 15) :: b)
  = if x =? y then str_ltb a b else x <? y.
Proof.
  intros Hx Hy. destruct (byte_nibbles x Hx) as [X1 X2]. destruct (byte_nibbles y Hy) as [Y1 Y2].
  rewrite !str_ltb_hex by done. pose proof (byte_split x). pose proof (byte_split y).
  destruct (Z.eqb_spec (Z.shiftr x 4) (Z.shiftr y 4)),
    (Z.eqb_spec (Z.land x 15) (Z.land y 15)), (Z.eqb_spec x y); try lia; done.
Qed.

Definition hexs (l : list Z) : list Z :=
  flat_map (fun b => [hex_char (Z.shiftr b 4); hex_char (Z.land b 15)]) l.

(** [to_string], written out: five groups of bytes. *)
Lemma uuid_groups l :
  length l = 16%nat ->
  exists p1 p2 p3 p4 p5, l = p1 ++ p2 ++ p3 ++ p4 ++ p5 /\
    length p1 = 4%nat /\ length p2 = 2%nat /\ length p3 = 2%nat /\ length p4 = 2%nat /\
    length p5 = 6%nat /\
    uuid_to_string (mk_uuid l) =
      hexs p1 ++ hyphen :: hexs p2 ++ hyphen :: hexs p3 ++ hyphen :: hexs p4 ++ hyphen ::
      hexs p5 ++ [].
Proof.
  intros H. explode l H.
  exists [x; x0; x1; x2], [x3; x4], [x5; x6], [x7; x8], [x9; x10; x11; x12; x13; x14].
  done.
Qed.

Lemma str_ltb_hexs l k a b :
  length l = length k -> MI.is_bytes l -> MI.is_bytes k ->
  str_ltb (hexs l ++ a) (hexs k ++ b)
  = if bool_decide (l = k) then str_ltb a b else lt_loop l k.
Proof.
  revert k. induction l as [|x l IH]; intros [|y k] Hlen Hl Hk; try discriminate Hlen.
  - rewrite bool_decide_true by done. done.
  - apply Forall_cons in Hl as [Hx Hl]. apply Forall_cons in Hk as [Hy Hk].
    change (str_ltb (hex_char (Z.shiftr x 4) :: hex_char (Z.land x 15) :: (hexs l ++ a))
                    (hex_char (Z.shiftr y 4) :: hex_char (Z.land y 15) :: (hexs k ++ b))
            = if bool_decide (x :: l = y :: k) then str_ltb a b else lt_loop (x :: l) (y :: k)).
    rewrite str_ltb_byte by done. cbn [lt_loop].
    destruct (Z.eqb_spec x y) as [->|Hne]; cbn [negb].
    + rewrite IH by (auto; lia). repeat case_bool_decide; congruence.
    + by rewrite bool_decide_false by congruence.
Qed.

Lemma lt_loop_app l k l' k' :
  length l = length k ->
  lt_loop (l ++ l') (k ++ k') = if bool_decide (l = k) then lt_loop l' k' else lt_loop l k.
Proof.
  revert k. induction l as [|x l IH]; intros [|y k] Hlen; try discriminate Hlen; [done|].
  cbn [lt_loop app]. destruct (Z.eqb_spec x y) as [->|Hne]; cbn [negb].
  - rewrite IH by (cbn in Hlen; lia). repeat case_bool_decide; congruence.
  - by rewrite bool_decide_false by congruence.
Qed.

Lemma lt_loop_irrefl l : lt_loop l l = false.
Proof. induction l as [|x l IH]; [done|]. cbn. by rewrite Z.eqb_refl. Qed.

Lemma uuid_lt_text u v :
  wf_uuid u -> wf_uuid v ->
  str_ltb (uuid_to_string u) (uuid_to_string v) = uuid_ltb u v.
Proof.
  intros [Hl Hb] [Kl Kb]. destruct u as [l], v as [k]. cbn [bytes_] in *.
  destruct (uuid_groups l Hl) as (p1 & p2 & p3 & p4 & p5 & -> & ? & ? & ? & ? & ? & ->).
  destruct (uuid_groups k Kl) as (q1 & q2 & q3 & q4 & q5 & -> & ? & ? & ? & ? & ? & ->).
  rewrite !MI.is_bytes_app in Hb, Kb. destruct_and?.
  unfold uuid_ltb. cbn [bytes_].
  do 4 (rewrite !str_ltb_hexs by (done || congruence); rewrite str_ltb_same).
  rewrite str_ltb_hexs by (done || congruence).
  rewrite !lt_loop_app by congruence. cbn [str_ltb].
  repeat case_bool_decide; subst; try done. by rewrite lt_loop_irrefl.
Qed.

(** The order of identities, (swarm, unit bytes), is the alphabetical order of
    their text forms, as the header promises. *)
Theorem hid_order_is_text_order (a b : HierarchicalID) (Ha : wf_hid a) (Hb : wf_hid b) :
  hid_ltb a b = str_ltb (to_string a) (to_string b).
Proof.
  destruct a as [sa ua], b as [sb ub], Ha as [Sa Ua], Hb as [Sb Ub].
  cbn [swarm_id unit_id] in *. unfold hid_ltb, to_string. cbn [swarm_id unit_id app].
  destruct (swarm_split sa Sa) as [(? & ? & ? & ?) Ea].
  destruct (swarm_split sb Sb) as [(? & ? & ? & ?) Eb].
  rewrite !str_ltb_hex, str_ltb_same, uuid_lt_text by done. clear Ua Ub.
  set (p3 := Z.land (Z.shiftr sa 12) 15) in *. set (p2 := Z.land (Z.shiftr sa 8) 15) in *.
  set (p1 := Z.land (Z.shiftr sa 4) 15) in *. set (p0 := Z.land sa 15) in *.
  set (q3 := Z.land (Z.shiftr sb 12) 15) in *. set (q2 := Z.land (Z.shiftr sb 8) 15) in *.
  set (q1 := Z.land (Z.shiftr sb 4) 15) in *. set (q0 := Z.land sb 15) in *.
  destruct (Z.eqb_spec p3 q3), (Z.eqb_spec p2 q2), (Z.eqb_spec p1 q1), (Z.eqb_spec p0 q0),
    (Z.eqb_spec sa sb); cbn [negb]; try lia; done.
Qed.

Lemma hid_order_is_text_order_witness :
  wf_hid sample_hid /\ wf_hid nil_hid /\
  hid_ltb nil_hid sample_hid = str_ltb (to_string nil_hid) (to_string sample_hid).
Proof.
  assert (wf_hid sample_hid) as W.
  { split; [unfold MI.is_u16; cbn; lia|]. split; [reflexivity|].
    apply MI.bytesb_spec. reflexivity. }
  assert (wf_hid nil_hid) as W0.
  { split; [unfold MI.is_u16; cbn; lia|]. split; [reflexivity|].
    apply MI.bytesb_spec. reflexivity. }
  split; [exact W|]. split; [exact W0|]. exact (hid_order_is_text_order _ _ W0 W).
Defined.

(** ** Generated identifiers *)

Lemma fill_loop_16 rd :
  fill_loop rd (S SIZE) 0 0 (replicate SIZE 0)
  = MI.le_bytes 4 (rd 0%nat) ++ MI.le_bytes 4 (rd 1%nat)
    ++ MI.le_bytes 4 (rd 2%nat) ++ MI.le_bytes 4 (rd 3%nat).
Proof. done. Qed.

(** What every generated identifier satisfies. *)
Lemma generate_spec (rd : nat -> Z) :
  let u := generate rd in
  wf_uuid u /\ version u = 4 /\ Z.land (MI.at_ (bytes_ u) 8) 192 = 128
  /\ is_nil u = false
  /\ (forall i, i <> 6%nat -> i <> 8%nat ->
        bytes_ u !! i = (MI.le_bytes 4 (rd 0%nat) ++ MI.le_bytes 4 (rd 1%nat)
                        ++ MI.le_bytes 4 (rd 2%nat) ++ MI.le_bytes 4 (rd 3%nat)) !! i).
Proof.
  cbn zeta. unfold generate. rewrite fill_loop_16.
  set (b := _ ++ _). assert (length b = 16%nat) as Hl by (subst b; len).
  assert (MI.is_bytes b) as Hb by (subst b; rewrite !MI.is_bytes_app; auto with mith).
  generalize dependent b. intros b Hl Hb.
  set (v6 := MI.u8 (Z.lor (Z.land (MI.at_ b 6) 15) 64)).
  assert (64 <= v6 < 80) as R6.
  { subst v6. change 15 with (Z.ones 4). rewrite Z.land_ones by lia.
    pose proof (Z.mod_pos_bound (MI.at_ b 6) (2 ^ 4) ltac:(lia)) as R.
    rewrite (MI.lor_shiftl_add _ 4 4 ltac:(lia) R : Z.lor _ 64 = _).
    change (2 ^ 4) with 16 in *. rewrite MI.u8_id; unfold MI.is_u8; lia. }
  set (b8 := MI.at_ (<[6%nat:=v6]> b) 8).
  set (v8 := MI.u8 (Z.lor (Z.land b8 63) 128)).
  assert (128 <= v8 < 192) as R8.
  { subst v8. change 63 with (Z.ones 6). rewrite Z.land_ones by lia.
    pose proof (Z.mod_pos_bound b8 (2 ^ 6) ltac:(lia)) as R.
    rewrite (MI.lor_shiftl_add _ 2 6 ltac:(lia) R : Z.lor _ 128 = _).
    change (2 ^ 6) with 64 in *. rewrite MI.u8_id; unfold MI.is_u8; lia. }
  assert (Z.land v8 192 = 128) as L8.
  { assert (forall v, 128 <= v < 192 -> (Z.land v 192 =? 128) = true) as K.
    { intros v Hv. assert (v = 128 + Z.of_nat (Z.to_nat (v - 128))) as -> by lia.
      assert (Z.to_nat (v - 128) < 64)%nat as Hn by lia.
      apply (proj1 (forallb_forall (fun n => Z.land (128 + Z.of_nat n) 192 =? 128) (seq 0 64)));
        [reflexivity|apply in_seq; lia]. }
    by apply Z.eqb_eq, K. }
  assert (Z.shiftr (Z.land v6 240) 4 = 4) as L6.
  { assert (forall v, 64 <= v < 80 -> (Z.shiftr (Z.land v 240) 4 =? 4) = true) as K.
    { intros v Hv. assert (v = 64 + Z.of_nat (Z.to_nat (v - 64))) as -> by lia.
      apply (proj1 (forallb_forall (fun n => Z.shiftr (Z.land (64 + Z.of_nat n) 240) 4 =? 4) (seq 0 16)));
        [reflexivity|apply in_seq; lia]. }
    by apply Z.eqb_eq, K. }
  clearbody v6 v8. clear b8. explode b Hl. cbn [insert list_insert bytes_]. split_and!.
  - split; [done|]. unfold MI.is_bytes, MI.is_u8 in *. decompose_Forall_hyps.
    repeat first [apply Forall_nil_2 | apply Forall_cons_2; [lia|]].
  - unfold version, MI.at_. cbn [bytes_ nth]. rewrite L6. done.
  - done.
  - unfold is_nil. cbn [bytes_ forallb]. rewrite (proj2 (Z.eqb_neq v6 0)) by lia.
    by rewrite !andb_false_r.
  - intros i H6 H8. do 16 (destruct i as [|i]; [try done; congruence|]). done.
Qed.

(** Whatever the entropy source returns, [UUID::generate] terminates with 16
    bytes carrying version 4 and the RFC 4122 variant bits, so a generated
    identity is never the nil UUID that marks a broadcast, and every other bit is
    the entropy source's. *)
Theorem generate_is_v4 (rd : nat -> Z) :
  let u := generate rd in
  wf_uuid u /\ version u = 4 /\ Z.land (MI.at_ (bytes_ u) 8) 192 = 128
  /\ is_nil u = false
  /\ (forall i, i <> 6%nat -> i <> 8%nat ->
        bytes_ u !! i = (MI.le_bytes 4 (rd 0%nat) ++ MI.le_bytes 4 (rd 1%nat)
                        ++ MI.le_bytes 4 (rd 2%nat) ++ MI.le_bytes 4 (rd 3%nat)) !! i).
Proof. apply generate_spec. Qed.

End Id.
