(* ===== verification/SerialFraming.v ===== *)
(** Byte-stream framing for serial links ([include/mith/comms/serial_framing.h],
    [src/comms/serial_framing.cpp]): the encoder and the resynchronising decoder
    state machine.  The frame callback is modelled by the list of frames it was
    called with, in order. *)

From S2P Require Import Prelude MachineInt.
Local Open Scope Z_scope.

Module Framing.

(* @src include/mith/comms/serial_framing.h:30-33 SYNC_BYTE_1, SYNC_BYTE_2, FRAME_HEADER_BYTES, MAX_PAYLOAD_BYTES *)
Definition SYNC_BYTE_1 : Z := 165.
Definition SYNC_BYTE_2 : Z := 90.
Definition FRAME_HEADER_BYTES : nat := 4.
Definition MAX_PAYLOAD_BYTES : nat := 1500.

(** [payload] has [len] bytes; the result is the updated buffer and the count. *)
(* @src src/comms/serial_framing.cpp:7-19 serial_framing::encode *)
Definition encode (payload out : list Z) (cap : nat) : list Z * nat :=
  let len := length payload in
  if (MAX_PAYLOAD_BYTES <? len)%nat then (out, 0%nat)
  else
    let total := (FRAME_HEADER_BYTES + len)%nat in
    if (cap <? total)%nat then (out, 0%nat)
    else
      let out := <[0%nat := SYNC_BYTE_1]> out in
      let out := <[1%nat := SYNC_BYTE_2]> out in
      let out := <[2%nat := Z.land (Z.of_nat len) 255]> out in
      let out := <[3%nat := Z.land (Z.shiftr (Z.of_nat len) 8) 255]> out in
      let out := if (0 <? len)%nat then write_at out 4 payload else out in
      (out, total).

(* @src include/mith/comms/serial_framing.h:63-69 Parser::State *)
Inductive State := WaitSync1 | WaitSync2 | WaitLenLo | WaitLenHi | ReadPayload.

#[global] Instance State_eq_dec : EqDecision State.
Proof. solve_decision. Defined.

(* @src include/mith/comms/serial_framing.h:42-77 Parser *)
Record Parser := mk_parser {
  state_ : State;
  expected_len_ : Z;
  filled_ : Z;
  buffer_ : list Z;
  frames_decoded_ : Z;
  bytes_dropped_ : Z;
}.

(* @src src/comms/serial_framing.cpp:21-22 Parser::Parser *)
Definition new_parser (max_payload : nat) : Parser :=
  mk_parser WaitSync1 0 0 (replicate max_payload 0) 0 0.

(* @src src/comms/serial_framing.cpp:24-28 Parser::reset *)
Definition reset (p : Parser) : Parser :=
  mk_parser WaitSync1 0 0 p.(buffer_) p.(frames_decoded_) p.(bytes_dropped_).

Definition with_state (s : State) (p : Parser) : Parser :=
  mk_parser s p.(expected_len_) p.(filled_) p.(buffer_) p.(frames_decoded_) p.(bytes_dropped_).
Definition with_len (l : Z) (p : Parser) : Parser :=
  mk_parser p.(state_) l p.(filled_) p.(buffer_) p.(frames_decoded_) p.(bytes_dropped_).
Definition with_fill (f : Z) (b : list Z) (p : Parser) : Parser :=
  mk_parser p.(state_) p.(expected_len_) f b p.(frames_decoded_) p.(bytes_dropped_).
Definition drop_bytes (n : Z) (p : Parser) : Parser :=
  mk_parser p.(state_) p.(expected_len_) p.(filled_) p.(buffer_) p.(frames_decoded_)
    (MI.u64 (p.(bytes_dropped_) + n)).
Definition count_frame (p : Parser) : Parser :=
  mk_parser p.(state_) p.(expected_len_) p.(filled_) p.(buffer_)
    (MI.u64 (p.(frames_decoded_) + 1)) p.(bytes_dropped_).

(** One iteration of the loop of [feed]: the new state and the frames the
    callback received (at most one). *)
(* @src src/comms/serial_framing.cpp:31-81 Parser::feed (loop body) *)
Definition feed_byte (p : Parser) (b : Z) : Parser * list (list Z) :=
  match p.(state_) with
  | WaitSync1 =>
      if b =? SYNC_BYTE_1 then (with_state WaitSync2 p, []) else (drop_bytes 1 p, [])
  | WaitSync2 =>
      if b =? SYNC_BYTE_2 then (with_state WaitLenLo p, [])
      else if b =? SYNC_BYTE_1 then (drop_bytes 1 p, [])
      else (drop_bytes 2 (with_state WaitSync1 p), [])
  | WaitLenLo => (with_state WaitLenHi (with_len b p), [])
  | WaitLenHi =>
      let p := with_len (MI.u16 (Z.lor p.(expected_len_) (Z.shiftl b 8))) p in
      if Z.of_nat (length p.(buffer_)) <? p.(expected_len_)
      then (reset (drop_bytes (Z.of_nat FRAME_HEADER_BYTES) p), [])
      else if p.(expected_len_) =? 0 then (reset (count_frame p), [[]])
      else (with_state ReadPayload (with_fill 0 p.(buffer_) p), [])
  | ReadPayload =>
      let p := with_fill (MI.u16 (p.(filled_) + 1))
                 (<[Z.to_nat p.(filled_) := b]> p.(buffer_)) p in
      if p.(filled_) =? p.(expected_len_)
      then (reset (count_frame p), [take (Z.to_nat p.(filled_)) p.(buffer_)])
      else (p, [])
  end.

(* @src src/comms/serial_framing.cpp:30-82 Parser::feed *)
Fixpoint feed (p : Parser) (bytes : list Z) : Parser * list (list Z) :=
  match bytes with
  | [] => (p, [])
  | b :: bytes =>
      let '(p1, f1) := feed_byte p b in
      let '(p2, f2) := feed p1 bytes in
      (p2, f1 ++ f2)
  end.

(** ** The well-formed parser states

    In [ReadPayload] the next write is inside the buffer; that is what makes
    [buffer_\[filled_++\]] safe. *)
Record wf (p : Parser) : Prop := {
  wf_bytes : MI.is_bytes p.(buffer_);
  wf_hi : p.(state_) = WaitLenHi -> MI.is_u8 p.(expected_len_);
  wf_read : p.(state_) = ReadPayload ->
    0 <= p.(filled_) < p.(expected_len_)
    /\ p.(expected_len_) <= Z.of_nat (length p.(buffer_))
    /\ p.(expected_len_) < 2 ^ 16;
  wf_dropped : MI.is_u64 p.(bytes_dropped_);
}.

(** Bytes received but not yet accounted for in a frame or as dropped. *)
Definition pending (p : Parser) : Z :=
  match p.(state_) with
  | WaitSync1 => 0
  | WaitSync2 => 1
  | WaitLenLo => 2
  | WaitLenHi => 3
  | ReadPayload => 4 + p.(filled_)
  end.

Definition framed_bytes (fs : list (list Z)) : Z :=
  foldr (fun f n => Z.of_nat (FRAME_HEADER_BYTES + length f) + n) 0 fs.

(** The bytes [encode] produces. *)
Definition frame_of (payload : list Z) : list Z :=
  SYNC_BYTE_1 :: SYNC_BYTE_2 :: MI.le_bytes 2 (Z.of_nat (length payload)) ++ payload.

Lemma framed_bytes_app f g : framed_bytes (f ++ g) = framed_bytes f + framed_bytes g.
Proof.
  induction f as [|x f IH]; [done|]. cbn [app framed_bytes foldr].
  change (foldr _ 0 (f ++ g)) with (framed_bytes (f ++ g)).
  change (foldr _ 0 f) with (framed_bytes f). lia.
Qed.

Lemma new_parser_wf n : wf (new_parser n).
Proof. constructor; cbn; auto with mith; done. Qed.

Lemma u16_join lo hi : MI.is_u8 lo -> MI.is_u8 hi ->
  MI.u16 (Z.lor lo (Z.shiftl hi 8)) = lo + hi * 256.
Proof.
  unfold MI.is_u8. intros Hl Hh. rewrite MI.lor_shiftl_add by lia.
  unfold MI.u16. apply Z.mod_small. lia.
Qed.

Lemma feed_byte_wf p b : wf p -> MI.is_u8 b -> wf (feed_byte p b).1.
Proof.
  intros [Wb Wh Wr Wd] Hb. unfold feed_byte. destruct (state_ p) eqn:Es.
  - case_match; constructor; cbn; auto with mith; rewrite ?Es; done.
  - repeat case_match; constructor; cbn; auto with mith; rewrite ?Es; done.
  - constructor; cbn; auto with mith; done.
  - specialize (Wh eq_refl). cbn. rewrite u16_join by done.
    unfold MI.is_u8 in *. repeat case_match; zbool; constructor; cbn; auto with mith; try done.
    intros _. lia.
  - specialize (Wr eq_refl) as (R1 & R2 & R3). cbn.
    assert (MI.u16 (filled_ p + 1) = filled_ p + 1) as -> by (apply Z.mod_small; lia).
    case_match; zbool; constructor; cbn; rewrite ?length_insert, ?Es; auto with mith; try done;
      try (apply Forall_insert; auto with mith). intros _. lia.
Qed.

Lemma feed_app p a b :
  feed p (a ++ b) =
    let '(p1, f1) := feed p a in let '(p2, f2) := feed p1 b in (p2, f1 ++ f2).
Proof.
  revert p. induction a as [|x a IH]; intros p; cbn; [by destruct (feed p b)|].
  destruct (feed_byte p x) as [p1 f1]. rewrite IH.
  destruct (feed p1 a) as [p2 f2]. destruct (feed p2 b) as [p3 f3].
  by rewrite app_assoc.
Qed.

Lemma feed_wf p l : wf p -> MI.is_bytes l -> wf (feed p l).1.
Proof.
  intros W Hl. revert p W. induction Hl as [|b l Hb Hl IH]; intros p W; [done|]. cbn.
  pose proof (feed_byte_wf p b W Hb) as W1. destruct (feed_byte p b) as [p1 f1].
  specialize (IH p1 W1). by destruct (feed p1 l).
Qed.

Lemma feed_byte_buffer p b : length (buffer_ (feed_byte p b).1) = length (buffer_ p).
Proof.
  unfold feed_byte. repeat (case_match; cbn); try done; by rewrite length_insert.
Qed.

(** ** Accounting *)

Definition owed (p : Parser) : Z := p.(bytes_dropped_) + pending p.

Lemma feed_byte_accounts p b :
  wf p -> MI.is_u8 b ->
  (owed (feed_byte p b).1 + framed_bytes (feed_byte p b).2) mod 2 ^ 64
  = (owed p + 1) mod 2 ^ 64.
Proof.
  intros [Wb Wh Wr Wd] Hb. unfold feed_byte, owed, pending, framed_bytes, FRAME_HEADER_BYTES.
  destruct (state_ p) eqn:Es.
  - destruct (b =? SYNC_BYTE_1); cbn; rewrite ?Es; cbn match; unfold MI.u64;
      rewrite ?Z.add_0_r, ?Z.mod_mod by lia; f_equal; lia.
  - destruct (b =? SYNC_BYTE_2), (b =? SYNC_BYTE_1); cbn; rewrite ?Es; cbn match;
      unfold MI.u64; rewrite ?Z.add_0_r, ?Zplus_mod_idemp_l, ?Z.mod_mod by lia; f_equal; lia.
  - cbn. f_equal. lia.
  - specialize (Wh eq_refl). cbn.
    set (e := MI.u16 _). destruct (Z.of_nat (length (buffer_ p)) <? e), (e =? 0);
      cbn; unfold MI.u64; rewrite ?Z.add_0_r, ?Z.mod_mod by lia; f_equal; lia.
  - specialize (Wr eq_refl) as (R1 & R2 & R3). cbn.
    assert (MI.u16 (filled_ p + 1) = filled_ p + 1) as -> by (apply Z.mod_small; lia).
    destruct (Z.eqb_spec (filled_ p + 1) (expected_len_ p)); cbn; rewrite ?Es; cbn match;
      f_equal; [|lia].
    rewrite length_take, length_insert. lia.
Qed.

Lemma feed_accounts p l :
  wf p -> MI.is_bytes l ->
  (owed (feed p l).1 + framed_bytes (feed p l).2) mod 2 ^ 64
  = (owed p + Z.of_nat (length l)) mod 2 ^ 64.
Proof.
  intros W Hl. revert p W. induction Hl as [|b l Hb Hl IH]; intros p W.
  { cbn. by rewrite !Z.add_0_r. }
  cbn [feed length]. pose proof (feed_byte_wf p b W Hb) as W1.
  pose proof (feed_byte_accounts p b W Hb) as A1.
  destruct (feed_byte p b) as [p1 f1]. cbn [fst snd] in *. specialize (IH p1 W1).
  destruct (feed p1 l) as [p2 f2]. cbn [fst snd] in *. rewrite framed_bytes_app.
  replace (owed p2 + (framed_bytes f1 + framed_bytes f2))
    with (owed p2 + framed_bytes f2 + framed_bytes f1) by lia.
  rewrite <- Zplus_mod_idemp_l, IH, Zplus_mod_idemp_l.
  replace (owed p1 + Z.of_nat (length l) + framed_bytes f1)
    with (owed p1 + framed_bytes f1 + Z.of_nat (length l)) by lia.
  rewrite <- Zplus_mod_idemp_l, A1, Zplus_mod_idemp_l. f_equal. lia.
Qed.

(** ** Decoding what was encoded *)

Lemma encode_spec payload out cap :
  (cap <= length out)%nat ->
  encode payload out cap =
    if (MAX_PAYLOAD_BYTES <? length payload)%nat || (cap <? FRAME_HEADER_BYTES + length payload)%nat
    then (out, 0%nat)
    else (write_at out 0 (frame_of payload), (FRAME_HEADER_BYTES + length payload)%nat).
Proof.
  intros Hcap. unfold encode, frame_of.
  destruct (Nat.ltb_spec MAX_PAYLOAD_BYTES (length payload)) as [|Hm]; [done|].
  destruct (Nat.ltb_spec cap (FRAME_HEADER_BYTES + length payload)) as [|Hc]; [done|].
  cbn [orb]. unfold FRAME_HEADER_BYTES in *. f_equal.
  assert (forall o, (4 <= length o)%nat ->
    <[3%nat:=Z.land (Z.of_nat (length payload) ≫ 8) 255]>
      (<[2%nat:=Z.land (Z.of_nat (length payload)) 255]>
        (<[1%nat:=SYNC_BYTE_2]> (<[0%nat:=SYNC_BYTE_1]> o)))
    = write_at o 0 (SYNC_BYTE_1 :: SYNC_BYTE_2 :: MI.le_bytes 2 (Z.of_nat (length payload)))) as H4.
  { intros o Ho. by MI.collapse_writes. }
  rewrite H4 by lia. destruct payload as [|b l]; [done|].
  cbn [length Nat.ltb Nat.leb] in *.
  rewrite write_at_app by (cbn [length MI.le_bytes]; lia). done.
Qed.

(** A parser that has just delivered [payload]. *)
Definition delivered (p : Parser) (payload : list Z) (r : Parser * list (list Z)) : Prop :=
  r.2 = [payload] /\ r.1.(state_) = WaitSync1
  /\ r.1.(bytes_dropped_) = MI.u64 (p.(bytes_dropped_) + pending p)
  /\ r.1.(frames_decoded_) = MI.u64 (p.(frames_decoded_) + 1)
  /\ length r.1.(buffer_) = length p.(buffer_).

Lemma read_payload l p :
  wf p -> MI.is_bytes l -> p.(state_) = ReadPayload -> l <> [] ->
  p.(expected_len_) = p.(filled_) + Z.of_nat (length l) ->
  let r := feed p l in
  r.2 = [take (Z.to_nat p.(filled_)) p.(buffer_) ++ l]
  /\ r.1.(state_) = WaitSync1 /\ r.1.(bytes_dropped_) = p.(bytes_dropped_)
  /\ r.1.(frames_decoded_) = MI.u64 (p.(frames_decoded_) + 1)
  /\ length r.1.(buffer_) = length p.(buffer_).
Proof.
  intros W Hl. revert p W. induction Hl as [|b l Hb Hl IH]; intros p W Es Hne He; [done|].
  clear Hne. destruct (wf_read p W Es) as (R1 & R2 & R3).
  pose proof (feed_byte_wf p b W Hb) as W1. revert W1.
  cbn [feed length] in *. unfold feed_byte. rewrite Es. cbn.
  assert (MI.u16 (filled_ p + 1) = filled_ p + 1) as -> by (apply Z.mod_small; lia).
  assert (take (Z.to_nat (filled_ p + 1)) (<[Z.to_nat (filled_ p):=b]> (buffer_ p))
          = take (Z.to_nat (filled_ p)) (buffer_ p) ++ [b]) as Ht.
  { rewrite insert_take_drop by lia. rewrite take_app_ge by (rewrite length_take; lia).
    rewrite length_take, Nat.min_l by lia.
    by replace (Z.to_nat (filled_ p + 1) - Z.to_nat (filled_ p))%nat with 1%nat by lia. }
  destruct (Z.eqb_spec (filled_ p + 1) (expected_len_ p)) as [E|E]; intros W1; cbn [fst] in W1.
  - assert (l = []) as -> by (destruct l; [done|cbn in He; lia]). cbn.
    by rewrite Ht, length_insert.
  - assert (l <> []) as Hne by (intros ->; cbn in He; lia).
    destruct (IH _ W1 Es Hne) as (F & S & D & C & L); [cbn; lia|].
    destruct (feed _ l) as [p2 f2] in F, S, D, C, L |- *. cbn in *.
    rewrite F, Ht, <- app_assoc, L, length_insert. done.
Qed.

(** From either synchronisation state, one encoded frame is delivered whole. *)
Lemma feed_frame p payload :
  wf p -> MI.is_bytes payload -> p.(state_) = WaitSync1 \/ p.(state_) = WaitSync2 ->
  (length payload <= length p.(buffer_))%nat -> Z.of_nat (length payload) < 65536 ->
  delivered p payload (feed p (frame_of payload)).
Proof.
  intros W Hp Hs Hl Hm. unfold frame_of. cbn [MI.le_bytes app].
  set (lo := Z.land _ 255). set (hi := Z.land _ 255).
  assert (MI.is_u8 lo) as Hlo by (subst lo; rewrite MI.land_255_u8; apply MI.u8_range).
  assert (MI.is_u8 hi) as Hhi by (subst hi; rewrite MI.land_255_u8; apply MI.u8_range).
  assert (MI.u16 (Z.lor lo (Z.shiftl hi 8)) = Z.of_nat (length payload)) as Hj.
  { pose proof (MI.le_value_bytes_id 2 (Z.of_nat (length payload)) ltac:(lia)) as E.
    cbn [MI.le_bytes] in E. fold lo hi in E.
    rewrite !MI.le_value_cons in E by done. cbn [MI.le_value] in E.
    rewrite u16_join by done. lia. }
  clearbody lo hi.
  set (p0 := if decide (state_ p = WaitSync1) then p else drop_bytes 1 p).
  assert (feed_byte p SYNC_BYTE_1 = (with_state WaitSync2 p0, [])) as E1.
  { unfold feed_byte, p0. destruct Hs as [Es|Es]; rewrite Es; [done|].
    destruct p. cbn in *. by rewrite Es. }
  assert (bytes_dropped_ p0 = MI.u64 (bytes_dropped_ p + pending p)) as Ed.
  { destruct W as [_ _ _ Wd]. unfold p0, pending.
    destruct Hs as [Es|Es]; rewrite Es; cbn; [|done].
    rewrite Z.add_0_r. by rewrite MI.u64_id. }
  assert (buffer_ p0 = buffer_ p /\ frames_decoded_ p0 = frames_decoded_ p) as [Eb Ef]
    by (unfold p0; by case_decide).
  assert (MI.is_u64 (bytes_dropped_ p0)) as Wd0 by (rewrite Ed; auto with mith).
  clearbody p0. cbn [feed]. rewrite E1. cbn [feed_byte state_ with_state].
  rewrite Z.eqb_refl. cbn [feed_byte state_ with_state with_len expected_len_ buffer_].
  rewrite Hj, Eb. rewrite (proj2 (Z.ltb_ge _ _)) by lia.
  destruct payload as [|b l].
  - change (Z.of_nat (length [])) with 0. unfold delivered. cbn. by rewrite ?Ed, ?Ef, ?Eb.
  - destruct (Z.eqb_spec (Z.of_nat (length (b :: l))) 0) as [|_]; [cbn in *; lia|].
    set (q := with_state ReadPayload _).
    assert (wf q) as Wq.
    { constructor; [by destruct W|done| |done]. intros _. cbn [filled_ expected_len_ buffer_ q].
      cbn in *. lia. }
    destruct (read_payload (b :: l) q Wq Hp eq_refl) as (F & S & D & C & L); [done|done|].
    destruct (feed q (b :: l)) as [r fs]. unfold delivered. cbn in *.
    by rewrite F, S, D, C, L, Ed, Ef.
Qed.

(** Line noise that never shows the synchronisation pair. *)
Fixpoint no_sync (l : list Z) : bool :=
  match l with
  | a :: (b :: _) as t => negb ((a =? SYNC_BYTE_1) && (b =? SYNC_BYTE_2)) && no_sync t
  | _ => true
  end.

Definition hunting (p : Parser) : Prop := p.(state_) = WaitSync1 \/ p.(state_) = WaitSync2.

Lemma feed_noise l p :
  hunting p ->
  no_sync (if decide (p.(state_) = WaitSync2) then SYNC_BYTE_1 :: l else l) = true ->
  (feed p l).2 = [] /\ hunting (feed p l).1
  /\ (feed p l).1.(frames_decoded_) = p.(frames_decoded_)
  /\ length (feed p l).1.(buffer_) = length p.(buffer_).
Proof.
  revert p. induction l as [|b l IH]; intros p Hp Hn; [done|].
  assert (no_sync (b :: l) = true) as Hbl.
  { case_decide; [|done]. cbn [no_sync] in Hn. by apply andb_true_iff in Hn as [_ Hn]. }
  assert (no_sync l = true) as Hl.
  { destruct l; [done|]. cbn [no_sync] in Hbl. by apply andb_true_iff in Hbl as [_ Hbl]. }
  cbn [feed]. unfold feed_byte. destruct Hp as [Es|Es]; rewrite Es in *.
  - destruct (Z.eqb_spec b SYNC_BYTE_1) as [->|Hb].
    + edestruct (IH (with_state WaitSync2 p)) as (F & H & C & L); [by right|done|].
      destruct (feed _ l). cbn in *. by rewrite F.
    + edestruct (IH (drop_bytes 1 p)) as (F & H & C & L); [by left|cbn; by rewrite Es|].
      destruct (feed _ l). cbn in *. by rewrite F.
  - rewrite decide_True in Hn by done. cbn [no_sync] in Hn.
    apply andb_true_iff in Hn as [Hb2 _]. rewrite Z.eqb_refl in Hb2. cbn [andb] in Hb2.
    apply negb_true_iff in Hb2. rewrite Hb2.
    destruct (Z.eqb_spec b SYNC_BYTE_1) as [->|Hb].
    + edestruct (IH (drop_bytes 1 p)) as (F & H & C & L); [by right|cbn; by rewrite Es|].
      destruct (feed _ l). cbn in *. by rewrite F.
    + edestruct (IH (drop_bytes 2 (with_state WaitSync1 p))) as (F & H & C & L);
        [by left|done|].
      destruct (feed _ l). cbn in *. by rewrite F.
Qed.

(** A stream: each payload framed, with noise in front of it. *)
Definition stream (ns : list (list Z * list Z)) : list Z :=
  flat_map (fun np => np.1 ++ frame_of np.2) ns.

Definition noise_bytes (ns : list (list Z * list Z)) : Z :=
  foldr (fun np n => Z.of_nat (length np.1) + n) 0 ns.

Definition sendable (max : nat) (np : list Z * list Z) : Prop :=
  MI.is_bytes np.1 /\ no_sync np.1 = true /\ MI.is_bytes np.2
  /\ (length np.2 <= max)%nat /\ (length np.2 <= MAX_PAYLOAD_BYTES)%nat.

Lemma frame_of_is_bytes payload : MI.is_bytes payload -> MI.is_bytes (frame_of payload).
Proof.
  intros H. unfold frame_of. apply Forall_cons_2; [unfold MI.is_u8, SYNC_BYTE_1; lia|].
  apply Forall_cons_2; [unfold MI.is_u8, SYNC_BYTE_2; lia|].
  apply MI.is_bytes_app. auto with mith.
Qed.

Lemma feed_stream ns p :
  wf p -> p.(state_) = WaitSync1 -> Forall (sendable (length p.(buffer_))) ns ->
  let r := feed p (stream ns) in
  r.2 = map snd ns /\ r.1.(state_) = WaitSync1
  /\ r.1.(bytes_dropped_) = MI.u64 (p.(bytes_dropped_) + noise_bytes ns).
Proof.
  revert p. induction ns as [|[noise payload] ns IH]; intros p W Es Hns.
  { cbn. rewrite Z.add_0_r, MI.u64_id by (by destruct W). done. }
  apply Forall_cons in Hns as [(Hn & Hsync & Hp & Hlen & Hmax) Hns]. cbn [fst snd] in *.
  cbn [stream flat_map fst snd]. change (flat_map _ ns) with (stream ns).
  rewrite !feed_app.
  destruct (feed_noise noise p) as (F1 & S1 & C1 & L1); [by left|by rewrite Es|].
  pose proof (feed_accounts p noise W Hn) as A1. pose proof (feed_wf p noise W Hn) as W1.
  destruct (feed p noise) as [p1 f1]. cbn [fst snd] in *. subst f1.
  pose proof (feed_frame p1 payload W1 Hp S1 ltac:(lia)
                ltac:(unfold MAX_PAYLOAD_BYTES in *; lia)) as (F2 & S2 & D2 & C2 & L2).
  pose proof (feed_wf p1 (frame_of payload) W1 (frame_of_is_bytes _ Hp)) as W2.
  destruct (feed p1 (frame_of payload)) as [p2 f2]. cbn [fst snd] in *. subst f2.
  destruct (IH p2 W2 S2) as (F3 & S3 & D3); [by rewrite L2, L1|].
  destruct (feed p2 (stream ns)) as [p3 f3]. cbn [fst snd app map] in *. subst f3.
  split_and!; [done|done|]. rewrite D3, D2.
  change (bytes_dropped_ p1 + pending p1) with (owed p1).
  cbn [framed_bytes foldr] in A1. rewrite Z.add_0_r in A1.
  unfold MI.u64 in *. rewrite A1. unfold owed, pending. rewrite Es.
  rewrite Zplus_mod_idemp_l. cbn [noise_bytes foldr fst]. f_equal.
  change (foldr _ 0 ns) with (noise_bytes ns). lia.
Qed.

(** The reads of a byte stream, fed one after the other. *)
Fixpoint feed_reads (p : Parser) (reads : list (list Z)) : Parser * list (list Z) :=
  match reads with
  | [] => (p, [])
  | r :: reads =>
      let '(p, f1) := feed p r in
      let '(p, f2) := feed_reads p reads in
      (p, f1 ++ f2)
  end.

Lemma feed_reads_concat reads : forall p, feed_reads p reads = feed p (concat reads).
Proof.
  induction reads as [|r reads IH]; intros p; [done|]. cbn [feed_reads concat]. rewrite feed_app.
  destruct (feed p r) as [p1 f1]. by rewrite IH.
Qed.

(** C19: frames survive line noise and arbitrary splitting of the byte stream.  A
    stream of payloads, each encoded as [encode] does and preceded by noise without
    the synchronisation pair (so also noise ending in sync bytes), cut into any number
    of reads at any places, is delivered by [feed] as exactly those payloads in order;
    the parser ends in [WaitSync1] and [bytes_dropped] has grown by exactly the noise. *)
Theorem stream_roundtrip (max : nat) (ns : list (list Z * list Z)) (reads : list (list Z))
    (Hns : Forall (sendable max) ns) (Hcut : stream ns = concat reads) :
  (forall n payload out, In (n, payload) ns ->
     (FRAME_HEADER_BYTES + length payload <= length out)%nat ->
     encode payload out (length out)
     = (write_at out 0 (frame_of payload), (FRAME_HEADER_BYTES + length payload)%nat))
  /\ let '(p, frames) := feed_reads (new_parser max) reads in
     frames = map snd ns /\ p.(state_) = WaitSync1
     /\ p.(bytes_dropped_) = MI.u64 (noise_bytes ns).
Proof.
  split.
  - intros n payload out Hin Hlen. rewrite encode_spec by done.
    rewrite Forall_forall in Hns. apply list_elem_of_In, Hns in Hin as (_ & _ & _ & _ & Hmax).
    cbn in Hmax. rewrite (proj2 (Nat.ltb_ge _ _)), (proj2 (Nat.ltb_ge _ _)) by done. done.
  - destruct (feed_stream ns (new_parser max)) as (F & S & D);
      [apply new_parser_wf|done|cbn; by rewrite length_replicate|].
    rewrite feed_reads_concat, <- Hcut. by destruct (feed (new_parser max) (stream ns)) as [p frames].
Qed.

(** Three frames in three reads. *)
Lemma stream_roundtrip_witness :
  let ns := [([7; 165; 1; 165], [10; 20; 30]); ([], []); ([90], [255])] in
  let reads := [take 9 (stream ns); [nth 9 (stream ns) 0]; drop 10 (stream ns)] in
  Forall (sendable 16) ns /\ (feed_reads (new_parser 16) reads).2 = [[10; 20; 30]; []; [255]].
Proof.
  cbn zeta. set (ns := [([7; 165; 1; 165], [10; 20; 30]); ([], []); ([90], [255])]). set (reads := [_; _; _]).
  assert (Forall (sendable 16) ns) as H.
  { subst ns. unfold sendable, MAX_PAYLOAD_BYTES.
    repeat (apply Forall_cons_2;
      [split_and!; cbn; try lia; try reflexivity; apply MI.bytesb_spec; reflexivity|]).
    apply Forall_nil_2. }
  split; [exact H|]. pose proof (stream_roundtrip 16 ns reads H ltac:(vm_compute; reflexivity)) as [_ R].
  destruct (feed_reads (new_parser 16) reads) as [p f]. exact (proj1 R).
Defined.

(** C20: no input can make the decoder write outside its buffer or lose count of a
    byte.  For every byte sequence fed to a fresh parser, the reachable state is
    well-formed (in [ReadPayload] the write index is below the declared length,
    which is at most the buffer's), the buffer keeps its size, every delivered
    frame fits in it, and dropped bytes, delivered frames with their headers and the
    bytes of the frame in progress add up to the bytes received, modulo the 64-bit
    counter. *)
Theorem feed_safe_and_accounted (max : nat) (bytes : list Z) (Hb : MI.is_bytes bytes) :
  let '(p, fs) := feed (new_parser max) bytes in
  wf p /\ length p.(buffer_) = max
  /\ Forall (fun f => (length f <= max)%nat) fs
  /\ (p.(bytes_dropped_) + pending p + framed_bytes fs) mod 2 ^ 64
     = Z.of_nat (length bytes) mod 2 ^ 64.
Proof.
  pose proof (feed_wf _ _ (new_parser_wf max) Hb) as W.
  pose proof (feed_accounts _ _ (new_parser_wf max) Hb) as A.
  assert (forall p l, length (buffer_ (feed p l).1) = length (buffer_ p)
            /\ Forall (fun f => (length f <= length (buffer_ p))%nat) (feed p l).2) as K.
  { intros p l. revert p. induction l as [|b l IH]; intros p; [done|]. cbn [feed].
    pose proof (feed_byte_buffer p b) as Hbuf.
    assert (Forall (fun f => (length f <= length (buffer_ p))%nat) (feed_byte p b).2) as Hf.
    { unfold feed_byte. repeat case_match; cbn; repeat constructor; cbn; try lia.
      rewrite length_take, length_insert. lia. }
    destruct (feed_byte p b) as [p1 f1]. destruct (IH p1) as [L F].
    destruct (feed p1 l) as [p2 f2]. cbn [fst snd] in *. rewrite Hbuf in *.
    split; [done|]. by apply Forall_app. }
  destruct (K (new_parser max) bytes) as [L F]. cbn [new_parser buffer_] in L, F.
  rewrite length_replicate in L, F.
  destruct (feed (new_parser max) bytes) as [p fs]. cbn [fst snd] in *.
  split_and!; done.
Qed.

Lemma feed_safe_and_accounted_witness :
  MI.is_bytes [1; 165; 90; 255; 255; 165; 90; 2; 0; 5]
  /\ wf (feed (new_parser 8) [1; 165; 90; 255; 255; 165; 90; 2; 0; 5]).1
  /\ bytes_dropped_ (feed (new_parser 8) [1; 165; 90; 255; 255; 165; 90; 2; 0; 5]).1 = 5.
Proof.
  assert (MI.is_bytes [1; 165; 90; 255; 255; 165; 90; 2; 0; 5]) as Hb
    by (apply MI.bytesb_spec; reflexivity).
  split; [exact Hb|]. split; [|reflexivity].
  pose proof (feed_safe_and_accounted 8 _ Hb) as H.
  destruct (feed (new_parser 8) _) as [p fs]. exact (proj1 H).
Defined.

End Framing.
