(* ===== verification/Components.v ===== *)
(** Data of the runtime: built-in components, actions, messages, beacons
    ([include/mith/core/builtin_components.h], [include/mith/behaviour/action.h],
    [include/mith/behaviour/action_type.h], [include/mith/comms/message.h],
    [include/mith/comms/state_vector.h], [include/mith/identity/identity_auth.h]).

    Each record has the fields of its struct; a [float] is its bit pattern
    (see Float32), an identifier or counter the value of its unsigned type. *)

From S2P Require Import Prelude MachineInt Float32 Identity BoundedQueue.
Local Open Scope Z_scope.

Module Comp.

(** ** Identity keys *)

Definition PUBLIC_KEY_LEN : nat := 32.
Definition SIGNATURE_LEN : nat := 64.

(* @src include/mith/identity/identity_auth.h:24-32 IdentityKey *)
Record IdentityKey := mk_key { public_key : list Z }.

#[global] Instance IdentityKey_eq_dec : EqDecision IdentityKey.
Proof. solve_decision. Defined.

Definition zero_key : IdentityKey := mk_key (replicate 32 0).
Definition zero_signature : list Z := replicate 64 0.

(** ** Actions *)

Definition IDLE : Z := 0.
Definition MOVE : Z := 1.
Definition HOVER : Z := 2.
Definition TRANSMIT : Z := 3.
Definition SCAN : Z := 4.
Definition REGROUP : Z := 5.
Definition FOLLOW : Z := 6.
(* @src include/mith/behaviour/action_type.h:22-40 actions::BUILTIN_MAX *)
Definition BUILTIN_MAX : Z := 31.
Definition CUSTOM_ACTION : Z := 4096.
Definition MAX_MODIFIES : nat := 4.
Definition PARAMS_SIZE : nat := 64.

(* @src include/mith/behaviour/action.h:32-42 Action *)
Record Action := mk_action {
  a_type : Z;
  a_priority : Z;
  a_modifies : list Z;
  a_modifies_count : Z;
  a_params : list Z;
  a_target : Id.HierarchicalID;
}.

Definition default_action : Action :=
  mk_action IDLE F32.zero (replicate MAX_MODIFIES 0) 0 (replicate PARAMS_SIZE 0) Id.nil_hid.

(** ** Messages *)

Definition TASK_BID : Z := 1.
Definition TASK_ASSIGN : Z := 2.
Definition FAULT_ALERT : Z := 3.
Definition FORMATION_CMD : Z := 4.
Definition DISCOVERY_HELLO : Z := 5.
Definition DISCOVERY_WELCOME : Z := 6.
(* @src include/mith/comms/message.h:30-42 messages::CUSTOM *)
Definition CUSTOM_MESSAGE : Z := 4096.
(* @src include/mith/comms/message.h:44-50 BROADCAST_ID *)
Definition BROADCAST_ID : Id.HierarchicalID := Id.nil_hid.
(* @src include/mith/comms/message.h:52-58 is_broadcast *)
Definition is_broadcast (id : Id.HierarchicalID) : bool := Id.is_nil id.(Id.unit_id).
Definition PAYLOAD_SIZE : nat := 128.

(* @src include/mith/comms/message.h:60-69 Message *)
Record Message := mk_message {
  m_sender : Id.HierarchicalID;
  m_recipient : Id.HierarchicalID;
  m_type : Z;
  m_seq : Z;
  m_timestamp_s : Z;
  m_payload : list Z;
}.

Definition default_message : Message :=
  mk_message Id.nil_hid BROADCAST_ID CUSTOM_MESSAGE 0 F32.zero (replicate PAYLOAD_SIZE 0).

(** ** Built-in components *)

(* @src include/mith/core/builtin_components.h:27-34 IdentityComponent *)
Record IdentityComponent := mk_identity { ic_id : Id.HierarchicalID }.
(* @src include/mith/core/builtin_components.h:36-45 PositionComponent *)
Record PositionComponent := mk_pos { x : Z; y : Z; z : Z }.
(* @src include/mith/core/builtin_components.h:47-56 VelocityComponent *)
Record VelocityComponent := mk_vel { vx : Z; vy : Z; vz : Z }.
(* @src include/mith/core/builtin_components.h:58-68 OrientationComponent *)
Record OrientationComponent := mk_orient { qw : Z; qx : Z; qy : Z; qz : Z }.
(* @src include/mith/core/builtin_components.h:70-76 HealthComponent *)
Record HealthComponent := mk_health { value : Z }.
(* @src include/mith/core/builtin_components.h:83-89 RoleComponent *)
Record RoleComponent := mk_role { role : Z }.
(* @src include/mith/core/builtin_components.h:91-99 BehaviourStateComponent *)
Record BehaviourStateComponent := mk_state { state : Z }.
(* @src include/mith/core/builtin_components.h:113-121 PermissionMaskComponent *)
Record PermissionMaskComponent := mk_mask { allowed_builtins : Z; allow_user_actions : bool }.

Definition AQ_CAPACITY : nat := 8.
Definition CB_CAPACITY : nat := 16.

(* @src include/mith/core/builtin_components.h:135-160 ActionQueueComponent *)
Record ActionQueueComponent := mk_aq {
  aq_queue : BQ.t Action;
  permission_rejections_total : Z;
  last_rejection_tick : Z;
  validated : list Action;
  validated_count : Z;
}.

(* @src include/mith/core/builtin_components.h:162-170 CommBufferComponent *)
Record CommBufferComponent := mk_cb { cb_queue : BQ.t Message }.

Definition default_identity : IdentityComponent := mk_identity Id.nil_hid.
Definition default_pos : PositionComponent := mk_pos F32.zero F32.zero F32.zero.
Definition default_vel : VelocityComponent := mk_vel F32.zero F32.zero F32.zero.
Definition default_orient : OrientationComponent := mk_orient F32.one F32.zero F32.zero F32.zero.
Definition default_health : HealthComponent := mk_health 100.
Definition default_role : RoleComponent := mk_role 0.
Definition default_state : BehaviourStateComponent := mk_state 0.
Definition default_mask : PermissionMaskComponent := mk_mask 4294967295 true.
Definition default_aq : ActionQueueComponent :=
  mk_aq (BQ.empty_queue default_action AQ_CAPACITY) 0 0 (replicate AQ_CAPACITY default_action) 0.
Definition default_cb : CommBufferComponent :=
  mk_cb (BQ.empty_queue default_message CB_CAPACITY).

(** [1u << t] is only evaluated for [t <= 31]. *)
(* @src include/mith/core/builtin_components.h:123-132 PermissionMaskComponent::allows *)
Definition allows (m : PermissionMaskComponent) (t : Z) : bool :=
  if CUSTOM_ACTION <=? t then m.(allow_user_actions)
  else if BUILTIN_MAX <? t then false
  else negb (Z.land m.(allowed_builtins) (MI.u32 (Z.shiftl 1 t)) =? 0).

(** ** Beacons *)

(* @src include/mith/comms/state_vector.h:32-48 StateVector *)
Record StateVector := mk_sv {
  sv_id : Id.HierarchicalID;
  sv_position : PositionComponent;
  sv_velocity : VelocityComponent;
  sv_health : HealthComponent;
  sv_role : RoleComponent;
  sv_state : BehaviourStateComponent;
  sv_tick : Z;
  sv_sync_time_s : Z;
  sv_sender_pubkey : IdentityKey;
  sv_signature : list Z;
}.

Definition default_sv : StateVector :=
  mk_sv Id.nil_hid default_pos default_vel default_health default_role default_state
    0 F32.zero zero_key zero_signature.

(** ** Type invariants: every field within the range of its C++ type *)

Definition wf_key (k : IdentityKey) : Prop :=
  length k.(public_key) = PUBLIC_KEY_LEN /\ MI.is_bytes k.(public_key).

Definition wf_pos (p : PositionComponent) : Prop :=
  MI.is_u32 p.(x) /\ MI.is_u32 p.(y) /\ MI.is_u32 p.(z).
Definition wf_vel (p : VelocityComponent) : Prop :=
  MI.is_u32 p.(vx) /\ MI.is_u32 p.(vy) /\ MI.is_u32 p.(vz).

Record wf_sv (sv : StateVector) : Prop := {
  wfsv_id : Id.wf_hid sv.(sv_id);
  wfsv_pos : wf_pos sv.(sv_position);
  wfsv_vel : wf_vel sv.(sv_velocity);
  wfsv_health : MI.is_u8 sv.(sv_health).(value);
  wfsv_role : MI.is_u32 sv.(sv_role).(role);
  wfsv_state : MI.is_u32 sv.(sv_state).(state);
  wfsv_tick : MI.is_u32 sv.(sv_tick);
  wfsv_sync : MI.is_u32 sv.(sv_sync_time_s);
  wfsv_key : wf_key sv.(sv_sender_pubkey);
  wfsv_sig : length sv.(sv_signature) = SIGNATURE_LEN /\ MI.is_bytes sv.(sv_signature);
}.

Record wf_message (m : Message) : Prop := {
  wfm_sender : Id.wf_hid m.(m_sender);
  wfm_recipient : Id.wf_hid m.(m_recipient);
  wfm_type : MI.is_u32 m.(m_type);
  wfm_seq : MI.is_u32 m.(m_seq);
  wfm_time : MI.is_u32 m.(m_timestamp_s);
  wfm_payload : length m.(m_payload) = PAYLOAD_SIZE /\ MI.is_bytes m.(m_payload);
}.

(** ** The permission mask *)

(** Bit [t] of the mask decides a built-in action. *)
Lemma allows_builtin m t :
  0 <= t <= BUILTIN_MAX -> allows m t = Z.testbit m.(allowed_builtins) t.
Proof.
  intros Ht. unfold BUILTIN_MAX in Ht. unfold allows, CUSTOM_ACTION, BUILTIN_MAX.
  rewrite (proj2 (Z.leb_gt _ _)), (proj2 (Z.ltb_ge _ _)) by lia.
  assert (MI.u32 (Z.shiftl 1 t) = 2 ^ t) as ->.
  { rewrite Z.shiftl_1_l. apply Z.mod_small. split; [apply Z.pow_nonneg; lia|].
    apply Z.pow_lt_mono_r; lia. }
  destruct (Z.testbit (allowed_builtins m) t) eqn:E.
  - destruct (Z.eqb_spec (Z.land (allowed_builtins m) (2 ^ t)) 0) as [C|]; [|done].
    apply (f_equal (fun v => Z.testbit v t)) in C.
    rewrite Z.land_spec, E, Z.pow2_bits_true, Z.bits_0 in C by lia. done.
  - assert (Z.land (allowed_builtins m) (2 ^ t) = 0) as ->; [|done].
    apply Z.bits_inj'. intros i Hi. rewrite Z.land_spec, Z.bits_0, Z.pow2_bits_eqb by lia.
    destruct (Z.eqb_spec t i) as [<-|]; [by rewrite E|apply andb_false_r].
Qed.

Lemma allows_reserved m t : BUILTIN_MAX < t < CUSTOM_ACTION -> allows m t = false.
Proof.
  intros Ht. unfold allows. rewrite (proj2 (Z.leb_gt _ _)) by lia.
  by rewrite (proj2 (Z.ltb_lt _ _)) by lia.
Qed.

Lemma allows_user m t : CUSTOM_ACTION <= t -> allows m t = m.(allow_user_actions).
Proof. intros Ht. unfold allows. by rewrite (proj2 (Z.leb_le _ _)). Qed.

Lemma default_sv_wf : wf_sv default_sv.
Proof.
  assert (MI.is_u32 0) as H0 by (unfold MI.is_u32; lia).
  constructor; cbn; try done; repeat split; try (unfold MI.is_u16, MI.is_u8; cbn; lia); auto.
  all: apply MI.bytesb_spec; reflexivity.
Qed.

End Comp.
