(* ===== verification/UdpWire.v ===== *)
(** Wire format of beacons and messages ([include/mith/comms/udp_wire.h],
    [src/comms/udp_wire.cpp]).

    The writers update a caller-supplied buffer at increasing offsets, as the
    pointer arithmetic of the code does; the specifications say which bytes the
    buffer holds afterwards, and the readers are shown to be their exact inverse. *)

From S2P Require Import Prelude MachineInt Identity Components.
Local Open Scope Z_scope.

Module Wire.
Import Comp.

Definition TAG_BEACON : Z := 1.
Definition TAG_MESSAGE : Z := 2.
Definition FRAME_HEADER_BYTES : nat := 5.
Definition BEACON_PAYLOAD_BYTES : nat := 155.
Definition BEACON_SIGNED_PREFIX_BYTES : nat := 91.
Definition MESSAGE_PAYLOAD_BYTES : nat := 176.
(* @src include/mith/comms/udp_wire.h:56-64 udp_wire::MAX_FRAME_BYTES *)
Definition MAX_FRAME_BYTES : nat := FRAME_HEADER_BYTES + MESSAGE_PAYLOAD_BYTES.

(** A [float]'s object representation is its bit pattern. *)
(* @src src/comms/udp_wire.cpp:21-25 put_f32 *)
Definition put_f32 (buf : list Z) (p : nat) (v : Z) : list Z := MI.put_u32 buf p v.
(* @src src/comms/udp_wire.cpp:36-41 get_f32 *)
Definition get_f32 (buf : list Z) (p : nat) : Z := MI.get_u32 buf p.

(* @src src/comms/udp_wire.cpp:43-46 put_hid *)
Definition put_hid (buf : list Z) (p : nat) (h : Id.HierarchicalID) : list Z :=
  write_at (MI.put_u16 buf p h.(Id.swarm_id)) (p + 2) h.(Id.unit_id).(Id.bytes_).

(* @src src/comms/udp_wire.cpp:48-55 get_hid *)
Definition get_hid (buf : list Z) (p : nat) : Id.HierarchicalID :=
  Id.mk_hid (MI.get_u16 buf p) (Id.mk_uuid (slice (p + 2) 16 buf)).

(** [p] is the offset of [out] in the underlying buffer. *)
(* @src src/comms/udp_wire.cpp:59-79 serialise_beacon_signed_payload *)
Definition serialise_beacon_signed_payload (sv : StateVector) (buf : list Z) (p cap : nat)
    : list Z * nat :=
  if (cap <? BEACON_SIGNED_PREFIX_BYTES)%nat then (buf, 0%nat)
  else
    let buf := put_hid buf p sv.(sv_id) in
    let buf := put_f32 buf (p + 18) sv.(sv_position).(x) in
    let buf := put_f32 buf (p + 22) sv.(sv_position).(y) in
    let buf := put_f32 buf (p + 26) sv.(sv_position).(z) in
    let buf := put_f32 buf (p + 30) sv.(sv_velocity).(vx) in
    let buf := put_f32 buf (p + 34) sv.(sv_velocity).(vy) in
    let buf := put_f32 buf (p + 38) sv.(sv_velocity).(vz) in
    let buf := <[(p + 42)%nat := sv.(sv_health).(value)]> buf in
    let buf := MI.put_u32 buf (p + 43) sv.(sv_role).(role) in
    let buf := MI.put_u32 buf (p + 47) sv.(sv_state).(state) in
    let buf := MI.put_u32 buf (p + 51) sv.(sv_tick) in
    let buf := put_f32 buf (p + 55) sv.(sv_sync_time_s) in
    let buf := write_at buf (p + 59) sv.(sv_sender_pubkey).(public_key) in
    (buf, BEACON_SIGNED_PREFIX_BYTES).

(* @src src/comms/udp_wire.cpp:81-97 encode_beacon *)
Definition encode_beacon (sv : StateVector) (out : list Z) (cap : nat) : list Z * nat :=
  let frame_len := (FRAME_HEADER_BYTES + BEACON_PAYLOAD_BYTES)%nat in
  if (cap <? frame_len)%nat then (out, 0%nat)
  else
    let out := <[0%nat := TAG_BEACON]> out in
    let out := MI.put_u32 out 1 (Z.of_nat BEACON_PAYLOAD_BYTES) in
    let out := (serialise_beacon_signed_payload sv out FRAME_HEADER_BYTES
                  BEACON_SIGNED_PREFIX_BYTES).1 in
    let out := write_at out (FRAME_HEADER_BYTES + BEACON_SIGNED_PREFIX_BYTES) sv.(sv_signature) in
    (out, frame_len).

(* @src src/comms/udp_wire.cpp:99-115 encode_message *)
Definition encode_message (msg : Message) (out : list Z) (cap : nat) : list Z * nat :=
  let frame_len := (FRAME_HEADER_BYTES + MESSAGE_PAYLOAD_BYTES)%nat in
  if (cap <? frame_len)%nat then (out, 0%nat)
  else
    let out := <[0%nat := TAG_MESSAGE]> out in
    let out := MI.put_u32 out 1 (Z.of_nat MESSAGE_PAYLOAD_BYTES) in
    let out := put_hid out 5 msg.(m_sender) in
    let out := put_hid out 23 msg.(m_recipient) in
    let out := MI.put_u32 out 41 msg.(m_type) in
    let out := MI.put_u32 out 45 msg.(m_seq) in
    let out := put_f32 out 49 msg.(m_timestamp_s) in
    let out := write_at out 53 msg.(m_payload) in
    (out, frame_len).

(** [input] holds the [len] bytes received. *)
(* @src src/comms/udp_wire.cpp:117-141 decode_beacon *)
Definition decode_beacon (input : list Z) (len : nat) : option StateVector :=
  if (len <? FRAME_HEADER_BYTES + BEACON_PAYLOAD_BYTES)%nat then None
  else if negb (MI.at_ input 0 =? TAG_BEACON) then None
  else if negb (MI.get_u32 input 1 =? Z.of_nat BEACON_PAYLOAD_BYTES) then None
  else
    Some (mk_sv (get_hid input 5)
            (mk_pos (get_f32 input 23) (get_f32 input 27) (get_f32 input 31))
            (mk_vel (get_f32 input 35) (get_f32 input 39) (get_f32 input 43))
            (mk_health (MI.at_ input 47))
            (mk_role (MI.get_u32 input 48))
            (mk_state (MI.get_u32 input 52))
            (MI.get_u32 input 56)
            (get_f32 input 60)
            (mk_key (slice 64 32 input))
            (slice 96 64 input)).

(* @src src/comms/udp_wire.cpp:143-159 decode_message *)
Definition decode_message (input : list Z) (len : nat) : option Message :=
  if (len <? FRAME_HEADER_BYTES + MESSAGE_PAYLOAD_BYTES)%nat then None
  else if negb (MI.at_ input 0 =? TAG_MESSAGE) then None
  else if negb (MI.get_u32 input 1 =? Z.of_nat MESSAGE_PAYLOAD_BYTES) then None
  else
    Some (mk_message (get_hid input 5) (get_hid input 23) (MI.get_u32 input 41)
            (MI.get_u32 input 45) (get_f32 input 49) (slice 53 128 input)).

(* @src src/comms/udp_wire.cpp:161-163 peek_tag *)
Definition peek_tag (input : list Z) (len : nat) : Z :=
  if (0 <? len)%nat then MI.at_ input 0 else 0.

(** ** The formats, as concatenations of fields *)

Definition hid_bytes (h : Id.HierarchicalID) : list Z :=
  MI.le_bytes 2 h.(Id.swarm_id) ++ h.(Id.unit_id).(Id.bytes_).

Definition signed_bytes (sv : StateVector) : list Z :=
  hid_bytes sv.(sv_id)
  ++ MI.le_bytes 4 sv.(sv_position).(x) ++ MI.le_bytes 4 sv.(sv_position).(y)
  ++ MI.le_bytes 4 sv.(sv_position).(z)
  ++ MI.le_bytes 4 sv.(sv_velocity).(vx) ++ MI.le_bytes 4 sv.(sv_velocity).(vy)
  ++ MI.le_bytes 4 sv.(sv_velocity).(vz)
  ++ [sv.(sv_health).(value)]
  ++ MI.le_bytes 4 sv.(sv_role).(role) ++ MI.le_bytes 4 sv.(sv_state).(state)
  ++ MI.le_bytes 4 sv.(sv_tick) ++ MI.le_bytes 4 sv.(sv_sync_time_s)
  ++ sv.(sv_sender_pubkey).(public_key).

Definition beacon_frame (sv : StateVector) : list Z :=
  TAG_BEACON :: MI.le_bytes 4 (Z.of_nat BEACON_PAYLOAD_BYTES)
  ++ signed_bytes sv ++ sv.(sv_signature).

Definition message_frame (m : Message) : list Z :=
  TAG_MESSAGE :: MI.le_bytes 4 (Z.of_nat MESSAGE_PAYLOAD_BYTES)
  ++ hid_bytes m.(m_sender) ++ hid_bytes m.(m_recipient)
  ++ MI.le_bytes 4 m.(m_type) ++ MI.le_bytes 4 m.(m_seq)
  ++ MI.le_bytes 4 m.(m_timestamp_s) ++ m.(m_payload).

Lemma length_hid_bytes h : Id.wf_hid h -> length (hid_bytes h) = 18%nat.
Proof. intros [_ [Hl _]]. unfold hid_bytes. unfold Id.SIZE in Hl. len. Qed.

Lemma length_signed_bytes sv : wf_sv sv -> length (signed_bytes sv) = 91%nat.
Proof.
  intros W. unfold signed_bytes.
  pose proof (length_hid_bytes _ (wfsv_id sv W)). destruct (wfsv_key sv W) as [Hk _].
  unfold PUBLIC_KEY_LEN in Hk. len.
Qed.

Lemma length_beacon_frame sv : wf_sv sv -> length (beacon_frame sv) = 160%nat.
Proof.
  intros W. unfold beacon_frame. pose proof (length_signed_bytes sv W).
  destruct (wfsv_sig sv W) as [Hs _]. unfold SIGNATURE_LEN in Hs. len.
Qed.

Lemma length_message_frame m : wf_message m -> length (message_frame m) = 181%nat.
Proof.
  intros W. unfold message_frame. pose proof (length_hid_bytes _ (wfm_sender m W)).
  pose proof (length_hid_bytes _ (wfm_recipient m W)).
  destruct (wfm_payload m W) as [Hp _]. unfold PAYLOAD_SIZE in Hp. len.
Qed.

(** ** What the writers write *)

Lemma put_hid_app buf p k acc h :
  Id.wf_hid h -> k = (p + length acc)%nat -> (p + length acc + 18 <= length buf)%nat ->
  put_hid (write_at buf p acc) k h = write_at buf p (acc ++ hid_bytes h).
Proof.
  intros [_ [Hl _]] -> H. unfold put_hid, hid_bytes. unfold Id.SIZE in Hl.
  rewrite MI.put_u16_spec by blen.
  rewrite write_at_app by blen. rewrite write_at_app by blen. by rewrite app_assoc.
Qed.

Lemma put_u32_app buf p k acc v :
  k = (p + length acc)%nat -> (p + length acc + 4 <= length buf)%nat ->
  MI.put_u32 (write_at buf p acc) k v = write_at buf p (acc ++ MI.le_bytes 4 v).
Proof.
  intros -> H. rewrite MI.put_u32_spec by blen.
  by rewrite write_at_app by blen.
Qed.

Lemma insert_app (buf : list Z) p k acc b :
  k = (p + length acc)%nat -> (p + length acc + 1 <= length buf)%nat ->
  <[k := b]> (write_at buf p acc) = write_at buf p (acc ++ [b]).
Proof.
  intros -> H. rewrite write_at_insert by blen.
  by rewrite write_at_app by blen.
Qed.

Lemma write_nil (buf : list Z) p : write_at buf p [] = buf.
Proof.
  unfold write_at. cbn [length app]. rewrite Nat.add_0_r. apply take_drop.
Qed.

(** Append the outermost pending write to the bytes already written. *)
Ltac append_writes :=
  repeat first
    [ rewrite put_hid_app by (first [assumption | len])
    | rewrite put_u32_app by blen
    | rewrite insert_app by blen
    | rewrite write_at_app by blen ].

Lemma serialise_spec sv buf p cap :
  wf_sv sv -> (p + 91 <= length buf)%nat ->
  serialise_beacon_signed_payload sv buf p cap =
    if (cap <? BEACON_SIGNED_PREFIX_BYTES)%nat then (buf, 0%nat)
    else (write_at buf p (signed_bytes sv), BEACON_SIGNED_PREFIX_BYTES).
Proof.
  intros W Hp. unfold serialise_beacon_signed_payload.
  destruct (cap <? BEACON_SIGNED_PREFIX_BYTES)%nat; [done|]. f_equal.
  pose proof (wfsv_id sv W) as Wid. pose proof (length_hid_bytes _ Wid) as Lh.
  destruct (wfsv_key sv W) as [Hk _]. unfold PUBLIC_KEY_LEN in Hk.
  rewrite <- (write_nil buf p) at 1. unfold put_f32.
  append_writes. unfold signed_bytes. by rewrite <- !app_assoc.
Qed.

Lemma encode_beacon_spec sv out cap :
  wf_sv sv -> (cap <= length out)%nat ->
  encode_beacon sv out cap =
    if (cap <? 160)%nat then (out, 0%nat) else (write_at out 0 (beacon_frame sv), 160%nat).
Proof.
  intros W Hc. unfold encode_beacon.
  change (FRAME_HEADER_BYTES + BEACON_PAYLOAD_BYTES)%nat with 160%nat.
  destruct (Nat.ltb_spec cap 160) as [|Hlen]; [done|]. f_equal.
  pose proof (length_signed_bytes sv W) as Lp.
  destruct (wfsv_sig sv W) as [Hs _]. unfold SIGNATURE_LEN in Hs.
  change (FRAME_HEADER_BYTES + BEACON_SIGNED_PREFIX_BYTES)%nat with 96%nat.
  unfold FRAME_HEADER_BYTES.
  rewrite <- (write_nil out 0) at 1.
  rewrite insert_app, put_u32_app by blen.
  rewrite serialise_spec by (try done; len; rewrite length_write_at; len).
  rewrite Nat.ltb_irrefl. cbn [fst]. append_writes.
  unfold beacon_frame. by rewrite <- !app_assoc.
Qed.

Lemma encode_message_spec m out cap :
  wf_message m -> (cap <= length out)%nat ->
  encode_message m out cap =
    if (cap <? 181)%nat then (out, 0%nat) else (write_at out 0 (message_frame m), 181%nat).
Proof.
  intros W Hc. unfold encode_message.
  change (FRAME_HEADER_BYTES + MESSAGE_PAYLOAD_BYTES)%nat with 181%nat.
  destruct (Nat.ltb_spec cap 181) as [|Hlen]; [done|]. f_equal.
  pose proof (wfm_sender m W) as Ws. pose proof (length_hid_bytes _ Ws).
  pose proof (wfm_recipient m W) as Wr. pose proof (length_hid_bytes _ Wr).
  destruct (wfm_payload m W) as [Hp _]. unfold PAYLOAD_SIZE in Hp.
  rewrite <- (write_nil out 0) at 1. unfold put_f32. append_writes.
  unfold message_frame. by rewrite <- !app_assoc.
Qed.

(** ** Reading back *)

(** [buf] starts with the bytes [f]. *)
Definition starts (buf f : list Z) : Prop := take (length f) buf = f.

Lemma starts_length buf f : starts buf f -> (length f <= length buf)%nat.
Proof. intros H. apply (f_equal length) in H. rewrite length_take in H. lia. Qed.

Lemma starts_write buf f : starts (write_at buf 0 f) f.
Proof. unfold starts. rewrite write_at_0. apply take_app_length. Qed.

Lemma starts_take n buf : (n <= length buf)%nat -> starts buf (take n buf).
Proof. intros H. unfold starts. by rewrite length_take, Nat.min_l. Qed.

Lemma slice_starts buf f p n :
  starts buf f -> (p + n <= length f)%nat -> slice p n buf = slice p n f.
Proof.
  intros H Hp. transitivity (slice p n (take (length f) buf)); [|by rewrite H].
  unfold slice.
  rewrite skipn_firstn_comm, take_take. f_equal. lia.
Qed.

Lemma at_starts buf f i : starts buf f -> (i < length f)%nat -> MI.at_ buf i = MI.at_ f i.
Proof.
  intros H Hi. transitivity (MI.at_ (take (length f) buf) i); [|by rewrite H].
  unfold MI.at_. rewrite !nth_lookup.
  by rewrite lookup_take_lt.
Qed.

Lemma u32_starts buf f p v :
  starts buf f -> (p + 4 <= length f)%nat -> MI.is_u32 v ->
  slice p 4 f = MI.le_bytes 4 v -> MI.get_u32 buf p = v.
Proof.
  intros H Hp Hv E. pose proof (starts_length _ _ H).
  apply MI.get_u32_field; [lia|done|]. by rewrite (slice_starts _ f).
Qed.

Lemma hid_starts buf f p h :
  starts buf f -> (p + 18 <= length f)%nat -> Id.wf_hid h ->
  slice p 18 f = hid_bytes h -> get_hid buf p = h.
Proof.
  intros H Hp [Hs [Hl Hb]] E. pose proof (starts_length _ _ H).
  destruct h as [sid [bs]]. cbn [Id.swarm_id Id.unit_id Id.bytes_] in *. unfold Id.SIZE in Hl.
  unfold hid_bytes in E. cbn [Id.swarm_id Id.unit_id Id.bytes_] in E.
  rewrite (slice_app_split p 2 16 f : slice p 18 f = _) in E.
  apply app_inj_1 in E as [E1 E2]; [|rewrite length_slice; len].
  unfold get_hid. rewrite !(slice_starts _ f) by (done || lia). rewrite E2.
  f_equal. apply MI.get_u16_field; [lia|done|]. by rewrite (slice_starts _ f) by (done || lia).
Qed.

(** Compute the slice of a concatenation of fields whose lengths are known. *)
Ltac known_lengths :=
  repeat match goal with H : length ?l = _ |- context [length ?l] => rewrite H end.
Ltac field_slice :=
  repeat (rewrite <- app_assoc);
  repeat first
    [ rewrite slice_cons_S
    | rewrite slice_0_app by (len; known_lengths; reflexivity)
    | rewrite slice_all by (len; known_lengths; reflexivity)
    | rewrite slice_skip by len; autorewrite with mith_len; known_lengths; cbn [length Nat.sub] ];
  try reflexivity.

Lemma at_field f p b : slice p 1 f = [b] -> MI.at_ f p = b.
Proof.
  intros E. replace p with (p + 0)%nat by lia. by rewrite (MI.at_slice f p 1 0), E by lia.
Qed.

(** Replace the 32-bit field read at offset [p] by its value [v]; [H] says which
    frame the buffer starts with, [W] bounds the fields. *)
Ltac read_u32 H p v :=
  rewrite (u32_starts _ _ p v H) by (first [lia | done | field_slice]).

Ltac sv_fields :=
  cbn [sv_id sv_position sv_velocity sv_health sv_role sv_state sv_tick sv_sync_time_s
       sv_sender_pubkey sv_signature x y z vx vy vz value role state public_key] in *.

Lemma decode_beacon_starts sv buf n :
  wf_sv sv -> starts buf (beacon_frame sv) -> (160 <= n)%nat ->
  decode_beacon buf n = Some sv.
Proof.
  intros W H Hn. pose proof (length_beacon_frame sv W) as Lf.
  pose proof (length_hid_bytes _ (wfsv_id sv W)) as Lh.
  destruct W as [Wi (? & ? & ?) (? & ? & ?) Wh Wr Wst Wt Wsy [Lk _] [Ls _]].
  unfold PUBLIC_KEY_LEN, SIGNATURE_LEN in *.
  unfold decode_beacon.
  change (FRAME_HEADER_BYTES + BEACON_PAYLOAD_BYTES)%nat with 160%nat.
  rewrite (proj2 (Nat.ltb_ge _ _)) by lia.
  rewrite (at_starts _ _ 0 H) by lia.
  change (MI.at_ (beacon_frame sv) 0) with TAG_BEACON. cbn [Z.eqb negb Pos.eqb TAG_BEACON].
  rewrite (u32_starts _ _ 1 (Z.of_nat BEACON_PAYLOAD_BYTES) H);
    [|lia|unfold MI.is_u32, BEACON_PAYLOAD_BYTES; lia|unfold beacon_frame; field_slice].
  rewrite Z.eqb_refl. cbn [negb]. unfold get_f32.
  destruct sv as [id [px py pz] [vx0 vy0 vz0] [hv] [rv] [stv] tk sy [key] sg].
  sv_fields. unfold beacon_frame, signed_bytes in *. sv_fields.
  rewrite (hid_starts _ _ 5 id H) by (first [lia | done | field_slice]).
  read_u32 H 23%nat px; read_u32 H 27%nat py; read_u32 H 31%nat pz.
  read_u32 H 35%nat vx0; read_u32 H 39%nat vy0; read_u32 H 43%nat vz0.
  read_u32 H 48%nat rv; read_u32 H 52%nat stv; read_u32 H 56%nat tk; read_u32 H 60%nat sy.
  rewrite !(slice_starts _ _ _ _ H) by lia.
  rewrite (at_starts _ _ 47 H) by lia.
  rewrite (at_field _ 47 hv) by field_slice.
  do 3 f_equal; field_slice.
Qed.

Lemma decode_message_starts m buf n :
  wf_message m -> starts buf (message_frame m) -> (181 <= n)%nat ->
  decode_message buf n = Some m.
Proof.
  intros W H Hn. pose proof (length_message_frame m W) as Lf.
  pose proof (length_hid_bytes _ (wfm_sender m W)) as Lh.
  pose proof (length_hid_bytes _ (wfm_recipient m W)) as Lr.
  destruct W as [Ws Wr Wt Wq Wts [Lp _]]. unfold PAYLOAD_SIZE in *.
  unfold decode_message.
  change (FRAME_HEADER_BYTES + MESSAGE_PAYLOAD_BYTES)%nat with 181%nat.
  rewrite (proj2 (Nat.ltb_ge _ _)) by lia.
  rewrite (at_starts _ _ 0 H) by lia.
  change (MI.at_ (message_frame m) 0) with TAG_MESSAGE. cbn [Z.eqb negb Pos.eqb TAG_MESSAGE].
  rewrite (u32_starts _ _ 1 (Z.of_nat MESSAGE_PAYLOAD_BYTES) H);
    [|lia|unfold MI.is_u32, MESSAGE_PAYLOAD_BYTES; lia|unfold message_frame; field_slice].
  rewrite Z.eqb_refl. cbn [negb]. unfold get_f32.
  destruct m as [ms mr mt mq mts mp].
  cbn [m_sender m_recipient m_type m_seq m_timestamp_s m_payload] in *.
  unfold message_frame in *.
  cbn [m_sender m_recipient m_type m_seq m_timestamp_s m_payload] in *.
  rewrite (hid_starts _ _ 5 ms H), (hid_starts _ _ 23 mr H)
    by (first [lia | done | field_slice]).
  read_u32 H 41%nat mt; read_u32 H 45%nat mq; read_u32 H 49%nat mts.
  rewrite (slice_starts _ _ _ _ H) by lia. do 2 f_equal. field_slice.
Qed.

(** ** Every accepted datagram is the encoding of what was read *)

Lemma get_hid_wf buf p :
  MI.is_bytes buf -> (p + 18 <= length buf)%nat -> Id.wf_hid (get_hid buf p).
Proof.
  intros Hb H. split; [apply MI.get_u16_range; [done|lia]|]. split.
  - apply length_slice. unfold Id.SIZE. lia.
  - by apply MI.is_bytes_slice.
Qed.

Lemma get_hid_bytes buf p :
  MI.is_bytes buf -> (p + 18 <= length buf)%nat -> hid_bytes (get_hid buf p) = slice p 18 buf.
Proof.
  intros Hb H. unfold hid_bytes, get_hid. cbn [Id.swarm_id Id.unit_id Id.bytes_].
  rewrite MI.get_u16_spec by lia. rewrite (slice_app_split p 2 16 buf : slice p 18 buf = _).
  f_equal. rewrite <- (length_slice p 2 buf) at 1 by lia.
  apply MI.le_bytes_value. auto with mith.
Qed.

Lemma get_u32_bytes buf p :
  MI.is_bytes buf -> (p + 4 <= length buf)%nat ->
  MI.le_bytes 4 (MI.get_u32 buf p) = slice p 4 buf.
Proof.
  intros Hb H. rewrite MI.get_u32_spec by lia.
  rewrite <- (length_slice p 4 buf) at 1 by lia. apply MI.le_bytes_value. auto with mith.
Qed.

Lemma at_bytes buf p : (p + 1 <= length buf)%nat -> [MI.at_ buf p] = slice p 1 buf.
Proof.
  intros H. replace p with (p + 0)%nat at 1 by lia. rewrite (MI.at_slice buf p 1 0) by lia.
  pose proof (length_slice p 1 buf H) as L.
  by destruct (slice p 1 buf) as [|b [|]].
Qed.

Lemma at_u8 buf p : MI.is_bytes buf -> (p < length buf)%nat -> MI.is_u8 (MI.at_ buf p).
Proof.
  intros Hb H. unfold MI.at_. rewrite nth_lookup.
  destruct (lookup_lt_is_Some_2 buf p H) as [b E]. rewrite E. cbn.
  unfold MI.is_bytes in Hb. rewrite Forall_lookup in Hb. by apply (Hb p).
Qed.

Lemma decode_beacon_inv buf n sv :
  MI.is_bytes buf -> length buf = n -> decode_beacon buf n = Some sv ->
  wf_sv sv /\ starts buf (beacon_frame sv).
Proof.
  intros Hb Hn. unfold decode_beacon.
  change (FRAME_HEADER_BYTES + BEACON_PAYLOAD_BYTES)%nat with 160%nat.
  destruct (Nat.ltb_spec n 160) as [|Hlen]; [done|].
  destruct (Z.eqb_spec (MI.at_ buf 0) TAG_BEACON) as [Ht|]; [cbn [negb]|done].
  destruct (Z.eqb_spec (MI.get_u32 buf 1) (Z.of_nat BEACON_PAYLOAD_BYTES)) as [Hp|];
    [cbn [negb]|done].
  intros [= <-].
  assert (wf_sv (mk_sv (get_hid buf 5)
            (mk_pos (get_f32 buf 23) (get_f32 buf 27) (get_f32 buf 31))
            (mk_vel (get_f32 buf 35) (get_f32 buf 39) (get_f32 buf 43))
            (mk_health (MI.at_ buf 47)) (mk_role (MI.get_u32 buf 48))
            (mk_state (MI.get_u32 buf 52)) (MI.get_u32 buf 56) (get_f32 buf 60)
            (mk_key (slice 64 32 buf)) (slice 96 64 buf))) as W.
  { unfold get_f32. constructor; unfold wf_pos, wf_vel, wf_key; sv_fields; split_and?;
      first [ apply MI.get_u32_range; [done|lia] | apply get_hid_wf; [done|lia]
            | apply at_u8; [done|lia] | apply length_slice; unfold SIGNATURE_LEN, PUBLIC_KEY_LEN; lia
            | by apply MI.is_bytes_slice ]. }
  split; [exact W|]. unfold starts. rewrite length_beacon_frame by exact W.
  unfold beacon_frame, signed_bytes. sv_fields. unfold get_f32.
  rewrite get_hid_bytes by (done || lia).
  rewrite <- Hp. rewrite <- Ht. change (?b :: ?l) with ([b] ++ l).
  rewrite !get_u32_bytes, !at_bytes by (done || lia).
  change (take 160 buf) with (slice 0 160 buf). rewrite <- !app_assoc.
  rewrite <- ?slice_app_split. done.
Qed.

Lemma decode_message_inv buf n m :
  MI.is_bytes buf -> length buf = n -> decode_message buf n = Some m ->
  wf_message m /\ starts buf (message_frame m).
Proof.
  intros Hb Hn. unfold decode_message.
  change (FRAME_HEADER_BYTES + MESSAGE_PAYLOAD_BYTES)%nat with 181%nat.
  destruct (Nat.ltb_spec n 181) as [|Hlen]; [done|].
  destruct (Z.eqb_spec (MI.at_ buf 0) TAG_MESSAGE) as [Ht|]; [cbn [negb]|done].
  destruct (Z.eqb_spec (MI.get_u32 buf 1) (Z.of_nat MESSAGE_PAYLOAD_BYTES)) as [Hp|];
    [cbn [negb]|done].
  intros [= <-].
  assert (wf_message (mk_message (get_hid buf 5) (get_hid buf 23) (MI.get_u32 buf 41)
            (MI.get_u32 buf 45) (get_f32 buf 49) (slice 53 128 buf))) as W.
  { unfold get_f32.
    constructor; cbn [m_sender m_recipient m_type m_seq m_timestamp_s m_payload]; split_and?;
      first [ apply MI.get_u32_range; [done|lia] | apply get_hid_wf; [done|lia]
            | apply length_slice; unfold PAYLOAD_SIZE; lia
            | by apply MI.is_bytes_slice ]. }
  split; [exact W|]. unfold starts. rewrite length_message_frame by exact W.
  unfold message_frame, get_f32.
  cbn [m_sender m_recipient m_type m_seq m_timestamp_s m_payload].
  rewrite !get_hid_bytes by (done || lia).
  rewrite <- Hp. rewrite <- Ht. change (?b :: ?l) with ([b] ++ l).
  rewrite !get_u32_bytes, !at_bytes by (done || lia).
  change (take 181 buf) with (slice 0 181 buf). rewrite <- ?app_assoc.
  rewrite <- ?slice_app_split. done.
Qed.

(** The tag separates the two kinds of frame. *)
Lemma at_0_starts buf t f : starts buf (t :: f) -> MI.at_ buf 0 = t.
Proof. intros H. by rewrite (at_starts _ _ 0 H) by (cbn; lia). Qed.

Lemma decode_message_beacon sv buf n :
  starts buf (beacon_frame sv) -> decode_message buf n = None.
Proof.
  intros H. unfold decode_message. rewrite (at_0_starts _ _ _ H).
  by destruct (_ <? _)%nat.
Qed.

Lemma decode_beacon_message m buf n :
  starts buf (message_frame m) -> decode_beacon buf n = None.
Proof.
  intros H. unfold decode_beacon. rewrite (at_0_starts _ _ _ H).
  by destruct (_ <? _)%nat.
Qed.

(** ** Properties *)

(** C17: A beacon and a message survive the wire: encoding into a buffer of
    sufficient capacity writes exactly one frame at its front, leaves the rest of
    the buffer alone and reports the frame's length; a datagram that starts with
    the frame decodes to the value sent, tells its kind by its tag, and is refused
    by the other decoder.  A buffer that is too small is not touched. *)
Theorem wire_roundtrip sv m out cap :
  wf_sv sv -> wf_message m -> (cap <= length out)%nat ->
  (let '(b, n) := encode_beacon sv out cap in
   if (cap <? 160)%nat then b = out /\ n = 0%nat
   else n = 160%nat /\ length b = length out /\ drop n b = drop n out /\
        forall k, (160 <= k)%nat ->
          decode_beacon (take k b) k = Some sv /\ decode_message (take k b) k = None /\
          peek_tag (take k b) k = TAG_BEACON) /\
  (let '(b, n) := encode_message m out cap in
   if (cap <? 181)%nat then b = out /\ n = 0%nat
   else n = 181%nat /\ length b = length out /\ drop n b = drop n out /\
        forall k, (181 <= k)%nat ->
          decode_message (take k b) k = Some m /\ decode_beacon (take k b) k = None /\
          peek_tag (take k b) k = TAG_MESSAGE).
Proof.
  intros W Wm Hc. rewrite encode_beacon_spec, encode_message_spec by done.
  pose proof (length_beacon_frame sv W) as Lb. pose proof (length_message_frame m Wm) as Lm.
  split.
  - destruct (Nat.ltb_spec cap 160) as [|Hk]; [done|].
    split_and!; [done | blen | rewrite write_at_0, Lb; apply drop_app_length'; lia |].
    intros k Hk'. assert (starts (take k (write_at out 0 (beacon_frame sv))) (beacon_frame sv)) as S.
    { unfold starts. rewrite take_take, Nat.min_l by lia. apply starts_write. }
    split_and!; [by apply decode_beacon_starts | by eapply decode_message_beacon |].
    unfold peek_tag. rewrite (proj2 (Nat.ltb_lt _ _)) by lia. exact (at_0_starts _ _ _ S).
  - destruct (Nat.ltb_spec cap 181) as [|Hk]; [done|].
    split_and!; [done | blen | rewrite write_at_0, Lm; apply drop_app_length'; lia |].
    intros k Hk'. assert (starts (take k (write_at out 0 (message_frame m))) (message_frame m)) as S.
    { unfold starts. rewrite take_take, Nat.min_l by lia. apply starts_write. }
    split_and!; [by apply decode_message_starts | by eapply decode_beacon_message |].
    unfold peek_tag. rewrite (proj2 (Nat.ltb_lt _ _)) by lia. exact (at_0_starts _ _ _ S).
Qed.

(** A value with every field away from its default, for the witnesses. *)
Definition sample_hid : Id.HierarchicalID :=
  Id.mk_hid 513 (Id.mk_uuid (MI.le_bytes 16 339673755198158349044581307228491536)).
Definition sample_sv : StateVector :=
  mk_sv sample_hid (mk_pos 1065353216 3221225472 1077936128) (mk_vel 1 2 3) (mk_health 77)
    (mk_role 4) (mk_state 70000) 16909060 1092616192 (mk_key (replicate 32 9))
    (replicate 64 171).
Definition sample_message : Message :=
  mk_message sample_hid BROADCAST_ID TASK_BID 258 1065353216 (replicate 128 7).

Lemma sample_sv_wf : wf_sv sample_sv.
Proof.
  constructor; cbn; try done; repeat split; try (unfold MI.is_u16, MI.is_u8, MI.is_u32; cbn; lia).
  all: try (apply MI.bytesb_spec; reflexivity).
Qed.

Lemma sample_message_wf : wf_message sample_message.
Proof.
  constructor; cbn; try done; repeat split; try (unfold MI.is_u16, MI.is_u8, MI.is_u32; cbn; lia).
  all: try (apply MI.bytesb_spec; reflexivity).
Qed.

Lemma wire_roundtrip_witness :
  (let '(b, n) := encode_beacon sample_sv (replicate 256 0) 256 in
   n = 160%nat /\ decode_beacon b 256 = Some sample_sv) /\
  (let '(b, n) := encode_message sample_message (replicate 256 0) 256 in
   n = 181%nat /\ decode_message b 256 = Some sample_message).
Proof.
  destruct (wire_roundtrip sample_sv sample_message (replicate 256 0) 256
              sample_sv_wf sample_message_wf ltac:(cbn; lia)) as [H1 H2].
  split; vm_compute; done.
Defined.

(** The decoders accept nothing but encodings: whatever datagram of [n] bytes
    arrives, decoding it yields a well-formed value exactly when the datagram
    starts with the frame of that value, so a malformed, truncated or
    wrong-tagged datagram is dropped and no two values share a frame. *)
Theorem wire_canonical buf n sv m :
  MI.is_bytes buf -> length buf = n ->
  (decode_beacon buf n = Some sv <-> wf_sv sv /\ starts buf (beacon_frame sv)) /\
  (decode_message buf n = Some m <-> wf_message m /\ starts buf (message_frame m)).
Proof.
  intros Hb Hn. split; split.
  - by apply decode_beacon_inv.
  - intros [W S]. apply decode_beacon_starts; [done..|]. apply starts_length in S.
    rewrite length_beacon_frame in S by done. lia.
  - by apply decode_message_inv.
  - intros [W S]. apply decode_message_starts; [done..|]. apply starts_length in S.
    rewrite length_message_frame in S by done. lia.
Qed.

Lemma wire_canonical_witness :
  MI.is_bytes (beacon_frame sample_sv) /\
  (decode_beacon (beacon_frame sample_sv) 160 = Some sample_sv <->
   wf_sv sample_sv /\ starts (beacon_frame sample_sv) (beacon_frame sample_sv)).
Proof.
  assert (MI.is_bytes (beacon_frame sample_sv)) as B by (apply MI.bytesb_spec; vm_compute; reflexivity).
  split; [exact B|].
  exact (proj1 (wire_canonical (beacon_frame sample_sv) 160 sample_sv sample_message B eq_refl)).
Defined.

(** C18: What a beacon's signature covers: the bytes given to the signer are the
    bytes the frame carries between its header and its signature, and they fix
    every field of the beacon but the signature, so a receiver that checks the
    signature against the serialisation of the decoded beacon checks the sender's
    own bytes, and no field can be altered under the same signature. *)
Theorem signed_payload_covers_beacon sv sv' buf out :
  wf_sv sv -> wf_sv sv' -> (91 <= length buf)%nat -> (160 <= length out)%nat ->
  let signed s := take 91 (serialise_beacon_signed_payload s buf 0 91).1 in
  (serialise_beacon_signed_payload sv buf 0 91).2 = 91%nat /\
  slice 5 91 (encode_beacon sv out (length out)).1 = signed sv /\
  slice 96 64 (encode_beacon sv out (length out)).1 = sv.(sv_signature) /\
  (signed sv = signed sv' ->
   sv' = mk_sv sv.(sv_id) sv.(sv_position) sv.(sv_velocity) sv.(sv_health) sv.(sv_role)
           sv.(sv_state) sv.(sv_tick) sv.(sv_sync_time_s) sv.(sv_sender_pubkey)
           sv'.(sv_signature)).
Proof.
  intros W W' Hb Ho signed.
  assert (forall s, wf_sv s -> signed s = signed_bytes s) as Es.
  { intros s Ws. unfold signed. rewrite serialise_spec by (done || lia). rewrite Nat.ltb_irrefl.
    cbn [fst].
    rewrite <- (length_signed_bytes s Ws). apply take_write_at_0.
    rewrite length_signed_bytes by done. lia. }
  rewrite serialise_spec, encode_beacon_spec by (done || lia).
  rewrite (proj2 (Nat.ltb_ge (length out) 160)) by lia. cbn [fst snd].
  pose proof (length_signed_bytes sv W) as L. pose proof (length_beacon_frame sv W) as Lf.
  destruct (wfsv_sig sv W) as [Ls _]. unfold SIGNATURE_LEN in Ls.
  rewrite !slice_write_at_0 by (rewrite Lf; lia).
  rewrite !Es by done. unfold beacon_frame.
  split_and!; [done | field_slice | field_slice |].
  intros E.
  pose (s2 := mk_sv sv.(sv_id) sv.(sv_position) sv.(sv_velocity) sv.(sv_health) sv.(sv_role)
    sv.(sv_state) sv.(sv_tick) sv.(sv_sync_time_s) sv.(sv_sender_pubkey) sv'.(sv_signature)).
  assert (wf_sv s2) as W2 by (destruct W, W'; constructor; done).
  assert (beacon_frame s2 = beacon_frame sv') as Ef
    by (unfold beacon_frame; change (signed_bytes s2) with (signed_bytes sv); by rewrite E).
  assert (forall s, starts (beacon_frame s) (beacon_frame s)) as St
    by (intros s; unfold starts; by apply take_ge).
  enough (Some sv' = Some s2) as Eq by (by injection Eq).
  rewrite <- (decode_beacon_starts sv' (beacon_frame sv') 160) by (done || lia).
  rewrite <- Ef. by apply decode_beacon_starts; auto.
Qed.

Lemma signed_payload_covers_beacon_witness :
  take 91 (serialise_beacon_signed_payload sample_sv (replicate 91 0) 0 91).1
    = slice 5 91 (encode_beacon sample_sv (replicate 181 0) 181).1 /\
  wf_sv sample_sv.
Proof.
  split; [|exact sample_sv_wf].
  symmetry.
  exact (proj1 (proj2 (signed_payload_covers_beacon sample_sv sample_sv (replicate 91 0)
    (replicate 181 0) sample_sv_wf sample_sv_wf ltac:(cbn; lia) ltac:(cbn; lia)))).
Defined.

End Wire.
