(* ===== verification/NeighbourTable.v ===== *)
(** The neighbour table ([include/mith/comms/neighbour_table.h],
    [src/comms/neighbour_table.cpp]): the vector of observations, its hash grid,
    the age-out and the radius query.

    [NT.t] is the class's state.  The abstract contract is a finite map from
    identifiers to entries: [age_out] filters it, [upsert] inserts into it.  The
    invariant [NT.wf] says that identifiers are unique and that the grid lists
    exactly the indices of the entries of each cell. *)

From S2P Require Import Prelude MachineInt Float32 Identity Components.
Local Open Scope Z_scope.

Module NT.
Import Comp.

(* @src include/mith/comms/neighbour_table.h:47-57 NeighbourTable::Entry *)
Record Entry := mk_entry {
  hid : Id.HierarchicalID;
  position : PositionComponent;
  velocity : VelocityComponent;
  health : HealthComponent;
  e_role : RoleComponent;
  e_state : BehaviourStateComponent;
  last_seen_s : Z;
  rssi : Z;
  sync_time_s : Z;
}.

(** A cell key is a [std::array<std::int32_t, 3>]; the order of the buckets of
    the hash map is never observed, each bucket is a vector of indices. *)
Definition CellKey : Type := Z * Z * Z.

(* @src include/mith/comms/neighbour_table.h:147-152 NeighbourTable *)
Record t := mk_nt {
  entries_ : list Entry;
  total_observations_ : Z;
  total_evictions_ : Z;
  cell_size_m_ : Z;
  grid_ : gmap CellKey (list nat);
}.

(* @src include/mith/comms/neighbour_table.h:40-43 UNKNOWN_RSSI *)
Definition UNKNOWN_RSSI : Z := F32.quiet_nan.
(** [5.0f]. *)
Definition DEFAULT_CELL_SIZE : Z := 1084227584.
Definition empty_table : t := mk_nt [] 0 0 DEFAULT_CELL_SIZE ∅.

Section Table.
(** What the platform's [static_cast<std::int32_t>] gives for a value that the
    type cannot represent. *)
Variable oob : Z -> Z.

(* @src src/comms/neighbour_table.cpp:9-18 NeighbourTable::cell_for_ *)
Definition cell_for_ (cell_size : Z) (p : PositionComponent) : CellKey :=
  if F32.leb cell_size F32.zero then (0, 0, 0)
  else
    let inv := F32.div F32.one cell_size in
    (F32.floor_i32 oob (F32.mul p.(x) inv), F32.floor_i32 oob (F32.mul p.(y) inv),
     F32.floor_i32 oob (F32.mul p.(z) inv)).

(** [grid_[k].push_back(i)]: [operator[]] creates the bucket. *)
Definition grid_push (g : gmap CellKey (list nat)) (k : CellKey) (i : nat) :=
  <[k := default [] (g !! k) ++ [i]]> g.

(** The indexing loop, from index [i] on. *)
(* @src src/comms/neighbour_table.cpp:23-25 NeighbourTable::rebuild_grid_ *)
Fixpoint index_from (cell_size : Z) (g : gmap CellKey (list nat)) (i : nat) (l : list Entry) :=
  match l with
  | [] => g
  | e :: l => index_from cell_size (grid_push g (cell_for_ cell_size e.(position)) i) (S i) l
  end.

(* @src src/comms/neighbour_table.cpp:20-26 NeighbourTable::rebuild_grid_ *)
Definition rebuild_grid_ (cell_size : Z) (entries : list Entry) : gmap CellKey (list nat) :=
  if F32.leb cell_size F32.zero then ∅ else index_from cell_size ∅ 0 entries.

(** The index of the entry, as the iterator [find_] returns ([None] is [end()]). *)
(* @src src/comms/neighbour_table.cpp:173-183 NeighbourTable::find_ *)
Definition find_ (entries : list Entry) (h : Id.HierarchicalID) : option nat :=
  fst <$> list_find (fun e => Id.hid_eqb e.(hid) h = true) entries.

(** The bucket update of the "cell changed" branch of [upsert]. *)
Definition grid_move (g : gmap CellKey (list nat)) (prev_cell new_cell : CellKey) (idx : nat) :=
  let old_bucket := default [] (g !! prev_cell) in
  let old_bucket := filter (fun i => i <> idx) old_bucket in
  let g := if decide (old_bucket = []) then delete prev_cell g
           else <[prev_cell := old_bucket]> g in
  grid_push g new_cell idx.

(** The entry both branches of [upsert] store for an observation. *)
Definition entry_of (sv : StateVector) (now rssi : Z) : Entry :=
  mk_entry sv.(sv_id) sv.(sv_position) sv.(sv_velocity) sv.(sv_health) sv.(sv_role)
    sv.(sv_state) now rssi sv.(sv_sync_time_s).

(* @src src/comms/neighbour_table.cpp:28-74 NeighbourTable::upsert *)
Definition upsert (tbl : t) (sv : StateVector) (current_time_s rssi : Z) : t :=
  let cell_size := tbl.(cell_size_m_) in
  let count := MI.u64 (tbl.(total_observations_) + 1) in
  match find_ tbl.(entries_) sv.(sv_id) with
  | None =>
      let e := entry_of sv current_time_s rssi in
      let idx := length tbl.(entries_) in
      mk_nt (tbl.(entries_) ++ [e]) count tbl.(total_evictions_) cell_size
        (if F32.gtb cell_size F32.zero
         then grid_push tbl.(grid_) (cell_for_ cell_size e.(position)) idx
         else tbl.(grid_))
  | Some idx =>
      match tbl.(entries_) !! idx with
      | None => tbl
      | Some it =>
          let prev_cell := cell_for_ cell_size it.(position) in
          let it' := mk_entry it.(hid) sv.(sv_position) sv.(sv_velocity) sv.(sv_health)
                       sv.(sv_role) sv.(sv_state) current_time_s rssi sv.(sv_sync_time_s) in
          let new_cell := cell_for_ cell_size it'.(position) in
          mk_nt (<[idx := it']> tbl.(entries_)) count tbl.(total_evictions_) cell_size
            (if F32.gtb cell_size F32.zero && negb (bool_decide (new_cell = prev_cell))
             then grid_move tbl.(grid_) prev_cell new_cell idx
             else tbl.(grid_))
      end
  end.

(** What the predicate of [remove_if] does not select. *)
(* @src src/comms/neighbour_table.cpp:81-83 NeighbourTable::age_out *)
Definition fresh (now timeout : Z) (e : Entry) : Prop :=
  F32.ltb e.(last_seen_s) (F32.sub now timeout) = false.

#[global] Instance fresh_dec now timeout e : Decision (fresh now timeout e) :=
  bool_eq_dec (F32.ltb e.(last_seen_s) (F32.sub now timeout)) false.
#[global] Typeclasses Opaque fresh.

(** [std::remove_if] + [erase] keep the order of the survivors. *)
(* @src src/comms/neighbour_table.cpp:76-91 NeighbourTable::age_out *)
Definition age_out (tbl : t) (current_time_s timeout_s : Z) : t :=
  let kept := filter (fresh current_time_s timeout_s) tbl.(entries_) in
  let removed := (length tbl.(entries_) - length kept)%nat in
  mk_nt kept tbl.(total_observations_)
    (MI.u64 (tbl.(total_evictions_) + Z.of_nat removed)) tbl.(cell_size_m_)
    (if (0 <? removed)%nat then rebuild_grid_ tbl.(cell_size_m_) kept else tbl.(grid_)).

(* @src src/comms/neighbour_table.cpp:93-96 NeighbourTable::clear *)
Definition clear (tbl : t) : t :=
  mk_nt [] tbl.(total_observations_) tbl.(total_evictions_) tbl.(cell_size_m_) ∅.

(* @src src/comms/neighbour_table.cpp:140-143 NeighbourTable::set_cell_size_m *)
Definition set_cell_size_m (tbl : t) (size_m : Z) : t :=
  let cell_size := if F32.ltb size_m F32.zero then F32.zero else size_m in
  mk_nt tbl.(entries_) tbl.(total_observations_) tbl.(total_evictions_) cell_size
    (rebuild_grid_ cell_size tbl.(entries_)).

(* @src src/comms/neighbour_table.cpp:152-157 NeighbourTable::find *)
Definition find (tbl : t) (h : Id.HierarchicalID) : option Entry :=
  i ← find_ tbl.(entries_) h; tbl.(entries_) !! i.
(* @src src/comms/neighbour_table.cpp:149-150 NeighbourTable::count *)
Definition count (tbl : t) : nat := length tbl.(entries_).
(* @src src/comms/neighbour_table.cpp:145-147 NeighbourTable::occupied_cells *)
Definition occupied_cells (tbl : t) : nat := size tbl.(grid_).

(** The distance test of both branches of [for_each_within]. *)
Definition in_range (centre : PositionComponent) (radius_m : Z) (e : Entry) : bool :=
  let r_sq := F32.mul radius_m radius_m in
  let dx := F32.sub e.(position).(x) centre.(x) in
  let dy := F32.sub e.(position).(y) centre.(y) in
  let dz := F32.sub e.(position).(z) centre.(z) in
  F32.leb (F32.add (F32.add (F32.mul dx dx) (F32.mul dy dy)) (F32.mul dz dz)) r_sq.

(** The cell keys of the three nested loops, in their order. *)
Definition cell_range (c : CellKey) (span : Z) : list CellKey :=
  let offsets := seqZ (- span) (2 * span + 1) in
  dz ← offsets; dy ← offsets; dx ← offsets;
  [(c.1.1 + dx, c.1.2 + dy, c.2 + dz)].

(** The entries the visitor is called with, in the order of the calls.  The
    key arithmetic is exact: a sum outside [std::int32_t] would be undefined in
    the code, and matches no stored key here. *)
(* @src src/comms/neighbour_table.cpp:98-138 NeighbourTable::for_each_within *)
Definition for_each_within (tbl : t) (centre : PositionComponent) (radius_m : Z) : list Entry :=
  if F32.leb tbl.(cell_size_m_) F32.zero || bool_decide (tbl.(grid_) = ∅) then
    filter (fun e => in_range centre radius_m e = true) tbl.(entries_)
  else
    let centre_cell := cell_for_ tbl.(cell_size_m_) centre in
    let span := F32.ceil_i32 oob (F32.div radius_m tbl.(cell_size_m_)) in
    key ← cell_range centre_cell span;
    match tbl.(grid_) !! key with
    | None => []
    | Some bucket =>
        idx ← bucket;
        match tbl.(entries_) !! idx with
        | Some e => if in_range centre radius_m e then [e] else []
        | None => []
        end
    end.

(** ** The invariant *)

(** The grid of a table whose index is on: cell [k]'s bucket lists, once each,
    the indices of the entries in [k], and no bucket is empty. *)
Definition grid_ok (cell_size : Z) (entries : list Entry) (g : gmap CellKey (list nat)) : Prop :=
  (forall k i, i ∈ default [] (g !! k) <->
     exists e, entries !! i = Some e /\ cell_for_ cell_size e.(position) = k) /\
  (forall k b, g !! k = Some b -> NoDup b /\ b <> []).

Record wf (tbl : t) : Prop := {
  wf_unique : NoDup (hid <$> tbl.(entries_));
  wf_grid_on : F32.gtb tbl.(cell_size_m_) F32.zero = true ->
    grid_ok tbl.(cell_size_m_) tbl.(entries_) tbl.(grid_);
  wf_grid_off : F32.leb tbl.(cell_size_m_) F32.zero = true -> tbl.(grid_) = ∅;
  wf_obs : MI.is_u64 tbl.(total_observations_);
  wf_evict : MI.is_u64 tbl.(total_evictions_);
}.

Implicit Types l : list Entry.

(** Membership in a cell of the vector. *)
Abbreviation in_cell cs l k i :=
  (exists e, l !! i = Some e /\ cell_for_ cs e.(position) = k).

Lemma grid_push_lookup g k i k' :
  grid_push g k i !! k' = if decide (k = k') then Some (default [] (g !! k) ++ [i]) else g !! k'.
Proof.
  unfold grid_push. destruct (decide (k = k')) as [->|].
  - apply lookup_insert_eq.
  - by apply lookup_insert_ne.
Qed.

(** Add index [i] to bucket [k]: the membership of every bucket changes there
    only. *)
Lemma grid_push_elem g k i k' j :
  j ∈ default [] (grid_push g k i !! k') <-> j ∈ default [] (g !! k') \/ (j = i /\ k = k').
Proof.
  rewrite grid_push_lookup. destruct (decide (k = k')) as [->|]; cbn; [|naive_solver].
  rewrite elem_of_app, list_elem_of_singleton. naive_solver.
Qed.

Lemma grid_push_buckets g k i :
  (forall k' b, g !! k' = Some b -> NoDup b /\ b <> []) -> i ∉ default [] (g !! k) ->
  forall k' b, grid_push g k i !! k' = Some b -> NoDup b /\ b <> [].
Proof.
  intros H Hi k' b. rewrite grid_push_lookup. destruct (decide (k = k')) as [->|]; [|by apply H].
  intros [= <-]. split; [|by destruct (default [] (g !! k'))].
  apply NoDup_app. split_and!; [|set_solver|apply NoDup_singleton].
  destruct (g !! k') as [b0|] eqn:E; cbn; [by destruct (H k' b0 E)|constructor].
Qed.

Lemma grid_ok_push cs l e g :
  grid_ok cs l g -> grid_ok cs (l ++ [e]) (grid_push g (cell_for_ cs e.(position)) (length l)).
Proof.
  intros [Hm Hb]. split.
  - intros k j. rewrite grid_push_elem, Hm. split.
    + intros [(e' & E & C)|[-> <-]].
      * exists e'. split; [by apply lookup_app_l_Some|done].
      * exists e. split; [|done]. rewrite lookup_app_r, Nat.sub_diag by lia. done.
    + intros (e' & E & C). apply lookup_app_Some in E as [E|[Hl E]]; [left; eauto|].
      right. apply list_lookup_singleton_Some in E as [? <-]. split; [lia|done].
  - apply grid_push_buckets; [done|]. rewrite Hm. intros (e' & E & _).
    apply lookup_lt_Some in E. lia.
Qed.

Lemma index_from_ok cs l pre g :
  grid_ok cs pre g -> grid_ok cs (pre ++ l) (index_from cs g (length pre) l).
Proof.
  revert pre g. induction l as [|e l IH]; intros pre g H; cbn.
  - by rewrite app_nil_r.
  - specialize (IH (pre ++ [e]) _ (grid_ok_push _ _ e _ H)).
    rewrite length_app, <- app_assoc, Nat.add_1_r in IH. exact IH.
Qed.

Lemma grid_ok_empty cs : grid_ok cs [] ∅.
Proof.
  split; [intros k i|intros k b E; by rewrite lookup_empty in E].
  rewrite lookup_empty. cbn. split; [set_solver|]. intros (e & E & _). done.
Qed.

Lemma rebuild_ok cs l : F32.gtb cs F32.zero = true -> grid_ok cs l (rebuild_grid_ cs l).
Proof.
  intros H. unfold rebuild_grid_. rewrite F32.gtb_not_leb by done.
  apply (index_from_ok cs l []), grid_ok_empty.
Qed.

Lemma rebuild_off cs l : F32.leb cs F32.zero = true -> rebuild_grid_ cs l = ∅.
Proof. intros H. unfold rebuild_grid_. by rewrite H. Qed.

Lemma grid_ok_update cs l g idx it it' :
  grid_ok cs l g -> l !! idx = Some it ->
  cell_for_ cs it'.(position) = cell_for_ cs it.(position) ->
  grid_ok cs (<[idx := it']> l) g.
Proof.
  intros [Hm Hb] Hi Hc. split; [|done]. intros k j. rewrite Hm.
  assert (idx < length l)%nat by by eapply lookup_lt_Some.
  destruct (decide (j = idx)) as [->|].
  - rewrite list_lookup_insert_eq by done. naive_solver congruence.
  - by rewrite list_lookup_insert_ne.
Qed.

(** Taking [idx] out of its old bucket leaves the other memberships alone. *)
Lemma grid_remove_elem (g : gmap CellKey (list nat)) k0 idx k j :
  let b := filter (fun i => i <> idx) (default [] (g !! k0)) in
  j ∈ default [] ((if decide (b = []) then delete k0 g else <[k0 := b]> g) !! k) <->
  j ∈ default [] (g !! k) /\ ~ (k = k0 /\ j = idx).
Proof.
  intros b. destruct (decide (k = k0)) as [->|Hk].
  - assert (default [] ((if decide (b = []) then delete k0 g else <[k0 := b]> g) !! k0) = b) as ->.
    { destruct (decide (b = [])) as [->|].
      - by rewrite lookup_delete_eq.
      - by rewrite lookup_insert_eq. }
    subst b. rewrite list_elem_of_filter. naive_solver.
  - assert ((if decide (b = []) then delete k0 g else <[k0 := b]> g) !! k = g !! k) as ->.
    { destruct (decide (b = [])); [by apply lookup_delete_ne|by apply lookup_insert_ne]. }
    naive_solver.
Qed.

Lemma grid_remove_buckets (g : gmap CellKey (list nat)) k0 idx :
  (forall k b, g !! k = Some b -> NoDup b /\ b <> []) ->
  let b := filter (fun i => i <> idx) (default [] (g !! k0)) in
  forall k b', (if decide (b = []) then delete k0 g else <[k0 := b]> g) !! k = Some b' ->
    NoDup b' /\ b' <> [].
Proof.
  intros H b k b'. destruct (decide (b = [])) as [|Hb].
  - rewrite lookup_delete_Some. intros [_ E]. by apply H in E.
  - rewrite lookup_insert_Some. intros [[<- <-]|[_ E]]; [|by apply H in E].
    split; [|done]. apply NoDup_filter.
    destruct (g !! k0) as [b0|] eqn:E; cbn; [by destruct (H k0 b0 E)|constructor].
Qed.

Lemma grid_ok_move cs l g idx it it' :
  grid_ok cs l g -> l !! idx = Some it ->
  cell_for_ cs it'.(position) <> cell_for_ cs it.(position) ->
  grid_ok cs (<[idx := it']> l)
    (grid_move g (cell_for_ cs it.(position)) (cell_for_ cs it'.(position)) idx).
Proof.
  intros [Hm Hb] Hi Hc. unfold grid_move.
  assert (idx < length l)%nat by by eapply lookup_lt_Some.
  split.
  - intros k j. rewrite grid_push_elem, grid_remove_elem, Hm.
    destruct (decide (j = idx)) as [->|].
    + rewrite list_lookup_insert_eq by done. split; [naive_solver congruence|].
      intros (e & [= <-] & <-). auto.
    + rewrite list_lookup_insert_ne by done. naive_solver.
  - apply grid_push_buckets; [by apply grid_remove_buckets|].
    rewrite grid_remove_elem, Hm. naive_solver congruence.
Qed.

(** ** Lookup by identifier *)

Lemma find_some l h i :
  find_ l h = Some i -> exists e, l !! i = Some e /\ e.(hid) = h.
Proof.
  unfold find_. intros (p & F & ->)%fmap_Some. destruct p as [j e]. cbn in *.
  apply list_find_Some in F as (E & Hh & _). exists e. split; [done|]. by apply Id.hid_eqb_eq.
Qed.

Lemma find_none l h : find_ l h = None <-> h ∉ hid <$> l.
Proof.
  unfold find_. rewrite fmap_None, list_find_None, Forall_forall. split.
  - intros H (e & -> & E)%list_elem_of_fmap. apply (H e E), Id.hid_eqb_refl.
  - intros H e E Heq%Id.hid_eqb_eq. apply H, list_elem_of_fmap. eauto.
Qed.

(** ** The abstract map *)

Definition abs (l : list Entry) : gmap Id.HierarchicalID Entry :=
  list_to_map ((fun e => (e.(hid), e)) <$> l).

Lemma abs_lookup l h e :
  NoDup (hid <$> l) -> abs l !! h = Some e <-> e ∈ l /\ e.(hid) = h.
Proof.
  intros Hu. unfold abs. rewrite <- elem_of_list_to_map.
  - rewrite list_elem_of_fmap. naive_solver.
  - by rewrite <- list_fmap_compose.
Qed.

Lemma abs_size l : NoDup (hid <$> l) -> size (abs l) = length l.
Proof.
  intros Hu. unfold abs. rewrite <- length_map_to_list. rewrite map_to_list_to_map.
  - apply length_fmap.
  - by rewrite <- list_fmap_compose.
Qed.

Lemma find_abs l h :
  NoDup (hid <$> l) -> (i ← find_ l h; l !! i) = abs l !! h.
Proof.
  intros Hu. destruct (find_ l h) as [i|] eqn:F; cbn.
  - apply find_some in F as (e & E & Hh). rewrite E. symmetry.
    apply abs_lookup; [done|]. split; [by eapply list_elem_of_lookup_2|done].
  - symmetry. apply eq_None_not_Some. intros [e [He Hh]%abs_lookup]; [|done].
    apply find_none in F. apply F, list_elem_of_fmap. eauto.
Qed.

Lemma abs_snoc l e : e.(hid) ∉ hid <$> l -> NoDup (hid <$> l) ->
  abs (l ++ [e]) = <[e.(hid) := e]> (abs l).
Proof.
  intros He Hu. apply map_eq. intros h. apply option_eq. intros e'.
  rewrite abs_lookup, lookup_insert_Some, abs_lookup; [|done|].
  - rewrite elem_of_app, list_elem_of_singleton. set_solver.
  - rewrite fmap_app. apply NoDup_app. split_and!; [done|set_solver|apply NoDup_singleton].
Qed.

Lemma fmap_insert_same (f : Entry -> Id.HierarchicalID) l i e e' :
  l !! i = Some e -> f e' = f e -> f <$> <[i := e']> l = f <$> l.
Proof.
  intros E H. rewrite list_fmap_insert, H. apply list_insert_id.
  by rewrite list_lookup_fmap, E.
Qed.

Lemma abs_insert l i e e' :
  NoDup (hid <$> l) -> l !! i = Some e -> e'.(hid) = e.(hid) ->
  abs (<[i := e']> l) = <[e'.(hid) := e']> (abs l).
Proof.
  intros Hu E Hh. apply map_eq. intros h. apply option_eq. intros e0.
  pose proof (lookup_lt_Some _ _ _ E) as Hl.
  rewrite abs_lookup, lookup_insert_Some, abs_lookup; [|done|by erewrite fmap_insert_same].
  rewrite !list_elem_of_lookup. split.
  - intros [[j Hj] <-]. destruct (decide (j = i)) as [->|].
    + rewrite list_lookup_insert_eq in Hj by done. naive_solver.
    + rewrite list_lookup_insert_ne in Hj by done. right. split; [|eauto].
      intros Heq. enough (j = i) by done.
      apply (NoDup_lookup (hid <$> l) j i e0.(hid) Hu); rewrite list_lookup_fmap.
      * by rewrite Hj.
      * rewrite E. cbn. by rewrite <- Hh, Heq.
  - intros [[<- <-]|[Hne [[j Hj] <-]]].
    + split; [|done]. exists i. by apply list_lookup_insert_eq.
    + split; [|done]. exists j. rewrite list_lookup_insert_ne; [done|]. congruence.
Qed.

Lemma NoDup_fmap_filter (P : Entry -> Prop) `{!forall e, Decision (P e)} l :
  NoDup (hid <$> l) -> NoDup (hid <$> filter P l).
Proof.
  induction l as [|e l IH]; [done|]. rewrite fmap_cons, filter_cons.
  intros [He Hu]%NoDup_cons.
  case_decide; [|by apply IH]. rewrite fmap_cons. apply NoDup_cons. split; [|by apply IH].
  intros (e' & E & [_ Hin]%list_elem_of_filter)%list_elem_of_fmap.
  apply He, list_elem_of_fmap. eauto.
Qed.

Lemma abs_filter (P : Entry -> Prop) `{!forall e, Decision (P e)} l :
  NoDup (hid <$> l) ->
  abs (filter P l) = filter (fun p => P p.2) (abs l).
Proof.
  intros Hu. apply map_eq. intros h. apply option_eq. intros e.
  rewrite map_lookup_filter_Some, !abs_lookup; [|done|].
  - rewrite list_elem_of_filter. cbn. naive_solver.
  - by apply NoDup_fmap_filter.
Qed.

(** ** The operations preserve the invariant and act on the map *)

Lemma upsert_spec tbl sv now r :
  wf tbl ->
  wf (upsert tbl sv now r) /\
  abs (upsert tbl sv now r).(entries_) = <[sv.(sv_id) := entry_of sv now r]> (abs tbl.(entries_)) /\
  (upsert tbl sv now r).(total_observations_) = MI.u64 (tbl.(total_observations_) + 1) /\
  (upsert tbl sv now r).(total_evictions_) = tbl.(total_evictions_).
Proof.
  intros [Hu Hon Hoff Ho He]. unfold upsert.
  destruct (find_ tbl.(entries_) sv.(sv_id)) as [i|] eqn:F.
  - apply find_some in F as (it & E & Hid). rewrite E.
    set (it' := mk_entry _ _ _ _ _ _ _ _ _).
    assert (it' = entry_of sv now r) as Eit by (unfold it', entry_of; by rewrite Hid).
    split; [|cbn; rewrite <- Eit, <- Hid; split; [exact (abs_insert _ _ it it' Hu E eq_refl)|done]].
    constructor; cbn; [by erewrite fmap_insert_same| | |auto with mith|done].
    + intros Hc. specialize (Hon Hc). rewrite Hc. cbn.
      case_bool_decide as Hcell; cbn; [by eapply grid_ok_update|by apply grid_ok_move].
    + intros Hc. destruct (F32.gtb _ _) eqn:G; [|by apply Hoff].
      apply F32.gtb_not_leb in G. congruence.
  - apply find_none in F. split; [|cbn; split; [by apply abs_snoc|done]].
    constructor; cbn; [| | |auto with mith|done].
    + rewrite fmap_app. apply NoDup_app. split_and!; [done| |apply NoDup_singleton].
      intros h Hh. change (h ∉ [sv.(sv_id)]). rewrite list_elem_of_singleton. by intros ->.
    + intros Hc. rewrite Hc. by apply grid_ok_push, Hon.
    + intros Hc. destruct (F32.gtb _ _) eqn:G; [|by apply Hoff].
      apply F32.gtb_not_leb in G. congruence.
Qed.

Lemma filter_ext_elem (P Q : Entry -> Prop) `{!forall e, Decision (P e), !forall e, Decision (Q e)} l :
  (forall e, e ∈ l -> P e <-> Q e) -> filter P l = filter Q l.
Proof.
  induction l as [|e l IH]; intros HPQ; [done|]. rewrite !filter_cons, IH by set_solver.
  assert (P e <-> Q e) by (apply HPQ; set_solver).
  destruct (decide (P e)), (decide (Q e)); tauto.
Qed.

Lemma filter_length_eq l (P : Entry -> Prop) `{!forall e, Decision (P e)} :
  length (filter P l) = length l -> filter P l = l.
Proof.
  induction l as [|e l IH]; [done|]. rewrite filter_cons. case_decide; cbn.
  - intros [= H']. by rewrite IH.
  - intros H'. pose proof (length_filter P l). lia.
Qed.

Lemma age_out_spec tbl now timeout :
  wf tbl ->
  let kept := filter (fun p : _ * Entry => fresh now timeout p.2) (abs tbl.(entries_)) in
  wf (age_out tbl now timeout) /\
  abs (age_out tbl now timeout).(entries_) = kept /\
  (age_out tbl now timeout).(total_observations_) = tbl.(total_observations_) /\
  (age_out tbl now timeout).(total_evictions_) =
    MI.u64 (tbl.(total_evictions_) + Z.of_nat (size (abs tbl.(entries_)) - size kept)).
Proof.
  intros [Hu Hon Hoff Ho He] kept. unfold age_out. cbn [entries_ total_observations_ total_evictions_].
  set (k := filter _ tbl.(entries_)).
  assert (NoDup (hid <$> k)) as Huk by by apply NoDup_fmap_filter.
  assert (abs k = kept) as Ek by by apply abs_filter.
  split_and!; [|done|done|].
  - constructor; cbn [entries_ cell_size_m_ grid_ total_observations_ total_evictions_];
      try done; [| |auto with mith].
    + intros Hc. destruct (Nat.ltb_spec 0 (length (entries_ tbl) - length k));
        [by apply rebuild_ok|].
      replace k with tbl.(entries_); [by apply Hon|].
      symmetry. apply filter_length_eq. fold k.
      pose proof (length_filter (fresh now timeout) tbl.(entries_)). fold k in H0. lia.
    + intros Hc. destruct (0 <? length _ - _)%nat; [by apply rebuild_off|by apply Hoff].
  - by rewrite <- Ek, !abs_size.
Qed.

Lemma set_cell_size_spec tbl sz :
  wf tbl -> wf (set_cell_size_m tbl sz).
Proof.
  intros [Hu Hon Hoff Ho He]. constructor; cbn; try done.
  - apply rebuild_ok.
  - apply rebuild_off.
Qed.

Lemma clear_wf tbl : wf tbl -> wf (clear tbl).
Proof.
  intros [Hu Hon Hoff Ho He]. constructor; cbn; try done.
  - constructor.
  - intros _. apply grid_ok_empty.
Qed.

Lemma empty_table_wf : wf empty_table.
Proof.
  constructor; cbn; try done.
  - constructor.
  - intros _. apply grid_ok_empty.
Qed.

(** ** The abstract table: a map and two counters *)

Inductive op : Type :=
| Upsert (sv : StateVector) (now rssi : Z)
| AgeOut (now timeout : Z)
| Clear
| SetCellSize (size_m : Z).

Definition exec (tbl : t) (o : op) : t :=
  match o with
  | Upsert sv now r => upsert tbl sv now r
  | AgeOut now timeout => age_out tbl now timeout
  | Clear => clear tbl
  | SetCellSize s => set_cell_size_m tbl s
  end.

Record spec := mk_spec { table : gmap Id.HierarchicalID Entry; seen : Z; evicted : Z }.

Definition spec_exec (s : spec) (o : op) : spec :=
  match o with
  | Upsert sv now r => mk_spec (<[sv.(sv_id) := entry_of sv now r]> s.(table)) (s.(seen) + 1) s.(evicted)
  | AgeOut now timeout =>
      let kept := filter (fun p : _ * Entry => fresh now timeout p.2) s.(table) in
      mk_spec kept s.(seen) (s.(evicted) + Z.of_nat (size s.(table) - size kept))
  | Clear => mk_spec ∅ s.(seen) s.(evicted)
  | SetCellSize _ => s
  end.

(** The table [tbl] implements the abstract state [s]. *)
Definition implements (tbl : t) (s : spec) : Prop :=
  wf tbl /\ abs tbl.(entries_) = s.(table) /\
  tbl.(total_observations_) = MI.u64 s.(seen) /\
  tbl.(total_evictions_) = MI.u64 s.(evicted).

Lemma u64_add_l a b : MI.u64 (MI.u64 a + b) = MI.u64 (a + b).
Proof. unfold MI.u64. by rewrite Zplus_mod_idemp_l. Qed.

Lemma exec_implements tbl s o :
  implements tbl s -> implements (exec tbl o) (spec_exec s o).
Proof.
  intros (W & A & O & V). destruct o as [sv now r|now timeout| |sz]; cbn [exec spec_exec].
  - destruct (upsert_spec tbl sv now r W) as (W' & A' & O' & V').
    split_and!; [done|by rewrite A', A|by rewrite O', O, u64_add_l|by rewrite V', V].
  - destruct (age_out_spec tbl now timeout W) as (W' & A' & O' & V').
    unfold implements. rewrite A', O', V', O, V, u64_add_l, A. done.
  - split_and!; [by apply clear_wf|done|done|done].
  - split_and!; [by apply set_cell_size_spec|done|done|done].
Qed.

Lemma run_implements ops tbl s :
  implements tbl s -> implements (foldl exec tbl ops) (foldl spec_exec s ops).
Proof.
  revert tbl s. induction ops as [|o ops IH]; intros tbl s H; [done|].
  by apply IH, exec_implements.
Qed.

(** ** The radius query *)

(** The cells of [k] are within [span] of those of [c] on every axis. *)
Definition near_cell (c : CellKey) (span : Z) (k : CellKey) : bool :=
  (Z.abs (k.1.1 - c.1.1) <=? span) && (Z.abs (k.1.2 - c.1.2) <=? span) &&
  (Z.abs (k.2 - c.2) <=? span).

Lemma elem_of_cell_range c span k : k ∈ cell_range c span <-> near_cell c span k = true.
Proof.
  unfold cell_range, near_cell. rewrite !andb_true_iff, !Z.leb_le.
  destruct c as [[cx cy] cz], k as [[kx ky] kz]. cbn [fst snd]. split.
  - intros (dz & (dy & (dx & H & Hdx)%list_elem_of_bind & Hdy)%list_elem_of_bind & Hdz)%list_elem_of_bind.
    apply list_elem_of_singleton in H as [= -> -> ->].
    rewrite elem_of_seqZ in Hdx, Hdy, Hdz. lia.
  - intros H. apply list_elem_of_bind. exists (kz - cz). split; [|apply elem_of_seqZ; lia].
    apply list_elem_of_bind. exists (ky - cy). split; [|apply elem_of_seqZ; lia].
    apply list_elem_of_bind. exists (kx - cx). split; [|apply elem_of_seqZ; lia].
    apply list_elem_of_singleton. f_equal; [f_equal|]; lia.
Qed.

Lemma cell_range_NoDup c span : NoDup (cell_range c span).
Proof.
  unfold cell_range. apply NoDup_bind; [|intros dz _; apply NoDup_bind; [|intros dy _; apply NoDup_bind|]|];
    try apply NoDup_seqZ.
  - intros a b k _ _ (d & (d2 & H%list_elem_of_singleton & _)%list_elem_of_bind & _)%list_elem_of_bind
      (d3 & (d4 & H'%list_elem_of_singleton & _)%list_elem_of_bind & _)%list_elem_of_bind.
    subst k. injection H'. lia.
  - intros a b k _ _ (d2 & H%list_elem_of_singleton & _)%list_elem_of_bind
      (d4 & H'%list_elem_of_singleton & _)%list_elem_of_bind.
    subst k. injection H'. lia.
  - intros a b k _ _ H%list_elem_of_singleton H'%list_elem_of_singleton.
    subst k. injection H'. lia.
  - intros d _. apply NoDup_singleton.
Qed.

(** The entries selected by [P] among the indices of the vector, in order. *)
Lemma bind_seq_filter (P : Entry -> bool) l pre :
  (i ← seq (length pre) (length l);
   match (pre ++ l) !! i with Some e => if P e then [e] else [] | None => [] end) =
  filter (fun e => P e = true) l.
Proof.
  revert pre. induction l as [|e l IH]; intros pre; [done|].
  specialize (IH (pre ++ [e])). rewrite length_app, Nat.add_1_r, <- app_assoc in IH. cbn [app] in IH.
  cbn [length seq]. rewrite bind_cons, IH, lookup_app_r, Nat.sub_diag, filter_cons by lia.
  cbn [lookup list_lookup]. case_decide as E; [by rewrite E|].
  apply not_true_is_false in E. by rewrite E.
Qed.

(** The indices of the buckets read by a query. *)
Definition query_indices (tbl : t) (keys : list CellKey) : list nat :=
  key ← keys; default [] (tbl.(grid_) !! key).

Lemma query_indices_spec tbl c span :
  grid_ok tbl.(cell_size_m_) tbl.(entries_) tbl.(grid_) ->
  query_indices tbl (cell_range c span) ≡ₚ
  filter (fun i => match tbl.(entries_) !! i with
                   | Some e => near_cell c span (cell_for_ tbl.(cell_size_m_) e.(position))
                   | None => false
                   end = true) (seq 0 (length tbl.(entries_))).
Proof.
  intros [Hm Hb]. apply NoDup_Permutation.
  - apply NoDup_bind; [| |apply cell_range_NoDup].
    + intros k1 k2 i _ _ (e & E & <-)%Hm (e' & E' & <-)%Hm. congruence.
    + intros k _. destruct (grid_ tbl !! k) eqn:E; cbn; [by destruct (Hb _ _ E)|constructor].
  - apply NoDup_filter, NoDup_seq.
  - intros i. unfold query_indices. rewrite list_elem_of_bind, list_elem_of_filter, elem_of_seq.
    split.
    + intros (k & (e & E & <-)%Hm & Hk%elem_of_cell_range). rewrite E.
      apply lookup_lt_Some in E. split; [done|lia].
    + intros [Hn _]. destruct (entries_ tbl !! i) as [e|] eqn:E; [|done].
      exists (cell_for_ (cell_size_m_ tbl) (position e)).
      split; [apply Hm; eauto|by apply elem_of_cell_range].
Qed.

Lemma bind_filter {A B} (f g : A -> list B) (P : A -> Prop) `{!forall x, Decision (P x)} (l : list A) :
  (forall x, P x -> f x = g x) -> (forall x, ~ P x -> g x = []) ->
  filter P l ≫= f = l ≫= g.
Proof.
  intros H1 H2. induction l as [|a l IH]; [done|].
  rewrite filter_cons, bind_cons. case_decide as E.
  - by rewrite bind_cons, IH, H1.
  - by rewrite IH, H2.
Qed.

Lemma list_bind_bind {A B C} (f : A -> list B) (g : B -> list C) (l : list A) :
  (l ≫= f) ≫= g = l ≫= (fun a => f a ≫= g).
Proof. induction l as [|a l IH]; [done|]. by rewrite !bind_cons, bind_app, IH. Qed.

(** The query reads the entries whose cell is near and keeps those in range. *)
Lemma for_each_within_on tbl centre radius :
  wf tbl -> F32.gtb tbl.(cell_size_m_) F32.zero = true ->
  for_each_within tbl centre radius ≡ₚ
  filter (fun e =>
      near_cell (cell_for_ tbl.(cell_size_m_) centre)
        (F32.ceil_i32 oob (F32.div radius tbl.(cell_size_m_)))
        (cell_for_ tbl.(cell_size_m_) e.(position)) && in_range centre radius e = true)
    tbl.(entries_).
Proof.
  intros [Hu Hon Hoff Ho He] Hc. specialize (Hon Hc). unfold for_each_within.
  rewrite F32.gtb_not_leb by done. cbn [orb].
  case_bool_decide as Hg.
  - destruct (entries_ tbl) as [|e l]; [done|]. exfalso.
    destruct Hon as [Hm _].
    specialize (Hm (cell_for_ (cell_size_m_ tbl) e.(position)) 0%nat).
    rewrite Hg, lookup_empty in Hm. apply proj2 in Hm. cbn in Hm.
    specialize (Hm (ex_intro _ e (conj eq_refl eq_refl))). by apply not_elem_of_nil in Hm.
  - set (c := cell_for_ _ centre). set (span := F32.ceil_i32 _ _).
    set (F := fun idx => match tbl.(entries_) !! idx with
                         | Some e => if in_range centre radius e then [e] else []
                         | None => [] end).
    transitivity (query_indices tbl (cell_range c span) ≫= F).
    + unfold query_indices. rewrite list_bind_bind. apply Permutation_refl', list_bind_ext; [|done].
      intros k. by destruct (grid_ tbl !! k).
    + rewrite (query_indices_spec tbl c span Hon).
      rewrite <- (bind_seq_filter _ tbl.(entries_) []). cbn [length app].
      apply Permutation_refl', bind_filter; intros i Hi; unfold F;
        destruct (entries_ tbl !! i) as [e|]; try reflexivity.
      * rewrite Hi. cbn [andb]. reflexivity.
      * apply not_true_is_false in Hi. rewrite Hi. cbn [andb]. reflexivity.
Qed.

End Table.
Arguments abs : clear implicits.

(** C21: The neighbour table is a map from identifiers to last observations.
    After any sequence of calls from the default-constructed table, [find],
    [count] and the two counters agree with that map: an [upsert] stores the
    observation under the sender's identifier, an [age_out] removes exactly the
    entries last seen before [now - timeout] and counts them, [clear] empties it
    and the cell size does not matter; and the hash grid indexes exactly the
    entries of the vector, each in the cell of its position, with no empty bucket
    (and is empty when the index is off). *)
Theorem table_is_observation_map (oob : Z -> Z) (ops : list op) :
  let tbl := foldl (exec oob) empty_table ops in
  let s := foldl spec_exec (mk_spec ∅ 0 0) ops in
  (forall h, find tbl h = s.(table) !! h) /\
  count tbl = size s.(table) /\
  tbl.(total_observations_) = MI.u64 s.(seen) /\
  tbl.(total_evictions_) = MI.u64 s.(evicted) /\
  wf oob tbl.
Proof.
  intros tbl s.
  assert (implements oob tbl s) as (W & A & O & V).
  { apply run_implements. split; [apply empty_table_wf|done]. }
  split_and!; try done.
  - intros h. rewrite <- A. apply find_abs, (wf_unique _ _ W).
  - rewrite <- A. symmetry. apply abs_size, (wf_unique _ _ W).
Qed.

(** [for_each_within] calls the visitor on entries of the table only, never
    twice for one neighbour, and only within the radius.  With the index off it is
    the linear scan.  With the index on it visits exactly the in-range entries
    whose cell is within [ceil(radius / cell size)] cells of the centre's on every
    axis, so it agrees with the linear scan, up to order, whenever the cells of
    all in-range entries are that near. *)
Theorem radius_query_visits (oob : Z -> Z) (tbl : t) (centre : PositionComponent) (radius : Z) :
  wf oob tbl -> F32.is_nan tbl.(cell_size_m_) = false ->
  let visited := for_each_within oob tbl centre radius in
  let scan := filter (fun e => in_range centre radius e = true) tbl.(entries_) in
  let near e := near_cell (cell_for_ oob tbl.(cell_size_m_) centre)
                  (F32.ceil_i32 oob (F32.div radius tbl.(cell_size_m_)))
                  (cell_for_ oob tbl.(cell_size_m_) e.(position)) in
  NoDup (hid <$> visited) /\
  (forall e, e ∈ visited <->
     e ∈ tbl.(entries_) /\ in_range centre radius e = true /\
     (F32.gtb tbl.(cell_size_m_) F32.zero = true -> near e = true)) /\
  (F32.leb tbl.(cell_size_m_) F32.zero = true -> visited = scan) /\
  ((forall e, e ∈ tbl.(entries_) -> in_range centre radius e = true -> near e = true) ->
   visited ≡ₚ scan).
Proof.
  intros W N visited scan near. pose proof (wf_unique _ _ W) as Hu.
  destruct (F32.leb tbl.(cell_size_m_) F32.zero) eqn:Hc.
  - assert (visited = scan) as -> by (unfold visited, for_each_within; by rewrite Hc).
    split_and!; [by apply NoDup_fmap_filter| |done|done].
    intros e. unfold scan. rewrite list_elem_of_filter. split; [|tauto].
    intros [Hr He]. split_and!; [done..|]. intros G%F32.gtb_not_leb. congruence.
  - apply F32.leb_false_ltb in Hc as G; [|done|done].
    assert (visited ≡ₚ filter (fun e => near e && in_range centre radius e = true) tbl.(entries_)) as P
      by by apply for_each_within_on.
    split_and!; [rewrite P; by apply NoDup_fmap_filter| |done|].
    + intros e. rewrite P, list_elem_of_filter, andb_true_iff. unfold F32.gtb. tauto.
    + intros Hn. rewrite P. apply Permutation_refl', filter_ext_elem.
      intros e He. rewrite andb_true_iff. specialize (Hn e He). tauto.
Qed.

(** Two neighbours two cells apart: one is found from the other's position. *)
Definition sample_table (oob : Z -> Z) : t :=
  upsert oob (upsert oob empty_table default_sv F32.zero UNKNOWN_RSSI)
    (mk_sv (Id.mk_hid 1 (Id.mk_uuid (replicate 16 1))) (mk_pos DEFAULT_CELL_SIZE F32.zero F32.zero)
       default_vel default_health default_role default_state 0 F32.zero zero_key zero_signature)
    F32.zero UNKNOWN_RSSI.

Lemma radius_query_visits_witness :
  NoDup (hid <$> for_each_within (fun _ => 0) (sample_table (fun _ => 0)) default_pos DEFAULT_CELL_SIZE) /\
  length (for_each_within (fun _ => 0) (sample_table (fun _ => 0)) default_pos DEFAULT_CELL_SIZE) = 2%nat.
Proof.
  assert (wf (fun _ => 0) (sample_table (fun _ => 0))) as W.
  { do 2 apply upsert_spec. apply empty_table_wf. }
  split; [|vm_compute; reflexivity].
  exact (proj1 (radius_query_visits (fun _ => 0) (sample_table (fun _ => 0)) default_pos
    DEFAULT_CELL_SIZE W eq_refl)).
Defined.

(** The index can miss an in-range neighbour.  With the default 5 m cells, a
    neighbour at x = 5 is found by the linear scan from x = -1e-9 with radius 5
    (the float difference rounds to 5), but lies two cells away and the indexed
    query does not visit it. *)
Theorem radius_query_misses (oob : Z -> Z) :
  let centre := mk_pos 2961797215 F32.zero F32.zero in
  let tbl := sample_table oob in
  for_each_within oob tbl centre DEFAULT_CELL_SIZE = take 1 tbl.(entries_) /\
  for_each_within oob (set_cell_size_m oob tbl F32.zero) centre DEFAULT_CELL_SIZE = tbl.(entries_) /\
  length tbl.(entries_) = 2%nat.
Proof. vm_compute. done. Qed.

End NT.
