(* ===== verification/JsonWriter.v ===== *)
(** The JSON emitter ([include/mith/core/json_writer.h],
    [src/core/json_writer.cpp]).

    [JW.t] is the writer's state and each member function a definition.  The
    contract: driving the writer with the calls of a document ([write]) appends
    the document's text, commas included, and the text parses back to the
    document.  The parser is a reference recursive-descent parser of the JSON
    grammar; numbers are kept as tokens. *)

From S2P Require Import Prelude MachineInt Identity.
Local Open Scope Z_scope.

Module JW.

(* @src include/mith/core/json_writer.h:62-63 JsonWriter::ScopeKind *)
Inductive ScopeKind := Object | Array.
#[global] Instance ScopeKind_eq_dec : EqDecision ScopeKind.
Proof. solve_decision. Defined.

(** The scope stack is kept with its top first. *)
(* @src include/mith/core/json_writer.h:61-70 JsonWriter *)
Record t := mk_writer { buf_ : list Z; stack_ : list (ScopeKind * bool) }.

Definition new_writer : t := mk_writer [] [].
Definition append (w : t) (s : list Z) : t := mk_writer (w.(buf_) ++ s) w.(stack_).

(* @src src/core/json_writer.cpp:108-113 JsonWriter::handle_array_separator_ *)
Definition handle_array_separator_ (w : t) : t :=
  match w.(stack_) with
  | (Array, first) :: st =>
      let w := if negb first then append w [44] else w in
      mk_writer w.(buf_) ((Array, false) :: st)
  | _ => w
  end.

(** What the [switch] appends for one character; [snprintf "%04x"] prints four
    lower-case hexadecimal digits. *)
(* @src src/core/json_writer.cpp:117-138 JsonWriter::write_quoted_string_ *)
Definition escape (c : Z) : list Z :=
  if c =? 34 then [92; 34]
  else if c =? 92 then [92; 92]
  else if c =? 8 then [92; 98]
  else if c =? 12 then [92; 102]
  else if c =? 10 then [92; 110]
  else if c =? 13 then [92; 114]
  else if c =? 9 then [92; 116]
  else if c <? 32 then
    [92; 117; Id.hex_char 0; Id.hex_char 0; Id.hex_char (Z.shiftr c 4); Id.hex_char (Z.land c 15)]
  else [c].

(* @src src/core/json_writer.cpp:115-140 JsonWriter::write_quoted_string_ *)
Definition write_quoted_string_ (w : t) (s : list Z) : t :=
  append (append (append w [34]) (s ≫= escape)) [34].

(* @src src/core/json_writer.cpp:9-13 JsonWriter::begin_object *)
Definition begin_object (w : t) : t :=
  let w := append (handle_array_separator_ w) [123] in
  mk_writer w.(buf_) ((Object, true) :: w.(stack_)).
(* @src src/core/json_writer.cpp:15-18 JsonWriter::end_object *)
Definition end_object (w : t) : t := mk_writer (w.(buf_) ++ [125]) (tail w.(stack_)).
(* @src src/core/json_writer.cpp:20-24 JsonWriter::begin_array *)
Definition begin_array (w : t) : t :=
  let w := append (handle_array_separator_ w) [91] in
  mk_writer w.(buf_) ((Array, true) :: w.(stack_)).
(* @src src/core/json_writer.cpp:26-29 JsonWriter::end_array *)
Definition end_array (w : t) : t := mk_writer (w.(buf_) ++ [93]) (tail w.(stack_)).

(* @src src/core/json_writer.cpp:31-40 JsonWriter::key *)
Definition key (w : t) (k : list Z) : t :=
  let w := match w.(stack_) with
           | (_, first) :: _ => if negb first then append w [44] else w
           | [] => w
           end in
  let w := append (write_quoted_string_ w k) [58] in
  match w.(stack_) with
  | (kd, _) :: st => mk_writer w.(buf_) ((kd, false) :: st)
  | [] => w
  end.

(* @src src/core/json_writer.cpp:42-45 JsonWriter::write_null *)
Definition write_null (w : t) : t := append (handle_array_separator_ w) (codes "null").
(* @src src/core/json_writer.cpp:47-51 JsonWriter::write_bool *)
Definition write_bool (w : t) (v : bool) : t :=
  let w := handle_array_separator_ w in
  if v then append w (codes "true") else append w (codes "false").

(** Decimal digits of a non-negative number; 20 digits hold every 64-bit one. *)
Fixpoint dec_digits (fuel : nat) (n : Z) (acc : list Z) : list Z :=
  match fuel with
  | O => acc
  | S fuel =>
      let acc := 48 + n mod 10 :: acc in
      if n / 10 =? 0 then acc else dec_digits fuel (n / 10) acc
  end.
(** [snprintf "%llu"] and [snprintf "%lld"]. *)
Definition print_u64 (n : Z) : list Z := dec_digits 20 n [].
Definition print_i64 (n : Z) : list Z :=
  if n <? 0 then 45 :: dec_digits 20 (- n) [] else dec_digits 20 n [].

(* @src src/core/json_writer.cpp:53-59 JsonWriter::write_i64 *)
Definition write_i64 (w : t) (v : Z) : t := append (handle_array_separator_ w) (print_i64 v).
(* @src src/core/json_writer.cpp:61-67 JsonWriter::write_u64 *)
Definition write_u64 (w : t) (v : Z) : t := append (handle_array_separator_ w) (print_u64 v).

(** A [double] is its 64-bit pattern; finite unless all exponent bits are set. *)
Definition isfinite (d : Z) : bool := negb (Z.land (Z.shiftr d 52) 2047 =? 2047).

(* @src src/core/json_writer.cpp:81-84 JsonWriter::write_string *)
Definition write_string (w : t) (s : list Z) : t :=
  write_quoted_string_ (handle_array_separator_ w) s.
(* @src src/core/json_writer.cpp:86-88 JsonWriter::newline *)
Definition newline (w : t) : t := append w [10].
(* @src src/core/json_writer.cpp:92-97 JsonWriter::take *)
Definition take (w : t) : list Z * t := (w.(buf_), mk_writer [] []).
(* @src src/core/json_writer.cpp:99-102 JsonWriter::clear *)
Definition clear (w : t) : t := mk_writer [] [].
(* @src src/core/json_writer.cpp:104-106 JsonWriter::well_formed *)
Definition well_formed (w : t) : bool := match w.(stack_) with [] => true | _ => false end.

(** ** Documents: the values a caller writes *)

Inductive json :=
| Null
| Bool (b : bool)
| I64 (z : Z)
| U64 (z : Z)
| F64 (d : Z)
| Str (s : list Z)
| Arr (l : list json)
| Obj (l : list (list Z * json)).

(** Induction that reaches the elements of arrays and objects. *)
Definition json_rect' (P : json -> Prop)
    (Hnull : P Null) (Hbool : forall b, P (Bool b)) (Hi : forall z, P (I64 z))
    (Hu : forall z, P (U64 z)) (Hf : forall d, P (F64 d)) (Hs : forall s, P (Str s))
    (Harr : forall l, Forall P l -> P (Arr l))
    (Hobj : forall l, Forall (fun kv => P kv.2) l -> P (Obj l)) : forall j, P j :=
  fix go j :=
    match j with
    | Null => Hnull | Bool b => Hbool b | I64 z => Hi z | U64 z => Hu z
    | F64 d => Hf d | Str s => Hs s
    | Arr l => Harr l ((fix gol l := match l return Forall P l with
                        | [] => List.Forall_nil _
                        | j :: l => List.Forall_cons _ _ _ (go j) (gol l) end) l)
    | Obj l => Hobj l ((fix goo l := match l return Forall (fun kv => P kv.2) l with
                        | [] => List.Forall_nil _
                        | kv :: l => List.Forall_cons _ _ _ (go kv.2) (goo l) end) l)
    end.

Section Writer.
(** [snprintf "%.17g"] of a finite double. *)
Variable print_g17 : Z -> list Z.

(* @src src/core/json_writer.cpp:69-79 JsonWriter::write_f64 *)
Definition write_f64 (w : t) (v : Z) : t :=
  let w := handle_array_separator_ w in
  if negb (isfinite v) then append w (codes "null") else append w (print_g17 v).

(** The calls that write a document. *)
Fixpoint write (j : json) (w : t) : t :=
  match j with
  | Null => write_null w
  | Bool b => write_bool w b
  | I64 z => write_i64 w z
  | U64 z => write_u64 w z
  | F64 d => write_f64 w d
  | Str s => write_string w s
  | Arr l => end_array (fold_left (fun w j => write j w) l (begin_array w))
  | Obj l => end_object (fold_left (fun w kv => write kv.2 (key w kv.1)) l (begin_object w))
  end.

(** The text of a document. *)
Definition quote (s : list Z) : list Z := 34 :: (s ≫= escape) ++ [34].

Fixpoint join (l : list (list Z)) : list Z :=
  match l with
  | [] => []
  | [a] => a
  | a :: l => a ++ 44 :: join l
  end.

Fixpoint render (j : json) : list Z :=
  match j with
  | Null => codes "null"
  | Bool b => if b then codes "true" else codes "false"
  | I64 z => print_i64 z
  | U64 z => print_u64 z
  | F64 d => if isfinite d then print_g17 d else codes "null"
  | Str s => quote s
  | Arr l => 91 :: join (map render l) ++ [93]
  | Obj l => 123 :: join (map (fun kv => quote kv.1 ++ 58 :: render kv.2) l) ++ [125]
  end.

(** What a value adds in front of itself, and how it leaves the scope stack. *)
Definition separator (st : list (ScopeKind * bool)) : list Z :=
  match st with (Array, false) :: _ => [44] | _ => [] end.
Definition started (st : list (ScopeKind * bool)) : list (ScopeKind * bool) :=
  match st with (Array, _) :: st => (Array, false) :: st | _ => st end.

Lemma separator_spec w :
  handle_array_separator_ w = mk_writer (w.(buf_) ++ separator w.(stack_)) (started w.(stack_)).
Proof.
  destruct w as [b [|[[|] []] st]]; unfold handle_array_separator_; cbn; by rewrite ?app_nil_r.
Qed.

(** Elements after the first are preceded by a comma. *)
Definition tail_text (l : list (list Z)) : list Z := l ≫= (fun a => 44 :: a).

Lemma join_tail a l : join (a :: l) = a ++ tail_text l.
Proof.
  revert a. induction l as [|b l IH]; intros a; [by rewrite app_nil_r|].
  change (join (a :: b :: l)) with (a ++ 44 :: join (b :: l)). by rewrite IH.
Qed.

Lemma tail_text_cons a l : tail_text (a :: l) = 44 :: a ++ tail_text l.
Proof. done. Qed.

(** Normalise concatenations of literal characters and texts. *)
Ltac appnorm := repeat (progress (rewrite <- ?app_assoc; cbn [app])).

Lemma write_array_tail l b st :
  Forall (fun j => forall w, write j w =
    mk_writer (w.(buf_) ++ separator w.(stack_) ++ render j) (started w.(stack_))) l ->
  fold_left (fun w j => write j w) l (mk_writer b ((Array, false) :: st)) =
  mk_writer (b ++ tail_text (map render l)) ((Array, false) :: st).
Proof.
  intros H. revert b. induction H as [|j l Hj _ IH]; intros b; [by rewrite app_nil_r|].
  cbn [fold_left map]. rewrite Hj, tail_text_cons. cbn [buf_ stack_ separator started].
  rewrite IH. by appnorm.
Qed.

Lemma key_spec b st k first :
  key (mk_writer b ((Object, first) :: st)) k =
  mk_writer (b ++ (if first then [] else [44]) ++ quote k ++ [58]) ((Object, false) :: st).
Proof.
  unfold key, write_quoted_string_, append, quote. destruct first; cbn; f_equal;
    by rewrite <- !app_assoc.
Qed.

Lemma write_object_tail l b st :
  Forall (fun kv => forall w, write kv.2 w =
    mk_writer (w.(buf_) ++ separator w.(stack_) ++ render kv.2) (started w.(stack_))) l ->
  fold_left (fun w kv => write kv.2 (key w kv.1)) l (mk_writer b ((Object, false) :: st)) =
  mk_writer (b ++ tail_text (map (fun kv => quote kv.1 ++ 58 :: render kv.2) l))
    ((Object, false) :: st).
Proof.
  intros H. revert b. induction H as [|[k j] l Hj _ IH]; intros b; [by rewrite app_nil_r|].
  cbn [fold_left map fst snd] in *. rewrite key_spec, Hj, tail_text_cons.
  cbn [buf_ stack_ separator started]. rewrite IH. by appnorm.
Qed.

(** Driving the writer with a document appends its text behind the separator the
    scope calls for, and leaves the scope stack as it was but for the mark that
    the scope has an item. *)
Lemma write_render j w :
  write j w = mk_writer (w.(buf_) ++ separator w.(stack_) ++ render j) (started w.(stack_)).
Proof.
  revert w. induction j as [|b|z|z|d|s|l H|l H] using json_rect'; intros w; cbn [write render];
    unfold write_null, write_bool, write_i64, write_u64, write_f64, write_string,
      begin_array, begin_object, end_array, end_object, write_quoted_string_;
    rewrite separator_spec; unfold append; cbn [buf_ stack_].
  - by rewrite <- app_assoc.
  - destruct b; by rewrite <- app_assoc.
  - by rewrite <- app_assoc.
  - by rewrite <- app_assoc.
  - destruct (isfinite d); cbn [negb]; by rewrite <- app_assoc.
  - unfold quote. by appnorm.
  - destruct H as [|j l Hj H]; cbn [map fold_left].
    + cbn. by appnorm.
    + rewrite Hj. cbn [buf_ stack_ separator started]. rewrite write_array_tail by done.
      cbn [buf_ stack_ tail]. rewrite join_tail. by appnorm.
  - destruct H as [|[k j] l Hj H]; cbn [map fold_left fst snd].
    + cbn. by appnorm.
    + rewrite key_spec, Hj. cbn [buf_ stack_ separator started]. rewrite write_object_tail by done.
      cbn [buf_ stack_ tail]. rewrite join_tail. unfold quote. cbn [fst snd]. by appnorm.
Qed.

End Writer.

(** ** A reference parser *)

(** A number is kept as its token. *)
Inductive value :=
| VNull
| VBool (b : bool)
| VNum (tok : list Z)
| VStr (s : list Z)
| VArr (l : list value)
| VObj (l : list (list Z * value)).

Definition is_num_char (c : Z) : bool :=
  ((48 <=? c) && (c <=? 57)) || (c =? 45) || (c =? 43) || (c =? 46) || (c =? 101) || (c =? 69).

Fixpoint num_token (s : list Z) : list Z * list Z :=
  match s with
  | c :: s' => if is_num_char c then let '(t, r) := num_token s' in (c :: t, r) else ([], s)
  | [] => ([], [])
  end.

Definition unescape (e : Z) : option Z :=
  if (e =? 34) || (e =? 92) || (e =? 47) then Some e
  else if e =? 98 then Some 8
  else if e =? 102 then Some 12
  else if e =? 110 then Some 10
  else if e =? 114 then Some 13
  else if e =? 116 then Some 9
  else None.

(** The characters of a string, behind its opening quote, and the rest. *)
Fixpoint parse_chars (s : list Z) : option (list Z * list Z) :=
  match s with
  | [] => None
  | c :: s =>
      if c =? 34 then Some ([], s)
      else if c =? 92 then
        match s with
        | e :: s =>
            if e =? 117 then
              match s with
              | h3 :: h2 :: h1 :: h0 :: s =>
                  let v := Id.hex_value h3 * 4096 + Id.hex_value h2 * 256
                           + Id.hex_value h1 * 16 + Id.hex_value h0 in
                  '(t, r) ← parse_chars s; Some (v :: t, r)
              | _ => None
              end
            else v ← unescape e; '(t, r) ← parse_chars s; Some (v :: t, r)
        | [] => None
        end
      else if c <? 32 then None
      else '(t, r) ← parse_chars s; Some (c :: t, r)
  end.

(** Strip a literal prefix. *)
Fixpoint expect (lit s : list Z) : option (list Z) :=
  match lit, s with
  | [], _ => Some s
  | a :: lit, c :: s => if a =? c then expect lit s else None
  | _, [] => None
  end.

Fixpoint parse (n : nat) (s : list Z) : option (value * list Z) :=
  match n, s with
  | S n, c :: s' =>
      if c =? 123 then
        match expect [125] s' with
        | Some r => Some (VObj [], r)
        | None => '(l, r) ← parse_members n s'; Some (VObj l, r)
        end
      else if c =? 91 then
        match expect [93] s' with
        | Some r => Some (VArr [], r)
        | None => '(l, r) ← parse_elems n s'; Some (VArr l, r)
        end
      else if c =? 34 then '(t, r) ← parse_chars s'; Some (VStr t, r)
      else if c =? 110 then r ← expect (codes "null") s; Some (VNull, r)
      else if c =? 116 then r ← expect (codes "true") s; Some (VBool true, r)
      else if c =? 102 then r ← expect (codes "false") s; Some (VBool false, r)
      else if is_num_char c then let '(t, r) := num_token s in Some (VNum t, r)
      else None
  | _, _ => None
  end
with parse_elems (n : nat) (s : list Z) : option (list value * list Z) :=
  match n with
  | O => None
  | S n =>
      '(v, r) ← parse n s;
      match r with
      | c :: r =>
          if c =? 44 then '(l, r) ← parse_elems n r; Some (v :: l, r)
          else if c =? 93 then Some ([v], r)
          else None
      | [] => None
      end
  end
with parse_members (n : nat) (s : list Z) : option (list (list Z * value) * list Z) :=
  match n with
  | O => None
  | S n =>
      r ← expect [34] s;
      '(k, r) ← parse_chars r;
      r ← expect [58] r;
      '(v, r) ← parse n r;
      match r with
      | c :: r =>
          if c =? 44 then '(l, r) ← parse_members n r; Some ((k, v) :: l, r)
          else if c =? 125 then Some ([(k, v)], r)
          else None
      | [] => None
      end
  end.

(** Parse a whole text. *)
Definition parse_json (s : list Z) : option value :=
  match parse (length s) s with
  | Some (v, []) => Some v
  | _ => None
  end.

(** ** Text of strings and numbers *)

Lemma parse_escape c s :
  MI.is_u8 c ->
  parse_chars (escape c ++ s) = ('(t, r) ← parse_chars s; Some (c :: t, r)).
Proof.
  intros Hc. unfold escape.
  repeat match goal with
  | |- context [if c =? ?n then _ else _] => destruct (Z.eqb_spec c n) as [->|?]; [reflexivity|]
  end.
  destruct (Z.ltb_spec c 32) as [Hlt|Hge].
  - destruct (Id.byte_nibbles c Hc) as [Hh Hl].
    cbn [app parse_chars]. change (92 =? 34) with false. change (92 =? 92) with true.
    change (117 =? 117) with true. cbv iota.
    rewrite !Id.hex_value_char by lia.
    by replace (0 * 4096 + 0 * 256 + Z.shiftr c 4 * 16 + Z.land c 15) with c
      by (pose proof (Id.byte_split c); lia).
  - cbn [app parse_chars]. rewrite (proj2 (Z.eqb_neq c 34)), (proj2 (Z.eqb_neq c 92)) by done.
    by rewrite (proj2 (Z.ltb_ge c 32)) by lia.
Qed.

Lemma parse_quoted s rest :
  MI.is_bytes s -> parse_chars ((s ≫= escape) ++ 34 :: rest) = Some (s, rest).
Proof.
  intros H. induction H as [|c s Hc _ IH]; [done|].
  rewrite bind_cons, <- app_assoc, parse_escape by done. by rewrite IH.
Qed.

Lemma num_token_app tok rest :
  Forall (fun c => is_num_char c = true) tok ->
  match rest with c :: _ => is_num_char c = false | [] => True end ->
  num_token (tok ++ rest) = (tok, rest).
Proof.
  intros H Hr. induction H as [|c tok Hc _ IH]; cbn.
  - destruct rest as [|c r]; [done|]. cbn. by rewrite Hr.
  - by rewrite Hc, IH.
Qed.

Definition is_digit (c : Z) : bool := (48 <=? c) && (c <=? 57).

Lemma dec_digits_digits fuel n acc :
  Forall (fun c => is_digit c = true) acc ->
  Forall (fun c => is_digit c = true) (dec_digits fuel n acc).
Proof.
  revert n acc. induction fuel as [|f IH]; intros n acc H; [done|]. cbn [dec_digits].
  assert (is_digit (48 + n mod 10) = true).
  { unfold is_digit. pose proof (Z.mod_pos_bound n 10 ltac:(lia)). lia. }
  destruct (n / 10 =? 0); [by constructor|]. apply IH. by constructor.
Qed.

(** The value of a string of digits. *)
Definition dec_value (s : list Z) : Z := fold_left (fun v c => v * 10 + (c - 48)) s 0.

Lemma dec_digits_app fuel n acc : dec_digits fuel n acc = dec_digits fuel n [] ++ acc.
Proof.
  revert n acc. induction fuel as [|f IH]; intros n acc; [done|]. cbn [dec_digits].
  destruct (n / 10 =? 0); [done|]. rewrite IH. rewrite (IH _ [_]). by rewrite <- app_assoc.
Qed.

Lemma dec_value_digits fuel n :
  0 <= n < 10 ^ Z.of_nat fuel -> dec_value (dec_digits fuel n []) = n.
Proof.
  revert n. induction fuel as [|f IH]; intros n H; [cbn in *; lia|]. cbn [dec_digits].
  destruct (Z.eqb_spec (n / 10) 0) as [E|E].
  - cbn. apply Z.div_small_iff in E; [|lia]. rewrite Z.mod_small; lia.
  - rewrite dec_digits_app. unfold dec_value. rewrite fold_left_app.
    fold (dec_value (dec_digits f (n / 10) [])). rewrite IH.
    + cbn. pose proof (Z.div_mod n 10 ltac:(lia)). lia.
    + rewrite Nat2Z.inj_succ, Z.pow_succ_r in H by lia.
      split; [apply Z.div_pos; lia|]. apply Z.div_lt_upper_bound; lia.
Qed.

Lemma dec_digits_nonempty fuel n : (0 < fuel)%nat -> dec_digits fuel n [] <> [].
Proof.
  destruct fuel as [|f]; [lia|]. intros _. cbn [dec_digits].
  destruct (n / 10 =? 0); [done|]. rewrite dec_digits_app. intros [_ ?]%app_nil. done.
Qed.

(** The integer a token denotes. *)
Definition int_value (tok : list Z) : Z :=
  match tok with
  | c :: s => if c =? 45 then - dec_value s else dec_value tok
  | [] => 0
  end.

Lemma digit_not_minus c : is_digit c = true -> (c =? 45) = false.
Proof. unfold is_digit. lia. Qed.

Lemma int_value_digits fuel n :
  0 <= n < 10 ^ Z.of_nat fuel -> int_value (dec_digits fuel n []) = n.
Proof.
  intros H. rewrite <- (dec_value_digits fuel n H) at 2.
  pose proof (dec_digits_digits fuel n [] ltac:(constructor)) as D.
  unfold int_value. destruct (dec_digits fuel n []) as [|c s]; [done|].
  inversion D as [|? ? Dc]; subst. by rewrite digit_not_minus.
Qed.

Lemma print_u64_value n : MI.is_u64 n -> int_value (print_u64 n) = n.
Proof. intros H. apply int_value_digits. unfold MI.is_u64 in H. lia. Qed.

Lemma print_i64_value n : - 2 ^ 63 <= n < 2 ^ 63 -> int_value (print_i64 n) = n.
Proof.
  intros H. unfold print_i64. destruct (Z.ltb_spec n 0).
  - unfold int_value. rewrite dec_value_digits; [cbn; lia|]. lia.
  - apply int_value_digits. lia.
Qed.

Definition number_like (tok : list Z) : Prop :=
  tok <> [] /\ Forall (fun c => is_num_char c = true) tok.

Lemma digits_number_like fuel n :
  (0 < fuel)%nat -> number_like (dec_digits fuel n []).
Proof.
  intros H. split; [by apply dec_digits_nonempty|].
  eapply Forall_impl; [apply dec_digits_digits; constructor|].
  intros c. unfold is_digit, is_num_char. lia.
Qed.

Lemma print_u64_number n : number_like (print_u64 n).
Proof. apply digits_number_like. lia. Qed.

Lemma print_i64_number n : number_like (print_i64 n).
Proof.
  unfold print_i64. destruct (n <? 0); [|apply digits_number_like; lia].
  destruct (digits_number_like 20 (- n) ltac:(lia)). split; [done|]. by constructor.
Qed.

(** ** The text of a document parses back *)

(** Strings are byte strings, integers in the range of their type. *)
Fixpoint wf_json (j : json) : Prop :=
  match j with
  | I64 z => - 2 ^ 63 <= z < 2 ^ 63
  | U64 z => MI.is_u64 z
  | Str s => MI.is_bytes s
  | Arr l => fold_right (fun j P => wf_json j /\ P) True l
  | Obj l => fold_right (fun kv P => MI.is_bytes kv.1 /\ wf_json kv.2 /\ P) True l
  | _ => True
  end.

(** Fuel that parses the text of a document. *)
Fixpoint jsize (j : json) : nat :=
  match j with
  | Arr l => S (fold_right (fun j n => S (jsize j) + n)%nat 0%nat l)
  | Obj l => S (fold_right (fun kv n => S (jsize kv.2) + n)%nat 0%nat l)
  | _ => 1%nat
  end.

Definition ends_number (rest : list Z) : Prop :=
  match rest with c :: _ => is_num_char c = false | [] => True end.

Section RoundTrip.
Variable print_g17 : Z -> list Z.
Hypothesis g17_number : forall d, isfinite d = true -> number_like (print_g17 d).

Abbreviation render := (render print_g17).

(** What a document means to a reader of JSON: integers and doubles are number
    tokens, a double that is not finite is [null]. *)
Fixpoint denote (j : json) : value :=
  match j with
  | Null => VNull
  | Bool b => VBool b
  | I64 z => VNum (print_i64 z)
  | U64 z => VNum (print_u64 z)
  | F64 d => if isfinite d then VNum (print_g17 d) else VNull
  | Str s => VStr s
  | Arr l => VArr (map denote l)
  | Obj l => VObj (map (fun kv => (kv.1, denote kv.2)) l)
  end.

Lemma parse_number n tok rest :
  number_like tok -> ends_number rest -> parse (S n) (tok ++ rest) = Some (VNum tok, rest).
Proof.
  intros [Hne Hf] Hr. destruct tok as [|c tok]; [done|].
  assert (is_num_char c = true) as Hc by by inversion Hf.
  cbn [app parse].
  repeat match goal with
  | |- context [if c =? ?k then _ else _] =>
      destruct (Z.eqb_spec c k) as [->|?]; [discriminate Hc|]
  end.
  rewrite Hc. change (c :: tok ++ rest) with ((c :: tok) ++ rest). by rewrite num_token_app.
Qed.

(** The parser reads back the text of [j] in front of [rest]. *)
Definition reads (j : json) : Prop :=
  forall n rest, (jsize j <= n)%nat -> ends_number rest ->
    parse n (render j ++ rest) = Some (denote j, rest).

Lemma parse_elems_text j l n rest :
  Forall reads (j :: l) ->
  (fold_right (fun j n => S (jsize j) + n)%nat 0%nat (j :: l) <= n)%nat ->
  parse_elems n (join (map render (j :: l)) ++ 93 :: rest) = Some (map denote (j :: l), rest).
Proof.
  revert j n. induction l as [|j' l IH]; intros j n H Hn; inversion H as [|? ? Hj Hl]; subst;
    cbn [fold_right] in Hn; destruct n as [|n]; try lia; cbn [map]; rewrite join_tail;
    cbn [parse_elems]; rewrite <- app_assoc.
  - rewrite Hj by (try lia; done). done.
  - rewrite tail_text_cons. cbn [app]. rewrite Hj by (try lia; done).
    cbn [mbind option_bind]. change (44 =? 44) with true. cbv iota.
    rewrite <- join_tail. change (render j' :: map render l) with (map render (j' :: l)).
    rewrite IH by (try done; cbn [fold_right]; lia). done.
Qed.

Lemma parse_members_text kv l n rest :
  Forall (fun kv => MI.is_bytes kv.1 /\ reads kv.2) (kv :: l) ->
  (fold_right (fun kv n => S (jsize kv.2) + n)%nat 0%nat (kv :: l) <= n)%nat ->
  parse_members n (join (map (fun kv => quote kv.1 ++ 58 :: render kv.2) (kv :: l)) ++ 125 :: rest)
  = Some (map (fun kv => (kv.1, denote kv.2)) (kv :: l), rest).
Proof.
  revert kv n. induction l as [|kv' l IH]; intros [k j] n H Hn; inversion H as [|? ? [Hk Hj] Hl]; subst;
    cbn [fold_right fst snd] in *; destruct n as [|n]; try lia; cbn [map]; rewrite join_tail;
    cbn [parse_members fst snd]; unfold quote at 1; cbn [app expect]; change (34 =? 34) with true;
    cbv iota; cbn [mbind option_bind]; repeat (rewrite <- app_assoc; cbn [app]);
    rewrite parse_quoted by done; cbn [mbind option_bind expect]; change (58 =? 58) with true;
    cbv iota; cbn [mbind option_bind].
  - rewrite Hj by (try lia; done). done.
  - rewrite tail_text_cons. cbn [app]. rewrite Hj by (try lia; done).
    cbn [mbind option_bind]. change (44 =? 44) with true. cbv iota.
    rewrite <- join_tail.
    rewrite (IH kv') by (try done; cbn [fold_right]; lia). done.
Qed.

Lemma number_head tok rest c :
  number_like tok -> is_num_char c = false -> expect [c] (tok ++ rest) = None.
Proof.
  intros [Hne Hf] Hc. destruct tok as [|d tok]; [done|]. inversion Hf as [|? ? Hd]; subst.
  cbn [app expect]. destruct (Z.eqb_spec c d) as [->|]; [congruence|done].
Qed.

(** The text of a value does not begin with a closing bracket. *)
Lemma render_head j rest : expect [93] (render j ++ rest) = None.
Proof.
  destruct j as [|b|z|z|d|s|l|l]; cbn [JW.render]; try done.
  - by destruct b.
  - by apply number_head; [apply print_i64_number|].
  - by apply number_head; [apply print_u64_number|].
  - destruct (isfinite d) eqn:E; [|done]. by apply number_head; [apply g17_number|].
Qed.

Lemma parse_render j : wf_json j -> reads j.
Proof.
  induction j as [|b|z|z|d|s|l IH|l IH] using json_rect'; intros W n rest Hn Hr;
    cbn [jsize] in Hn; destruct n as [|n]; try lia; cbn [JW.render denote].
  - done.
  - by destruct b.
  - apply parse_number; [apply print_i64_number|done].
  - apply parse_number; [apply print_u64_number|done].
  - destruct (isfinite d) eqn:E; [|done]. apply parse_number; [by apply g17_number|done].
  - unfold quote. cbn [app parse]. rewrite <- app_assoc. cbn [app].
    change (34 =? 123) with false. change (34 =? 91) with false. change (34 =? 34) with true.
    cbv iota. by rewrite parse_quoted.
  - cbn [app parse]. change (91 =? 123) with false. change (91 =? 91) with true. cbv iota.
    rewrite <- app_assoc. cbn [app]. destruct l as [|j l]; [done|].
    assert (Forall reads (j :: l)) as Hl.
    { clear Hn. revert W. induction IH as [|? ? Hj _ IHl]; constructor.
      - apply Hj, W. - apply IHl, W. }
    rewrite parse_elems_text by (done || lia).
    cbn [map]. by rewrite join_tail, <- app_assoc, render_head.
  - cbn [app parse]. change (123 =? 123) with true. cbv iota.
    rewrite <- app_assoc. cbn [app]. destruct l as [|kv l]; [done|].
    assert (Forall (fun kv => MI.is_bytes kv.1 /\ reads kv.2) (kv :: l)) as Hl.
    { clear Hn. revert W. induction IH as [|? ? Hj _ IHl]; constructor.
      - split; [apply W|]. apply Hj, W. - apply IHl, W. }
    rewrite parse_members_text by (done || lia).
    cbn [map]. by rewrite join_tail, <- app_assoc.
Qed.

(** Characters of a text: no control character, so no line break. *)
Lemma escape_printable c : MI.is_u8 c -> Forall (fun c => 32 <= c) (escape c).
Proof.
  intros Hc. unfold escape.
  destruct (Id.byte_nibbles c Hc).
  assert (forall n, 0 <= n < 16 -> 32 <= Id.hex_char n) as Hh.
  { intros n Hn. unfold Id.hex_char. destruct (n <? 10); lia. }
  repeat step_case; repeat constructor; try lia; try (by apply Hh); try (apply Hh; lia).
Qed.

Lemma quote_printable s : MI.is_bytes s -> Forall (fun c => 32 <= c) (quote s).
Proof.
  intros H. unfold quote. constructor; [lia|]. apply Forall_app. split; [|by repeat constructor].
  apply Forall_bind. eapply Forall_impl; [exact H|]. apply escape_printable.
Qed.

Lemma number_printable tok : number_like tok -> Forall (fun c => 32 <= c) tok.
Proof.
  intros [_ H]. eapply Forall_impl; [exact H|]. intros c. unfold is_num_char. lia.
Qed.

Lemma join_Forall (P : Z -> Prop) ls : P 44 -> Forall (Forall P) ls -> Forall P (join ls).
Proof.
  intros Hp H. destruct H as [|a l Ha H]; [constructor|].
  rewrite join_tail. apply Forall_app. split; [done|].
  induction H as [|b l Hb _ IH]; [constructor|]. rewrite tail_text_cons.
  constructor; [done|]. by apply Forall_app.
Qed.

Lemma render_printable j : wf_json j -> Forall (fun c => 32 <= c) (render j).
Proof.
  induction j as [|b|z|z|d|s|l IH|l IH] using json_rect'; intros W; cbn [JW.render];
    try (by repeat constructor).
  - destruct b; by repeat constructor.
  - apply number_printable, print_i64_number.
  - apply number_printable, print_u64_number.
  - destruct (isfinite d) eqn:E; [|by repeat constructor]. by apply number_printable, g17_number.
  - by apply quote_printable.
  - constructor; [lia|]. apply Forall_app. split; [|by repeat constructor].
    apply join_Forall; [lia|]. induction IH as [|j l Hj _ IHl]; constructor.
    + apply Hj, W. + apply IHl, W.
  - constructor; [lia|]. apply Forall_app. split; [|by repeat constructor].
    apply join_Forall; [lia|]. induction IH as [|kv l Hj _ IHl]; constructor.
    + apply Forall_app. split; [apply quote_printable, W|]. constructor; [lia|]. apply Hj, W.
    + apply IHl, W.
Qed.

(** The fuel given by the length of the text is enough. *)
Lemma jsize_render j : (jsize j <= length (render j))%nat.
Proof.
  assert (forall tok, number_like tok -> (1 <= length tok)%nat) as Hnum.
  { intros [|] [? _]; [done|cbn; lia]. }
  induction j as [|b|z|z|d|s|l IH|l IH] using json_rect'; cbn [JW.render jsize];
    try (cbn; lia).
  - destruct b; cbn; lia.
  - apply Hnum, print_i64_number.
  - apply Hnum, print_u64_number.
  - destruct (isfinite d) eqn:E; [by apply Hnum, g17_number|cbn; lia].
  - cbn [length]. rewrite length_app. cbn [length].
    enough (fold_right (fun j n => S (jsize j) + n)%nat 0%nat l <= S (length (join (map render l))))%nat by lia.
    destruct IH as [|j l Hj H]; [cbn; lia|]. cbn [map fold_right]. rewrite join_tail, length_app.
    enough (fold_right (fun j n => S (jsize j) + n)%nat 0%nat l <= length (tail_text (map render l)))%nat by lia.
    induction H as [|j' l Hj' _ IHl]; [cbn; lia|].
    cbn [map fold_right]. rewrite tail_text_cons. cbn [length]. rewrite length_app. lia.
  - cbn [length]. rewrite length_app. cbn [length].
    set (f := fun kv : list Z * json => quote kv.1 ++ 58 :: render kv.2).
    assert (forall kv, jsize kv.2 <= length (render kv.2) -> jsize kv.2 <= length (f kv))%nat as Hf.
    { intros kv Hk. unfold f. rewrite length_app. cbn [length]. lia. }
    enough (fold_right (fun kv n => S (jsize kv.2) + n)%nat 0%nat l <= S (length (join (map f l))))%nat by lia.
    destruct IH as [|kv l Hj%Hf H]; [cbn; lia|]. cbn [map fold_right]. rewrite join_tail, length_app.
    enough (fold_right (fun kv n => S (jsize kv.2) + n)%nat 0%nat l <= length (tail_text (map f l)))%nat by lia.
    induction H as [|kv' l Hj'%Hf _ IHl]; [cbn; lia|].
    cbn [map fold_right]. rewrite tail_text_cons. cbn [length]. rewrite length_app. lia.
Qed.

(** The text of a document written from an empty buffer. *)
Lemma write_new j : (write print_g17 j new_writer).(buf_) = render j.
Proof. by rewrite write_render. Qed.

Lemma parse_json_render j : wf_json j -> parse_json (render j) = Some (denote j).
Proof.
  intros W. unfold parse_json.
  assert (parse (length (render j)) (render j ++ []) = Some (denote j, [])) as H
    by (apply parse_render; [done|apply jsize_render|done]).
  by rewrite app_nil_r in H; rewrite H.
Qed.

End RoundTrip.

(** C22: Whatever document a caller writes through the emitter, starting from an
    empty buffer, the text is one line of JSON that a parser reads back to that
    document: strings and keys byte for byte, integers with their exact value,
    arrays and objects in order with every comma in place, a double that is not
    finite as [null].  All scopes are closed at the end and no character of the
    text is a control character. *)
Theorem json_roundtrip (print_g17 : Z -> list Z) (j : json) :
  (forall d, isfinite d = true -> number_like (print_g17 d)) -> wf_json j ->
  let w := write print_g17 j new_writer in
  parse_json w.(buf_) = Some (denote print_g17 j) /\
  well_formed w = true /\ Forall (fun c => 32 <= c) w.(buf_) /\
  (forall z, j = I64 z \/ j = U64 z -> exists tok, denote print_g17 j = VNum tok /\ int_value tok = z).
Proof.
  intros Hg W w. subst w. rewrite write_render. cbn [buf_ stack_ new_writer separator started app].
  split_and!; [by apply parse_json_render|done|by apply render_printable|].
  intros z [-> | ->]; eexists; (split; [reflexivity|]).
  - by apply print_i64_value.
  - by apply print_u64_value.
Qed.

Definition sample_doc : json :=
  Obj [(codes "id", Str [34; 92; 10; 7; 200]); (codes "n", I64 (-42));
       (codes "xs", Arr [F64 4607182418800017408; Null; Obj []; U64 18446744073709551615])].

Lemma json_roundtrip_witness :
  parse_json (write (fun _ => [49]) sample_doc new_writer).(buf_) =
  Some (VObj [(codes "id", VStr [34; 92; 10; 7; 200]); (codes "n", VNum [45; 52; 50]);
              (codes "xs", VArr [VNum [49]; VNull; VObj []; VNum (codes "18446744073709551615")])]).
Proof.
  refine (proj1 (json_roundtrip (fun _ => [49]) sample_doc _ _)).
  - intros d _. split; [discriminate|]. constructor; [reflexivity|constructor].
  - cbn. unfold MI.is_u64. repeat split; try lia; apply MI.bytesb_spec; reflexivity.
Defined.

End JW.
