(* ===== verification/Trace.v ===== *)
(** Trace events and their sinks ([include/mith/core/trace_sink.h],
    [src/core/trace_sink.cpp], [include/mith/core/binary_trace_sink.h],
    [src/core/binary_trace_sink.cpp]).

    A component that emits returns the event; whoever owns the sink feeds it.
    [JsonTraceSink] writes one line of JSON per event; [BinaryTraceSink] is a ring
    of fixed-size frames whose contract is a bounded FIFO of frames. *)

From S2P Require Import Prelude MachineInt JsonWriter.
Local Open Scope Z_scope.

Module Tr.

(* @src include/mith/core/trace_sink.h:29-34 TraceLevel *)
Inductive TraceLevel := Off | Warn | Info | Debug.
#[global] Instance TraceLevel_eq_dec : EqDecision TraceLevel.
Proof. solve_decision. Defined.
Definition level_code (l : TraceLevel) : Z :=
  match l with Off => 0 | Warn => 1 | Info => 2 | Debug => 3 end.

(* @src include/mith/core/trace_sink.h:38-46 trace_level_str *)
Definition trace_level_str (l : TraceLevel) : list Z :=
  match l with
  | Off => codes "off" | Warn => codes "warn" | Info => codes "info" | Debug => codes "debug"
  end.

(* @src include/mith/core/trace_sink.h:50-63 TraceField::Kind and the union *)
Inductive FieldValue :=
| FStr (s : list Z)
| FI64 (z : Z)
| FU64 (z : Z)
| FF64 (d : Z)
| FBool (b : bool).

(* @src include/mith/core/trace_sink.h:66-81 TraceField *)
Record TraceField := mk_field { f_key : list Z; f_val : FieldValue }.
Record TraceEvent := mk_event { ev_level : TraceLevel; ev_name : list Z; ev_fields : list TraceField }.

(** ** The JSON sink *)

Section Json.
Variable print_g17 : Z -> list Z.

(** One iteration of the field loop of [format]. *)
(* @src src/core/trace_sink.cpp:25-35 JsonTraceSink::format *)
Definition format_field (w : JW.t) (f : TraceField) : JW.t :=
  let w := JW.key w f.(f_key) in
  match f.(f_val) with
  | FStr s => JW.write_string w s
  | FI64 z => JW.write_i64 w z
  | FU64 z => JW.write_u64 w z
  | FF64 d => JW.write_f64 print_g17 w d
  | FBool b => JW.write_bool w b
  end.

(* @src src/core/trace_sink.cpp:12-40 JsonTraceSink::format *)
Definition format (level : TraceLevel) (event : list Z) (fields : list TraceField) : list Z :=
  let w := JW.begin_object JW.new_writer in
  let w := JW.key w (codes "level") in
  let w := JW.write_string w (trace_level_str level) in
  let w := JW.key w (codes "event") in
  let w := JW.write_string w event in
  let w := fold_left format_field fields w in
  let w := JW.end_object w in
  let w := JW.newline w in
  fst (JW.take w).

(** [dest] is the [FILE] the sink writes to, as the characters written so far;
    [None] is the null pointer. *)
(* @src src/core/trace_sink.cpp:42-54 JsonTraceSink::emit *)
Definition json_emit (dest : option (list Z)) (level : TraceLevel) (event : list Z)
    (fields : list TraceField) : option (list Z) :=
  match level with
  | Off => dest
  | _ =>
      match dest with
      | None => None
      | Some out => Some (out ++ format level event fields)
      end
  end.

(** The document a line carries. *)
Definition field_json (f : TraceField) : list Z * JW.json :=
  (f.(f_key), match f.(f_val) with
              | FStr s => JW.Str s | FI64 z => JW.I64 z | FU64 z => JW.U64 z
              | FF64 d => JW.F64 d | FBool b => JW.Bool b
              end).

Definition event_json (level : TraceLevel) (event : list Z) (fields : list TraceField) : JW.json :=
  JW.Obj ((codes "level", JW.Str (trace_level_str level)) :: (codes "event", JW.Str event)
          :: map field_json fields).

Lemma format_field_write w f :
  format_field w f = JW.write print_g17 (field_json f).2 (JW.key w (field_json f).1).
Proof. unfold format_field, field_json. by destruct (f_val f). Qed.

Lemma format_write level event fields :
  format level event fields =
  (JW.write print_g17 (event_json level event fields) JW.new_writer).(JW.buf_) ++ [10].
Proof.
  unfold format, event_json. cbn [JW.write fold_left fst snd].
  assert (forall w, fold_left format_field fields w =
    fold_left (fun w kv => JW.write print_g17 kv.2 (JW.key w kv.1)) (map field_json fields) w) as ->; [|done].
  induction fields as [|f l IH]; intros w; [done|]. cbn [fold_left map].
  by rewrite format_field_write, IH.
Qed.

Definition wf_field (f : TraceField) : Prop :=
  MI.is_bytes f.(f_key) /\
  match f.(f_val) with
  | FStr s => MI.is_bytes s
  | FI64 z => - 2 ^ 63 <= z < 2 ^ 63
  | FU64 z => MI.is_u64 z
  | _ => True
  end.

Lemma codes_bytes s : MI.is_bytes (codes s).
Proof.
  induction s as [|a s IH]; constructor; [|done].
  unfold MI.is_u8. pose proof (Ascii.N_ascii_bounded a). lia.
Qed.

Lemma event_json_wf level event fields :
  MI.is_bytes event -> Forall wf_field fields -> JW.wf_json (event_json level event fields).
Proof.
  intros He Hf. cbn. split_and!; try done.
  - apply (codes_bytes "level").
  - destruct level; [apply (codes_bytes "off")|apply (codes_bytes "warn")|
      apply (codes_bytes "info")|apply (codes_bytes "debug")].
  - apply (codes_bytes "event").
  - induction Hf as [|f l [Hk Hv] _ IH]; [done|]. cbn. split_and!; [done| |done].
    by destruct (f_val f).
Qed.
End Json.

(** Each event emitted to the JSON sink becomes exactly one line: what is
    appended ends with a line break and contains no other one, and the text before
    it parses to an object with the level, the event's name and every field, in
    order, with its key and value.  Events at level [Off] and a null destination
    write nothing. *)
Theorem json_line_per_event (print_g17 : Z -> list Z) dest level event fields :
  (forall d, JW.isfinite d = true -> JW.number_like (print_g17 d)) ->
  MI.is_bytes event -> Forall wf_field fields ->
  json_emit print_g17 None level event fields = None /\
  json_emit print_g17 (Some dest) Off event fields = Some dest /\
  (level <> Off ->
   exists line, json_emit print_g17 (Some dest) level event fields = Some (dest ++ line ++ [10]) /\
     10 ∉ line /\
     JW.parse_json line = Some (JW.VObj (
       (codes "level", JW.VStr (trace_level_str level)) :: (codes "event", JW.VStr event) ::
       map (fun f => (f.(f_key), JW.denote print_g17 (field_json f).2)) fields))).
Proof.
  intros Hg He Hf. split_and!; [by destruct level|done|]. intros Hl.
  pose proof (event_json_wf level event fields He Hf) as W.
  pose proof (JW.parse_json_render print_g17 Hg _ W) as P.
  pose proof (JW.render_printable print_g17 Hg _ W) as Hp.
  exists (JW.render print_g17 (event_json level event fields)). split_and!.
  - unfold json_emit. rewrite format_write, JW.write_new. by destruct level.
  - intros Hin. rewrite Forall_forall in Hp. specialize (Hp _ Hin). lia.
  - rewrite P. unfold event_json. cbn [JW.denote map fst snd]. by rewrite map_map.
Qed.

Definition sample_fields : list TraceField :=
  [mk_field (codes "tick") (FU64 7); mk_field (codes "name") (FStr [34; 10])].

Lemma json_line_per_event_witness :
  json_emit (fun _ => [49]) (Some []) Off (codes "tick_completed") sample_fields = Some [] /\
  json_emit (fun _ => [49]) (Some []) Info (codes "e") [] =
    Some ([123; 34; 108; 101; 118; 101; 108; 34; 58; 34; 105; 110; 102; 111; 34; 44;
           34; 101; 118; 101; 110; 116; 34; 58; 34; 101; 34; 125; 10]).
Proof.
  split; [|vm_compute; reflexivity].
  refine (proj1 (proj2 (json_line_per_event (fun _ => [49]) [] Info (codes "tick_completed")
    sample_fields _ _ _))).
  - intros d _. split; [discriminate|]. constructor; [reflexivity|constructor].
  - apply codes_bytes.
  - repeat constructor; cbn; try lia; apply MI.bytesb_spec; reflexivity.
Defined.

(** ** The binary sink *)

Definition FRAME_BYTES : nat := 256.
Definition MAX_NAME_LEN : nat := 64.
Definition FIELD_BYTES : nat := 16.
Definition MAX_KEY_BYTES : nat := 6.

(** [buffer_] is a vector of bytes; sizes are [std::size_t], counters 64-bit. *)
(* @src include/mith/core/binary_trace_sink.h:94-103 BinaryTraceSink *)
Record bin := mk_bin {
  buffer_ : list Z;
  capacity_ : Z;
  mask_ : Z;
  head_ : Z;
  size_ : Z;
  wall_seq_ : Z;
  dropped_ : Z;
  total_emits_ : Z;
}.

(** The doubling loop, [fuel] times at most: 64 doublings overflow the type. *)
(* @src src/core/binary_trace_sink.cpp:14-15 floor_pow2 *)
Fixpoint pow2_loop (fuel : nat) (p n : Z) : Z :=
  match fuel with
  | O => p
  | S fuel =>
      let q := MI.u64 (Z.shiftl p 1) in
      if (p <? q) && (q <=? n) then pow2_loop fuel q n else p
  end.
(* @src src/core/binary_trace_sink.cpp:11-16 floor_pow2 *)
Definition floor_pow2 (n : Z) : Z := if n =? 0 then 1 else pow2_loop 64 1 n.

(* @src src/core/binary_trace_sink.cpp:30-34 BinaryTraceSink::BinaryTraceSink *)
Definition new_bin (capacity : Z) : bin :=
  let cap := floor_pow2 (if capacity =? 0 then 1 else capacity) in
  mk_bin (replicate (Z.to_nat cap * FRAME_BYTES) 0) cap (cap - 1) 0 0 0 0 0.

Definition kind_code (v : FieldValue) : Z :=
  match v with FStr _ => 0 | FI64 _ => 1 | FU64 _ => 2 | FF64 _ => 3 | FBool _ => 4 end.

(** The value's bytes at offset 8 of the field. *)
(* @src src/core/binary_trace_sink.cpp:90-113 BinaryTraceSink::emit *)
Definition put_value (buf : list Z) (p : nat) (v : FieldValue) : list Z :=
  match v with
  | FI64 z => MI.put_u64 buf p (MI.u64 z)
  | FU64 z => MI.put_u64 buf p z
  | FF64 d => MI.put_u64 buf p d
  | FBool b => <[p := if b then 1 else 0]> buf
  | FStr s => write_at buf p (take (Nat.min (length s) 8) s)
  end.

(* @src src/core/binary_trace_sink.cpp:79-114 BinaryTraceSink::emit *)
Definition put_field (buf : list Z) (field_p : nat) (f : TraceField) : list Z :=
  let buf := <[field_p := kind_code f.(f_val)]> buf in
  let key_len := Nat.min (length f.(f_key)) MAX_KEY_BYTES in
  let buf := <[(field_p + 1)%nat := Z.of_nat key_len]> buf in
  let buf := write_at buf (field_p + 2) (take key_len f.(f_key)) in
  put_value buf (field_p + 8) f.(f_val).

(** The loop over the first [f_count] fields. *)
(* @src src/core/binary_trace_sink.cpp:77-115 BinaryTraceSink::emit *)
Fixpoint put_fields (buf : list Z) (field_p : nat) (fs : list TraceField) : list Z :=
  match fs with
  | [] => buf
  | f :: fs => put_fields (put_field buf field_p f) (field_p + FIELD_BYTES) fs
  end.

(* @src src/core/binary_trace_sink.cpp:36-116 BinaryTraceSink::emit *)
Definition bin_emit (s : bin) (level : TraceLevel) (event : list Z) (fields : list TraceField) : bin :=
  match level with
  | Off => s
  | _ =>
      let total := MI.u64 (s.(total_emits_) + 1) in
      let dropped := if s.(size_) =? s.(capacity_) then MI.u64 (s.(dropped_) + 1) else s.(dropped_) in
      let size := if s.(size_) =? s.(capacity_) then s.(size_) else s.(size_) + 1 in
      let frame := (Z.to_nat (Z.land s.(head_) s.(mask_)) * FRAME_BYTES)%nat in
      let head := Z.land (s.(head_) + 1) s.(mask_) in
      let buf := write_at s.(buffer_) frame (replicate FRAME_BYTES 0) in
      let seq := s.(wall_seq_) in
      let buf := MI.put_u64 buf frame seq in
      let buf := <[(frame + 8)%nat := level_code level]> buf in
      let name_room := Nat.min (length event) MAX_NAME_LEN in
      let fields_room := (FRAME_BYTES - 12 - name_room)%nat in
      let max_fields := (fields_room / FIELD_BYTES)%nat in
      let f_count := Nat.min (length fields) max_fields in
      let buf := <[(frame + 9)%nat := Z.of_nat f_count]> buf in
      let buf := MI.put_u16 buf (frame + 10) (Z.of_nat name_room) in
      let buf := write_at buf (frame + 12) (take name_room event) in
      let buf := put_fields buf (frame + 12 + name_room) (take f_count fields) in
      mk_bin buf s.(capacity_) s.(mask_) head size (MI.u64 (seq + 1)) dropped total
  end.

(* @src src/core/binary_trace_sink.cpp:122-127 BinaryTraceSink::peek_oldest *)
Definition peek_oldest (s : bin) : option (list Z) :=
  if s.(size_) =? 0 then None
  else
    let oldest := Z.land (s.(head_) + s.(capacity_) - s.(size_)) s.(mask_) in
    Some (slice (Z.to_nat oldest * FRAME_BYTES) FRAME_BYTES s.(buffer_)).

(* @src src/core/binary_trace_sink.cpp:129-133 BinaryTraceSink::pop_oldest *)
Definition pop_oldest (s : bin) : bin * bool :=
  if s.(size_) =? 0 then (s, false)
  else (mk_bin s.(buffer_) s.(capacity_) s.(mask_) s.(head_) (s.(size_) - 1) s.(wall_seq_)
          s.(dropped_) s.(total_emits_), true).

(* @src src/core/binary_trace_sink.cpp:135-138 BinaryTraceSink::clear *)
Definition bin_clear (s : bin) : bin :=
  mk_bin s.(buffer_) s.(capacity_) s.(mask_) 0 0 s.(wall_seq_) s.(dropped_) s.(total_emits_).

(** *** The frame of an event, as a concatenation of its parts *)

Definition pad (n : nat) (l : list Z) : list Z := l ++ replicate (n - length l) 0.

Definition value_bytes (v : FieldValue) : list Z :=
  match v with
  | FI64 z => MI.le_bytes 8 (MI.u64 z)
  | FU64 z => MI.le_bytes 8 z
  | FF64 d => MI.le_bytes 8 d
  | FBool b => [if b then 1 else 0]
  | FStr s => take 8 s
  end.

Definition field_bytes (f : TraceField) : list Z :=
  [kind_code f.(f_val); Z.of_nat (Nat.min (length f.(f_key)) 6)]
  ++ pad 6 (take 6 f.(f_key)) ++ pad 8 (value_bytes f.(f_val)).

Definition name_len (event : list Z) : nat := Nat.min (length event) 64.
Definition field_count (event : list Z) (fields : list TraceField) : nat :=
  Nat.min (length fields) ((244 - name_len event) / 16).

Definition frame_of (seq : Z) (level : TraceLevel) (event : list Z) (fields : list TraceField) : list Z :=
  pad 256 (MI.le_bytes 8 seq ++ [level_code level; Z.of_nat (field_count event fields)]
           ++ MI.le_bytes 2 (Z.of_nat (name_len event)) ++ take (name_len event) event
           ++ (take (field_count event fields) fields ≫= field_bytes)).

Lemma length_pad n l : (length l <= n)%nat -> length (pad n l) = n.
Proof. intros H. unfold pad. len. Qed.

Lemma length_value_bytes v : (length (value_bytes v) <= 8)%nat.
Proof. destruct v; cbn [value_bytes]; rewrite ?MI.length_le_bytes; len. Qed.

Lemma length_field_bytes f : length (field_bytes f) = 16%nat.
Proof.
  unfold field_bytes. rewrite !length_app, !length_pad; [done|apply length_value_bytes|len].
Qed.

Lemma take_min {A} (l : list A) n : take (Nat.min (length l) n) l = take n l.
Proof.
  destruct (Nat.le_gt_cases (length l) n).
  - rewrite Nat.min_l by lia. rewrite !take_ge; [done|lia|lia].
  - by rewrite Nat.min_r by lia.
Qed.

(** [put_value] writes the value's bytes. *)
Lemma put_value_spec buf p v :
  (p + 8 <= length buf)%nat -> put_value buf p v = write_at buf p (value_bytes v).
Proof.
  intros H. destruct v; cbn [put_value value_bytes]; try (by apply MI.put_u64_spec).
  - by rewrite take_min.
  - apply write_at_insert. lia.
Qed.

(** A field written behind [pre] into zeros. *)
Lemma put_field_spec pre n f :
  (16 <= n)%nat ->
  put_field (pre ++ replicate n 0) (length pre) f =
  (pre ++ field_bytes f) ++ replicate (n - 16) 0.
Proof.
  intros Hn. unfold put_field.
  pose proof (length_value_bytes f.(f_val)) as Hv.
  rewrite !write_at_insert by len. rewrite (write_at_fill pre _ 0) by len.
  rewrite (write_at_fill _ _ 0) by len.
  unfold MAX_KEY_BYTES. rewrite take_min, (write_at_fill _ _ 0) by len.
  rewrite put_value_spec by len.
  rewrite (write_at_fill _ _ (6 - Nat.min 6 (length (f_key f)))) by len.
  match goal with |- _ ++ replicate ?m 0 = _ =>
    replace m with (8 - length (value_bytes (f_val f)) + (n - 16))%nat by len end.
  rewrite replicate_add. unfold field_bytes, pad. rewrite length_take.
  cbn [replicate app]. repeat (rewrite <- app_assoc; cbn [app]). done.
Qed.

Lemma put_field_nested l p k fr f :
  (k + 16 <= length fr)%nat -> (p + length fr <= length l)%nat ->
  put_field (write_at l p fr) (p + k) f = write_at l p (put_field fr k f).
Proof.
  intros Hk Hp. unfold put_field. pose proof (length_value_bytes f.(f_val)) as Hv.
  rewrite !put_value_spec by (unfold MAX_KEY_BYTES; blen).
  rewrite !write_at_insert by blen. rewrite <- !Nat.add_assoc.
  unfold MAX_KEY_BYTES.
  rewrite write_at_nested by blen. rewrite write_at_nested by blen.
  rewrite write_at_nested by blen. by rewrite write_at_nested by blen.
Qed.

Lemma length_put_field l p f : (p + 16 <= length l)%nat -> length (put_field l p f) = length l.
Proof.
  intros H. unfold put_field, MAX_KEY_BYTES. pose proof (length_value_bytes f.(f_val)) as Hv.
  rewrite put_value_spec by blen. rewrite !write_at_insert by blen. by blen.
Qed.

Lemma put_fields_nested fs l p k fr :
  (k + 16 * length fs <= length fr)%nat -> (p + length fr <= length l)%nat ->
  put_fields (write_at l p fr) (p + k) fs = write_at l p (put_fields fr k fs).
Proof.
  revert k fr. induction fs as [|f fs IH]; intros k fr Hk Hp; [done|]. cbn [put_fields length] in *.
  rewrite put_field_nested by lia. rewrite <- Nat.add_assoc.
  apply IH; rewrite length_put_field; unfold FIELD_BYTES; lia.
Qed.

Lemma put_fields_spec fs pre n :
  (16 * length fs <= n)%nat ->
  put_fields (pre ++ replicate n 0) (length pre) fs =
  (pre ++ (fs ≫= field_bytes)) ++ replicate (n - 16 * length fs) 0.
Proof.
  revert pre n. induction fs as [|f fs IH]; intros pre n Hn; cbn [put_fields length] in *.
  - cbn [mbind list_bind]. by rewrite app_nil_r, Nat.sub_0_r.
  - rewrite put_field_spec by lia.
    replace (length pre + FIELD_BYTES)%nat with (length (pre ++ field_bytes f))
      by (rewrite length_app, length_field_bytes; done).
    rewrite IH by lia. rewrite bind_cons, <- !app_assoc.
    by replace (n - 16 - 16 * length fs)%nat with (n - 16 * S (length fs))%nat by lia.
Qed.

Lemma length_fields_bytes fs : length (fs ≫= field_bytes) = (16 * length fs)%nat.
Proof.
  induction fs as [|f fs IH]; [done|]. rewrite bind_cons, length_app, IH, length_field_bytes. cbn. lia.
Qed.

Lemma field_count_room event fields :
  (12 + name_len event + 16 * field_count event fields <= 256)%nat.
Proof.
  unfold field_count, name_len.
  pose proof (Nat.Div0.mul_div_le (244 - Nat.min (length event) 64) 16). lia.
Qed.

Lemma length_frame_of seq level event fields : length (frame_of seq level event fields) = 256%nat.
Proof.
  apply length_pad. pose proof (field_count_room event fields).
  rewrite !length_app, !MI.length_le_bytes, length_fields_bytes, !length_take. cbn [length]. lia.
Qed.

(** The bytes [emit] stores are one frame, and nothing else of the ring. *)
Lemma bin_emit_buffer s level event fields :
  let base := (Z.to_nat (Z.land s.(head_) s.(mask_)) * FRAME_BYTES)%nat in
  level <> Off -> (base + 256 <= length s.(buffer_))%nat ->
  (bin_emit s level event fields).(buffer_) =
  write_at s.(buffer_) base (frame_of s.(wall_seq_) level event fields).
Proof.
  intros base Hl Hb.
  assert ((bin_emit s level event fields).(buffer_) =
    put_fields (write_at (MI.put_u16
        (<[(base + 9)%nat := Z.of_nat (field_count event fields)]>
          (<[(base + 8)%nat := level_code level]>
            (MI.put_u64 (write_at s.(buffer_) base (replicate 256 0)) base s.(wall_seq_))))
        (base + 10) (Z.of_nat (name_len event))) (base + 12) (take (name_len event) event))
      (base + 12 + name_len event) (take (field_count event fields) fields)) as -> by by destruct level.
  pose proof (field_count_room event fields) as Hroom.
  assert (name_len event <= length event)%nat as Hn by (unfold name_len; lia).
  rewrite MI.put_u64_spec by blen. rewrite !write_at_insert by blen.
  rewrite MI.put_u16_spec by blen.
  replace base with (base + 0)%nat at 2 by lia.
  rewrite write_at_nested by blen. rewrite write_at_nested by blen.
  rewrite write_at_nested by blen. rewrite write_at_nested by blen.
  rewrite write_at_nested by blen. rewrite <- Nat.add_assoc.
  rewrite put_fields_nested by blen. f_equal.
  change (replicate 256 0) with ([] ++ replicate 256 0).
  rewrite (write_at_fill [] _ 0) by blen. rewrite (write_at_fill _ _ 0) by blen.
  rewrite (write_at_fill _ _ 0) by blen. rewrite (write_at_fill _ _ 0) by blen.
  rewrite (write_at_fill _ _ 0) by blen. cbn [replicate app].
  match goal with |- put_fields (?q ++ _) _ _ = _ => set (pre := q) end.
  assert (length pre = 12 + name_len event)%nat as Lp by (subst pre; len).
  rewrite <- Lp. rewrite put_fields_spec by (rewrite length_take; len).
  match goal with |- (?q ++ _) ++ replicate ?n 0 = _ => set (body := q ++ _); set (k := n) end.
  assert (k = 256 - length body)%nat as ->.
  { subst k body. rewrite (length_app pre), Lp, length_fields_bytes. len. }
  change (pad 256 body = frame_of (wall_seq_ s) level event fields). unfold frame_of.
  f_equal.
Qed.

(** *** The ring as a bounded FIFO of frames *)

(** The index of the [i]-th oldest frame. *)
Definition slot (cap head size i : Z) : Z := (head + cap - size + i) mod cap.

Definition frame_at (s : bin) (k : Z) : list Z :=
  slice (Z.to_nat k * FRAME_BYTES) FRAME_BYTES s.(buffer_).

Definition frames (s : bin) : list (list Z) :=
  (fun i => frame_at s (slot s.(capacity_) s.(head_) s.(size_) i)) <$> seqZ 0 s.(size_).

Record bin_wf (s : bin) : Prop := {
  bw_pow : exists k, 0 <= k < 64 /\ s.(capacity_) = 2 ^ k;
  bw_mask : s.(mask_) = s.(capacity_) - 1;
  bw_len : length s.(buffer_) = (Z.to_nat s.(capacity_) * FRAME_BYTES)%nat;
  bw_head : 0 <= s.(head_) < s.(capacity_);
  bw_size : 0 <= s.(size_) <= s.(capacity_);
}.

Lemma pow2_loop_spec fuel k n :
  0 <= k -> k + Z.of_nat fuel = 64 -> 2 ^ k <= n -> n < 2 ^ 64 ->
  exists k', k <= k' < 64 /\ pow2_loop fuel (2 ^ k) n = 2 ^ k' /\ 2 ^ k' <= n < 2 ^ (k' + 1).
Proof.
  revert k. induction fuel as [|f IH]; intros k Hk Hf Hn Hn'.
  - replace k with 64 in Hn by lia. lia.
  - cbn [pow2_loop]. assert (k < 64) by lia.
    assert (Z.shiftl (2 ^ k) 1 = 2 ^ (k + 1)) as -> by (rewrite Z.shiftl_mul_pow2, <- Z.pow_add_r by lia; done).
    destruct (decide (k = 63)) as [->|Hne].
    + change (MI.u64 (2 ^ (63 + 1))) with 0. exists 63. split; [lia|]. split; [reflexivity|].
      split; [done|]. change (63 + 1) with 64. lia.
    + assert (2 ^ (k + 1) <= 2 ^ 63) by (apply Z.pow_le_mono_r; lia).
      assert (2 ^ k < 2 ^ (k + 1)) by (apply Z.pow_lt_mono_r; lia).
      assert (0 < 2 ^ (k + 1)) by (apply Z.pow_pos_nonneg; lia).
      rewrite MI.u64_id by (unfold MI.is_u64; lia).
      rewrite (proj2 (Z.ltb_lt (2 ^ k) (2 ^ (k + 1)))) by lia. cbn [andb].
      destruct (Z.leb_spec (2 ^ (k + 1)) n).
      * destruct (IH (k + 1)) as (k' & ? & ? & ?); [lia..|]. exists k'. split; [lia|done].
      * exists k. split; [lia|]. split; [done|lia].
Qed.

Lemma floor_pow2_spec n :
  1 <= n < 2 ^ 64 -> exists k, 0 <= k < 64 /\ floor_pow2 n = 2 ^ k /\ 2 ^ k <= n < 2 ^ (k + 1).
Proof.
  intros H. unfold floor_pow2. rewrite (proj2 (Z.eqb_neq n 0)) by lia.
  destruct (pow2_loop_spec 64 0 n) as (k & ? & ? & ?); [cbn; lia..|]. exists k. split; [lia|done].
Qed.

Lemma new_bin_wf capacity : MI.is_u64 capacity -> bin_wf (new_bin capacity).
Proof.
  unfold MI.is_u64. intros H. set (n := if capacity =? 0 then 1 else capacity).
  assert (1 <= n < 2 ^ 64) as Hn by (subst n; destruct (Z.eqb_spec capacity 0); lia).
  destruct (floor_pow2_spec n Hn) as (k & Hk & E & _).
  assert (0 < 2 ^ k) by (apply Z.pow_pos_nonneg; lia).
  constructor; unfold new_bin; cbn [buffer_ capacity_ mask_ head_ size_]; fold n; rewrite ?E;
    [eauto|done|by rewrite length_replicate|lia|lia].
Qed.

(** The mask is the remainder. *)
Lemma land_mask s v : bin_wf s -> Z.land v s.(mask_) = v mod s.(capacity_).
Proof.
  intros W. destruct (bw_pow s W) as (k & Hk & E). rewrite (bw_mask s W), E.
  rewrite <- Z.land_ones by lia. f_equal. rewrite Z.ones_equiv. lia.
Qed.

Lemma slot_range c h n i : 0 < c -> 0 <= slot c h n i < c.
Proof. apply Z.mod_pos_bound. Qed.

Lemma slot_last c h n : 0 <= h < c -> slot c ((h + 1) mod c) n (n - 1) = h.
Proof.
  intros H. unfold slot.
  replace ((h + 1) mod c + c - n + (n - 1)) with ((h + 1) mod c + (c - 1)) by lia.
  rewrite Zplus_mod_idemp_l. replace (h + 1 + (c - 1)) with (h + 1 * c) by lia.
  rewrite Z_mod_plus_full. by apply Z.mod_small.
Qed.

Lemma slot_shift c h n i : slot c ((h + 1) mod c) (n + 1) i = slot c h n i.
Proof.
  unfold slot. rewrite <- !Z.add_sub_assoc, <- !Z.add_assoc.
  rewrite Zplus_mod_idemp_l. f_equal. lia.
Qed.

Lemma slot_ne_head c h n i : 0 <= h < c -> 0 <= i < n -> n <= c -> 0 < n - i < c -> slot c h n i <> h.
Proof.
  intros Hh Hi Hn Hd E. unfold slot in E.
  pose proof (Z.div_mod (h + c - n + i) c ltac:(lia)) as D. rewrite E in D.
  assert (c * ((h + c - n + i) / c - 1) = i - n) as F by lia.
  destruct (Z.lt_trichotomy ((h + c - n + i) / c - 1) 0) as [L|[L|L]]; nia.
Qed.

Lemma frame_at_other s buf k k' f :
  bin_wf s -> buf = write_at s.(buffer_) (Z.to_nat k * FRAME_BYTES) f -> length f = 256%nat ->
  0 <= k < s.(capacity_) -> 0 <= k' < s.(capacity_) -> k <> k' ->
  slice (Z.to_nat k' * FRAME_BYTES) FRAME_BYTES buf = frame_at s k'.
Proof.
  intros W -> Hf Hk Hk' Hne. unfold frame_at. pose proof (bw_len s W) as L.
  unfold FRAME_BYTES in *. apply slice_write_at_other; nia.
Qed.

Lemma seqZ_snoc n : 0 <= n -> seqZ 0 (n + 1) = seqZ 0 n ++ [n].
Proof. intros H. rewrite seqZ_app by lia. f_equal. Qed.

(** The abstract sink: the frames held, and the counters. *)
Record bspec := mk_bspec { b_frames : list (list Z); b_seq : Z; b_dropped : Z; b_total : Z }.

Definition bspec_emit (cap : Z) (s : bspec) (level : TraceLevel) (event : list Z)
    (fields : list TraceField) : bspec :=
  match level with
  | Off => s
  | _ =>
      let full := Z.of_nat (length s.(b_frames)) =? cap in
      mk_bspec ((if full then tail s.(b_frames) else s.(b_frames))
                 ++ [frame_of s.(b_seq) level event fields])
        (MI.u64 (s.(b_seq) + 1))
        (if full then MI.u64 (s.(b_dropped) + 1) else s.(b_dropped)) (MI.u64 (s.(b_total) + 1))
  end.

Definition bin_abs (s : bin) : bspec := mk_bspec (frames s) s.(wall_seq_) s.(dropped_) s.(total_emits_).

Lemma length_frames s : bin_wf s -> Z.of_nat (length (frames s)) = s.(size_).
Proof. intros W. unfold frames. rewrite length_fmap, length_seqZ. pose proof (bw_size s W). lia. Qed.

Lemma fmap_ext_in {A B} (f g : A -> B) (l : list A) : (forall x, x ∈ l -> f x = g x) -> f <$> l = g <$> l.
Proof. intros H. apply list_fmap_ext. intros i x E. apply H. by eapply list_elem_of_lookup_2. Qed.

(** The frames after a frame [F] is stored at the head: the old ones, the oldest
    dropped if the ring was full, and [F]. *)
Lemma frames_push s F seq d tot :
  bin_wf s -> length F = 256%nat ->
  let full := s.(size_) =? s.(capacity_) in
  frames (mk_bin (write_at s.(buffer_) (Z.to_nat s.(head_) * FRAME_BYTES) F) s.(capacity_) s.(mask_)
            ((s.(head_) + 1) mod s.(capacity_)) (if full then s.(size_) else s.(size_) + 1) seq d tot)
  = (if full then tail (frames s) else frames s) ++ [F].
Proof.
  intros W LF full. pose proof (bw_head s W) as Hh. pose proof (bw_size s W) as Hs.
  pose proof (bw_len s W) as L.
  assert (forall k', 0 <= k' < s.(capacity_) -> k' <> s.(head_) ->
    slice (Z.to_nat k' * FRAME_BYTES) FRAME_BYTES
      (write_at s.(buffer_) (Z.to_nat s.(head_) * FRAME_BYTES) F) = frame_at s k') as Hother.
  { intros k' Hk Hne. by apply (frame_at_other s _ s.(head_) k' F). }
  assert (slice (Z.to_nat s.(head_) * FRAME_BYTES) FRAME_BYTES
      (write_at s.(buffer_) (Z.to_nat s.(head_) * FRAME_BYTES) F) = F) as Hsame.
  { unfold FRAME_BYTES in *. rewrite <- LF at 2. apply slice_write_at_same. nia. }
  unfold frames. cbn [capacity_ head_ size_].
  subst full. destruct (Z.eqb_spec s.(size_) s.(capacity_)) as [E|E].
  - replace s.(size_) with (s.(size_) - 1 + 1) at 1 by lia.
    rewrite seqZ_snoc, fmap_app by lia. f_equal.
    + rewrite (seqZ_cons 0 s.(size_)) by lia. cbn [tail fmap list_fmap].
      change (Z.succ 0) with (1 + 0). rewrite <- fmap_add_seqZ, <- list_fmap_compose.
      replace (Z.pred s.(size_)) with (s.(size_) - 1) by lia.
      apply fmap_ext_in. intros i [Hi1 Hi2]%elem_of_seqZ. cbn [compose].
      replace (slot s.(capacity_) ((s.(head_) + 1) mod s.(capacity_)) s.(size_) i)
        with (slot s.(capacity_) s.(head_) s.(size_) (1 + i)).
      * apply Hother; [apply slot_range; lia|apply slot_ne_head; lia].
      * rewrite <- (slot_shift _ s.(head_) s.(size_)). unfold slot. f_equal. lia.
    + cbn [fmap list_fmap]. unfold frame_at. cbn [buffer_]. rewrite slot_last by lia. f_equal. apply Hsame.
  - rewrite seqZ_snoc, fmap_app by lia. f_equal.
    + apply fmap_ext_in. intros i [Hi1 Hi2]%elem_of_seqZ. rewrite slot_shift.
      apply Hother; [apply slot_range; lia|apply slot_ne_head; lia].
    + cbn [fmap list_fmap]. unfold frame_at. cbn [buffer_].
      replace s.(size_) with (s.(size_) + 1 - 1) at 2 by lia.
      rewrite slot_last by lia. f_equal. apply Hsame.
Qed.

Lemma bin_emit_refines s level event fields :
  bin_wf s ->
  bin_wf (bin_emit s level event fields) /\
  bin_abs (bin_emit s level event fields) = bspec_emit s.(capacity_) (bin_abs s) level event fields.
Proof.
  intros W. destruct (decide (level = Off)) as [->|Hl]; [done|].
  pose proof (bw_head s W) as Hh. pose proof (bw_size s W) as Hs. pose proof (bw_len s W) as L.
  set (F := frame_of s.(wall_seq_) level event fields).
  assert (length F = 256%nat) as LF by apply length_frame_of.
  assert ((bin_emit s level event fields).(buffer_) =
          write_at s.(buffer_) (Z.to_nat s.(head_) * FRAME_BYTES) F) as Eb.
  { rewrite bin_emit_buffer; rewrite ?land_mask, ?Z.mod_small by done; try done.
    rewrite L. unfold FRAME_BYTES. nia. }
  assert (bin_emit s level event fields =
    mk_bin (bin_emit s level event fields).(buffer_) s.(capacity_) s.(mask_)
      ((s.(head_) + 1) mod s.(capacity_))
      (if s.(size_) =? s.(capacity_) then s.(size_) else s.(size_) + 1) (MI.u64 (s.(wall_seq_) + 1))
      (if s.(size_) =? s.(capacity_) then MI.u64 (s.(dropped_) + 1) else s.(dropped_))
      (MI.u64 (s.(total_emits_) + 1))) as E
    by (rewrite <- (land_mask s _ W); by destruct level).
  rewrite E, Eb. clear E Eb. split.
  - constructor; cbn [buffer_ capacity_ mask_ head_ size_]; try apply W.
    + unfold FRAME_BYTES in *. rewrite length_write_at; [done|]. rewrite L. nia.
    + apply Z.mod_pos_bound. lia.
    + destruct (Z.eqb_spec (size_ s) (capacity_ s)); lia.
  - unfold bin_abs. cbn [wall_seq_ dropped_ total_emits_]. rewrite frames_push by done.
    unfold bspec_emit. cbn [b_frames b_seq b_dropped b_total].
    rewrite (length_frames s W). by destruct level.
Qed.

(** The operations, and their abstract counterparts. *)
Inductive bop :=
| BEmit (level : TraceLevel) (event : list Z) (fields : list TraceField)
| BPop
| BClear.

Definition bexec (s : bin) (o : bop) : bin :=
  match o with
  | BEmit l e fs => bin_emit s l e fs
  | BPop => (pop_oldest s).1
  | BClear => bin_clear s
  end.

Definition bspec_exec (cap : Z) (s : bspec) (o : bop) : bspec :=
  match o with
  | BEmit l e fs => bspec_emit cap s l e fs
  | BPop => mk_bspec (tail s.(b_frames)) s.(b_seq) s.(b_dropped) s.(b_total)
  | BClear => mk_bspec [] s.(b_seq) s.(b_dropped) s.(b_total)
  end.

Lemma frames_pop s :
  bin_wf s -> s.(size_) <> 0 ->
  frames (mk_bin s.(buffer_) s.(capacity_) s.(mask_) s.(head_) (s.(size_) - 1) s.(wall_seq_)
            s.(dropped_) s.(total_emits_)) = tail (frames s).
Proof.
  intros W Hne. pose proof (bw_size s W) as Hs. unfold frames. cbn [capacity_ head_ size_].
  rewrite (seqZ_cons 0 s.(size_)) by lia. cbn [tail fmap list_fmap].
  change (Z.succ 0) with (1 + 0). rewrite <- fmap_add_seqZ, <- list_fmap_compose.
  replace (Z.pred s.(size_)) with (s.(size_) - 1) by lia.
  apply fmap_ext_in. intros i _. cbn [compose]. unfold slot, frame_at. cbn [buffer_].
  do 4 f_equal. lia.
Qed.

Lemma bexec_refines s o :
  bin_wf s ->
  bin_wf (bexec s o) /\ (bexec s o).(capacity_) = s.(capacity_) /\
  bin_abs (bexec s o) = bspec_exec s.(capacity_) (bin_abs s) o.
Proof.
  intros W. destruct o as [l e fs| |]; cbn [bexec bspec_exec].
  - destruct (bin_emit_refines s l e fs W) as [W' E]. split_and!; [done|by destruct l|done].
  - unfold pop_oldest. destruct (Z.eqb_spec s.(size_) 0) as [E|E]; cbn [fst].
    + split_and!; [done|done|]. unfold bin_abs, frames. cbn. by rewrite E.
    + split_and!; [|done|unfold bin_abs; cbn [wall_seq_ dropped_ total_emits_];
        by rewrite frames_pop].
      pose proof (bw_size s W). constructor; cbn [buffer_ capacity_ mask_ head_ size_]; try apply W. lia.
  - split_and!; [|done|done]. destruct (bw_pow s W) as (k & Hk & Ek).
    assert (0 < 2 ^ k) by (apply Z.pow_pos_nonneg; lia).
    constructor; cbn [bin_clear buffer_ capacity_ mask_ head_ size_]; try apply W; lia.
Qed.

Lemma brun_refines ops s :
  bin_wf s ->
  let s' := foldl bexec s ops in
  bin_wf s' /\ s'.(capacity_) = s.(capacity_) /\
  bin_abs s' = foldl (bspec_exec s.(capacity_)) (bin_abs s) ops.
Proof.
  revert s. induction ops as [|o ops IH]; intros s W; [done|]. cbn [foldl].
  destruct (bexec_refines s o W) as (W' & C & A). destruct (IH _ W') as (W2 & C2 & A2).
  cbn zeta. split_and!; [done|congruence|]. by rewrite A2, C, A.
Qed.

Lemma peek_frames s : bin_wf s -> peek_oldest s = head (frames s).
Proof.
  intros W. unfold peek_oldest, frames. pose proof (bw_size s W) as Hs.
  destruct (Z.eqb_spec s.(size_) 0) as [E|E]; [by rewrite E|].
  rewrite (seqZ_cons 0 s.(size_)) by lia. cbn [fmap list_fmap head].
  rewrite (land_mask s) by done. unfold frame_at, slot. by rewrite Z.add_0_r.
Qed.

(** The binary sink holds the most recent events and loses only the oldest.
    Whatever capacity it is given, it rounds it down to a power of two; after any
    sequence of emits, pops and clears it holds exactly the frames of the FIFO that
    drops its oldest frame when full, [peek_oldest] returns the oldest of them,
    [size] never exceeds the capacity and the drop and emit counters count (modulo
    2^64).  Each frame is 256 bytes and carries the sequence number, level, name
    and as many fields as fit, at the documented offsets; no write leaves the
    buffer. *)
Theorem binary_sink_keeps_latest (capacity : Z) (ops : list bop) :
  MI.is_u64 capacity ->
  let s := foldl bexec (new_bin capacity) ops in
  let cap := (new_bin capacity).(capacity_) in
  let a := foldl (bspec_exec cap) (mk_bspec [] 0 0 0) ops in
  (exists k, 0 <= k < 64 /\ cap = 2 ^ k /\ cap <= Z.max 1 capacity < 2 * cap) /\
  length s.(buffer_) = (Z.to_nat cap * FRAME_BYTES)%nat /\
  0 <= s.(size_) <= cap /\
  peek_oldest s = head a.(b_frames) /\
  Z.of_nat (length a.(b_frames)) = s.(size_) /\
  s.(dropped_) = a.(b_dropped) /\ s.(total_emits_) = a.(b_total) /\ s.(wall_seq_) = a.(b_seq).
Proof.
  intros Hc s cap a. pose proof (new_bin_wf capacity Hc) as W0.
  destruct (brun_refines ops _ W0) as (W & C & A).
  fold s cap in W, C, A. assert (bin_abs s = a) as Ea by exact A.
  unfold MI.is_u64 in Hc.
  split.
  { set (n := if capacity =? 0 then 1 else capacity).
    assert (n = Z.max 1 capacity) as En by (subst n; destruct (Z.eqb_spec capacity 0); lia).
    destruct (floor_pow2_spec n) as (k & Hk & E & Hb); [lia|]. exists k.
    assert (cap = 2 ^ k) as -> by (rewrite <- E; done).
    rewrite <- En. rewrite Z.pow_add_r in Hb by lia. lia. }
  rewrite <- Ea, <- C. split_and!; try done.
  - apply W. - apply W. - apply W. - by apply peek_frames. - by apply length_frames.
Qed.

Lemma binary_sink_keeps_latest_witness :
  let ops := [BEmit Info (codes "a") []; BEmit Warn (codes "b") sample_fields;
              BEmit Debug (codes "c") []; BPop] in
  let s := foldl bexec (new_bin 3) ops in
  s.(capacity_) = 2 /\ s.(size_) = 1 /\ s.(dropped_) = 1 /\
  peek_oldest s = Some (frame_of 2 Debug (codes "c") []).
Proof.
  pose proof (binary_sink_keeps_latest 3
    [BEmit Info (codes "a") []; BEmit Warn (codes "b") sample_fields;
     BEmit Debug (codes "c") []; BPop] ltac:(unfold MI.is_u64; lia)) as H.
  cbn zeta in H. destruct H as (_ & _ & _ & Hp & _). cbn zeta. rewrite Hp.
  vm_compute. done.
Defined.

End Tr.
