(* ===== verification/Scheduler.v ===== *)
(** The system scheduler: registration, graph construction and the sequential
    tick ([include/mith/core/system.h], [include/mith/core/scheduler.h],
    [src/core/scheduler.cpp]).  The parallel tick is in SchedulerParallel.

    A system is a handle with a descriptor and a tick on the shared state; the
    class [SystemOps] is the [System] interface.  Private fields of the objects
    live in the shared state, so that systems that reach each other through the
    world see each other's updates. *)

From S2P Require Import Prelude MachineInt Float32 Trace.
From stdpp Require Import sorting.
Local Open Scope Z_scope.

Module Sched.

(* @src include/mith/core/swarm_context.h:16-21 SwarmContext *)
Record SwarmContext := mk_ctx {
  ctx_swarm_id : Z;
  elapsed_time_s : Z;
  delta_time_s : Z;
  tick_count : Z;
}.

Definition NeighbourTableR : Z := 0.
Definition TransportTx : Z := 1.
(* @src include/mith/core/system.h:32-38 ResourceID *)
Definition TransportRx : Z := 2.

(* @src include/mith/core/system.h:42-48 SystemDescriptor *)
Record SystemDescriptor := mk_desc {
  d_name : list Z;
  reads_components : list Z;
  writes_components : list Z;
  reads_resources : list Z;
  writes_resources : list Z;
}.

(* @src include/mith/core/system.h:50-75 System *)
Class SystemOps (S W : Type) := {
  describe : S -> SystemDescriptor;
  sys_tick : S -> SwarmContext -> Z -> W -> outcome W;
}.

Inductive SchedulerMode := Parallel | Sequential.
#[global] Instance SchedulerMode_eq_dec : EqDecision SchedulerMode.
Proof. solve_decision. Defined.

(* @src include/mith/core/scheduler.h:47-51 SchedulerStatus *)
Inductive SchedulerStatus := StOk | DuplicateName | AlreadyBuilt.

(* @src include/mith/core/scheduler.h:59-64 SystemTiming *)
Record SystemTiming := mk_timing { tm_name : list Z; start_us : Z; duration_us : Z; thread_id : Z }.
Definition default_timing : SystemTiming := mk_timing [] 0 0 0.

(** The lambda of [have_hazard]. *)
(* @src src/core/scheduler.cpp:78-85 have_hazard *)
Definition intersects (va vb : list Z) : bool :=
  existsb (fun x => existsb (fun y => x =? y) vb) va.

(* @src src/core/scheduler.cpp:77-93 have_hazard *)
Definition have_hazard (a b : SystemDescriptor) : bool :=
  if intersects a.(writes_components) b.(reads_components) then true
  else if intersects a.(reads_components) b.(writes_components) then true
  else if intersects a.(writes_components) b.(writes_components) then true
  else if intersects a.(writes_resources) b.(reads_resources) then true
  else if intersects a.(reads_resources) b.(writes_resources) then true
  else intersects a.(writes_resources) b.(writes_resources).

(** [hc] is what [std::thread::hardware_concurrency] returns. *)
(* @src src/core/scheduler.cpp:95-100 resolve_pool_size *)
Definition resolve_pool_size (requested hc : Z) : Z :=
  if 0 <? requested then requested else if hc <=? 1 then 1 else hc - 1.

(** The number of workers a pool starts. *)
(* @src src/core/scheduler.cpp:26-32 ThreadPool::ThreadPool *)
Definition pool_workers (num_workers : Z) : nat :=
  Z.to_nat (if num_workers =? 0 then 1 else num_workers).

Section Scheduler.
Context {S W : Type} `{!SystemOps S W}.

(** [pool_] is the number of the pool's workers; [sink_] tells whether a sink is
    attached, the events are returned to its owner. *)
(* @src include/mith/core/scheduler.h:126-136 SystemScheduler *)
Record scheduler := mk_sched {
  mode_ : SchedulerMode;
  thread_pool_size_ : Z;
  systems_ : list S;
  order_ : list nat;
  dependents_ : list (list nat);
  in_degree_initial_ : list Z;
  pool_ : option nat;
  last_timings_ : list SystemTiming;
  built_ : bool;
  sink_ : bool;
}.

(* @src src/core/scheduler.cpp:121-124 SystemScheduler::SystemScheduler *)
Definition new_scheduler (mode : SchedulerMode) (thread_pool_size : Z) : scheduler :=
  mk_sched mode thread_pool_size [] [] [] [] None [] false false.

Definition name_of (s : S) : list Z := (describe s).(d_name).

(** [None] is the null pointer. *)
(* @src src/core/scheduler.cpp:128-146 SystemScheduler::register_system *)
Definition register_system (sch : scheduler) (system : option S) : outcome (scheduler * SchedulerStatus) :=
  match system with
  | None => Aborted "register_system: null system pointer"
  | Some s =>
      if existsb (fun e => bool_decide (name_of e = name_of s)) sch.(systems_) then
        Ok (sch, DuplicateName)
      else
        Ok (mk_sched sch.(mode_) sch.(thread_pool_size_) (sch.(systems_) ++ [s]) sch.(order_)
              sch.(dependents_) sch.(in_degree_initial_) sch.(pool_) sch.(last_timings_) false
              sch.(sink_), StOk)
  end.

(** The name of the system at an index of [systems_]. *)
Definition name_at (systems : list S) (i : nat) : list Z :=
  match systems !! i with Some s => name_of s | None => [] end.

Definition name_le (systems : list S) (a b : nat) : Prop :=
  str_ltb (name_at systems b) (name_at systems a) = false.
#[global] Instance name_le_dec systems a b : Decision (name_le systems a b) :=
  bool_eq_dec (str_ltb (name_at systems b) (name_at systems a)) false.

(** [std::iota] and [std::sort]; names are unique, so the result does not depend
    on the sorting algorithm. *)
(* @src src/core/scheduler.cpp:154-159 SystemScheduler::build_graph *)
Definition sort_by_name (systems : list S) : list nat :=
  merge_sort (name_le systems) (seq 0 (length systems)).

(** One pass of the inner loop: the edges from [i] to the later indices. *)
(* @src src/core/scheduler.cpp:191-197 SystemScheduler::build_hazard_graph_ *)
Fixpoint edges_from (systems : list S) (di : SystemDescriptor) (i : nat) (later : list nat)
    (g : list (list nat) * list Z) : list (list nat) * list Z :=
  match later with
  | [] => g
  | j :: later =>
      let g :=
        match systems !! j with
        | Some sj =>
            if have_hazard di (describe sj) then
              (alter (fun l => l ++ [j]) i g.1, alter (fun n => n + 1) j g.2)
            else g
        | None => g
        end in
      edges_from systems di i later g
  end.

(* @src src/core/scheduler.cpp:188-198 SystemScheduler::build_hazard_graph_ *)
Fixpoint edges_all (systems : list S) (order : list nat) (g : list (list nat) * list Z)
    : list (list nat) * list Z :=
  match order with
  | [] => g
  | i :: later =>
      match systems !! i with
      | Some si => edges_all systems later (edges_from systems (describe si) i later g)
      | None => g
      end
  end.

(* @src src/core/scheduler.cpp:180-199 SystemScheduler::build_hazard_graph_ *)
Definition build_hazard_graph_ (systems : list S) (order : list nat) : list (list nat) * list Z :=
  edges_all systems order
    (replicate (length systems) [], replicate (length systems) 0).

(** The timing buffer, resized and with its names set. *)
(* @src src/core/scheduler.cpp:171-174 SystemScheduler::build_graph *)
Definition resize_timings (systems : list S) (tms : list SystemTiming) : list SystemTiming :=
  imap (fun i s => let t := default default_timing (tms !! i) in
                   mk_timing (name_of s) t.(start_us) t.(duration_us) t.(thread_id)) systems.

(* @src src/core/scheduler.cpp:148-178 SystemScheduler::build_graph *)
Definition build_graph (hc : Z) (sch : scheduler) : scheduler * SchedulerStatus :=
  if sch.(built_) then (sch, AlreadyBuilt)
  else
    let order := sort_by_name sch.(systems_) in
    let '(deps, indeg) :=
      match sch.(mode_) with
      | Parallel => build_hazard_graph_ sch.(systems_) order
      | Sequential => (sch.(dependents_), sch.(in_degree_initial_))
      end in
    let pool :=
      match sch.(mode_), sch.(pool_) with
      | Parallel, None => Some (pool_workers (resolve_pool_size sch.(thread_pool_size_) hc))
      | _, p => p
      end in
    (mk_sched sch.(mode_) sch.(thread_pool_size_) sch.(systems_) order deps indeg pool
       (resize_timings sch.(systems_) sch.(last_timings_)) true sch.(sink_), StOk).

Definition set_trace_sink (sch : scheduler) (on : bool) : scheduler :=
  mk_sched sch.(mode_) sch.(thread_pool_size_) sch.(systems_) sch.(order_) sch.(dependents_)
    sch.(in_degree_initial_) sch.(pool_) sch.(last_timings_) sch.(built_) on.

(* @src src/core/scheduler.cpp:309-321 SystemScheduler::emit_tick_event_ *)
Definition emit_tick_event_ (sch : scheduler) (ctx : SwarmContext) (delta_time : Z) : list Tr.TraceEvent :=
  if negb sch.(sink_) then []
  else
    [Tr.mk_event Tr.Info (codes "tick_completed")
       [Tr.mk_field (codes "tick") (Tr.FU64 ctx.(tick_count));
        Tr.mk_field (codes "delta_time_s") (Tr.FF64 (F32.to_f64 delta_time));
        Tr.mk_field (codes "system_count") (Tr.FU64 (Z.of_nat (length sch.(systems_))));
        Tr.mk_field (codes "swarm_id") (Tr.FU64 ctx.(ctx_swarm_id))]].

(** The measured times of a system's tick: start and duration, in microseconds,
    as doubles. *)
Definition set_timing (tms : list SystemTiming) (idx : nat) (clk : Z * Z) (tid : Z) : list SystemTiming :=
  alter (fun t => mk_timing t.(tm_name) clk.1 clk.2 tid) idx tms.

(** The dispatch loop of the sequential mode.  [clk] gives the times measured
    around each system, [tid] the calling thread's hash. *)
(* @src src/core/scheduler.cpp:215-222 SystemScheduler::tick *)
Fixpoint dispatch_loop (systems : list S) (clk : nat -> Z * Z) (tid : Z) (ctx : SwarmContext)
    (delta_time : Z) (order : list nat) (w : W) (tms : list SystemTiming)
    : outcome (W * list SystemTiming) :=
  match order with
  | [] => Ok (w, tms)
  | idx :: order =>
      match systems !! idx with
      | None => Undefined "systems_[idx] out of range"
      | Some s =>
          let! w := sys_tick s ctx delta_time w in
          dispatch_loop systems clk tid ctx delta_time order w (set_timing tms idx (clk idx) tid)
      end
  end.

(** [tick] in [Sequential] mode. *)
(* @src src/core/scheduler.cpp:201-225 SystemScheduler::tick *)
Definition tick_sequential (clk : nat -> Z * Z) (tid : Z) (sch : scheduler) (ctx : SwarmContext)
    (delta_time : Z) (w : W) : outcome (scheduler * W * list Tr.TraceEvent) :=
  if negb sch.(built_) then
    Aborted "tick(): build_graph() not called since last register_system()"
  else
    let! (w, tms) := dispatch_loop sch.(systems_) clk tid ctx delta_time sch.(order_) w
                        sch.(last_timings_) in
    Ok (mk_sched sch.(mode_) sch.(thread_pool_size_) sch.(systems_) sch.(order_) sch.(dependents_)
          sch.(in_degree_initial_) sch.(pool_) tms sch.(built_) sch.(sink_),
        w, emit_tick_event_ sch ctx delta_time).

(** ** Hazards and order *)

Lemma intersects_spec va vb : intersects va vb = true <-> exists x, x ∈ va /\ x ∈ vb.
Proof.
  unfold intersects. rewrite existsb_exists. split.
  - intros (x & Hx%list_elem_of_In & (y & Hy%list_elem_of_In & ->%Z.eqb_eq)%existsb_exists). eauto.
  - intros (x & Hx%list_elem_of_In & Hy%list_elem_of_In). exists x. split; [done|].
    apply existsb_exists. exists x. by rewrite Z.eqb_refl.
Qed.

(** Two systems conflict iff they share a component or a resource that one of
    them writes. *)
Definition touches (d : SystemDescriptor) (res : bool) (x : Z) : Prop :=
  if res then x ∈ d.(reads_resources) \/ x ∈ d.(writes_resources)
  else x ∈ d.(reads_components) \/ x ∈ d.(writes_components).
Definition writes (d : SystemDescriptor) (res : bool) (x : Z) : Prop :=
  if res then x ∈ d.(writes_resources) else x ∈ d.(writes_components).

Lemma have_hazard_spec a b :
  have_hazard a b = true <->
  exists res x, touches a res x /\ touches b res x /\ (writes a res x \/ writes b res x).
Proof.
  assert (have_hazard a b = true <->
    intersects a.(writes_components) b.(reads_components) = true \/
    intersects a.(reads_components) b.(writes_components) = true \/
    intersects a.(writes_components) b.(writes_components) = true \/
    intersects a.(writes_resources) b.(reads_resources) = true \/
    intersects a.(reads_resources) b.(writes_resources) = true \/
    intersects a.(writes_resources) b.(writes_resources) = true) as ->
    by (unfold have_hazard; repeat step_case; naive_solver).
  rewrite !intersects_spec. unfold touches, writes. split.
  - intros [(x&?&?)|[(x&?&?)|[(x&?&?)|[(x&?&?)|[(x&?&?)|(x&?&?)]]]]];
      [exists false, x|exists false, x|exists false, x|exists true, x|exists true, x|exists true, x];
      naive_solver.
  - intros ([] & x & H); naive_solver.
Qed.

Lemma have_hazard_sym a b : have_hazard a b = have_hazard b a.
Proof. apply eq_true_iff_eq. rewrite !have_hazard_spec. naive_solver. Qed.

(** *** The order *)

Implicit Types systems : list S.

#[global] Instance name_le_total systems : Total (name_le systems).
Proof.
  intros a b. unfold name_le. destruct (str_ltb (name_at systems b) (name_at systems a)) eqn:E; [|auto].
  right. destruct (str_ltb (name_at systems a) (name_at systems b)) eqn:E'; [|done].
  pose proof (str_ltb_trans _ _ _ E E') as H. by rewrite str_ltb_irrefl in H.
Qed.

#[global] Instance name_le_trans systems : Transitive (name_le systems).
Proof.
  intros a b c. unfold name_le. intros Hab Hbc.
  destruct (str_ltb (name_at systems c) (name_at systems a)) eqn:E; [|done].
  destruct (str_ltb (name_at systems a) (name_at systems b)) eqn:E1.
  - by rewrite (str_ltb_trans _ _ _ E E1) in Hbc.
  - rewrite (str_ltb_total _ _ E1 Hab) in E. congruence.
Qed.

Lemma order_perm systems : sort_by_name systems ≡ₚ seq 0 (length systems).
Proof. apply merge_sort_Permutation. Qed.

Lemma order_NoDup systems : NoDup (sort_by_name systems).
Proof. rewrite order_perm. apply NoDup_seq. Qed.

Lemma order_lt systems i : i ∈ sort_by_name systems <-> (i < length systems)%nat.
Proof. rewrite order_perm, elem_of_seq. lia. Qed.

Lemma order_sorted systems : StronglySorted (name_le systems) (sort_by_name systems).
Proof. apply StronglySorted_merge_sort; apply _. Qed.

(** The indices behind [i] in an order. *)
Fixpoint after (i : nat) (order : list nat) : list nat :=
  match order with
  | [] => []
  | x :: l => if decide (x = i) then l else after i l
  end.

Lemma after_elem i order : after i order ⊆ order.
Proof.
  induction order as [|x l IH]; [done|]. cbn. destruct (decide (x = i)); set_solver.
Qed.

Lemma NoDup_after i order : NoDup order -> NoDup (after i order).
Proof.
  induction order as [|x l IH]; [done|]. intros [? ?]%NoDup_cons. cbn.
  destruct (decide (x = i)); auto.
Qed.

(** *** The hazard graph *)

(** The hazard between the systems at two indices. *)
Definition hazard systems (i j : nat) : bool :=
  match systems !! i, systems !! j with
  | Some a, Some b => have_hazard (describe a) (describe b)
  | _, _ => false
  end.

Lemma hazard_sym systems i j : hazard systems i j = hazard systems j i.
Proof. unfold hazard. destruct (systems !! i), (systems !! j); auto using have_hazard_sym. Qed.

Definition occ (j : nat) (l : list nat) : nat := length (filter (j =.) l).
(** The number of edges into [j]. *)
Definition in_edges (deps : list (list nat)) (j : nat) : nat := sum_list (occ j <$> deps).

Lemma occ_app j a b : occ j (a ++ b) = (occ j a + occ j b)%nat.
Proof. unfold occ. by rewrite filter_app, length_app. Qed.

Lemma occ_cons j x l : occ j (x :: l) = ((if decide (j = x) then 1 else 0) + occ j l)%nat.
Proof. unfold occ. rewrite filter_cons. by destruct (decide (j = x)). Qed.

Lemma occ_zero j l : occ j l = 0%nat <-> j ∉ l.
Proof.
  unfold occ. rewrite length_zero_iff_nil. induction l as [|x l IH]; [set_solver|].
  rewrite filter_cons. destruct (decide (j = x)) as [->|]; [set_solver|]. rewrite IH. set_solver.
Qed.

Lemma occ_Permutation a b : (forall j, occ j a = occ j b) -> a ≡ₚ b.
Proof.
  revert b. induction a as [|x a IH]; intros b H.
  - destruct b as [|y b]; [done|]. specialize (H y). rewrite occ_cons, decide_True in H by done. cbn in H. lia.
  - assert (x ∈ b) as Hx.
    { destruct (decide (x ∈ b)) as [|Hn]; [done|]. apply occ_zero in Hn. specialize (H x).
      rewrite Hn, occ_cons, decide_True in H by done. lia. }
    apply list_elem_of_split in Hx as (b1 & b2 & ->). rewrite <- Permutation_middle. f_equiv. apply IH.
    intros j. specialize (H j). rewrite occ_app, !occ_cons in H. rewrite occ_app. lia.
Qed.

Lemma sum_list_alter {A} (f : A -> nat) (g : A -> A) i l a :
  l !! i = Some a ->
  (sum_list (f <$> alter g i l) + f a = sum_list (f <$> l) + f (g a))%nat.
Proof.
  revert i. induction l as [|x l IH]; intros [|i]; cbn; try done.
  - intros [= ->]. lia.
  - intros E. specialize (IH i E). lia.
Qed.

(** The counters agree with the edges. *)
Definition graph_ok (n : nat) (g : list (list nat) * list Z) : Prop :=
  length g.1 = n /\ length g.2 = n /\
  forall j, (j < n)%nat -> g.2 !! j = Some (Z.of_nat (in_edges g.1 j)).

Lemma add_edge_ok n g i j :
  graph_ok n g -> (i < n)%nat -> (j < n)%nat ->
  graph_ok n (alter (fun l => l ++ [j]) i g.1, alter (fun k => k + 1) j g.2).
Proof.
  intros (L1 & L2 & H) Hi Hj. split_and!; cbn [fst snd]; [by rewrite length_alter|by rewrite length_alter|].
  intros k Hk. destruct (lookup_lt_is_Some_2 g.1 i) as [l El]; [lia|].
  pose proof (sum_list_alter (occ k) (fun l => l ++ [j]) i g.1 l El) as Hs.
  cbv beta in Hs. rewrite occ_app, occ_cons in Hs. unfold in_edges in *.
  destruct (decide (k = j)) as [->|Hne].
  - rewrite list_lookup_alter_eq, H by done. cbn. f_equal. change (occ j []) with 0%nat in Hs. lia.
  - rewrite list_lookup_alter_ne, H by done. do 2 f_equal. change (occ k []) with 0%nat in Hs. lia.
Qed.

Lemma edges_from_spec systems a i later g :
  systems !! i = Some a -> graph_ok (length systems) g ->
  (forall j, j ∈ later -> (j < length systems)%nat) ->
  let g' := edges_from systems (describe a) i later g in
  graph_ok (length systems) g' /\
  g'.1 = alter (fun l => l ++ filter (fun j => hazard systems i j = true) later) i g.1.
Proof.
  intros Ea. revert g. induction later as [|j later IH]; intros g Hg Hl; cbn [edges_from].
  - split; [done|]. apply list_eq. intros k.
    destruct (decide (k = i)) as [->|]; [|by rewrite list_lookup_alter_ne].
    rewrite list_lookup_alter_eq. destruct (g.1 !! i); [|done]. cbn. by rewrite app_nil_r.
  - assert (j < length systems)%nat as Hj by set_solver.
    destruct (lookup_lt_is_Some_2 systems j Hj) as [b Eb]. rewrite Eb.
    assert (hazard systems i j = have_hazard (describe a) (describe b)) as Hh
      by (unfold hazard; by rewrite Ea, Eb).
    rewrite filter_cons, Hh. destruct (have_hazard (describe a) (describe b)) eqn:E.
    + destruct (IH _ (add_edge_ok _ g i j Hg (lookup_lt_Some _ _ _ Ea) Hj)) as [G1 G2]; [set_solver|].
      split; [done|]. rewrite G2. cbn [fst]. apply list_eq. intros k.
      destruct (decide (k = i)) as [->|]; [|by rewrite !list_lookup_alter_ne].
      rewrite !list_lookup_alter_eq. destruct (g.1 !! i); [|done]. cbn. by rewrite <- app_assoc.
    + apply IH; [done|set_solver].
Qed.

Lemma edges_all_spec systems order g :
  NoDup order -> graph_ok (length systems) g ->
  (forall j, j ∈ order -> (j < length systems)%nat) ->
  let g' := edges_all systems order g in
  graph_ok (length systems) g' /\
  forall i, g'.1 !! i = (fun l => if decide (i ∈ order)
                                 then l ++ filter (fun j => hazard systems i j = true) (after i order)
                                 else l) <$> g.1 !! i.
Proof.
  revert g. induction order as [|i order IH]; intros g Hn Hg Hl; cbn [edges_all].
  - split; [done|]. intros i. by destruct (g.1 !! i).
  - apply NoDup_cons in Hn as [Hi Hn].
    destruct (lookup_lt_is_Some_2 systems i) as [a Ea]; [set_solver|]. rewrite Ea.
    destruct (edges_from_spec systems a i order g Ea Hg) as [G1 G2]; [set_solver|].
    destruct (IH _ Hn G1) as [G3 G4]; [set_solver|]. split; [done|].
    intros k. rewrite G4, G2. destruct (decide (k = i)) as [->|Hk].
    + rewrite list_lookup_alter_eq. cbn [after]. rewrite decide_True by done.
      destruct (g.1 !! i); [|done]. cbn. rewrite (decide_False (P := i ∈ order)) by done.
      by rewrite decide_True by set_solver.
    + rewrite list_lookup_alter_ne by done. cbn [after]. rewrite decide_False by congruence.
      destruct (g.1 !! k); [|done]. cbn. f_equal.
      destruct (decide (k ∈ order)); [by rewrite decide_True by set_solver|].
      by rewrite decide_False by set_solver.
Qed.

Lemma replicate_graph_ok n : graph_ok n (replicate n [], replicate n 0).
Proof.
  split_and!; cbn [fst snd]; [apply length_replicate|apply length_replicate|].
  intros j Hj. rewrite lookup_replicate_2 by done. do 2 f_equal.
  unfold in_edges. rewrite fmap_replicate. clear. induction n as [|n IH]; [done|]. cbn in *.
  by rewrite <- IH.
Qed.

(** The graph of the systems: the dependents of [i] are the later systems in name
    order that conflict with it, and each counter counts the edges into its
    system. *)
Lemma build_hazard_graph_spec systems :
  let order := sort_by_name systems in
  let g := build_hazard_graph_ systems order in
  graph_ok (length systems) g /\
  forall i, (i < length systems)%nat ->
    g.1 !! i = Some (filter (fun j => hazard systems i j = true) (after i order)).
Proof.
  intros order g.
  destruct (edges_all_spec systems order (replicate (length systems) [], replicate (length systems) 0))
    as [G1 G2].
  - apply order_NoDup. - apply replicate_graph_ok. - intros j. apply order_lt.
  - split; [exact G1|]. intros i Hi. fold g in G2. unfold g, build_hazard_graph_. rewrite G2.
    cbn [fst]. rewrite lookup_replicate_2 by done. cbn.
    by rewrite decide_True by exact (proj2 (order_lt systems i) Hi).
Qed.

(** *** Reachable schedulers *)

Definition name_lt systems (i j : nat) : Prop := str_ltb (name_at systems i) (name_at systems j) = true.

Record sched_wf (sch : scheduler) : Prop := {
  sw_names : NoDup (name_of <$> sch.(systems_));
  sw_order : sch.(built_) = true -> sch.(order_) = sort_by_name sch.(systems_);
  sw_graph : sch.(built_) = true -> sch.(mode_) = Parallel ->
    (sch.(dependents_), sch.(in_degree_initial_)) = build_hazard_graph_ sch.(systems_) sch.(order_) /\
    exists n, sch.(pool_) = Some n /\ (0 < n)%nat;
  sw_pool : forall n, sch.(pool_) = Some n -> (0 < n)%nat;
  sw_timings : sch.(built_) = true -> tm_name <$> sch.(last_timings_) = name_of <$> sch.(systems_);
}.

Lemma pool_workers_pos requested hc : 0 <= requested -> (0 < pool_workers (resolve_pool_size requested hc))%nat.
Proof.
  intros H. unfold pool_workers, resolve_pool_size.
  destruct (Z.ltb_spec 0 requested); [destruct (Z.eqb_spec requested 0); lia|].
  destruct (Z.leb_spec hc 1); [cbn; lia|]. destruct (Z.eqb_spec (hc - 1) 0); lia.
Qed.

Lemma resize_names systems tms : tm_name <$> resize_timings systems tms = name_of <$> systems.
Proof.
  unfold resize_timings. apply list_eq. intros i. rewrite !list_lookup_fmap, list_lookup_imap.
  by destruct (systems !! i).
Qed.

Lemma register_wf sch s sch' st :
  sched_wf sch -> register_system sch (Some s) = Ok (sch', st) -> sched_wf sch'.
Proof.
  intros [Hn Ho Hg Hp Ht]. unfold register_system.
  destruct (existsb _ _) eqn:E; intros [= <- <-]; [done|].
  constructor; cbn; try done. rewrite fmap_app. apply NoDup_app. split_and!; [done| |apply NoDup_singleton].
  intros x Hx ->%list_elem_of_singleton. apply list_elem_of_fmap in Hx as (e & Hne & He).
  apply not_true_iff_false in E. apply E, existsb_exists. exists e.
  split; [by apply list_elem_of_In|]. by rewrite bool_decide_eq_true.
Qed.

Lemma build_wf hc sch : 0 <= sch.(thread_pool_size_) -> sched_wf sch -> sched_wf (build_graph hc sch).1.
Proof.
  intros Ht0 Hw. unfold build_graph. destruct (built_ sch) eqn:Eb; [exact Hw|]. destruct Hw as [Hn Ho Hg Hp Ht].
  destruct (mode_ sch) eqn:Em.
  - destruct (build_hazard_graph_ (systems_ sch) (sort_by_name (systems_ sch))) as [d g] eqn:E.
    constructor; cbn [fst systems_ built_ order_ mode_ dependents_ in_degree_initial_ pool_ last_timings_];
      try done.
    + intros _ _. split; [done|]. destruct (pool_ sch) as [n|] eqn:Ep; [eauto|].
      eexists. split; [done|]. by apply pool_workers_pos.
    + intros n. destruct (pool_ sch) as [n'|] eqn:Ep; intros [= <-]; [by apply Hp|by apply pool_workers_pos].
    + intros _. apply resize_names.
  - constructor; cbn [fst systems_ built_ order_ mode_ dependents_ in_degree_initial_ pool_ last_timings_];
      try done. intros _. apply resize_names.
Qed.

Lemma build_graph_built hc sch :
  (build_graph hc sch).1.(built_) = true /\ (build_graph hc sch).1.(mode_) = sch.(mode_) /\
  (build_graph hc sch).1.(systems_) = sch.(systems_) /\ (build_graph hc sch).1.(sink_) = sch.(sink_).
Proof.
  unfold build_graph. destruct (built_ sch) eqn:E; [done|].
  by destruct (mode_ sch); destruct (build_hazard_graph_ (systems_ sch) (sort_by_name (systems_ sch))).
Qed.

(** The calls a client makes before ticking. *)
Inductive api := Register (s : S) | Build | SetSink (on : bool).

Definition api_exec (hc : Z) (sch : scheduler) (c : api) : scheduler :=
  match c with
  | Register s => match register_system sch (Some s) with Ok (sch, _) => sch | _ => sch end
  | Build => (build_graph hc sch).1
  | SetSink on => set_trace_sink sch on
  end.

Definition api_run (hc : Z) (mode : SchedulerMode) (pool : Z) (cs : list api) : scheduler :=
  foldl (api_exec hc) (new_scheduler mode pool) cs.

Lemma api_exec_wf hc sch c :
  0 <= sch.(thread_pool_size_) -> sched_wf sch ->
  sched_wf (api_exec hc sch c) /\ (api_exec hc sch c).(thread_pool_size_) = sch.(thread_pool_size_) /\
  (api_exec hc sch c).(mode_) = sch.(mode_).
Proof.
  intros Hp Hw. destruct c as [s| |on]; cbn [api_exec].
  - destruct (register_system sch (Some s)) as [[sch' st]|m|m] eqn:E; [|done..].
    split; [by eapply register_wf|]. unfold register_system in E.
    destruct (existsb _ _); by injection E as <- <-.
  - split; [by apply build_wf|]. unfold build_graph. destruct (built_ sch); [done|].
    by destruct (mode_ sch); destruct (build_hazard_graph_ (systems_ sch) (sort_by_name (systems_ sch))).
  - by destruct Hw.
Qed.

Lemma api_run_wf hc mode pool cs :
  0 <= pool -> sched_wf (api_run hc mode pool cs) /\ (api_run hc mode pool cs).(mode_) = mode /\
  (api_run hc mode pool cs).(thread_pool_size_) = pool.
Proof.
  intros Hp. unfold api_run.
  assert (sched_wf (new_scheduler mode pool)) as H0 by (constructor; try done; constructor).
  assert ((new_scheduler mode pool).(mode_) = mode /\ (new_scheduler mode pool).(thread_pool_size_) = pool)
    as H1 by done.
  revert H0 H1. generalize (new_scheduler mode pool) as sch.
  induction cs as [|c cs IH]; intros sch H0 [<- Ep]; [done|]. cbn [foldl].
  destruct (api_exec_wf hc sch c) as (H2 & H3 & H4); [lia|done|].
  apply IH; [done|]. split; congruence.
Qed.

(** *** The order by names *)

Lemma name_at_inj systems i j :
  NoDup (name_of <$> systems) -> (i < length systems)%nat -> (j < length systems)%nat ->
  name_at systems i = name_at systems j -> i = j.
Proof.
  intros Hn Hi Hj. unfold name_at.
  destruct (lookup_lt_is_Some_2 systems i Hi) as [a Ea]. destruct (lookup_lt_is_Some_2 systems j Hj) as [b Eb].
  rewrite Ea, Eb. intros E. apply (NoDup_lookup _ i j (name_of a) Hn); rewrite list_lookup_fmap.
  - by rewrite Ea. - by rewrite Eb, E.
Qed.

Lemma name_le_lt systems i j :
  NoDup (name_of <$> systems) -> (i < length systems)%nat -> (j < length systems)%nat -> i <> j ->
  name_le systems i j -> name_lt systems i j.
Proof.
  unfold name_le, name_lt. intros Hn Hi Hj Hne H.
  destruct (str_ltb (name_at systems i) (name_at systems j)) eqn:E; [done|].
  exfalso. apply Hne. by apply (name_at_inj systems), str_ltb_total.
Qed.

Lemma name_lt_asym systems i j : name_lt systems i j -> ~ name_lt systems j i.
Proof.
  unfold name_lt. intros H1 H2. pose proof (str_ltb_trans _ _ _ H1 H2) as H.
  by rewrite str_ltb_irrefl in H.
Qed.

Lemma after_sorted R i j order :
  StronglySorted R order -> j ∈ after i order -> R i j.
Proof.
  induction 1 as [|x l Hs IH Hf]; cbn; [set_solver|].
  destruct (decide (x = i)) as [->|]; [|done]. intros Hj. rewrite Forall_forall in Hf. by apply Hf.
Qed.

Lemma after_total i j order : i ∈ order -> j ∈ order -> i <> j -> j ∈ after i order \/ i ∈ after j order.
Proof.
  induction order as [|x l IH]; [set_solver|]. cbn.
  intros Hi Hj Hne. destruct (decide (x = i)), (decide (x = j)); subst; set_solver.
Qed.

(** An index comes later in the order iff its name is greater. *)
Lemma after_name systems i j :
  NoDup (name_of <$> systems) -> (i < length systems)%nat -> (j < length systems)%nat ->
  j ∈ after i (sort_by_name systems) <-> name_lt systems i j.
Proof.
  intros Hn Hi Hj.
  assert (forall a b, (a < length systems)%nat -> b ∈ after a (sort_by_name systems) -> name_lt systems a b) as H.
  { intros a b Ha Hb. assert (b < length systems)%nat as Hbl by (apply order_lt; by apply (after_elem a)).
    apply name_le_lt; try done; [|by eapply after_sorted; [apply order_sorted|]].
    intros ->. clear -Hb. pose proof (order_NoDup systems) as Hd.
    induction (sort_by_name systems) as [|x l IH]; cbn in Hb; [set_solver|].
    apply NoDup_cons in Hd as [? ?]. destruct (decide (x = b)) as [->|]; auto. }
  split; [by apply H|]. intros L.
  destruct (after_total i j (sort_by_name systems)) as [|C]; [by apply order_lt|by apply order_lt| |done|].
  - intros ->. unfold name_lt in L. by rewrite str_ltb_irrefl in L.
  - exfalso. by apply (name_lt_asym systems i j L), H.
Qed.

Lemma order_sorted_lt systems :
  NoDup (name_of <$> systems) -> StronglySorted (name_lt systems) (sort_by_name systems).
Proof.
  intros Hn. pose proof (order_sorted systems) as Hs. pose proof (order_NoDup systems) as Hd.
  assert (forall i, i ∈ sort_by_name systems -> (i < length systems)%nat) as Hl by (intros i; apply order_lt).
  revert Hs Hd Hl. generalize (sort_by_name systems) as l.
  induction l as [|i l IH]; intros Hs Hd Hl; [constructor|].
  inversion Hs as [|? ? Hs' Hf]; subst. apply NoDup_cons in Hd as [Hi Hd].
  constructor; [apply IH; set_solver|]. apply Forall_forall. intros j Hj.
  rewrite Forall_forall in Hf. apply name_le_lt; [done|set_solver|set_solver|set_solver|by apply Hf].
Qed.

(** The dependents of [i]: the conflicting systems of greater name. *)
Lemma dependents_spec systems i j :
  NoDup (name_of <$> systems) -> (i < length systems)%nat ->
  j ∈ filter (fun j => hazard systems i j = true) (after i (sort_by_name systems)) <->
  (j < length systems)%nat /\ name_lt systems i j /\
  exists a b res x, systems !! i = Some a /\ systems !! j = Some b /\
    touches (describe a) res x /\ touches (describe b) res x /\
    (writes (describe a) res x \/ writes (describe b) res x).
Proof.
  intros Hn Hi. rewrite list_elem_of_filter. split.
  - intros [Hh Ha]. assert (j < length systems)%nat as Hj by (apply order_lt; by apply (after_elem i)).
    split; [done|]. split; [by apply after_name|]. unfold hazard in Hh.
    destruct (systems !! i) as [a|] eqn:Ea; [|done]. destruct (systems !! j) as [b|] eqn:Eb; [|done].
    apply have_hazard_spec in Hh as (res & x & H). exists a, b, res, x. naive_solver.
  - intros (Hj & Hl & a & b & res & x & Ea & Eb & H). split; [|by apply after_name].
    unfold hazard. rewrite Ea, Eb. apply have_hazard_spec. eauto.
Qed.

(** *** The sequential tick *)

(** Ticking a list of systems one after the other. *)
Fixpoint tick_all (l : list S) (ctx : SwarmContext) (dt : Z) (w : W) : outcome W :=
  match l with
  | [] => Ok w
  | s :: l => let! w := sys_tick s ctx dt w in tick_all l ctx dt w
  end.

(** The systems, by name. *)
Definition by_name systems : list S := omap (fun i => systems !! i) (sort_by_name systems).

Lemma omap_lookup_perm systems l :
  l ≡ₚ seq 0 (length systems) -> omap (fun i => systems !! i) l ≡ₚ systems.
Proof.
  intros ->. clear l. enough (omap (fun i => systems !! i) (seq 0 (length systems)) = systems) as -> by done.
  assert (forall pre l : list S, omap (fun i => (pre ++ l) !! i) (seq (length pre) (length l)) = l) as H.
  { intros pre l. revert pre. induction l as [|a l IH]; intros pre; [done|]. cbn [length seq].
    cbn [omap list_omap]. rewrite lookup_app_r, Nat.sub_diag by lia. cbn [lookup list_lookup]. f_equal.
    specialize (IH (pre ++ [a])). rewrite length_app, Nat.add_1_r, <- app_assoc in IH. exact IH. }
  exact (H [] systems).
Qed.

Lemma by_name_perm systems : by_name systems ≡ₚ systems.
Proof. apply omap_lookup_perm, order_perm. Qed.

Lemma by_name_sorted systems :
  NoDup (name_of <$> systems) ->
  StronglySorted (fun a b => str_ltb (name_of a) (name_of b) = true) (by_name systems).
Proof.
  intros Hn. unfold by_name. generalize (order_sorted_lt systems Hn). generalize (sort_by_name systems) as l.
  induction 1 as [|i l Hs IH Hf]; [constructor|]. cbn [omap list_omap].
  destruct (systems !! i) as [a|] eqn:Ea; [|done]. constructor; [done|]. apply Forall_forall.
  intros b (j & Hj & Eb)%list_elem_of_omap. rewrite Forall_forall in Hf.
  pose proof (Hf j Hj) as Hlt. unfold name_lt, name_at in Hlt. by rewrite Ea, Eb in Hlt.
Qed.

Definition timings_after systems (clk : nat -> Z * Z) (tid : Z) (done : list nat)
    (tms : list SystemTiming) : list SystemTiming :=
  foldl (fun tms i => set_timing tms i (clk i) tid) tms done.

Lemma dispatch_loop_spec systems clk tid ctx dt order w tms :
  (forall i, i ∈ order -> (i < length systems)%nat) ->
  dispatch_loop systems clk tid ctx dt order w tms =
  (let! w' := tick_all (omap (fun i => systems !! i) order) ctx dt w in
   Ok (w', timings_after systems clk tid order tms)).
Proof.
  revert w tms. induction order as [|i order IH]; intros w tms Hl; [done|].
  cbn [dispatch_loop omap list_omap]. destruct (lookup_lt_is_Some_2 systems i) as [s Es]; [set_solver|].
  rewrite Es. cbn [tick_all]. destruct (sys_tick s ctx dt w); cbn [obind]; [|done..].
  apply IH. set_solver.
Qed.

Lemma timings_after_out systems clk tid order tms j :
  j ∉ order -> timings_after systems clk tid order tms !! j = tms !! j.
Proof.
  revert tms. unfold timings_after. induction order as [|x l IH]; intros tms Hj; [done|]. cbn [foldl].
  rewrite IH by set_solver. unfold set_timing. by rewrite list_lookup_alter_ne by set_solver.
Qed.

Lemma timings_after_lookup systems clk tid order tms i t :
  NoDup order -> i ∈ order -> tms !! i = Some t ->
  timings_after systems clk tid order tms !! i = Some (mk_timing t.(tm_name) (clk i).1 (clk i).2 tid).
Proof.
  revert tms. induction order as [|x l IH]; intros tms Hd Hi E; [set_solver|].
  apply NoDup_cons in Hd as [Hx Hd].
  change (timings_after systems clk tid (x :: l) tms)
    with (timings_after systems clk tid l (set_timing tms x (clk x) tid)).
  destruct (decide (x = i)) as [->|Hne].
  - rewrite timings_after_out by done. unfold set_timing. by rewrite list_lookup_alter_eq, E.
  - apply IH; [done|set_solver|]. unfold set_timing. by rewrite list_lookup_alter_ne.
Qed.

End Scheduler.

(** C13: The graph [build_graph] resolves, for every scheduler reached by
    registering systems, building and attaching sinks in any order: system names
    are unique, the order is the systems in strictly increasing order of name,
    there is an edge from [i] to [j] exactly when [i]'s name is smaller and the two
    share a component or resource that one of them writes, no edge is listed
    twice, and each counter is the number of edges into its system. *)
Theorem graph_orders_conflicts {S W : Type} `{!SystemOps S W} (hc pool : Z) (mode : SchedulerMode)
    (calls : list (@api S)) :
  0 <= pool ->
  let sch := (build_graph hc (api_run hc mode pool calls)).1 in
  let n := length sch.(systems_) in
  sch.(built_) = true /\ NoDup (name_of <$> sch.(systems_)) /\
  sch.(order_) ≡ₚ seq 0 n /\ StronglySorted (name_lt sch.(systems_)) sch.(order_) /\
  (mode = Parallel -> forall i, (i < n)%nat -> exists deps,
     sch.(dependents_) !! i = Some deps /\ NoDup deps /\
     (forall j, j ∈ deps <-> (j < n)%nat /\ name_lt sch.(systems_) i j /\
        exists a b res x, sch.(systems_) !! i = Some a /\ sch.(systems_) !! j = Some b /\
          touches (describe a) res x /\ touches (describe b) res x /\
          (writes (describe a) res x \/ writes (describe b) res x)) /\
     sch.(in_degree_initial_) !! i =
       Some (Z.of_nat (in_edges sch.(dependents_) i))).
Proof.
  intros Hp sch n.
  destruct (api_run_wf hc mode pool calls Hp) as (W0 & M0 & P0).
  assert (sched_wf sch) as [Hn Ho Hg _ _] by (apply build_wf; [lia|done]).
  destruct (build_graph_built hc (api_run hc mode pool calls)) as (Hb & Hm & _). fold sch in Hb, Hm.
  rewrite M0 in Hm.
  rewrite (Ho Hb) in *. split_and!; try done.
  - apply order_perm.
  - by apply order_sorted_lt.
  - intros -> i Hi. destruct (Hg Hb Hm) as [Eg _].
    destruct (build_hazard_graph_spec sch.(systems_)) as [(L1 & L2 & G2) G1].
    rewrite <- Eg in L1, L2, G2, G1. cbn [fst snd] in L1, L2, G2, G1.
    eexists. split; [by apply G1|]. split; [by apply NoDup_filter, NoDup_after, order_NoDup|].
    split; [|by apply G2]. intros j. by apply dependents_spec.
Qed.

(** Systems that write their name to a log, for the examples. *)
Definition log_ops : SystemOps SystemDescriptor (list (list Z)) :=
  {| describe d := d; sys_tick d _ _ w := Ok (w ++ [d.(d_name)]) |}.
Definition log_sys (name : string) (reads writes : list Z) : SystemDescriptor :=
  mk_desc (codes name) reads writes [] [].

Definition sample_calls : list (@api SystemDescriptor) :=
  [Register (log_sys "c" [7] []); Register (log_sys "a" [] [7]); Register (log_sys "a" [] []);
   Register (log_sys "b" [] [8])].

Lemma graph_orders_conflicts_witness :
  let sch := (build_graph (SystemOps0 := log_ops) 4 (api_run (SystemOps0 := log_ops) 4 Parallel 2 sample_calls)).1 in
  sch.(built_) = true /\
  sch.(order_) = [1; 2; 0]%nat /\ sch.(dependents_) = [[]; [0]; []]%nat /\
  sch.(in_degree_initial_) = [1; 0; 0] /\ sch.(pool_) = Some 2%nat.
Proof.
  split; [|vm_compute; done].
  exact (proj1 (graph_orders_conflicts (SystemOps0 := log_ops) 4 2 Parallel sample_calls ltac:(lia))).
Defined.

(** C14: The sequential tick, for every scheduler reached by registrations, builds
    and sink changes.  Without a graph it aborts, and so it does after a later
    registration; registering a name twice changes nothing.  With a graph it ticks
    every registered system exactly once, one after the other in increasing order
    of name, each on the state the previous one left; if a system's tick aborts so
    does the whole, otherwise each system's timing slot holds its own name and the
    times measured around it, nothing else of the scheduler changes, and one event
    is emitted if and only if a sink is attached. *)
Theorem sequential_tick_by_name {S W : Type} `{!SystemOps S W} (hc pool : Z)
    (calls : list (@api S)) (clk : nat -> Z * Z) (tid : Z) (ctx : SwarmContext) (dt : Z) (w : W) :
  0 <= pool ->
  let sch0 := api_run hc Sequential pool calls in
  let sch := (build_graph hc sch0).1 in
  (sch0.(built_) = false -> exists msg, tick_sequential clk tid sch0 ctx dt w = Aborted msg) /\
  (forall s, exists sch', register_system sch (Some s) =
     Ok (sch', if bool_decide (name_of s ∈ name_of <$> sch.(systems_)) then DuplicateName else StOk) /\
     if bool_decide (name_of s ∈ name_of <$> sch.(systems_)) then sch' = sch
     else exists msg, tick_sequential clk tid sch' ctx dt w = Aborted msg) /\
  exists l tms,
    l ≡ₚ sch.(systems_) /\
    StronglySorted (fun a b => str_ltb (name_of a) (name_of b) = true) l /\
    tick_sequential clk tid sch ctx dt w =
      (let! w' := tick_all l ctx dt w in
       Ok (mk_sched sch.(mode_) sch.(thread_pool_size_) sch.(systems_) sch.(order_) sch.(dependents_)
             sch.(in_degree_initial_) sch.(pool_) tms sch.(built_) sch.(sink_), w',
           emit_tick_event_ sch ctx dt)) /\
    (forall i s, sch.(systems_) !! i = Some s ->
       tms !! i = Some (mk_timing (name_of s) (clk i).1 (clk i).2 tid)) /\
    length (emit_tick_event_ sch ctx dt) = if sch.(sink_) then 1%nat else 0%nat.
Proof.
  intros Hp sch0 sch. destruct (api_run_wf hc Sequential pool calls Hp) as (W0 & M0 & P0).
  fold sch0 in W0, M0, P0.
  assert (sched_wf sch) as [Hn Ho _ _ Ht] by (apply build_wf; [lia|done]).
  destruct (build_graph_built hc sch0) as (Hb & Hm & _). fold sch in Hb, Hm.
  split_and!.
  - intros E. eexists. unfold tick_sequential. by rewrite E.
  - intros s. unfold register_system.
    assert (existsb (fun e => bool_decide (name_of e = name_of s)) sch.(systems_) =
            bool_decide (name_of s ∈ name_of <$> sch.(systems_))) as ->.
    { apply eq_true_iff_eq. rewrite existsb_exists, bool_decide_eq_true, list_elem_of_fmap. split.
      - intros (e & He%list_elem_of_In & E%bool_decide_eq_true). eauto.
      - intros (e & E & He). exists e. rewrite bool_decide_eq_true. split; [by apply list_elem_of_In|done]. }
    case_bool_decide; [eauto|]. eexists. split; [done|]. eexists. unfold tick_sequential. done.
  - exists (by_name sch.(systems_)),
      (timings_after sch.(systems_) clk tid sch.(order_) sch.(last_timings_)).
    split_and!; [apply by_name_perm|by apply by_name_sorted| | |].
    + unfold tick_sequential. rewrite Hb. cbn [negb]. rewrite dispatch_loop_spec.
      * rewrite (Ho Hb). fold (by_name sch.(systems_)). by destruct (tick_all _ _ _ _).
      * rewrite (Ho Hb). intros i. apply order_lt.
    + intros i s Es. pose proof (f_equal (fun l => l !! i) (Ht Hb)) as E.
      rewrite !list_lookup_fmap, Es in E. destruct (last_timings_ sch !! i) as [t|] eqn:Et; [|done].
      injection E as E. rewrite <- E. rewrite (Ho Hb). apply timings_after_lookup; [apply order_NoDup| |done].
      apply order_lt. by eapply lookup_lt_Some.
    + unfold emit_tick_event_. by destruct (sink_ sch).
Qed.

Lemma sequential_tick_by_name_witness :
  let sch0 := api_run (SystemOps0 := log_ops) 4 Sequential 0 sample_calls in
  (exists msg, tick_sequential (SystemOps0 := log_ops) (fun i => (Z.of_nat i, 1)) 9 sch0 (mk_ctx 1 0 0 1) 0 [] = Aborted msg) /\
  exists sch, tick_sequential (SystemOps0 := log_ops) (fun i => (Z.of_nat i, 1)) 9
    (build_graph (SystemOps0 := log_ops) 4 sch0).1 (mk_ctx 1 0 0 1) 0 [] =
    Ok (sch, [codes "a"; codes "b"; codes "c"], []).
Proof.
  split; [|eexists; vm_compute; reflexivity].
  exact (proj1 (sequential_tick_by_name (SystemOps0 := log_ops) 4 0 sample_calls
    (fun i => (Z.of_nat i, 1)) 9 (mk_ctx 1 0 0 1) 0 [] ltac:(lia)) eq_refl).
Defined.

End Sched.
