(* ===== verification/ThreadPool.v ===== *)
(** The thread pool behind the parallel scheduler ([ThreadPool] of
    [src/core/scheduler.cpp]): a queue of closures under one mutex, one condition
    variable, a stop flag, and a destructor that joins the workers.

    A step is one critical section or one notification of a thread.  Waiting on the
    condition variable releases the mutex and sleeps in one step; a notification
    wakes a sleeping thread of the scheduler's choice, and does nothing if none
    sleeps; a sleeping thread may also wake up for no reason.  [SchedulerParallel]
    uses the pool as a queue whose front is taken by any idle worker. *)

From S2P Require Import Prelude MachineInt Scheduler.
Local Open Scope nat_scope.

Module Pool.

(** A closure, by the closures it submits in turn while it runs, as the tasks of a
    parallel tick do for the systems they release. *)
Inductive task := Task (id : nat) (spawns : list task).
Definition id_of (t : task) : nat := match t with Task i _ => i end.
Definition spawns_of (t : task) : list task := match t with Task _ l => l end.

(** All the closures below one. *)
Fixpoint flat (t : task) : list nat := match t with Task i l => i :: (l ≫= flat) end.

(** A worker: about to lock the mutex in [worker_loop_], asleep in [cv_.wait],
    running closure [i] with [rest] still to submit, the same about to notify, or
    returned from [worker_loop_]. *)
Inductive thread :=
| Ready
| Asleep
| Busy (i : nat) (rest : list task)
| Telling (i : nat) (rest : list task)
| Exited.

(** The thread that owns the pool: submitting (about to notify in the second case),
    then destroying it: past the store to [stop_], or joining worker [k]. *)
Inductive owner :=
| Submitting (rest : list task)
| Announcing (rest : list task)
| Stopping
| Joining (k : nat).

(** The pool; [pushed], [started] and [finished] record the history. *)
(* @src src/core/scheduler.cpp:68-72 ThreadPool *)
Record pool := mk_pool {
  tasks : list task;
  threads : list thread;
  stop : bool;
  client : owner;
  pushed : list nat;
  started : list nat;
  finished : list nat;
}.

(** Who moves, and whom its notification wakes if it makes one. *)
Inductive choice :=
| Owner (wakes : option nat)
| Worker (w : nat) (wakes : option nat)
| Spurious (w : nat).

Definition set_thread (w : nat) (x : thread) (s : pool) : pool :=
  mk_pool s.(tasks) (<[w := x]> s.(threads)) s.(stop) s.(client) s.(pushed) s.(started) s.(finished).
Definition set_client (c : owner) (s : pool) : pool :=
  mk_pool s.(tasks) s.(threads) s.(stop) c s.(pushed) s.(started) s.(finished).

Definition asleep (x : thread) : bool := match x with Asleep => true | _ => false end.

(** Waking one sleeper; [cv_.notify_one] and [cv_.notify_all]. *)
Definition wake (v : nat) (s : pool) : option pool :=
  match s.(threads) !! v with Some Asleep => Some (set_thread v Ready s) | _ => None end.
Definition notify_one (wakes : option nat) (s : pool) : option pool :=
  match wakes with
  | Some v => wake v s
  | None => if existsb asleep s.(threads) then None else Some s
  end.
Definition woken (x : thread) : thread := if asleep x then Ready else x.
Definition notify_all (s : pool) : pool :=
  mk_pool s.(tasks) (woken <$> s.(threads)) s.(stop) s.(client)
    s.(pushed) s.(started) s.(finished).

(** The critical section of [submit]; the notification is a step of its own. *)
(* @src src/core/scheduler.cpp:45-51 ThreadPool::submit *)
Definition push (t : task) (s : pool) : pool :=
  mk_pool (s.(tasks) ++ [t]) s.(threads) s.(stop) s.(client) (s.(pushed) ++ [id_of t]) s.(started) s.(finished).

(** One pass through the critical section of the loop: sleep unless there is
    something to do, return when there is nothing left and the pool stops, otherwise
    take the front closure. *)
(* @src src/core/scheduler.cpp:57-63 ThreadPool::worker_loop_ *)
Definition take_task (w : nat) (s : pool) : pool :=
  match s.(tasks) with
  | [] => set_thread w (if s.(stop) then Exited else Asleep) s
  | t :: q =>
      mk_pool q (<[w := Busy (id_of t) (spawns_of t)]> s.(threads)) s.(stop) s.(client) s.(pushed)
        (s.(started) ++ [id_of t]) s.(finished)
  end.

(* @src src/core/scheduler.cpp:54-66 ThreadPool::worker_loop_ *)
Definition worker_loop (w : nat) (wakes : option nat) (s : pool) : option pool :=
  match s.(threads) !! w with
  | Some Ready => Some (take_task w s)
  | Some (Busy i []) =>
      let s := set_thread w Ready s in
      Some (mk_pool s.(tasks) s.(threads) s.(stop) s.(client) s.(pushed) s.(started) (s.(finished) ++ [i]))
  | Some (Busy i (t :: rest)) => Some (push t (set_thread w (Telling i rest) s))
  | Some (Telling i rest) => notify_one wakes (set_thread w (Busy i rest) s)
  | Some Asleep | Some Exited | None => None
  end.

(** The owner's calls of [submit], and the destructor. *)
(* @src src/core/scheduler.cpp:34-43 ThreadPool::~ThreadPool *)
Definition owner_step (wakes : option nat) (s : pool) : option pool :=
  match s.(client) with
  | Submitting (t :: rest) => Some (push t (set_client (Announcing rest) s))
  | Announcing rest => notify_one wakes (set_client (Submitting rest) s)
  | Submitting [] =>
      Some (mk_pool s.(tasks) s.(threads) true Stopping s.(pushed) s.(started) s.(finished))
  | Stopping => Some (set_client (Joining 0) (notify_all s))
  | Joining k =>
      match s.(threads) !! k with
      | Some Exited => Some (set_client (Joining (S k)) s)
      | _ => None
      end
  end.

Definition step (c : choice) (s : pool) : option pool :=
  match c with
  | Owner wakes => owner_step wakes s
  | Worker w wakes => worker_loop w wakes s
  | Spurious w => wake w s
  end.

Fixpoint follow (cs : list choice) (s : pool) : option pool :=
  match cs with
  | [] => Some s
  | c :: cs => s ← step c s; follow cs s
  end.

(** A pool of [num_workers] threads, and an owner that will submit [prog] and
    destroy it. *)
(* @src src/core/scheduler.cpp:26-32 ThreadPool::ThreadPool *)
Definition start (num_workers : Z) (prog : list task) : pool :=
  mk_pool [] (replicate (Sched.pool_workers num_workers) Ready) false (Submitting prog) [] [] [].

Definition destroyed (s : pool) : Prop := s.(client) = Joining (length s.(threads)).
Definition spurious (c : choice) : bool := match c with Spurious _ => true | _ => false end.

(** ** Counting over the threads *)

Definition tot (f : thread -> nat) (ws : list thread) : nat := sum_list (f <$> ws).
#[local] Arguments tot : simpl never.

Lemma tot_cons f x ws : tot f (x :: ws) = f x + tot f ws.
Proof. done. Qed.

Lemma tot_insert f w x y ws : ws !! w = Some x -> tot f (<[w := y]> ws) + f x = tot f ws + f y.
Proof.
  revert w. induction ws as [|z ws IH]; intros [|w]; cbn; try done; intros Hx.
  - injection Hx as ->. rewrite !tot_cons. lia.
  - specialize (IH _ Hx). change (tot f (z :: <[w := y]> ws) + f x = tot f (z :: ws) + f y). rewrite !tot_cons. lia.
Qed.

Lemma tot_zero f w x ws : tot f ws = 0 -> ws !! w = Some x -> f x = 0.
Proof.
  revert w. induction ws as [|z ws IH]; intros [|w]; cbn; try done; rewrite tot_cons; intros Hs.
  - intros [= ->]. lia.
  - apply IH. lia.
Qed.

Lemma tot_pos f ws : 0 < tot f ws -> exists w x, ws !! w = Some x /\ 0 < f x.
Proof.
  induction ws as [|z ws IH]; [unfold tot; cbn; lia|]. rewrite tot_cons. intros H.
  destruct (decide (0 < f z)); [by exists 0, z|]. destruct IH as (w & x & Hw & Hx); [lia|]. by exists (S w), x.
Qed.

Lemma tot_woken f ws : f Asleep = f Ready -> tot f (woken <$> ws) = tot f ws.
Proof. intros Hf. induction ws as [|x ws IH]; [done|]. rewrite fmap_cons, !tot_cons, IH. by destruct x; cbn; rewrite ?Hf. Qed.

(** A notification wakes a sleeper, or there is none. *)
Lemma notify_cases wk s s' : notify_one wk s = Some s' ->
  (exists v, s.(threads) !! v = Some Asleep /\ s' = set_thread v Ready s) \/
  (s' = s /\ forall w, s.(threads) !! w <> Some Asleep).
Proof.
  destruct wk as [v|]; cbn.
  - unfold wake. destruct (s.(threads) !! v) as [[]|] eqn:Hv; try done. intros [= <-]. left. by exists v.
  - destruct (existsb _ _) eqn:He; [done|]. intros [= <-]. right. split; [done|]. intros w Hw.
    enough (existsb asleep s.(threads) = true) by congruence.
    apply existsb_exists. exists Asleep. split; [|done]. apply list_elem_of_In. by eapply list_elem_of_lookup_2.
Qed.

(** ** The history *)

(** The closure a worker is running, those it has still to submit, and what the
    owner has; how often [j] is among them. *)
Definition running_of (x : thread) : list nat := match x with Busy i _ | Telling i _ => [i] | _ => [] end.
Definition rest_of (x : thread) : list nat := match x with Busy _ l | Telling _ l => l ≫= flat | _ => [] end.
Definition client_rest (c : owner) : list nat := match c with Submitting l | Announcing l => l ≫= flat | _ => [] end.

Definition runs (j : nat) (x : thread) : nat := Sched.occ j (running_of x).
Definition holds (j : nat) (x : thread) : nat := Sched.occ j (rest_of x).
#[local] Arguments runs _ !_ /.
#[local] Arguments holds _ !_ /.

Record history (prog : list task) (s : pool) : Prop := {
  h_fifo : s.(started) ++ map id_of s.(tasks) = s.(pushed);
  h_run : forall j, Sched.occ j s.(finished) + tot (runs j) s.(threads) = Sched.occ j s.(started);
  h_all : forall j, Sched.occ j s.(started) + Sched.occ j (s.(tasks) ≫= flat) + tot (holds j) s.(threads)
            + Sched.occ j (client_rest s.(client)) = Sched.occ j (prog ≫= flat);
}.

Lemma flat_occ j t : Sched.occ j (flat t) = Sched.occ j [id_of t] + Sched.occ j (spawns_of t ≫= flat).
Proof. destruct t as [i l]. by rewrite <- Sched.occ_app. Qed.

Lemma bind_occ j t l : Sched.occ j ((t :: l) ≫= flat) = Sched.occ j (flat t) + Sched.occ j (l ≫= flat).
Proof. apply Sched.occ_app. Qed.

Lemma bind_occ_snoc j t l : Sched.occ j ((l ++ [t]) ≫= flat) = Sched.occ j (l ≫= flat) + Sched.occ j (flat t).
Proof. rewrite bind_app, Sched.occ_app. cbn. by rewrite app_nil_r. Qed.

(** What the counts become when thread [w] goes from [x] to [y], by arithmetic. *)
Ltac recount f w x y Hw :=
  let T := fresh "T" in
  pose proof (tot_insert f w x y _ Hw) as T; cbn [runs holds running_of rest_of] in T.
Ltac count :=
  cbn [tasks threads stop client pushed started finished set_thread set_client push client_rest] in *;
  rewrite ?Sched.occ_app, ?bind_occ_snoc, ?bind_occ, ?flat_occ in *;
  change ([] ≫= flat) with (@nil nat) in *; change (Sched.occ _ []) with 0 in *; lia.

Lemma set_history prog w x y s : s.(threads) !! w = Some x -> running_of x = running_of y -> rest_of x = rest_of y ->
  history prog s -> history prog (set_thread w y s).
Proof.
  intros Hx R L [F G A]. split; [done|..]; intros j.
  - recount (runs j) w x y Hx. replace (runs j y) with (runs j x) in T by (unfold runs; by rewrite R). specialize (G j). count.
  - recount (holds j) w x y Hx. replace (holds j y) with (holds j x) in T by (unfold holds; by rewrite L). specialize (A j). count.
Qed.

Lemma notify_history prog wk s s' : notify_one wk s = Some s' -> history prog s -> history prog s'.
Proof. intros [(v & Hv & ->)|[-> _]]%notify_cases; [by apply (set_history _ _ _ _ _ Hv)|done]. Qed.

Lemma take_history prog w s : s.(threads) !! w = Some Ready -> history prog s -> history prog (take_task w s).
Proof.
  intros Hw Hh. unfold take_task. destruct s.(tasks) as [|t q] eqn:Ht.
  { by destruct s.(stop); apply (set_history _ _ _ _ _ Hw). }
  destruct Hh as [F G A]. rewrite Ht in *. split; cbn [started tasks pushed].
  - by rewrite <- F, <- app_assoc.
  - intros j. recount (runs j) w Ready (Busy (id_of t) (spawns_of t)) Hw. specialize (G j). count.
  - intros j. recount (holds j) w Ready (Busy (id_of t) (spawns_of t)) Hw. specialize (A j). count.
Qed.

Lemma worker_history prog w wk s s' : worker_loop w wk s = Some s' -> history prog s -> history prog s'.
Proof.
  unfold worker_loop. destruct (s.(threads) !! w) as [[| |i [|t rest]|i rest|]|] eqn:Hw; try done.
  - intros [= <-]. by apply take_history.
  - intros [= <-] [F G A]. split; [done|..]; intros j.
    + recount (runs j) w (Busy i []) Ready Hw. specialize (G j). count.
    + recount (holds j) w (Busy i []) Ready Hw. specialize (A j). count.
  - intros [= <-] [F G A]. split; [cbn; by rewrite map_app, app_assoc, F|..]; intros j.
    + recount (runs j) w (Busy i (t :: rest)) (Telling i rest) Hw. specialize (G j). count.
    + recount (holds j) w (Busy i (t :: rest)) (Telling i rest) Hw. specialize (A j). count.
  - intros E Hh. apply (notify_history _ _ _ _ E). by apply (set_history _ _ _ _ _ Hw).
Qed.

Lemma owner_history prog wk s s' : owner_step wk s = Some s' -> history prog s -> history prog s'.
Proof.
  unfold owner_step. destruct s.(client) as [[|t rest]|rest| |k] eqn:Hc.
  - intros [= <-] [F G A]. split; [done..|]. intros j. specialize (A j). rewrite Hc in A. count.
  - intros [= <-] [F G A]. split; [cbn; by rewrite map_app, app_assoc, F|done|].
    intros j. specialize (A j). rewrite Hc in A. count.
  - intros E Hh. apply (notify_history _ _ _ _ E). destruct Hh as [F G A]. split; [done..|].
    intros j. specialize (A j). by rewrite Hc in A.
  - intros [= <-] [F G A].
    split; [done|..]; intros j; cbn; rewrite tot_woken by done; [exact (G j)|].
    specialize (A j). by rewrite Hc in A.
  - destruct (s.(threads) !! k) as [[]|]; try done. intros [= <-] [F G A]. split; [done..|].
    intros j. specialize (A j). by rewrite Hc in A.
Qed.

Lemma step_history prog c s s' : step c s = Some s' -> history prog s -> history prog s'.
Proof.
  destruct c as [wk|w wk|w]; cbn; [apply owner_history|apply worker_history|].
  unfold wake. destruct (s.(threads) !! w) as [[]|] eqn:Hw; try done. intros [= <-]. by apply (set_history _ _ _ _ _ Hw).
Qed.

(** ** Who is awake *)

Definition n_active (x : thread) : nat := match x with Ready | Busy _ _ | Telling _ _ => 1 | _ => 0 end.
Definition n_asleep (x : thread) : nat := match x with Asleep => 1 | _ => 0 end.
Definition n_exited (x : thread) : nat := match x with Exited => 1 | _ => 0 end.
#[local] Arguments n_active !_ /.
#[local] Arguments n_asleep !_ /.
#[local] Arguments n_exited !_ /.

Lemma tot_ge f w x ws : ws !! w = Some x -> f x <= tot f ws.
Proof.
  revert w. induction ws as [|z ws IH]; intros [|w] Hw; try done; rewrite tot_cons.
  - injection Hw as ->. lia.
  - specialize (IH w Hw). lia.
Qed.

Lemma tot_all ws : tot n_active ws + tot n_asleep ws + tot n_exited ws = length ws.
Proof. induction ws as [|x ws IH]; [done|]. rewrite !tot_cons. cbn [length]. destruct x; cbn; lia. Qed.

Lemma none_asleep ws : (forall w, ws !! w <> Some Asleep) -> tot n_asleep ws = 0.
Proof.
  intros H. destruct (decide (0 < tot n_asleep ws)) as [(w & x & Hw & Hx)%tot_pos|]; [|lia].
  destruct x; cbn in Hx; try lia. by destruct (H w).
Qed.

Record control (n : nat) (s : pool) : Prop := {
  c_len : length s.(threads) = n;
  c_stop : s.(stop) = match s.(client) with Stopping | Joining _ => true | _ => false end;
  c_exited : s.(stop) = false -> tot n_exited s.(threads) = 0;
  c_joining : forall k, s.(client) = Joining k ->
    tot n_asleep s.(threads) = 0 /\ k <= n /\ forall w, w < k -> s.(threads) !! w = Some Exited;
  c_awake : s.(tasks) <> [] -> 0 < tot n_active s.(threads) \/ exists rest, s.(client) = Announcing rest;
}.

(** A worker that has not returned becomes active, or stays so. *)
Lemma awake_control n w x y s : s.(threads) !! w = Some x -> x <> Exited -> n_active y = 1 ->
  control n s -> control n (set_thread w y s).
Proof.
  intros Hw Hx Hy [L S X J A].
  pose proof (tot_insert n_active w x y _ Hw) as Ta. pose proof (tot_insert n_asleep w x y _ Hw) as Ts.
  pose proof (tot_insert n_exited w x y _ Hw) as Te.
  assert (n_asleep y = 0 /\ n_exited y = 0 /\ n_active x <= 1) as (Y1 & Y2 & X1) by (destruct x, y; cbn in *; lia).
  split; cbn [set_thread tasks threads stop client]; [by rewrite length_insert|done|..].
  - intros Hs. specialize (X Hs). lia.
  - intros k Hk. destruct (J k Hk) as (J1 & J2 & J3). split_and!; [lia|done|]. intros v Hv. specialize (J3 v Hv).
    rewrite list_lookup_insert_ne; [done|]. intros ->. congruence.
  - intros _. left. pose proof (tot_ge n_active w x _ Hw). lia.
Qed.

Lemma notify_control n wk s s' : notify_one wk s = Some s' -> control n s -> control n s'.
Proof. intros [(v & Hv & ->)|[-> _]]%notify_cases; [by apply (awake_control _ _ _ _ _ Hv)|done]. Qed.

Lemma push_control n t s : 0 < tot n_active s.(threads) \/ (exists rest, s.(client) = Announcing rest) ->
  control n s -> control n (push t s).
Proof. intros P [L S X J A]. by split. Qed.

(** The owner's moves between its own states, which leave the threads alone. *)
Lemma client_control n c s : s.(stop) = match c with Stopping | Joining _ => true | _ => false end ->
  (forall k, c = Joining k -> tot n_asleep s.(threads) = 0 /\ k <= n /\ forall w, w < k -> s.(threads) !! w = Some Exited) ->
  (s.(tasks) <> [] -> 0 < tot n_active s.(threads) \/ exists rest, c = Announcing rest) ->
  control n s -> control n (set_client c s).
Proof. intros S J A [L _ X _ _]. by split. Qed.

Lemma take_control n w s : s.(threads) !! w = Some Ready -> control n s -> control n (take_task w s).
Proof.
  intros Hw Hc. unfold take_task. destruct s.(tasks) as [|t q] eqn:Ht.
  - destruct Hc as [L S X J A].
    assert (forall y, y = Exited /\ s.(stop) = true \/ y = Asleep /\ s.(stop) = false -> control n (set_thread w y s)) as C.
    2:{ destruct s.(stop) eqn:E; apply C; [left|right]; by split. }
    intros y Hy. pose proof (tot_insert n_asleep w Ready y _ Hw) as Ts. pose proof (tot_insert n_exited w Ready y _ Hw) as Te.
    split; cbn [set_thread tasks threads stop client]; [by rewrite length_insert|done|..].
    + intros Hs. specialize (X Hs). destruct Hy as [[_ ?]|[-> _]]; [congruence|]. cbn in Te. lia.
    + intros k Hk. rewrite Hk in S. destruct Hy as [[-> _]|[_ ?]]; [|congruence]. destruct (J k Hk) as (J1 & J2 & J3).
      cbn in Ts. split_and!; [lia|done|]. intros v Hv. specialize (J3 v Hv).
      rewrite list_lookup_insert_ne; [done|]. intros ->. congruence.
    + by rewrite Ht.
  - destruct (awake_control n w Ready (Busy (id_of t) (spawns_of t)) s Hw) as [L S X J A]; [done..|].
    split; [done..|]. intros _. apply A. cbn. by rewrite Ht.
Qed.

Lemma worker_control n w wk s s' : worker_loop w wk s = Some s' -> control n s -> control n s'.
Proof.
  unfold worker_loop. destruct (s.(threads) !! w) as [[| |i [|t rest]|i rest|]|] eqn:Hw; try done.
  - intros [= <-]. by apply take_control.
  - intros [= <-] Hc. by destruct (awake_control n w _ Ready s Hw) as [L S X J A].
  - intros [= <-] Hc. apply push_control; [|by apply (awake_control _ _ _ _ _ Hw)].
    left. cbn. pose proof (tot_insert n_active w _ (Telling i rest) _ Hw) as T. cbn in T.
    pose proof (tot_ge n_active w _ _ Hw) as G. cbn in G. lia.
  - intros E Hc. apply (notify_control _ _ _ _ E). by apply (awake_control _ _ _ _ _ Hw).
Qed.

Lemma tot_woken_asleep ws : tot n_asleep (woken <$> ws) = 0.
Proof. induction ws as [|x ws IH]; [done|]. rewrite fmap_cons, tot_cons, IH. by destruct x. Qed.

(** [notify_all] wakes every sleeper. *)
Lemma notify_all_control n s : s.(client) = Stopping -> control n s -> control n (set_client (Joining 0) (notify_all s)).
Proof.
  intros Hc [L S X J A]. rewrite Hc in S. split; cbn [set_client notify_all tasks threads stop client].
  - by rewrite length_fmap.
  - done.
  - congruence.
  - intros k [= <-]. split_and!; [apply tot_woken_asleep|lia|lia].
  - intros Ht. left. destruct (A Ht) as [P|[? ?]]; [|congruence].
    assert (tot n_exited (woken <$> s.(threads)) = tot n_exited s.(threads)) as E by by apply tot_woken.
    pose proof (tot_all s.(threads)). pose proof (tot_all (woken <$> s.(threads))) as T. rewrite length_fmap in T.
    pose proof (tot_woken_asleep s.(threads)). lia.
Qed.

Lemma owner_control n wk s s' : 0 < n -> owner_step wk s = Some s' -> control n s -> control n s'.
Proof.
  intros Hn. unfold owner_step. destruct s.(client) as [[|t rest]|rest| |k] eqn:Hc.
  - intros [= <-] [L S X J A]. split; cbn; try done. intros Ht. destruct (A Ht) as [P|[? ?]]; [by left|congruence].
  - intros [= <-] Hs. apply push_control; [right; by exists rest|].
    pose proof (c_stop _ _ Hs) as S. rewrite Hc in S. by apply client_control; [|done|right; exists rest|].
  - intros E Hs. pose proof Hs as [L S X J A]. rewrite Hc in S.
    apply notify_cases in E as [(v & Hv & ->)|[-> Hno]]; cbn in *.
    + assert (control n (set_thread v Ready s)) as Hr by by apply (awake_control _ _ _ _ _ Hv).
      apply (client_control n (Submitting rest) (set_thread v Ready s)); [done|done| |done].
      intros _. left. cbn. apply (Nat.lt_le_trans _ (n_active Ready)); [cbn; lia|].
      apply (tot_ge _ v). apply list_lookup_insert_eq. by eapply lookup_lt_Some.
    + apply client_control; [done..| |done]. intros _. left. specialize (X S). apply none_asleep in Hno.
      pose proof (tot_all s.(threads)). lia.
  - intros [= <-]. by apply notify_all_control.
  - destruct (s.(threads) !! k) as [[]|] eqn:Hk; try done. intros [= <-] Hs. pose proof Hs as [L S X J A]. rewrite Hc in S.
    apply client_control; [done|..|done].
    + intros j [= <-]. destruct (J k Hc) as (J1 & J2 & J3). pose proof (lookup_lt_Some _ _ _ Hk).
      split_and!; [done|lia|]. intros w Hw. destruct (decide (w = k)) as [->|]; [done|]. apply J3. lia.
    + intros Ht. destruct (A Ht) as [P|[? ?]]; [by left|congruence].
Qed.

Lemma step_control n c s s' : 0 < n -> step c s = Some s' -> control n s -> control n s'.
Proof.
  intros Hn. destruct c as [wk|w wk|w]; cbn; [by apply owner_control|apply worker_control|].
  unfold wake. destruct (s.(threads) !! w) as [[]|] eqn:Hw; try done. intros [= <-]. by apply (awake_control _ _ _ _ _ Hw).
Qed.

(** ** What is left to do *)

Definition weight (x : thread) : nat :=
  match x with
  | Asleep | Exited => 0
  | Ready => 1
  | Busy _ l => 2 + 5 * length (l ≫= flat)
  | Telling _ l => 4 + 5 * length (l ≫= flat)
  end.
Definition queued (t : task) : nat := 2 + 5 * length (spawns_of t ≫= flat).
Definition ahead (n : nat) (c : owner) : nat :=
  match c with
  | Submitting l => 5 * length (l ≫= flat) + 2 * n + 3
  | Announcing l => 5 * length (l ≫= flat) + 2 * n + 5
  | Stopping => 2 * n + 2
  | Joining k => n - k
  end.
Definition measure (s : pool) : nat :=
  sum_list_with queued s.(tasks) + tot weight s.(threads) + ahead (length s.(threads)) s.(client).
#[local] Arguments measure : simpl never.

Lemma flat_length t l : length ((t :: l) ≫= flat) = S (length (spawns_of t ≫= flat)) + length (l ≫= flat).
Proof. destruct t as [i m]. cbn. by rewrite length_app. Qed.

Lemma push_measure t s : measure (push t s) = measure s + queued t.
Proof. unfold measure, push. cbn. rewrite sum_list_with_app. cbn. lia. Qed.

Lemma set_measure w x y s : s.(threads) !! w = Some x -> measure (set_thread w y s) + weight x = measure s + weight y.
Proof.
  intros Hw. unfold measure. cbn [set_thread tasks threads client]. rewrite length_insert.
  pose proof (tot_insert weight w x y _ Hw). lia.
Qed.

Lemma notify_measure wk s s' : notify_one wk s = Some s' -> measure s' <= measure s + 1.
Proof.
  intros [(v & Hv & ->)|[-> _]]%notify_cases; [|lia]. pose proof (set_measure v Asleep Ready s Hv) as M. cbn in M. lia.
Qed.

Lemma tot_woken_weight ws : tot weight (woken <$> ws) <= tot weight ws + length ws.
Proof. induction ws as [|x ws IH]; [done|]. rewrite fmap_cons, !tot_cons. cbn [length]. destruct x; cbn; lia. Qed.

Lemma worker_measure w wk s s' : worker_loop w wk s = Some s' -> measure s' < measure s.
Proof.
  unfold worker_loop. destruct (s.(threads) !! w) as [[| |i [|t rest]|i rest|]|] eqn:Hw; try done.
  - intros [= <-]. unfold take_task. destruct s.(tasks) as [|t q] eqn:Ht.
    + pose proof (set_measure w _ (if s.(stop) then Exited else Asleep) s Hw) as M. destruct s.(stop); cbn [weight] in M; lia.
    + unfold measure. rewrite Ht. cbn [tasks threads client sum_list_with]. rewrite length_insert.
      pose proof (tot_insert weight w _ (Busy (id_of t) (spawns_of t)) _ Hw) as T. cbn [weight] in T. unfold queued. lia.
  - intros [= <-]. pose proof (set_measure w _ Ready s Hw) as M. unfold measure in *. cbn in *. lia.
  - intros [= <-]. rewrite push_measure. pose proof (set_measure w _ (Telling i rest) s Hw) as M.
    cbn [weight] in M. rewrite flat_length in M. unfold queued. lia.
  - intros E. apply notify_measure in E. pose proof (set_measure w _ (Busy i rest) s Hw) as M. cbn [weight] in M. lia.
Qed.

Lemma owner_measure wk s s' : owner_step wk s = Some s' -> measure s' < measure s.
Proof.
  unfold owner_step. destruct s.(client) as [[|t rest]|rest| |k] eqn:Hc.
  - intros [= <-]. unfold measure. rewrite Hc. cbn. lia.
  - intros [= <-]. rewrite push_measure. unfold measure. rewrite Hc. cbn [set_client tasks threads client ahead].
    rewrite flat_length. unfold queued. lia.
  - intros E. apply notify_measure in E. unfold measure in *. rewrite Hc. cbn in *. lia.
  - intros [= <-]. unfold measure. rewrite Hc. cbn. rewrite length_fmap. pose proof (tot_woken_weight s.(threads)). lia.
  - destruct (s.(threads) !! k) as [[]|] eqn:Hk; try done. intros [= <-]. apply lookup_lt_Some in Hk.
    unfold measure. rewrite Hc. cbn. lia.
Qed.

Lemma pool_step_measure c s s' : step c s = Some s' -> measure s' + (if spurious c then 0 else 2) <= measure s + 1.
Proof.
  destruct c as [wk|w wk|w]; cbn.
  - intros E%owner_measure. lia.
  - intros E%worker_measure. lia.
  - unfold wake. destruct (s.(threads) !! w) as [[]|] eqn:Hw; try done. intros [= <-].
    pose proof (set_measure w _ Ready s Hw) as M. cbn in M. lia.
Qed.

(** ** Who can move *)

Lemma notify_can s : exists wk s', notify_one wk s = Some s'.
Proof.
  destruct (existsb asleep s.(threads)) eqn:He.
  - apply existsb_exists in He as (x & Hin & Hx). apply list_elem_of_In, list_elem_of_lookup in Hin as [v Hv].
    destruct x; try done. exists (Some v). cbn. unfold wake. rewrite Hv. by eexists.
  - exists None. cbn. rewrite He. by eexists.
Qed.

Lemma active_moves w x s : s.(threads) !! w = Some x -> n_active x = 1 -> exists wk s', step (Worker w wk) s = Some s'.
Proof.
  intros Hw Hx. cbn. unfold worker_loop. rewrite Hw. destruct x as [| |i [|t rest]|i rest|]; try done.
  1-3: by eexists None, _. apply notify_can.
Qed.

Lemma progress n s : control n s -> destroyed s \/ exists c s', spurious c = false /\ step c s = Some s'.
Proof.
  intros [L S X J A]. unfold destroyed. destruct s.(client) as [[|t rest]|rest| |k] eqn:Hc.
  1,2,4: right; eexists (Owner None), _; split; [done|]; cbn; unfold owner_step; by rewrite Hc.
  - right. destruct (notify_can (set_client (Submitting rest) s)) as (wk & s' & E). exists (Owner wk), s'. split; [done|].
    cbn. unfold owner_step. by rewrite Hc.
  - destruct (J k eq_refl) as (J1 & J2 & _). destruct (decide (k = n)) as [->|]; [left; by rewrite L|right].
    destruct (lookup_lt_is_Some_2 s.(threads) k) as [x Hx]; [lia|]. pose proof (tot_zero _ _ _ _ J1 Hx) as Hz.
    assert (x = Exited \/ n_active x = 1) as [->|Ha] by (destruct x; auto; done).
    + eexists (Owner None), _. split; [done|]. cbn. unfold owner_step. by rewrite Hc, Hx.
    + destruct (active_moves k x s Hx Ha) as (wk & s' & E). by exists (Worker k wk), s'.
Qed.

(** ** From the start *)

Lemma start_ok num_workers prog : (0 <= num_workers)%Z ->
  let n := Sched.pool_workers num_workers in
  0 < n /\ history prog (start num_workers prog) /\ control n (start num_workers prog) /\
  measure (start num_workers prog) = 5 * length (prog ≫= flat) + 3 * n + 3.
Proof.
  intros Hn n.
  assert (forall f m, tot f (replicate m Ready) = m * f Ready) as R.
  { intros f m. induction m as [|m IH]; [done|]. cbn [replicate]. rewrite tot_cons, IH. lia. }
  assert (0 < n) as P by (unfold n, Sched.pool_workers; destruct (Z.eqb_spec num_workers 0); lia).
  split_and!; [done|..].
  - split; [done|..]; intros j; cbn; fold n; rewrite R; unfold Sched.occ; cbn; lia.
  - split; cbn; fold n; try done; [apply length_replicate|]. intros _. rewrite R. cbn. lia.
  - unfold measure. cbn. fold n. rewrite R, length_replicate. cbn. lia.
Qed.

Lemma follow_ok n prog cs s s' : 0 < n -> follow cs s = Some s' -> history prog s -> control n s ->
  history prog s' /\ control n s' /\ measure s' + length cs <= measure s + 2 * length (filter (fun c => spurious c = true) cs).
Proof.
  intros Hn. revert s. induction cs as [|c cs IH]; intros s; cbn [follow]; [intros [= <-] Hh Hc; split_and!; [done..|cbn; lia]|].
  destruct (step c s) as [s1|] eqn:E; [cbn [mbind option_bind]|done]. intros F Hh Hc.
  destruct (IH s1 F (step_history _ _ _ _ E Hh) (step_control _ _ _ _ Hn E Hc)) as (H1 & H2 & H3).
  apply pool_step_measure in E. split_and!; [done..|]. rewrite filter_cons. cbn [length].
  destruct (spurious c); destruct (decide _); cbn [length]; done || lia.
Qed.

(** When no worker can move outside a [submit] of the owner, nothing is queued and
    nothing runs: no wake-up is ever lost. *)
Lemma quiet_is_idle n s : control n s -> (forall w wk, step (Worker w wk) s = None) ->
  (forall rest, s.(client) <> Announcing rest) -> s.(tasks) = [] /\ forall j, tot (runs j) s.(threads) = 0.
Proof.
  intros [L S X J A] Hw Hc.
  assert (forall w x, s.(threads) !! w = Some x -> n_active x = 0) as Q.
  { intros w x Hx. destruct (decide (n_active x = 1)) as [Ha|Ha]; [|by destruct x].
    destruct (active_moves w x s Hx Ha) as (wk & s' & E). by rewrite Hw in E. }
  split.
  - destruct s.(tasks) as [|t q]; [done|]. destruct A as [P|[? ?]]; [done| |by edestruct Hc].
    apply tot_pos in P as (w & x & Hx & P). rewrite (Q _ _ Hx) in P. lia.
  - intros j. destruct (decide (0 < tot (runs j) s.(threads))) as [(w & x & Hx & P)%tot_pos|]; [|lia].
    pose proof (Q _ _ Hx). destruct x; done || (cbn in P; lia).
Qed.

Lemma idle_is_finished prog s : history prog s -> s.(tasks) = [] -> (forall j, tot (runs j) s.(threads) = 0) ->
  s.(finished) ≡ₚ s.(pushed).
Proof.
  intros [F G A] Ht Hr. apply Sched.occ_Permutation. intros j. rewrite <- F, Ht, app_nil_r, <- G, Hr. lia.
Qed.

(** C10: the thread pool runs what it is given.  Whatever the interleaving of the
    owner and the workers, whichever sleeper a notification wakes, and however
    often one wakes up for no reason: the closures start in the order of their
    submission; when no worker can move and the owner is not inside [submit],
    everything submitted has finished, so no wake-up is lost; when the destructor has
    joined its threads, all of them have returned and every closure submitted, by the
    owner or by another closure, has run exactly once.  Until then some thread can
    move, and but for spurious wake-ups the moves are bounded: it does return. *)
Theorem pool_runs_every_closure (num_workers : Z) (prog : list task) (cs : list choice) (s : pool) :
  (0 <= num_workers)%Z -> follow cs (start num_workers prog) = Some s ->
  s.(started) ++ map id_of s.(tasks) = s.(pushed) /\
  ((forall w wk, step (Worker w wk) s = None) -> (forall rest, s.(client) <> Announcing rest) ->
    s.(finished) ≡ₚ s.(pushed)) /\
  (destroyed s -> Forall (fun x => x = Exited) s.(threads) /\ s.(finished) ≡ₚ prog ≫= flat) /\
  (destroyed s \/ exists c s', spurious c = false /\ step c s = Some s') /\
  length cs <= 5 * length (prog ≫= flat) + 3 * Sched.pool_workers num_workers + 3
               + 2 * length (filter (fun c => spurious c = true) cs).
Proof.
  intros Hn F. destruct (start_ok num_workers prog Hn) as (P & Hh & Hc & M).
  destruct (follow_ok _ _ _ _ _ P F Hh Hc) as (Hh' & Hc' & B).
  split_and!; [apply Hh'| | |by eapply progress|lia].
  - intros Hw Hs. destruct (quiet_is_idle _ _ Hc' Hw Hs) as [I1 I2]. by apply (idle_is_finished prog).
  - intros D. destruct (c_joining _ _ Hc' _ D) as (_ & _ & E).
    assert (Forall (fun x => x = Exited) s.(threads)) as Hall.
    { apply Forall_lookup_2. intros w x Hx. pose proof (E w (lookup_lt_Some _ _ _ Hx)). congruence. }
    split; [done|].
    assert (forall f, f Exited = 0 -> tot f s.(threads) = 0) as Z0.
    { intros f Hf. destruct (decide (0 < tot f s.(threads))) as [(w & x & Hx & Q)%tot_pos|]; [|lia].
      rewrite (Forall_lookup_1 _ _ _ _ Hall Hx) in Q. lia. }
    assert (s.(tasks) = []) as Ht.
    { destruct s.(tasks) as [|t q] eqn:Et; [done|]. destruct (c_awake _ _ Hc') as [Q|[r Q]]; [by rewrite Et| |].
      - rewrite Z0 in Q by done. lia.
      - unfold destroyed in D. congruence. }
    apply Sched.occ_Permutation. intros j. pose proof (h_run _ _ Hh' j) as R. pose proof (h_all _ _ Hh' j) as A.
    rewrite Z0 in R, A by done. rewrite Ht, D in A. cbn in A. change (Sched.occ j []) with 0 in A. lia.
Qed.

(** Two workers; the first closure submits another.  Worker 1 sleeps before there is
    anything to do, wakes for no reason and is then woken by the owner; it wakes
    worker 0 for the closure it submits.  Once all is quiet both sleep; the owner
    submits its second closure and destroys the pool. *)
Definition demo_prog : list task := [Task 7 [Task 9 []]; Task 8 []].
Definition demo_quiet : list choice :=
  [Worker 1 None; Spurious 1; Worker 1 None; Worker 0 None; Owner None; Owner (Some 1); Worker 1 None; Worker 1 None;
   Worker 1 (Some 0); Worker 0 None; Worker 0 None; Worker 1 None; Worker 0 None; Worker 1 None].
Definition demo_run : list choice :=
  demo_quiet ++ [Owner None; Owner (Some 0); Owner None; Owner None; Worker 1 None; Worker 0 None; Worker 1 None;
   Worker 1 None; Owner None; Owner None].

Lemma pool_runs_every_closure_witness :
  (exists s, follow demo_quiet (start 2 demo_prog) = Some s /\ s.(threads) = [Asleep; Asleep] /\ s.(finished) ≡ₚ s.(pushed) /\
     s.(pushed) = [7; 9]) /\
  (exists s, follow demo_run (start 2 demo_prog) = Some s /\ destroyed s /\ s.(finished) ≡ₚ [7; 9; 8] /\
     s.(threads) = [Exited; Exited]).
Proof.
  split.
  - destruct (follow demo_quiet (start 2 demo_prog)) as [s|] eqn:F; [|by vm_compute in F].
    destruct (pool_runs_every_closure 2 demo_prog demo_quiet s) as (_ & Q & _); [lia|done|]. exists s. split; [done|].
    vm_compute in F. injection F as <-. split_and!; [done| |done]. apply Q; [|by intros rest].
    intros [|[|w]] wk; done.
  - destruct (follow demo_run (start 2 demo_prog)) as [s|] eqn:F; [|by vm_compute in F].
    destruct (pool_runs_every_closure 2 demo_prog demo_run s) as (_ & _ & D & _); [lia|done|]. exists s. split; [done|].
    vm_compute in F. injection F as <-. destruct D as [_ D]; [done|]. by split_and!.
Defined.
End Pool.
