(* ===== verification/SchedulerParallel.v ===== *)
(** The parallel tick ([SystemScheduler::tick_parallel_] and the thread pool of
    [src/core/scheduler.cpp]) as a step relation.

    A state holds the pool's queue, what each worker is doing, the atomic
    counters, how far the calling thread is, and the memory the systems act on; a
    step is one atomic action of the caller or of one worker.  The ghost fields
    [dispatched] and [finished] record the history.  Here an idle worker takes a
    task when there is one: that the pool wakes one up, spurious wake-ups and the
    destructor included, is shown in [ThreadPool].  Spurious wake-ups of the caller's
    wait on [done_cv], which tests its condition again, are not steps. *)

From S2P Require Import Prelude MachineInt Scheduler.
Local Open Scope nat_scope.

Module Par.
Import Sched.

(** What a worker is doing: waiting for a task, running system [i]'s tick,
    decrementing the counters of the dependents left, or about to lock [done_mtx]
    and notify. *)
Inductive wstate :=
| Idle
| Running (i : nat)
| Releasing (i : nat) (rest : list nat)
| Notifying.

(** The caller: at index [k] of the seeding loop, about to test the predicate of
    the wait, blocked in the wait, or returned from [tick_parallel_]. *)
Inductive mstate := Seeding (k : nat) | Waiting | Blocked | Returned.

#[global] Instance mstate_eq_dec : EqDecision mstate.
Proof. solve_decision. Defined.

Inductive choice := Main | Worker (w : nat).

Section Parallel.
Context {M : Type}.
(** [systems_.size()], [dependents_], [in_degree_initial_] and the effect of each
    system's tick. *)
Variable N : nat.
Variable deps : list (list nat).
Variable in_degree_initial : list Z.
Variable run : nat -> M -> M.

Record pstate := mk_p {
  queue : list nat;
  workers : list wstate;
  in_degree : list Z;
  completed : nat;
  main : mstate;
  mem : M;
  dispatched : list nat;
  finished : list nat;
}.

(** Submitting the task of system [i] to the pool. *)
(* @src src/core/scheduler.cpp:45-51 ThreadPool::submit *)
Definition dispatch (i : nat) (s : pstate) : pstate :=
  mk_p (s.(queue) ++ [i]) s.(workers) s.(in_degree) s.(completed) s.(main) s.(mem)
    (s.(dispatched) ++ [i]) s.(finished).

Definition set_main (m : mstate) (s : pstate) : pstate :=
  mk_p s.(queue) s.(workers) s.(in_degree) s.(completed) m s.(mem) s.(dispatched) s.(finished).
Definition set_worker (w : nat) (x : wstate) (s : pstate) : pstate :=
  mk_p s.(queue) (<[w := x]> s.(workers)) s.(in_degree) s.(completed) s.(main) s.(mem)
    s.(dispatched) s.(finished).

Definition deps_of (i : nat) : list nat := default [] (deps !! i).

(** One action of worker [w]: take the front task, run the system, decrement one
    dependent's counter (dispatching it when it was 1), count the completion, or
    notify the caller. *)
(* @src src/core/scheduler.cpp:254-277 SystemScheduler::tick_parallel_ (dispatch) *)
Definition step_worker (w : nat) (s : pstate) : option pstate :=
  match s.(workers) !! w with
  | None => None
  | Some Idle =>
      match s.(queue) with
      | [] => None
      | i :: q =>
          Some (mk_p q (<[w := Running i]> s.(workers)) s.(in_degree) s.(completed) s.(main)
                  s.(mem) s.(dispatched) s.(finished))
      end
  | Some (Running i) =>
      Some (mk_p s.(queue) (<[w := Releasing i (deps_of i)]> s.(workers)) s.(in_degree)
              s.(completed) s.(main) (run i s.(mem)) s.(dispatched) (s.(finished) ++ [i]))
  | Some (Releasing i (dep :: rest)) =>
      let old := default 0%Z (s.(in_degree) !! dep) in
      let s := mk_p s.(queue) (<[w := Releasing i rest]> s.(workers))
                 (alter (fun d => d - 1)%Z dep s.(in_degree)) s.(completed) s.(main) s.(mem)
                 s.(dispatched) s.(finished) in
      Some (if (old =? 1)%Z then dispatch dep s else s)
  | Some (Releasing i []) =>
      let c := S s.(completed) in
      Some (mk_p s.(queue) (<[w := if c =? N then Notifying else Idle]> s.(workers)) s.(in_degree)
              c s.(main) s.(mem) s.(dispatched) s.(finished))
  | Some Notifying =>
      let s := set_worker w Idle s in
      Some match s.(main) with Blocked => set_main Waiting s | _ => s end
  end.

(** One action of the caller: seed one system, enter the wait, or test the wait's
    predicate. *)
(* @src src/core/scheduler.cpp:279-291 SystemScheduler::tick_parallel_ *)
Definition step_main (s : pstate) : option pstate :=
  match s.(main) with
  | Seeding k =>
      if k <? N then
        let s := set_main (Seeding (S k)) s in
        Some (if (default 0%Z (s.(in_degree) !! k) =? 0)%Z then dispatch k s else s)
      else Some (set_main Waiting s)
  | Waiting => Some (set_main (if s.(completed) =? N then Returned else Blocked) s)
  | Blocked | Returned => None
  end.

Definition step (c : choice) (s : pstate) : option pstate :=
  match c with Main => step_main s | Worker w => step_worker w s end.

Definition pstep (s s' : pstate) : Prop := exists c, step c s = Some s'.

(** The state on entry: all workers wait, the counters are fresh. *)
(* @src src/core/scheduler.cpp:245-252 SystemScheduler::tick_parallel_ *)
Definition init_state (pool : nat) (m : M) : pstate :=
  mk_p [] (replicate pool Idle) in_degree_initial 0 (Seeding 0) m [] [].

(** Follow a list of choices. *)
Fixpoint follow (cs : list choice) (s : pstate) : option pstate :=
  match cs with
  | [] => Some s
  | c :: cs => s ← step c s; follow cs s
  end.

(** The state in which the caller has seeded all the roots before any worker
    moved. *)
Definition roots : list nat := filter (fun i => default 0%Z (in_degree_initial !! i) = 0%Z) (seq 0 N).
Definition seeded_state (pool : nat) (m : M) : pstate :=
  mk_p roots (replicate pool Idle) in_degree_initial 0 Waiting m roots [].

Definition reachable (s0 s : pstate) : Prop := rtc pstep s0 s.

Lemma follow_reachable cs s s' : follow cs s = Some s' -> reachable s s'.
Proof.
  revert s. induction cs as [|c cs IH]; intros s; cbn; [intros [= ->]; constructor|].
  destruct (step c s) as [s1|] eqn:E; [|done]. cbn. intros H.
  eapply rtc_l; [by exists c|by apply IH].
Qed.

(** Seeding first is one of the schedules. *)
Lemma seeded_reachable pool m : length in_degree_initial = N ->
  reachable (init_state pool m) (seeded_state pool m).
Proof.
  intros L.
  assert (forall k, k <= N -> reachable (init_state pool m)
    (mk_p (filter (fun i => default 0%Z (in_degree_initial !! i) = 0%Z) (seq 0 k)) (replicate pool Idle)
       in_degree_initial 0 (Seeding k) m
       (filter (fun i => default 0%Z (in_degree_initial !! i) = 0%Z) (seq 0 k)) [])) as H.
  { induction k as [|k IH]; intros Hk; [apply rtc_refl|].
    eapply rtc_r; [apply IH; lia|]. exists Main. cbn [step]. unfold step_main. cbn [main].
    rewrite (proj2 (Nat.ltb_lt k N)) by lia. cbn [in_degree set_main].
    rewrite seq_S, filter_app. cbn [Nat.add]. rewrite filter_cons, filter_nil.
    destruct (Z.eqb_spec (default 0%Z (in_degree_initial !! k)) 0) as [E|E].
    - rewrite decide_True by done. done.
    - rewrite decide_False by done. by rewrite app_nil_r. }
  eapply rtc_r; [by apply (H N)|]. exists Main. cbn [step]. unfold step_main.
  cbn [main]. by rewrite Nat.ltb_irrefl.
Qed.

(** ** The invariant *)

(** What the workers hold: the systems being ticked, the edges still to release,
    the systems whose completion is not counted yet. *)
Definition running_of (x : wstate) : list nat := match x with Running i => [i] | _ => [] end.
Definition rest_of (x : wstate) : list nat := match x with Releasing _ l => l | _ => [] end.
Definition uncounted_of (x : wstate) : list nat := match x with Releasing i _ => [i] | _ => [] end.

Definition running (ws : list wstate) : list nat := ws ≫= running_of.
Definition unreleased (ws : list wstate) : list nat := ws ≫= rest_of.
Definition uncounted (ws : list wstate) : list nat := ws ≫= uncounted_of.

(** The edges into [j] not yet released. *)
Definition unfinished (fin : list nat) (j : nat) : nat :=
  sum_list ((fun i => if decide (i ∈ fin) then 0 else occ j (deps_of i)) <$> seq 0 N).
Definition pending (s : pstate) (j : nat) : nat :=
  unfinished s.(finished) j + occ j (unreleased s.(workers)).

Lemma occ_perm j a b : a ≡ₚ b -> occ j a = occ j b.
Proof. intros H. unfold occ. by rewrite H. Qed.

Lemma occ_insert j ws w x y :
  ws !! w = Some x ->
  occ j (unreleased (<[w := y]> ws)) + occ j (rest_of x) = occ j (unreleased ws) + occ j (rest_of y).
Proof. intros E. rewrite <- !occ_app. by apply occ_perm, bind_insert. Qed.

Lemma sum_list_ext {A} (f g : A -> nat) l : (forall x, x ∈ l -> f x = g x) -> sum_list (f <$> l) = sum_list (g <$> l).
Proof.
  intros H. f_equal. apply list_fmap_ext. intros i x E. apply H. by eapply list_elem_of_lookup_2.
Qed.

Lemma unfinished_finish fin i j :
  i < N -> i ∉ fin -> unfinished (fin ++ [i]) j + occ j (deps_of i) = unfinished fin j.
Proof.
  intros Hi Hn. unfold unfinished.
  assert (forall l, NoDup l -> i ∈ l ->
    sum_list ((fun k => if decide (k ∈ fin ++ [i]) then 0 else occ j (deps_of k)) <$> l) + occ j (deps_of i)
    = sum_list ((fun k => if decide (k ∈ fin) then 0 else occ j (deps_of k)) <$> l)) as H.
  { induction l as [|k l IH]; [set_solver|]. intros [Hk Hl]%NoDup_cons Hin. cbn.
    destruct (decide (k = i)) as [->|Hne].
    - rewrite decide_True, (decide_False (P := i ∈ fin)) by set_solver.
      rewrite (sum_list_ext _ (fun k => if decide (k ∈ fin) then 0 else occ j (deps_of k))); [lia|].
      intros k Hkl. destruct (decide (k ∈ fin)); [by rewrite decide_True by set_solver|].
      rewrite decide_False; [done|]. rewrite elem_of_app, list_elem_of_singleton. by intros [?| ->].
    - specialize (IH Hl ltac:(set_solver)).
      destruct (decide (k ∈ fin)); [rewrite decide_True by set_solver; lia|].
      rewrite decide_False; [lia|]. rewrite elem_of_app, list_elem_of_singleton. by intros [?|?]. }
  apply H; [apply NoDup_seq|]. apply elem_of_seq. lia.
Qed.

Lemma unfinished_zero fin i j : i < N -> unfinished fin j = 0 -> j ∈ deps_of i -> i ∈ fin.
Proof.
  intros Hi H Hj. destruct (decide (i ∈ fin)) as [|Hn]; [done|].
  pose proof (unfinished_finish fin i j Hi Hn) as E.
  destruct (occ j (deps_of i)) eqn:O; [|lia]. by apply occ_zero in O.
Qed.

(** The graph: [order] lists the indices, the dependents of [i] are the later ones
    that conflict with it, and the initial counters count the edges. *)
Variable order : list nat.
Variable conflict : nat -> nat -> bool.
Record graph : Prop := {
  g_perm : order ≡ₚ seq 0 N;
  g_sym : forall i j, conflict i j = conflict j i;
  g_deps : forall i, i < N -> deps_of i = filter (fun j => conflict i j = true) (after i order);
  g_out : forall i, N <= i -> deps_of i = [];
  g_len : length in_degree_initial = N;
  g_deg : forall j, j < N -> in_degree_initial !! j =
    Some (Z.of_nat (sum_list ((fun i => occ j (deps_of i)) <$> seq 0 N)));
}.

Record inv (pool : nat) (m0 : M) (s : pstate) : Prop := {
  i_pool : length s.(workers) = pool;
  i_nodup : NoDup s.(dispatched);
  i_lt : forall i, i ∈ s.(dispatched) -> i < N;
  i_split : s.(dispatched) ≡ₚ s.(queue) ++ running s.(workers) ++ s.(finished);
  i_len : length s.(in_degree) = N;
  i_deg : forall j, j < N -> s.(in_degree) !! j = Some (Z.of_nat (pending s j));
  i_zero : forall j, j ∈ s.(dispatched) -> pending s j = 0;
  i_seed : forall j, j < N -> pending s j = 0 -> j ∈ s.(dispatched) \/ exists k, s.(main) = Seeding k /\ k <= j;
  i_ahead : forall k, s.(main) = Seeding k ->
    (forall i, i ∈ s.(dispatched) -> i < k) /\ forall i j, j ∈ deps_of i -> j < i;
  i_rel : forall w i l, s.(workers) !! w = Some (Releasing i l) -> i ∈ s.(finished) /\ l ⊆ deps_of i;
  i_done : s.(completed) + length (uncounted s.(workers)) = length s.(finished);
  i_notify : s.(main) = Blocked -> s.(completed) = N -> Notifying ∈ s.(workers);
  i_ret : s.(main) = Returned -> s.(completed) = N;
  i_order : forall l1 j l2, s.(finished) = l1 ++ j :: l2 -> forall i, i < N -> j ∈ deps_of i -> i ∈ l1;
  i_mem : s.(mem) = foldl (fun m i => run i m) m0 s.(finished);
}.

Section Correct.
Hypothesis G : graph.
Variables (pool : nat) (m0 : M).
Hypothesis Hpool : 0 < pool.
Abbreviation Inv := (inv pool m0).

Lemma order_nodup : NoDup order.
Proof. rewrite (g_perm G). apply NoDup_seq. Qed.

Lemma deps_lt i j : j ∈ deps_of i -> i < N /\ j < N.
Proof.
  intros H. destruct (Nat.lt_ge_cases i N) as [Hi|Hi]; [|by rewrite (g_out G) in H; [apply not_elem_of_nil in H|]].
  split; [done|]. rewrite (g_deps G) in H by done. apply list_elem_of_filter in H as [_ H].
  apply after_elem in H. rewrite (g_perm G), elem_of_seq in H. lia.
Qed.

Lemma unreleased_idle n : unreleased (replicate n Idle) = [].
Proof. induction n; [done|]. unfold unreleased in *. by rewrite replicate_S, bind_cons. Qed.
Lemma running_idle n : running (replicate n Idle) = [].
Proof. induction n; [done|]. unfold running in *. by rewrite replicate_S, bind_cons. Qed.
Lemma uncounted_idle n : uncounted (replicate n Idle) = [].
Proof. induction n; [done|]. unfold uncounted in *. by rewrite replicate_S, bind_cons. Qed.

Lemma pending_initial q ws mn m d j :
  unreleased ws = [] -> j < N ->
  in_degree_initial !! j = Some (Z.of_nat (pending (mk_p q ws in_degree_initial 0 mn m d []) j)).
Proof.
  intros E Hj. rewrite (g_deg G) by done. unfold pending, unfinished. cbn [finished workers].
  rewrite E, Nat.add_0_r. do 2 f_equal.
Qed.

Lemma roots_spec j : j ∈ roots <-> j < N /\ in_degree_initial !! j = Some 0%Z.
Proof.
  unfold roots. rewrite list_elem_of_filter, elem_of_seq. split.
  - intros [E Hj]. destruct (lookup_lt_is_Some_2 in_degree_initial j) as [d Ed]; [rewrite (g_len G); lia|].
    rewrite Ed in *. cbn in E. subst. split; [lia|done].
  - intros [Hj E]. rewrite E. split; [done|lia].
Qed.

Lemma inv_seeded : Inv (seeded_state pool m0).
Proof.
  assert (forall j, j < N -> in_degree_initial !! j = Some (Z.of_nat (pending (seeded_state pool m0) j))) as Hd
    by (intros j Hj; apply pending_initial; [apply unreleased_idle|done]).
  constructor; cbn [seeded_state workers dispatched queue finished in_degree main completed mem]; try done.
  - apply length_replicate.
  - apply NoDup_filter, NoDup_seq.
  - intros i [? _]%roots_spec. done.
  - by rewrite running_idle, !app_nil_r.
  - apply (g_len G).
  - intros j [Hj E]%roots_spec. rewrite (Hd j Hj) in E. injection E. lia.
  - intros j Hj E. left. apply roots_spec. split; [done|]. by rewrite (Hd j Hj), E.
  - intros w i l E. apply lookup_replicate in E as [E _]. done.
  - by rewrite uncounted_idle.
  - intros l1 j l2 E. by destruct l1.
Qed.

(** Starting with the seeding loop is correct when every edge goes to a lower
    index. *)
Lemma inv_init : (forall i j, j ∈ deps_of i -> j < i) -> Inv (init_state pool m0).
Proof.
  intros Hdesc.
  assert (forall j, j < N -> in_degree_initial !! j = Some (Z.of_nat (pending (init_state pool m0) j))) as Hd
    by (intros j Hj; apply pending_initial; [apply unreleased_idle|done]).
  constructor; cbn [init_state workers dispatched queue finished in_degree main completed mem]; try done.
  - apply length_replicate.
  - constructor.
  - intros i Hi. by apply not_elem_of_nil in Hi.
  - by rewrite running_idle.
  - apply (g_len G).
  - intros j Hj. by apply not_elem_of_nil in Hj.
  - intros j Hj E. right. exists 0. split; [done|lia].
  - intros k [= <-]. split; [|done]. intros i Hi. by apply not_elem_of_nil in Hi.
  - intros w i l E. apply lookup_replicate in E as [E _]. done.
  - by rewrite uncounted_idle.
  - intros l1 j l2 E. by destruct l1.
Qed.

Lemma running_lookup (ws : list wstate) (w i : nat) : ws !! w = Some (Running i) -> i ∈ running ws.
Proof.
  intros E. unfold running. apply list_elem_of_bind. exists (Running i).
  split; [set_solver|]. by eapply list_elem_of_lookup_2.
Qed.

Lemma inv_running s i : Inv s -> i ∈ running s.(workers) -> i ∈ s.(dispatched) /\ i ∉ s.(finished) /\ i < N.
Proof.
  intros I Hi. assert (i ∈ s.(dispatched)) as Hd by (rewrite (i_split _ _ _ I); set_solver).
  split_and!; [done| |by apply (i_lt _ _ _ I)].
  pose proof (i_nodup _ _ _ I) as Hn. rewrite (i_split _ _ _ I) in Hn.
  apply NoDup_app in Hn as (_ & _ & Hn). apply NoDup_app in Hn as (_ & Hn & _). by apply Hn.
Qed.

(** Moving the caller on. *)
Lemma inv_set_main s mn :
  Inv s ->
  (forall j, j < N -> pending s j = 0 -> j ∈ s.(dispatched) \/ exists k, mn = Seeding k /\ k <= j) ->
  (forall k, mn = Seeding k ->
    (forall i, i ∈ s.(dispatched) -> i < k) /\ forall i j, j ∈ deps_of i -> j < i) ->
  (mn = Blocked -> s.(completed) = N -> Notifying ∈ s.(workers)) ->
  (mn = Returned -> s.(completed) = N) ->
  Inv (set_main mn s).
Proof. intros [] H1 H2 H3 H4. by constructor. Qed.

(** Dispatching a system whose last incoming edge has been released, while the
    caller moves to [mn]. *)
Lemma inv_dispatch s j mn :
  Inv s -> j < N -> pending s j = 0 -> j ∉ s.(dispatched) ->
  (forall i, i < N -> pending s i = 0 -> i ∈ s.(dispatched) \/ i = j \/ exists k, mn = Seeding k /\ k <= i) ->
  (forall k, mn = Seeding k ->
    (forall i, i ∈ s.(dispatched) -> i < k) /\ j < k /\ forall i j, j ∈ deps_of i -> j < i) ->
  (mn = Blocked -> s.(completed) = N -> Notifying ∈ s.(workers)) ->
  (mn = Returned -> s.(completed) = N) ->
  Inv (dispatch j (set_main mn s)).
Proof.
  intros I Hj Hp Hn H1 H2 H3 H3'. destruct I. constructor;
    cbn [dispatch set_main workers dispatched queue finished in_degree main completed mem]; try done.
  - apply NoDup_app. split_and!; [done|set_solver|apply NoDup_singleton].
  - intros i [?| ->%list_elem_of_singleton]%elem_of_app; auto.
  - rewrite i_split0, <- !app_assoc. apply Permutation_app_head.
    rewrite (assoc_L (++)). apply Permutation_app_comm.
  - intros i [?| ->%list_elem_of_singleton]%elem_of_app; [by apply i_zero0|done].
  - intros i Hi E. destruct (H1 i Hi E) as [?|[-> |?]]; [left; set_solver|left; set_solver|by right].
  - intros k E. destruct (H2 k E) as (H4 & H5 & H6). split; [|done].
    intros i [?| ->%list_elem_of_singleton]%elem_of_app; auto.
Qed.

Lemma inv_main s s' : Inv s -> step_main s = Some s' -> Inv s'.
Proof.
  intros I. unfold step_main. destruct (main s) as [k| | |] eqn:Em; [| |done..].
  - destruct (i_ahead _ _ _ I k Em) as [Ha Hdesc].
    destruct (Nat.ltb_spec k N) as [Hk|Hk]; intros [= <-].
    + change (in_degree (set_main (Seeding (S k)) s)) with (in_degree s). rewrite (i_deg _ _ _ I k Hk). cbn [from_option id].
      assert (k ∉ s.(dispatched)) as Hn by (intros ?%Ha; lia).
      assert (forall j, j < N -> pending s j = 0 ->
        j ∈ s.(dispatched) \/ j = k \/ exists k', Seeding (S k) = Seeding k' /\ k' <= j) as Hs.
      { intros j Hj E. destruct (i_seed _ _ _ I j Hj E) as [?|(k' & E' & Hle)]; [by left|right].
        rewrite Em in E'. injection E' as <-.
        destruct (decide (j = k)); [by left|right]. exists (S k). split; [done|lia]. }
      destruct (Z.eqb_spec (Z.of_nat (pending s k)) 0) as [E|E].
      * apply inv_dispatch; try done; [lia|]. intros k' [= <-]. split_and!; [|lia|done].
        intros i ?%Ha. lia.
      * apply inv_set_main; try done.
        -- intros j Hj Ej. destruct (Hs j Hj Ej) as [?|[-> |?]]; [by left|lia|by right].
        -- intros k' [= <-]. split; [|done]. intros i ?%Ha. lia.
    + apply inv_set_main; try done.
      intros j Hj E. destruct (i_seed _ _ _ I j Hj E) as [?|(k' & E' & Hle)]; [by left|].
      rewrite Em in E'. injection E' as <-. lia.
  - intros [= <-]. destruct (Nat.eqb_spec (completed s) N) as [E|E]; apply inv_set_main; try done;
      intros j Hj Ej; destruct (i_seed _ _ _ I j Hj Ej) as [?|(k' & E' & _)]; [by left|congruence|by left|congruence].
Qed.

(** Facts about the worker lists after worker [w] goes from [x] to [y]. *)
Lemma running_insert ws w x y :
  ws !! w = Some x -> running (<[w := y]> ws) ++ running_of x ≡ₚ running ws ++ running_of y.
Proof. apply bind_insert. Qed.

Lemma uncounted_insert ws w x y :
  ws !! w = Some x ->
  length (uncounted (<[w := y]> ws)) + length (uncounted_of x) = length (uncounted ws) + length (uncounted_of y).
Proof.
  intros E. rewrite <- !length_app. apply Permutation_length. by apply bind_insert.
Qed.

Lemma notifying_insert (ws : list wstate) w x y :
  ws !! w = Some x -> x <> Notifying -> Notifying ∈ ws -> Notifying ∈ <[w := y]> ws.
Proof.
  intros E Hx [v Ev]%list_elem_of_lookup. apply list_elem_of_lookup. exists v.
  rewrite list_lookup_insert_ne; [done|congruence].
Qed.

Lemma rel_insert s w y :
  Inv s -> (forall i l, y = Releasing i l -> i ∈ s.(finished) /\ l ⊆ deps_of i) ->
  forall v i l, <[w := y]> s.(workers) !! v = Some (Releasing i l) -> i ∈ s.(finished) /\ l ⊆ deps_of i.
Proof.
  intros I Hy v i l. rewrite list_lookup_insert_Some. intros [(-> & E & _)|[_ E]]; [by apply Hy|].
  by apply (i_rel _ _ _ I v).
Qed.

Ltac inv_fields :=
  constructor; cbn [workers dispatched queue finished in_degree main completed mem];
  unfold pending in *; cbn [workers finished] in *; rewrite ?length_insert; try done.

(** A worker takes a task. *)
Lemma inv_take s w i q :
  Inv s -> s.(workers) !! w = Some Idle -> s.(queue) = i :: q ->
  Inv (mk_p q (<[w := Running i]> s.(workers)) s.(in_degree) s.(completed) s.(main) s.(mem)
         s.(dispatched) s.(finished)).
Proof.
  intros I E Eq.
  assert (forall j, occ j (unreleased (<[w := Running i]> s.(workers))) = occ j (unreleased s.(workers))) as Ho
    by (intros j; pose proof (occ_insert j _ _ _ (Running i) E); cbn in *; lia).
  pose proof (rel_insert s w (Running i) I ltac:(done)) as Hr.
  destruct I. inv_fields; try (setoid_rewrite Ho; done).
  - rewrite i_split0, Eq. pose proof (running_insert _ _ _ (Running i) E) as P.
    cbn [running_of] in P. rewrite app_nil_r in P. rewrite P. rewrite <- app_assoc. cbn [app].
    by rewrite <- (Permutation_middle (running _)), <- (Permutation_middle q).
  - pose proof (uncounted_insert _ _ _ (Running i) E) as P. cbn in P. lia.
  - intros H1 H2. by apply (notifying_insert _ _ _ _ E), i_notify0.
Qed.

(** A worker runs a system. *)
Lemma inv_run s w i :
  Inv s -> s.(workers) !! w = Some (Running i) ->
  Inv (mk_p s.(queue) (<[w := Releasing i (deps_of i)]> s.(workers)) s.(in_degree) s.(completed)
         s.(main) (run i s.(mem)) s.(dispatched) (s.(finished) ++ [i])).
Proof.
  intros I E. destruct (inv_running s i I) as (Hd & Hf & Hi).
  { by eapply running_lookup. }
  pose proof (i_zero _ _ _ I i Hd) as Hz.
  assert (forall j, unfinished (s.(finished) ++ [i]) j + occ j (unreleased (<[w := Releasing i (deps_of i)]> s.(workers)))
    = pending s j) as Ho.
  { intros j. pose proof (occ_insert j _ _ _ (Releasing i (deps_of i)) E) as P.
    cbn [rest_of] in P. change (occ j []) with 0 in P.
    pose proof (unfinished_finish s.(finished) i j Hi Hf). unfold pending. lia. }
  destruct I. inv_fields; try (setoid_rewrite Ho; done).
  - rewrite i_split0. apply Permutation_app_head.
    pose proof (running_insert _ _ _ (Releasing i (deps_of i)) E) as P. cbn [running_of] in P.
    rewrite app_nil_r in P. rewrite <- P, <- app_assoc. apply Permutation_app_head, Permutation_app_comm.
  - intros v k l. rewrite list_lookup_insert_Some. intros [(-> & [= <- <-] & _)|[_ ?]]; [set_solver|].
    destruct (i_rel0 v k l); [done|]. set_solver.
  - pose proof (uncounted_insert _ _ _ (Releasing i (deps_of i)) E) as P. cbn in P.
    rewrite length_app. cbn. lia.
  - intros H1 H2. by apply (notifying_insert _ _ _ _ E), i_notify0.
  - intros l1 j l2 El k Hk Hj. destruct l2 as [|x l2 _] using rev_ind.
    + apply app_inj_tail in El as [<- <-]. apply (unfinished_zero _ k i); [done|lia|done].
    + rewrite app_comm_cons, app_assoc in El. apply app_inj_tail in El as [El _]. by eapply i_order0.
  - rewrite foldl_app. cbn. by rewrite i_mem0.
Qed.

(** A worker releases one edge. *)
Lemma inv_release s w i dep rest s' :
  Inv s -> s.(workers) !! w = Some (Releasing i (dep :: rest)) -> step_worker w s = Some s' -> Inv s'.
Proof.
  intros I E. unfold step_worker. rewrite E.
  destruct (i_rel _ _ _ I w i _ E) as [Hfin Hsub].
  assert (dep ∈ deps_of i) as Hdep by set_solver. destruct (deps_lt i dep Hdep) as [Hi Hj].
  assert (i ∈ s.(dispatched)) as Hdi by (rewrite (i_split _ _ _ I); set_solver).
  assert (forall j, occ j (unreleased (<[w := Releasing i rest]> s.(workers))) + (if decide (j = dep) then 1 else 0)
    = occ j (unreleased s.(workers))) as Ho.
  { intros j. pose proof (occ_insert j _ _ _ (Releasing i rest) E) as P. cbn [rest_of] in P.
    rewrite occ_cons in P. lia. }
  assert (1 <= pending s dep) as Hpos.
  { unfold pending. specialize (Ho dep). rewrite decide_True in Ho by done. lia. }
  assert (dep ∉ s.(dispatched)) as Hnd by (intros H%(i_zero _ _ _ I); lia).
  pose proof (i_deg _ _ _ I dep Hj) as Hold. rewrite Hold. cbn [from_option id].
  set (d := if (Z.of_nat (pending s dep) =? 1)%Z then [dep] else []).
  assert (forall j, j ∈ d <-> j = dep /\ pending s dep = 1) as Hd.
  { intros j. subst d. destruct (Z.eqb_spec (Z.of_nat (pending s dep)) 1); [set_solver by lia|].
    split; [intros ?%not_elem_of_nil; done|lia]. }
  intros [= Es].
  assert (s' = mk_p (s.(queue) ++ d) (<[w := Releasing i rest]> s.(workers))
    (alter (fun d => d - 1)%Z dep s.(in_degree)) s.(completed) s.(main) s.(mem)
    (s.(dispatched) ++ d) s.(finished)) as ->.
  { rewrite <- Es. subst d. destruct (_ =? 1)%Z; [done|]. by rewrite !app_nil_r. }
  clear Es.
  pose proof (rel_insert s w (Releasing i rest) I) as Hr.
  pose proof I as []. inv_fields; rewrite ?length_alter; try done.
  - apply NoDup_app. split_and!; [done| |].
    + intros j Hj1 [-> _]%Hd. done.
    + subst d. destruct (_ =? 1)%Z; [apply NoDup_singleton|constructor].
  - intros j [?|[-> _]%Hd]%elem_of_app; auto.
  - rewrite i_split0, <- !app_assoc. apply Permutation_app_head.
    pose proof (running_insert _ _ _ (Releasing i rest) E) as P. cbn [running_of] in P.
    rewrite !app_nil_r in P. rewrite <- P. rewrite (assoc_L (++)). apply Permutation_app_comm.
  - intros j Hlt. specialize (Ho j). destruct (decide (j = dep)) as [->|Hne].
    + rewrite list_lookup_alter_eq, Hold. cbn. f_equal. unfold pending. lia.
    + rewrite list_lookup_alter_ne by done. rewrite i_deg0 by done. do 2 f_equal. lia.
  - intros j [Hin|[-> H1]%Hd]%elem_of_app.
    + specialize (i_zero0 j Hin). specialize (Ho j). lia.
    + specialize (Ho dep). rewrite decide_True in Ho by done. unfold pending in *. lia.
  - intros j Hlt Hz. specialize (Ho j). destruct (decide (j = dep)) as [->|Hne].
    + left. apply elem_of_app. right. apply Hd. split; [done|]. unfold pending. lia.
    + destruct (i_seed0 j Hlt) as [?|?]; [lia|left; set_solver|by right].
  - intros k Ek. destruct (i_ahead0 k Ek) as [H1 H2]. split; [|done].
    intros j [Hin|[-> _]%Hd]%elem_of_app; [by apply H1|]. specialize (H1 i Hdi). specialize (H2 i dep Hdep). lia.
  - apply Hr. intros i' l [= <- <-]. split; [done|set_solver].
  - pose proof (uncounted_insert _ _ _ (Releasing i rest) E) as P. cbn in P. lia.
  - intros H1 H2. by apply (notifying_insert _ _ _ _ E), i_notify0.
Qed.

Lemma inv_finished s : Inv s -> NoDup s.(finished) /\ forall i, i ∈ s.(finished) -> i < N.
Proof.
  intros I. pose proof (i_nodup _ _ _ I) as Hn. rewrite (i_split _ _ _ I) in Hn. split.
  - by apply NoDup_app in Hn as (_ & _ & (_ & _ & ?)%NoDup_app).
  - intros i Hi. apply (i_lt _ _ _ I). rewrite (i_split _ _ _ I). set_solver.
Qed.

Lemma length_below (l : list nat) : NoDup l -> (forall i, i ∈ l -> i < N) -> length l <= N.
Proof.
  intros Hd Hl. rewrite <- (length_seq N 0). apply submseteq_length, NoDup_submseteq; [done|].
  intros i Hi. apply elem_of_seq. specialize (Hl i Hi). lia.
Qed.

(** A worker counts a completion. *)
Lemma inv_count s w i x :
  Inv s -> s.(workers) !! w = Some (Releasing i []) ->
  x = (if S s.(completed) =? N then Notifying else Idle) ->
  Inv (mk_p s.(queue) (<[w := x]> s.(workers)) s.(in_degree) (S s.(completed)) s.(main) s.(mem)
         s.(dispatched) s.(finished)).
Proof.
  intros I E Ex.
  assert (running_of x = [] /\ rest_of x = [] /\ uncounted_of x = []) as (X1 & X2 & X3)
    by (subst x; by destruct (_ =? _)).
  assert (forall j, occ j (unreleased (<[w := x]> s.(workers))) = occ j (unreleased s.(workers))) as Ho.
  { intros j. pose proof (occ_insert j _ _ _ x E) as P. rewrite X2 in P. cbn in P. lia. }
  pose proof (rel_insert s w x I) as Hr.
  pose proof I as []. inv_fields; try (setoid_rewrite Ho; done).
  - pose proof (running_insert _ _ _ x E) as P. rewrite X1 in P. cbn [running_of] in P.
    rewrite !app_nil_r in P. by rewrite P.
  - apply Hr. intros i' l ->. by destruct (S (completed s) =? N).
  - pose proof (uncounted_insert _ _ _ x E) as P. rewrite X3 in P. cbn in P. lia.
  - intros H1 H2. rewrite (proj2 (Nat.eqb_eq _ _) H2) in Ex. subst x.
    apply list_elem_of_lookup. exists w. apply list_lookup_insert_eq. by eapply lookup_lt_Some.
  - intros Er. specialize (i_ret0 Er). destruct (inv_finished s I) as [Fd Fl].
    pose proof (length_below _ Fd Fl).
    pose proof (uncounted_insert _ _ _ Idle E) as P. cbn in P. lia.
Qed.

(** A worker notifies the caller. *)
Lemma inv_notify s w :
  Inv s -> s.(workers) !! w = Some Notifying ->
  Inv (match s.(main) with Blocked => set_main Waiting (set_worker w Idle s) | _ => set_worker w Idle s end).
Proof.
  intros I E.
  assert (forall mn, mn <> Blocked -> mn = s.(main) \/ (s.(main) = Blocked /\ mn = Waiting) ->
    Inv (mk_p s.(queue) (<[w := Idle]> s.(workers)) s.(in_degree) s.(completed) mn s.(mem)
           s.(dispatched) s.(finished))) as H.
  { intros mn Hmn Hor.
    assert (forall j, occ j (unreleased (<[w := Idle]> s.(workers))) = occ j (unreleased s.(workers))) as Ho.
    { intros j. pose proof (occ_insert j _ _ _ Idle E) as P. cbn in P. lia. }
    pose proof (rel_insert s w Idle I ltac:(done)) as Hr.
    pose proof I as []. inv_fields; try (setoid_rewrite Ho; done).
    - pose proof (running_insert _ _ _ Idle E) as P. cbn [running_of] in P.
      rewrite !app_nil_r in P. by rewrite P.
    - intros j Hj. rewrite Ho. intros Hz. destruct (i_seed0 j Hj Hz) as [?|(k & Ek & ?)]; [by left|right].
      exists k. destruct Hor as [->|[? _]]; [done|congruence].
    - intros k ->. destruct Hor as [Em|[_ ?]]; [|done]. by apply i_ahead0.
    - pose proof (uncounted_insert _ _ _ Idle E) as P. cbn in P. lia.
    - intros ->. destruct Hor as [Er|[_ ?]]; [by apply i_ret0|done]. }
  destruct (main s) eqn:Em; unfold set_worker, set_main; cbn; rewrite ?Em; apply H; auto.
Qed.

Lemma inv_step s s' : Inv s -> pstep s s' -> Inv s'.
Proof.
  intros I [[|w] E]; [by apply (inv_main s)|]. cbn [step] in E.
  destruct (workers s !! w) as [[|i|i [|dep rest]|]|] eqn:Ew; unfold step_worker in E; rewrite Ew in E.
  - destruct (queue s) as [|i q] eqn:Eq; [done|]. injection E as <-. by apply inv_take.
  - injection E as <-. by apply inv_run.
  - injection E as <-. by eapply inv_count.
  - eapply inv_release; [done|done|]. unfold step_worker. by rewrite Ew.
  - injection E as <-. pose proof (inv_notify s w I Ew) as H. by destruct (main s).
  - done.
Qed.

Lemma inv_reachable s s' : Inv s -> reachable s s' -> Inv s'.
Proof. intros I H. induction H; [done|]. eauto using inv_step. Qed.

(** ** Mutual exclusion of conflicting systems *)

Lemma inv_exclusive s v w i j :
  Inv s -> v <> w -> s.(workers) !! v = Some (Running i) -> s.(workers) !! w = Some (Running j) ->
  i <> j /\ conflict i j = false.
Proof.
  intros I Hne Ei Ej.
  destruct (inv_running s i I ltac:(by eapply running_lookup)) as (Di & Fi & Li).
  destruct (inv_running s j I ltac:(by eapply running_lookup)) as (Dj & Fj & Lj).
  assert (i <> j) as Hij.
  { pose proof (running_insert _ _ _ Idle Ei) as P. cbn [running_of] in P. rewrite app_nil_r in P.
    pose proof (i_nodup _ _ _ I) as Hn. rewrite (i_split _ _ _ I) in Hn.
    apply NoDup_app in Hn as (_ & _ & Hn). apply NoDup_app in Hn as (Hn & _ & _).
    rewrite <- P in Hn. apply NoDup_app in Hn as (_ & Hn & _). intros ->.
    apply (Hn j); [|set_solver]. apply (running_lookup _ w). by rewrite list_lookup_insert_ne. }
  split; [done|]. destruct (conflict i j) eqn:C; [exfalso|done].
  assert (forall a b, conflict a b = true -> a ∉ s.(finished) -> b ∈ s.(dispatched) -> a < N ->
    b ∉ after a order) as Hno.
  { intros a b Hc Hfa Hdb Ha Hb. apply Hfa, (unfinished_zero _ a b Ha).
    - pose proof (i_zero _ _ _ I b Hdb) as Hz. unfold pending in Hz. lia.
    - rewrite (g_deps G) by done. by apply list_elem_of_filter. }
  destruct (after_total i j order) as [H|H]; [| |done| |].
  - rewrite (g_perm G), elem_of_seq. lia.
  - rewrite (g_perm G), elem_of_seq. lia.
  - by apply (Hno i j).
  - apply (Hno j i); try done. by rewrite (g_sym G).
Qed.

(** ** Progress *)

Lemma after_split l1 j l2 i : NoDup (l1 ++ j :: l2) -> j ∈ after i (l1 ++ j :: l2) -> i ∈ l1.
Proof.
  induction l1 as [|x l1 IH]; cbn [app after].
  - intros [Hj Hn]%NoDup_cons. destruct (decide (j = i)); [done|].
    intros H%after_elem. done.
  - intros [Hx Hn]%NoDup_cons. destruct (decide (x = i)) as [->|]; [set_solver|].
    intros H. specialize (IH Hn H). set_solver.
Qed.

(** The first index of a list that fails a decidable property. *)
Lemma first_failing (P : nat -> Prop) `{!forall i, Decision (P i)} (l : list nat) :
  (forall i, i ∈ l -> P i) \/ exists l1 j l2, l = l1 ++ j :: l2 /\ ~ P j /\ forall i, i ∈ l1 -> P i.
Proof.
  induction l as [|x l IH]; [left; set_solver|].
  destruct (decide (P x)) as [Hx|Hx].
  - destruct IH as [IH|(l1 & j & l2 & -> & Hj & H1)]; [left; set_solver|].
    right. exists (x :: l1), j, l2. set_solver.
  - right. exists [], x, l. set_solver.
Qed.

(** The workers have nothing left to do but the queue. *)
Definition all_idle (ws : list wstate) : Prop := forall w x, ws !! w = Some x -> x = Idle.

Lemma idle_nothing ws : all_idle ws -> running ws = [] /\ unreleased ws = [] /\ uncounted ws = [].
Proof.
  intros H. induction ws as [|x ws IH]; [done|].
  rewrite (H 0 x eq_refl). apply IH. intros w y E. by apply (H (S w)).
Qed.

Lemma inv_all_dispatched s :
  Inv s -> all_idle s.(workers) -> s.(queue) = [] -> (forall k, s.(main) <> Seeding k) ->
  forall i, i < N -> i ∈ s.(dispatched).
Proof.
  intros I Hi Hq Hm i Hlt. destruct (idle_nothing _ Hi) as (R & U & C).
  assert (i ∈ order) as Hin by (rewrite (g_perm G), elem_of_seq; lia).
  destruct (first_failing (fun i => i ∈ s.(dispatched)) order) as [H|(l1 & j & l2 & Eo & Hj & H1)];
    [by apply H|]. exfalso.
  assert (j < N) as Hjn.
  { assert (j ∈ order) as Hjo by (rewrite Eo; set_solver).
    rewrite (g_perm G), elem_of_seq in Hjo. lia. }
  assert (pending s j = 0) as Hz.
  { unfold pending. rewrite U. change (occ j []) with 0. rewrite Nat.add_0_r. unfold unfinished.
    assert (forall l, (forall k, k ∈ l -> k < N) ->
      sum_list ((fun k => if decide (k ∈ s.(finished)) then 0 else occ j (deps_of k)) <$> l) = 0) as H.
    { induction l as [|k l IH]; [done|]. intros Hl. cbn. rewrite IH by set_solver.
      destruct (decide (k ∈ s.(finished))) as [|Hf]; [done|]. rewrite Nat.add_0_r.
      apply occ_zero. intros Hd. rewrite (g_deps G) in Hd by set_solver.
      apply list_elem_of_filter in Hd as [_ Ha]. rewrite Eo in Ha.
      apply after_split in Ha; [|rewrite <- Eo; apply order_nodup].
      specialize (H1 k Ha). rewrite (i_split _ _ _ I), Hq, R in H1. set_solver. }
    apply H. intros k. rewrite elem_of_seq. lia. }
  destruct (i_seed _ _ _ I j Hjn Hz) as [?|(k & E & _)]; [done|]. by apply (Hm k).
Qed.

#[local] Instance wstate_eq_dec : EqDecision wstate.
Proof. solve_decision. Defined.

Lemma inv_progress s : Inv s -> s.(main) <> Returned -> exists s', pstep s s'.
Proof.
  intros I Hr.
  destruct (step_main s) as [s'|] eqn:Estep; [exists s'; by exists Main|].
  destruct (main s) as [k| | |] eqn:Em; unfold step_main in Estep; rewrite Em in Estep;
    [by destruct (k <? N)|done| |done].
  (* the caller is blocked: some worker can act *)
  destruct (decide (Exists (fun x => x <> Idle) s.(workers))) as [(x & Hx & Hne)%Exists_exists|Hall].
  - apply list_elem_of_lookup in Hx as [w Ew].
    assert (exists s', step_worker w s = Some s') as [s' E]; [|exists s'; by exists (Worker w)].
    unfold step_worker. rewrite Ew. destruct x as [|i|i [|dep rest]|]; try done; eauto.
  - assert (all_idle s.(workers)) as Hi.
    { intros w x E. destruct (decide (x = Idle)) as [|Hne]; [done|]. exfalso. apply Hall, Exists_exists.
      exists x. split; [by eapply list_elem_of_lookup_2|done]. }
    destruct (queue s) as [|i q] eqn:Eq.
    + exfalso. destruct (idle_nothing _ Hi) as (R & _ & C).
      pose proof (inv_all_dispatched s I Hi Eq ltac:(congruence)) as Hall'.
      pose proof (i_done _ _ _ I) as Hd. rewrite C in Hd. cbn in Hd.
      assert (length s.(finished) = N) as Lf.
      { assert (s.(finished) ≡ₚ seq 0 N) as ->; [|apply length_seq].
        destruct (inv_finished s I) as [Fd Fl]. apply NoDup_Permutation; [done|apply NoDup_seq|].
        intros k. rewrite elem_of_seq. split; [intros ?%Fl; lia|]. intros [_ Hk].
        specialize (Hall' k Hk). rewrite (i_split _ _ _ I), Eq, R in Hall'. set_solver. }
      destruct (list_elem_of_lookup_1 _ _ (i_notify _ _ _ I Em ltac:(lia))) as [w Ew].
      by specialize (Hi w _ Ew).
    + destruct (lookup_lt_is_Some_2 s.(workers) 0) as [x Ex]; [rewrite (i_pool _ _ _ I); lia|].
      rewrite (Hi 0 x Ex) in Ex. eexists. exists (Worker 0). cbn. unfold step_worker.
      by rewrite Ex, Eq.
Qed.

(** ** Termination *)

(** No system has more dependents than the graph has edges. *)
Definition width : nat := sum_list (length <$> deps).

Lemma width_ge i : length (deps_of i) <= width.
Proof.
  unfold deps_of, width. destruct (deps !! i) as [l|] eqn:E; [|cbn; lia]. cbn [from_option id].
  revert i E. induction deps as [|x d IH]; intros [|i] E; try done; cbn.
  - injection E as ->. lia.
  - specialize (IH i E). lia.
Qed.

Definition weight (x : wstate) : nat :=
  match x with Idle => 0 | Running _ => width + 4 | Releasing _ l => length l + 3 | Notifying => 2 end.
Definition main_weight (m : mstate) : nat :=
  match m with Seeding k => 3 + (N - k) | Waiting => 2 | Blocked => 1 | Returned => 0 end.

Definition measure (s : pstate) : nat :=
  main_weight s.(main) + (N - length s.(dispatched)) * (width + 6)
  + length s.(queue) * (width + 5) + sum_list (weight <$> s.(workers)).

Lemma weight_insert (ws : list wstate) w x y :
  ws !! w = Some x ->
  sum_list (weight <$> <[w := y]> ws) + weight x = sum_list (weight <$> ws) + weight y.
Proof.
  revert w. induction ws as [|a ws IH]; intros [|w] E; try done.
  - injection E as ->. cbn. lia.
  - specialize (IH w E).
    change (weight a + sum_list (weight <$> <[w := y]> ws) + weight x =
            weight a + sum_list (weight <$> ws) + weight y). lia.
Qed.

Lemma inv_dispatched_le s : Inv s -> length s.(dispatched) <= N.
Proof. intros I. apply length_below; [apply I|apply (i_lt _ _ _ I)]. Qed.

Ltac fields :=
  unfold measure; cbn [main dispatched queue workers dispatch set_main set_worker weight main_weight length] in *.

Lemma step_measure s s' : Inv s -> pstep s s' -> measure s' < measure s.
Proof.
  intros I Hst. pose proof (inv_dispatched_le s' (inv_step s s' I Hst)) as Hle.
  destruct Hst as [[|w] E]; cbn [step] in E.
  - unfold step_main in E. destruct (main s) as [k| | |] eqn:Em; [| |done..].
    + destruct (Nat.ltb_spec k N); injection E as <-; unfold measure; rewrite Em.
      * destruct (_ =? 0)%Z; fields; rewrite ?length_app in *; cbn [length] in *; nia.
      * fields. lia.
    + injection E as <-. unfold measure. rewrite Em. fields. destruct (_ =? _); fields; lia.
  - unfold step_worker in E. destruct (workers s !! w) as [x|] eqn:Ew; [|done].
    destruct x as [|i|i [|dep rest]|].
    + destruct (queue s) as [|i q] eqn:Eq; [done|]. injection E as <-.
      pose proof (weight_insert _ _ _ (Running i) Ew) as P. fields. rewrite Eq. fields. lia.
    + injection E as <-. pose proof (weight_insert _ _ _ (Releasing i (deps_of i)) Ew) as P.
      pose proof (width_ge i). fields. lia.
    + cbv zeta in E. destruct (S (completed s) =? N); injection E as <-.
      * pose proof (weight_insert _ _ _ Notifying Ew) as P. fields. lia.
      * pose proof (weight_insert _ _ _ Idle Ew) as P. fields. lia.
    + injection E as <-. pose proof (weight_insert _ _ _ (Releasing i rest) Ew) as P.
      destruct (_ =? 1)%Z; fields; rewrite ?length_app in *; cbn [length] in *; nia.
    + injection E as <-. pose proof (weight_insert _ _ _ Idle Ew) as P.
      destruct (main s) eqn:Em; fields; rewrite ?Em; fields; lia.
Qed.

Lemma inv_terminates s : Inv s -> Acc (flip pstep) s.
Proof.
  remember (measure s) as n eqn:En. revert s En. induction (lt_wf n) as [n _ IH]. intros s -> I.
  constructor. intros s' Hst. apply (IH (measure s')); [by apply step_measure|done|by eapply inv_step].
Qed.

(** ** The result *)

Lemma inv_returned s : Inv s -> s.(main) = Returned -> s.(finished) ≡ₚ seq 0 N /\ s.(dispatched) ≡ₚ seq 0 N.
Proof.
  intros I Er. destruct (inv_finished s I) as [Fd Fl].
  pose proof (i_ret _ _ _ I Er). pose proof (i_done _ _ _ I).
  assert (s.(finished) ≡ₚ seq 0 N) as Hf.
  { apply submseteq_length_Permutation; [|rewrite length_seq; lia].
    apply NoDup_submseteq; [done|]. intros i ?%Fl. apply elem_of_seq. lia. }
  split; [done|]. apply NoDup_Permutation; [apply I|apply NoDup_seq|]. intros i. split.
  - intros ?%(i_lt _ _ _ I). apply elem_of_seq. lia.
  - intros Hi. rewrite <- Hf in Hi. rewrite (i_split _ _ _ I). set_solver.
Qed.

End Correct.

(** Two orders of the same systems in which conflicting systems come in the same
    order have the same effect when the others commute. *)
Definition effect (l : list nat) (m : M) : M := foldl (fun m i => run i m) m l.

(** [P] is an invariant of the systems' ticks, on which the commutations are known. *)
Variable P : M -> Prop.

Lemma effect_move x l1 l2 m :
  (forall y m, y ∈ l1 -> P m -> P (run y m)) ->
  (forall y m, y ∈ l1 -> P m -> run x (run y m) = run y (run x m)) ->
  P m -> effect (l1 ++ x :: l2) m = effect (x :: l1 ++ l2) m.
Proof.
  revert m. induction l1 as [|y l1 IH]; intros m Hp H Pm; [done|]. cbn.
  change (effect (l1 ++ x :: l2) (run y m) = effect (l1 ++ l2) (run y (run x m))).
  rewrite IH by (intros; first [apply Hp | apply H]; set_solver). cbn. unfold effect. by rewrite H by set_solver.
Qed.

Lemma effect_linear_extension o l m :
  NoDup o -> l ≡ₚ o ->
  (forall i m, i ∈ o -> P m -> P (run i m)) ->
  (forall i j m, i ∈ o -> j ∈ o -> P m -> conflict i j = false -> run i (run j m) = run j (run i m)) ->
  (forall i j l1 l2, j ∈ after i o -> conflict i j = true -> l = l1 ++ j :: l2 -> i ∈ l1) ->
  P m -> effect l m = effect o m.
Proof.
  revert l m. induction o as [|x o IH]; intros l m Hn Hp Hi Hc Ho Pm.
  - by apply Permutation_nil_r in Hp as ->.
  - apply NoDup_cons in Hn as [Hx Hn].
    assert (x ∈ l) as Hxl by (rewrite Hp; set_solver).
    apply list_elem_of_split in Hxl as (l1 & l2 & ->).
    rewrite <- Permutation_middle in Hp. apply Permutation_cons_inv in Hp.
    assert (NoDup (l1 ++ l2)) as Hd by by rewrite Hp.
    assert (x ∉ l1 ++ l2) as Hx' by by rewrite Hp.
    rewrite effect_move.
    + cbn. apply IH; [done|done|set_solver|set_solver| |apply Hi; [set_solver|done]]. intros i j a b Ha Hcf E.
      assert (i <> x) as Hix.
      { intros ->. apply Hx. clear -Ha. induction o as [|z o IHo]; cbn in Ha; [set_solver|].
        destruct (decide (z = x)); set_solver. }
      assert (i ∈ a \/ i ∈ x :: a) as [?|?]; [|done|set_solver].
      assert (j ∈ after i (x :: o)) as Ha' by (cbn; by rewrite decide_False by congruence).
      apply app_eq_app in E as (c & [[-> E]|[-> E]]).
      * destruct c as [|z c]; cbn in E.
        -- right. rewrite app_nil_r in *. subst. 
           apply (Ho i j (a ++ [x]) b) in Ha'; [set_solver|done|by rewrite <- app_assoc].
        -- injection E as <- ->. left.
           apply (Ho i j a (c ++ x :: l2)) in Ha'; [done|done|by rewrite <- app_assoc].
      * right. apply (Ho i j (l1 ++ x :: c) b) in Ha'; [set_solver|done|].
        rewrite <- app_assoc. cbn. by rewrite E.
    + intros y m' Hy Pm'. apply Hi; [|done]. apply elem_of_cons. right. rewrite <- Hp. set_solver.
    + intros y m' Hy Pm'. assert (y ∈ o) as Hyo by (rewrite <- Hp; set_solver).
      destruct (conflict x y) eqn:Cxy; [|apply Hc; [set_solver|set_solver|done|done]].
      exfalso. apply list_elem_of_split in Hy as (a & b & ->).
      assert (x ∈ a) as Hxa; [|set_solver].
      apply (Ho x y a (b ++ x :: l2)); [cbn; by rewrite decide_True|done|by rewrite <- app_assoc].
    + done.
Qed.

End Parallel.
(** ** The tick of a scheduler in [Parallel] mode *)

Section Tick.
Context {S W : Type} `{!SystemOps S W}.
Variables (ctx : SwarmContext) (dt : Z).

(** The effect of the tick of the system at an index. *)
Definition tick_effect (systems : list S) (i : nat) (w : W) : W :=
  match systems !! i with
  | Some s => match sys_tick s ctx dt w with Ok w' => w' | _ => w end
  | None => w
  end.

Variable sch : @scheduler S.
Abbreviation size := (length sch.(systems_)).
Abbreviation effect_of := (tick_effect sch.(systems_)).

(** One step of the tick of [sch], and the states it starts from: the caller
    about to seed when every edge goes to a system registered earlier, or the
    caller done with seeding before any worker moved. *)
Definition tick_step : pstate -> pstate -> Prop := pstep size sch.(dependents_) effect_of.
Definition tick_start (p : nat) (w : W) (s0 : pstate) : Prop :=
  s0 = seeded_state size sch.(in_degree_initial_) p w \/
  (s0 = init_state sch.(in_degree_initial_) p w /\
   forall i j, j ∈ deps_of sch.(dependents_) i -> (j < i)%nat).

Lemma deps_of_seq (deps : list (list nat)) : deps_of deps <$> seq 0 (length deps) = deps.
Proof.
  apply list_eq. intros i. rewrite list_lookup_fmap. unfold deps_of.
  destruct (deps !! i) as [l|] eqn:E.
  - pose proof (lookup_lt_Some _ _ _ E). rewrite lookup_seq_lt by done. cbn. by rewrite E.
  - apply lookup_ge_None in E. by rewrite lookup_seq_ge by done.
Qed.

Lemma sched_graph :
  sched_wf sch -> sch.(built_) = true -> sch.(mode_) = Parallel ->
  graph size sch.(dependents_) sch.(in_degree_initial_) sch.(order_) (hazard sch.(systems_)).
Proof.
  intros [Hn Ho Hg _ _] Hb Hm. destruct (Hg Hb Hm) as [Eg _]. rewrite (Ho Hb) in *.
  destruct (build_hazard_graph_spec sch.(systems_)) as [(L1 & L2 & G2) G1].
  rewrite <- Eg in L1, L2, G2, G1. cbn [fst snd] in L1, L2, G2, G1.
  constructor.
  - apply order_perm.
  - apply hazard_sym.
  - intros i Hi. unfold deps_of. by rewrite G1.
  - intros i Hi. unfold deps_of. by rewrite lookup_ge_None_2 by lia.
  - done.
  - intros j Hj. rewrite G2 by done. do 2 f_equal. unfold in_edges.
    rewrite <- (deps_of_seq sch.(dependents_)) at 1. by rewrite L1, <- list_fmap_compose.
Qed.

Lemma tick_inv p w s0 s :
  sched_wf sch -> sch.(built_) = true -> sch.(mode_) = Parallel -> 0 < p ->
  tick_start p w s0 -> rtc tick_step s0 s ->
  inv size sch.(dependents_) effect_of p w s.
Proof.
  intros Hw Hb Hm Hp Hs Hr. pose proof (sched_graph Hw Hb Hm) as G.
  eapply (inv_reachable _ _ _ _ _ _ G); [done| |done].
  destruct Hs as [->|[-> Hd]]; [by eapply inv_seeded|by eapply inv_init].
Qed.

(** Some interleaving brings the caller back. *)
Lemma tick_can_return p w s0 :
  sched_wf sch -> sch.(built_) = true -> sch.(mode_) = Parallel -> 0 < p -> tick_start p w s0 ->
  exists s, rtc tick_step s0 s /\ s.(main) = Returned.
Proof.
  intros Hw Hb Hm Hp Hs. pose proof (sched_graph Hw Hb Hm) as G.
  pose proof (tick_inv p w s0 s0 Hw Hb Hm Hp Hs (rtc_refl _ _)) as I.
  assert (Acc (flip tick_step) s0) as A by by eapply inv_terminates.
  clear Hs. induction A as [s0 _ IH]. destruct (decide (s0.(main) = Returned)) as [Hr|Hr].
  - exists s0. split; [apply rtc_refl|done].
  - destruct (inv_progress _ _ _ _ _ _ G p w Hp s0 I Hr) as [s1 H1].
    destruct (IH s1 H1) as (s & Hs & Hr'); [by eapply inv_step|]. exists s. split; [by eapply rtc_l|done].
Qed.

(** An invariant of the ticks, on which ticks without a hazard commute. *)
Variable P : W -> Prop.
Record commuting : Prop := {
  cm_ok : forall s w, s ∈ sch.(systems_) -> P w -> exists w', sys_tick s ctx dt w = Ok w' /\ P w';
  cm_comm : forall a b w, a ∈ sch.(systems_) -> b ∈ sch.(systems_) -> P w ->
    have_hazard (describe a) (describe b) = false ->
    (let! w := sys_tick b ctx dt w in sys_tick a ctx dt w) =
    (let! w := sys_tick a ctx dt w in sys_tick b ctx dt w);
}.
Hypothesis C : commuting.

(** Ticking the systems at some indices, one after the other. *)
Lemma tick_all_effect l w :
  (forall i, i ∈ l -> i < size) -> P w ->
  tick_all (omap (fun i => sch.(systems_) !! i) l) ctx dt w = Ok (effect effect_of l w).
Proof.
  revert w. induction l as [|i l IH]; intros w Hl Pw; [done|]. cbn [omap list_omap].
  destruct (lookup_lt_is_Some_2 sch.(systems_) i) as [a Ea]; [apply Hl; set_solver|].
  rewrite Ea. cbn [tick_all]. destruct (cm_ok C a w) as (w' & E & P'); [by eapply list_elem_of_lookup_2|done|].
  rewrite E. cbn [obind]. rewrite IH by (try (intros j Hj; apply Hl; set_solver); done).
  unfold effect. cbn [foldl]. unfold tick_effect at 3. by rewrite Ea, E.
Qed.

Lemma tick_effect_keeps i w : P w -> P (effect_of i w).
Proof.
  intros Pw. unfold tick_effect. destruct (systems_ sch !! i) as [a|] eqn:Ea; [|done].
  destruct (cm_ok C a w) as (w' & E & P'); [by eapply list_elem_of_lookup_2|done|]. by rewrite E.
Qed.

Lemma tick_effect_comm i j w :
  P w -> hazard sch.(systems_) i j = false -> effect_of i (effect_of j w) = effect_of j (effect_of i w).
Proof.
  intros Pw Hh. unfold hazard in Hh. unfold tick_effect.
  destruct (systems_ sch !! i) as [a|] eqn:Ea; [|done]. destruct (systems_ sch !! j) as [b|] eqn:Eb; [|done].
  assert (a ∈ sch.(systems_)) as Ha by by eapply list_elem_of_lookup_2.
  assert (b ∈ sch.(systems_)) as Hb by by eapply list_elem_of_lookup_2.
  pose proof (cm_comm C a b w Ha Hb Pw Hh) as Hcomm.
  destruct (cm_ok C a w Ha Pw) as (wa & Ea' & Pa). destruct (cm_ok C b w Hb Pw) as (wb & Eb' & Pb).
  rewrite Ea', Eb' in *. cbn [obind] in Hcomm. rewrite Hcomm.
  destruct (cm_ok C b wa Hb Pa) as (wab & E & _). by rewrite E.
Qed.

Lemma after_notin i l : i ∉ l -> after i l = [].
Proof.
  induction l as [|x l IH]; [done|]. intros Hn. cbn. rewrite decide_False by set_solver.
  apply IH. set_solver.
Qed.

(** The caller returns with every system run once, and the state that the
    sequential order produces. *)
Lemma returned_is_sequential p w0 s0 s :
  sched_wf sch -> sch.(built_) = true -> sch.(mode_) = Parallel -> 0 < p -> P w0 ->
  tick_start p w0 s0 -> rtc tick_step s0 s -> s.(main) = Returned ->
  s.(finished) ≡ₚ seq 0 size /\
  tick_all (omap (fun i => sch.(systems_) !! i) sch.(order_)) ctx dt w0 = Ok s.(mem).
Proof.
  intros Hw Hb Hm Hp Pw Hs Hr Hret.
  pose proof (tick_inv p w0 s0 s Hw Hb Hm Hp Hs Hr) as I. pose proof (sched_graph Hw Hb Hm) as G.
  destruct (inv_returned _ _ _ _ _ _ G _ _ Hp _ I Hret) as [Hf _]. split; [done|].
  rewrite tick_all_effect; [|rewrite (sw_order sch Hw Hb); intros i; apply order_lt|done].
  f_equal. rewrite (i_mem _ _ _ _ _ _ I). symmetry.
  apply (effect_linear_extension _ (hazard sch.(systems_)) P); [by eapply order_nodup| | | | |done].
  - by rewrite Hf, (g_perm _ _ _ _ _ G).
  - intros i m _. apply tick_effect_keeps.
  - intros i j m _ _. apply tick_effect_comm.
  - intros i j l1 l2 Ha Hc El.
    assert (i ∈ sch.(order_)) as Hi.
    { destruct (decide (i ∈ sch.(order_))) as [|Hn]; [done|]. rewrite after_notin in Ha by done.
      by apply not_elem_of_nil in Ha. }
    rewrite (g_perm _ _ _ _ _ G), elem_of_seq in Hi. destruct Hi as [_ Hi].
    apply (i_order _ _ _ _ _ _ I _ _ _ El _ Hi).
    rewrite (g_deps _ _ _ _ _ G) by done. by apply list_elem_of_filter.
Qed.
End Tick.

(** Schedulers built from client calls in [Parallel] mode. *)
Lemma parallel_built {S W : Type} `{!SystemOps S W} (hc pool : Z) (calls : list (@api S)) :
  (0 <= pool)%Z ->
  let sch := (build_graph hc (api_run hc Parallel pool calls)).1 in
  sched_wf sch /\ sch.(built_) = true /\ sch.(mode_) = Parallel.
Proof.
  intros Hp sch. destruct (api_run_wf hc Parallel pool calls Hp) as (W0 & M0 & P0).
  destruct (build_graph_built hc (api_run hc Parallel pool calls)) as (Hb & Hm & _).
  split_and!; [apply build_wf; [lia|done]|done|by rewrite <- M0].
Qed.

(** C11: While a parallel tick runs, from any scheduler a client can build and under
    every interleaving of the caller and the workers, no system is dispatched
    twice, and two systems whose ticks overlap are different and share no component
    or resource that either writes.  The tick must start with the caller done
    seeding before any worker moved, or every hazard edge must lead to a system
    registered earlier (otherwise see [seeding_race]). *)
Theorem parallel_tick_exclusive {S W : Type} `{!SystemOps S W} (hc pool : Z)
    (calls : list (@api S)) (ctx : SwarmContext) (dt : Z) (p : nat) (w0 : W) s0 s :
  (0 <= pool)%Z -> 0 < p ->
  let sch := (build_graph hc (api_run hc Parallel pool calls)).1 in
  tick_start sch p w0 s0 -> rtc (tick_step ctx dt sch) s0 s ->
  NoDup s.(dispatched) /\
  forall v w i j, v <> w ->
    s.(workers) !! v = Some (Running i) -> s.(workers) !! w = Some (Running j) ->
    i <> j /\ forall a b, sch.(systems_) !! i = Some a -> sch.(systems_) !! j = Some b ->
      ~ exists res x, touches (describe a) res x /\ touches (describe b) res x /\
                      (writes (describe a) res x \/ writes (describe b) res x).
Proof.
  intros Hpool Hp sch Hs Hr. destruct (parallel_built hc pool calls Hpool) as (Hw & Hb & Hm).
  fold sch in Hw, Hb, Hm. clearbody sch.
  pose proof (tick_inv ctx dt sch p w0 s0 s Hw Hb Hm Hp Hs Hr) as I. split; [apply I|].
  intros v w i j Hne Ei Ej.
  destruct (inv_exclusive _ _ _ _ _ _ (sched_graph sch Hw Hb Hm) _ _ Hp _ _ _ _ _ I Hne Ei Ej) as [Hij Hc].
  split; [done|]. intros a b Ea Eb Hx%have_hazard_spec. unfold hazard in Hc.
  rewrite Ea, Eb in Hc. congruence.
Qed.

(** C12: A parallel tick always comes to an end.  From the same starts, every
    interleaving is finite (the step relation is well-founded on the states
    reached), and as long as the caller has not returned some thread can act, so
    the caller's wait cannot hang and no worker waits for work that never comes. *)
Theorem parallel_tick_terminates {S W : Type} `{!SystemOps S W} (hc pool : Z)
    (calls : list (@api S)) (ctx : SwarmContext) (dt : Z) (p : nat) (w0 : W) s0 s :
  (0 <= pool)%Z -> 0 < p ->
  let sch := (build_graph hc (api_run hc Parallel pool calls)).1 in
  tick_start sch p w0 s0 -> rtc (tick_step ctx dt sch) s0 s ->
  Acc (flip (tick_step ctx dt sch)) s /\
  (s.(main) <> Returned -> exists s', tick_step ctx dt sch s s').
Proof.
  intros Hpool Hp sch Hs Hr. destruct (parallel_built hc pool calls Hpool) as (Hw & Hb & Hm).
  fold sch in Hw, Hb, Hm. clearbody sch.
  pose proof (tick_inv ctx dt sch p w0 s0 s Hw Hb Hm Hp Hs Hr) as I.
  pose proof (sched_graph sch Hw Hb Hm) as G.
  split; [by eapply inv_terminates|by eapply inv_progress].
Qed.

(** C7: A parallel tick has the effect of the sequential one.  Let [P] be an
    invariant of the ticks of the registered systems, on which each of them succeeds
    and those without a hazard commute.  When the caller returns, from the same
    starts and a state with [P], every registered system has run exactly once and
    the state the caller finds is the one the sequential tick of the same systems
    produces. *)
Theorem parallel_tick_is_sequential {S W : Type} `{!SystemOps S W} (hc pool : Z)
    (calls : list (@api S)) (ctx : SwarmContext) (dt : Z) (P : W -> Prop) (p : nat) (w0 : W) s0 s :
  (0 <= pool)%Z -> 0 < p ->
  let sch := (build_graph hc (api_run hc Parallel pool calls)).1 in
  commuting ctx dt sch P -> P w0 ->
  tick_start sch p w0 s0 -> rtc (tick_step ctx dt sch) s0 s -> s.(main) = Returned ->
  s.(finished) ≡ₚ seq 0 (length sch.(systems_)) /\
  forall clk tid, exists sch' ev, tick_sequential clk tid sch ctx dt w0 = Ok (sch', s.(mem), ev).
Proof.
  intros Hpool Hp sch C Pw Hs Hr Hret.
  destruct (parallel_built hc pool calls Hpool) as (Hw & Hb & Hm).
  fold sch in Hw, Hb, Hm. clearbody sch.
  destruct (returned_is_sequential ctx dt sch P C p w0 s0 s Hw Hb Hm Hp Pw Hs Hr Hret) as [Hf He]. split; [done|].
  intros clk tid. unfold tick_sequential. rewrite Hb. cbn [negb].
  rewrite dispatch_loop_spec by (rewrite (sw_order sch Hw Hb); intros i; apply order_lt).
  rewrite He. cbn [obind]. by do 2 eexists.
Qed.

(** ** Examples: two systems, the second reading what the first writes *)

Definition race_calls : list (@api SystemDescriptor) :=
  [Register (log_sys "a" [] [7%Z]); Register (log_sys "b" [7%Z] [])].
Definition race_sched : @scheduler SystemDescriptor :=
  (build_graph (SystemOps0 := log_ops) 4 (api_run (SystemOps0 := log_ops) 4 Parallel 2 race_calls)).1.
Definition ctx0 : SwarmContext := mk_ctx 1 0 0 1.
Definition race_follow (cs : list choice) (s : @pstate (list (list Z))) : option pstate :=
  follow (length race_sched.(systems_)) race_sched.(dependents_)
    (tick_effect (SystemOps0 := log_ops) ctx0 0 race_sched.(systems_)) cs s.

(** A schedule from the seeded state to the caller's return. *)
Definition good_schedule : list choice :=
  [Main; Worker 0; Worker 0; Worker 0; Worker 1; Worker 0; Worker 1; Worker 1; Worker 1; Main].
Definition race_seeded : @pstate (list (list Z)) :=
  seeded_state (length race_sched.(systems_)) race_sched.(in_degree_initial_) 2 [].

Lemma race_reach cs s0 s :
  race_follow cs s0 = Some s -> rtc (tick_step (SystemOps0 := log_ops) ctx0 0 race_sched) s0 s.
Proof. apply follow_reachable. Qed.

Lemma parallel_tick_exclusive_witness :
  exists s, race_follow (take 5 good_schedule) race_seeded = Some s /\ NoDup s.(dispatched) /\
    s.(workers) = [Releasing 0 []; Running 1].
Proof.
  destruct (race_follow (take 5 good_schedule) race_seeded) as [s|] eqn:E; [|vm_compute in E; discriminate E].
  exists s. split; [done|]. split.
  - assert (tick_start race_sched 2 [] race_seeded) as Hs by (left; reflexivity).
    pose proof (parallel_tick_exclusive (SystemOps0 := log_ops) 4 2 race_calls ctx0 0 2 [] race_seeded s) as H.
    cbv zeta in H. fold race_sched in H. apply H; [done|lia|exact Hs|exact (race_reach _ _ _ E)].
  - vm_compute in E. by injection E as <-.
Defined.

Lemma parallel_tick_terminates_witness :
  Acc (flip (tick_step (SystemOps0 := log_ops) ctx0 0 race_sched)) race_seeded.
Proof.
  assert (tick_start race_sched 2 [] race_seeded) as Hs by (left; reflexivity).
  pose proof (parallel_tick_terminates (SystemOps0 := log_ops) 4 2 race_calls ctx0 0 2 [] race_seeded
    race_seeded) as H.
  cbv zeta in H. fold race_sched in H. apply H; [done|lia|exact Hs|apply rtc_refl].
Defined.

(** Counting systems: every tick adds one, so all of them commute. *)
Definition count_ops : SystemOps SystemDescriptor nat :=
  {| describe d := d; sys_tick d _ _ w := Ok (S w) |}.
Definition count_sched : @scheduler SystemDescriptor :=
  (build_graph (SystemOps0 := count_ops) 4 (api_run (SystemOps0 := count_ops) 4 Parallel 2 race_calls)).1.
Definition count_seeded : @pstate nat :=
  seeded_state (length count_sched.(systems_)) count_sched.(in_degree_initial_) 2 0.

Lemma parallel_tick_is_sequential_witness :
  exists s, follow (length count_sched.(systems_)) count_sched.(dependents_)
      (tick_effect (SystemOps0 := count_ops) ctx0 0 count_sched.(systems_)) good_schedule count_seeded = Some s /\
    s.(main) = Returned /\ s.(mem) = 2 /\ s.(finished) ≡ₚ [0; 1].
Proof.
  destruct (follow (length count_sched.(systems_)) count_sched.(dependents_)
      (tick_effect (SystemOps0 := count_ops) ctx0 0 count_sched.(systems_)) good_schedule count_seeded)
    as [s|] eqn:E; [|vm_compute in E; discriminate E].
  assert (s.(main) = Returned /\ s.(mem) = 2) as [Hr Hm] by (vm_compute in E; by injection E as <-).
  exists s. split_and!; [done|done|done|].
  assert (tick_start count_sched 2 0 count_seeded) as Hs by (left; reflexivity).
  pose proof (parallel_tick_is_sequential (SystemOps0 := count_ops) 4 2 race_calls ctx0 0 (fun n => 0 <= n) 2 0
    count_seeded s) as H.
  cbv zeta in H. fold count_sched in H.
  apply H; [done|lia| |lia|exact Hs| |exact Hr].
  { constructor; [intros a w _ _; exists (S w); split; [done|lia]|intros a b w _ _ _ _; reflexivity]. }
  exact (follow_reachable _ _ _ _ _ _ E).
Defined.

(** The caller's seeding loop races with the workers.  With two systems
    registered in order of name, the second reading what the first writes, a worker
    can finish the first one and dispatch the second before the caller looks at
    the second's counter; the caller then finds it zero and dispatches the second
    system again.  Both copies can run at the same time, and since the completion
    counter passes [N] the caller, testing for equality, waits for ever: from the
    reached state no thread can act and the caller has not returned. *)
Theorem seeding_race :
  (exists s, rtc (tick_step (SystemOps0 := log_ops) ctx0 0 race_sched)
               (init_state race_sched.(in_degree_initial_) 2 []) s /\
     s.(workers) = [Running 1; Running 1]) /\
  (exists s, rtc (tick_step (SystemOps0 := log_ops) ctx0 0 race_sched)
               (init_state race_sched.(in_degree_initial_) 2 []) s /\
     s.(dispatched) = [0; 1; 1] /\ s.(mem) = [codes "a"; codes "b"; codes "b"] /\
     s.(main) = Blocked /\ s.(queue) = [] /\ s.(workers) = [Idle; Idle] /\
     forall s', ~ tick_step (SystemOps0 := log_ops) ctx0 0 race_sched s s').
Proof.
  pose (race := [Main; Worker 0; Worker 0; Worker 0; Main; Worker 0; Worker 0; Worker 1]).
  pose (hang := race ++ [Worker 0; Worker 0; Worker 1; Worker 1; Main; Main; Worker 0; Main]).
  split.
  - destruct (race_follow race (init_state race_sched.(in_degree_initial_) 2 [])) as [s|] eqn:E; [|vm_compute in E; discriminate E].
    exists s. split; [by eapply race_reach|]. vm_compute in E. by injection E as <-.
  - destruct (race_follow hang (init_state race_sched.(in_degree_initial_) 2 [])) as [s|] eqn:E; [|vm_compute in E; discriminate E].
    exists s. split; [by eapply race_reach|]. vm_compute in E. injection E as <-.
    split_and!; try reflexivity. intros s' [[|[|[|w]]] E]; vm_compute in E; discriminate E.
Qed.

(** The caller can return before the last worker has notified it.  The worker
    counts its completion without holding [done_mtx]; if the caller tests the
    predicate then, it returns and destroys the mutex and the condition variable
    the worker is about to lock and notify. *)
Theorem late_notification :
  exists s, rtc (tick_step (SystemOps0 := log_ops) ctx0 0 race_sched) race_seeded s /\
    s.(main) = Returned /\ s.(workers) = [Idle; Notifying].
Proof.
  pose (late := [Worker 0; Worker 0; Worker 0; Worker 1; Worker 0; Worker 1; Worker 1; Main]).
  destruct (race_follow late race_seeded) as [s|] eqn:E; [|vm_compute in E; discriminate E].
  exists s. split; [by eapply race_reach|]. vm_compute in E. by injection E as <-.
Qed.

End Par.
