(* ===== verification/Registry.v ===== *)
(** The component type system and the entity registry
    ([include/mith/core/component.h], [include/mith/core/entity.h],
    [include/mith/core/entity_snapshot.h], [include/mith/core/registry.h],
    [src/core/registry.cpp]).

    A C++ component type is a [ctype] (its [type_tag] address); the class
    [Component] gives the values of each.  The compiler's pretty function names are
    a parameter ([Toolchain]), so that identifiers may collide.  A [static_cast] of
    a store to a type it does not have is [Undefined]. *)

From S2P Require Import Prelude MachineInt Float32 Identity BoundedQueue Components Trace.
Local Open Scope Z_scope.

Module Reg.
Import Comp.

(** ** Component types *)

Inductive ctype :=
| TIdentity | TPosition | TVelocity | TOrientation | THealth | TRole | TBehaviourState
| TPermissionMask | TActionQueue | TCommBuffer
| TUser (n : nat).
#[global] Instance ctype_eq_dec : EqDecision ctype.
Proof. solve_decision. Defined.

(** A component of the application's own: its type's number and its data. *)
Record UserComponent (n : nat) := mk_user { user_data : list Z }.
Arguments mk_user {n} _.
Arguments user_data {n} _.

Inductive value :=
| VIdentity (v : IdentityComponent) | VPosition (v : PositionComponent)
| VVelocity (v : VelocityComponent) | VOrientation (v : OrientationComponent)
| VHealth (v : HealthComponent) | VRole (v : RoleComponent)
| VBehaviourState (v : BehaviourStateComponent) | VPermissionMask (v : PermissionMaskComponent)
| VActionQueue (v : ActionQueueComponent) | VCommBuffer (v : CommBufferComponent)
| VUser (n : nat) (data : list Z).

Definition vtype (v : value) : ctype :=
  match v with
  | VIdentity _ => TIdentity | VPosition _ => TPosition | VVelocity _ => TVelocity
  | VOrientation _ => TOrientation | VHealth _ => THealth | VRole _ => TRole
  | VBehaviourState _ => TBehaviourState | VPermissionMask _ => TPermissionMask
  | VActionQueue _ => TActionQueue | VCommBuffer _ => TCommBuffer | VUser n _ => TUser n
  end.

(** A well-formed component type: its tag and its values. *)
Class Component (T : Type) := {
  ctype_of : ctype;
  inj : T -> value;
  prj : value -> option T;
  prj_inj : forall v, prj (inj v) = Some v;
  inj_type : forall v, vtype (inj v) = ctype_of;
  prj_type : forall v, vtype v = ctype_of -> exists t, prj v = Some t;
}.
Arguments ctype_of T {_}.

#[global] Program Instance identity_component : Component IdentityComponent :=
  {| ctype_of := TIdentity; inj := VIdentity; prj v := match v with VIdentity t => Some t | _ => None end |}.
Solve All Obligations with by (try intros []; cbn; eauto; discriminate).
#[global] Program Instance position_component : Component PositionComponent :=
  {| ctype_of := TPosition; inj := VPosition; prj v := match v with VPosition t => Some t | _ => None end |}.
Solve All Obligations with by (try intros []; cbn; eauto; discriminate).
#[global] Program Instance velocity_component : Component VelocityComponent :=
  {| ctype_of := TVelocity; inj := VVelocity; prj v := match v with VVelocity t => Some t | _ => None end |}.
Solve All Obligations with by (try intros []; cbn; eauto; discriminate).
#[global] Program Instance orientation_component : Component OrientationComponent :=
  {| ctype_of := TOrientation; inj := VOrientation;
     prj v := match v with VOrientation t => Some t | _ => None end |}.
Solve All Obligations with by (try intros []; cbn; eauto; discriminate).
#[global] Program Instance health_component : Component HealthComponent :=
  {| ctype_of := THealth; inj := VHealth; prj v := match v with VHealth t => Some t | _ => None end |}.
Solve All Obligations with by (try intros []; cbn; eauto; discriminate).
#[global] Program Instance role_component : Component RoleComponent :=
  {| ctype_of := TRole; inj := VRole; prj v := match v with VRole t => Some t | _ => None end |}.
Solve All Obligations with by (try intros []; cbn; eauto; discriminate).
#[global] Program Instance state_component : Component BehaviourStateComponent :=
  {| ctype_of := TBehaviourState; inj := VBehaviourState;
     prj v := match v with VBehaviourState t => Some t | _ => None end |}.
Solve All Obligations with by (try intros []; cbn; eauto; discriminate).
#[global] Program Instance mask_component : Component PermissionMaskComponent :=
  {| ctype_of := TPermissionMask; inj := VPermissionMask;
     prj v := match v with VPermissionMask t => Some t | _ => None end |}.
Solve All Obligations with by (try intros []; cbn; eauto; discriminate).
#[global] Program Instance queue_component : Component ActionQueueComponent :=
  {| ctype_of := TActionQueue; inj := VActionQueue;
     prj v := match v with VActionQueue t => Some t | _ => None end |}.
Solve All Obligations with by (try intros []; cbn; eauto; discriminate).
#[global] Program Instance buffer_component : Component CommBufferComponent :=
  {| ctype_of := TCommBuffer; inj := VCommBuffer;
     prj v := match v with VCommBuffer t => Some t | _ => None end |}.
Solve All Obligations with by (try intros []; cbn; eauto; discriminate).

(** ** Type names and identifiers *)

(* @src include/mith/core/component.h:37-44 detail::fnv1a_64 *)
Definition fnv1a_64 (s : list Z) : Z :=
  fold_left (fun hash c => MI.u64 (Z.lxor hash c * 1099511628211)) s 14695981039346656037.

(** The index of the first occurrence of a marker, of a character of a set. *)
Fixpoint find_sub (marker s : list Z) : option nat :=
  if bool_decide (take (length marker) s = marker) then Some 0%nat
  else match s with
       | [] => None
       | _ :: s => S <$> find_sub marker s
       end.
Fixpoint find_first_of (set s : list Z) : option nat :=
  match s with
  | [] => None
  | c :: s => if bool_decide (c ∈ set) then Some 0%nat else S <$> find_first_of set s
  end.

(** The branch of the GCC and Clang builds. *)
(* @src include/mith/core/component.h:61-69 detail::extract_type_name *)
Definition extract_type_name (pretty : list Z) : list Z :=
  match find_sub (codes "T = ") pretty with
  | None => pretty
  | Some start =>
      let rest := drop (start + 4) pretty in
      match find_first_of [59; 93] rest with
      | None => rest
      | Some e => take e rest
      end
  end.

(** The compiler's [__PRETTY_FUNCTION__] for each type. *)
Class Toolchain := pretty_function : ctype -> list Z.

(* @src include/mith/core/component.h:83-87 type_name *)
Definition type_name `{!Toolchain} (t : ctype) : list Z := extract_type_name (pretty_function t).
(* @src include/mith/core/component.h:89-93 component_id *)
Definition component_id `{!Toolchain} (t : ctype) : Z := fnv1a_64 (type_name t).

(** ** The registry *)

(* @src include/mith/core/component.h:134-137 ComponentOrigin *)
Inductive ComponentOrigin := Built_In | User.
(* @src include/mith/core/registry.h:54-58 ComponentRegistrationPolicy *)
Inductive ComponentRegistrationPolicy := Open | LockAfterInit | BuiltInOnly.
(* @src include/mith/core/registry.h:60-66 RegistrationStatus *)
Inductive RegistrationStatus :=
| RegOk | AlreadyRegistered | TypeIdCollision | PolicyForbidsUser | PolicyLocked.
#[global] Instance ComponentOrigin_eq_dec : EqDecision ComponentOrigin.
Proof. solve_decision. Defined.
#[global] Instance Policy_eq_dec : EqDecision ComponentRegistrationPolicy.
Proof. solve_decision. Defined.

Definition INVALID_ENTITY : Z := 0.
Definition SELF_ENTITY : Z := 1.

(* @src include/mith/core/registry.h:92-118 detail::ComponentStore *)
Record store := mk_store { s_tag : ctype; s_origin : ComponentOrigin; s_value : option value }.

(** [sink_] tells whether a sink is attached; events are returned to its owner. *)
(* @src include/mith/core/registry.h:299-303 EntityRegistry *)
Record t := mk_reg {
  stores_ : gmap Z store;
  policy_ : ComponentRegistrationPolicy;
  locked_ : bool;
  sink_ : bool;
}.

(* @src src/core/registry.cpp:21-22 EntityRegistry::EntityRegistry *)
Definition new_registry (policy : ComponentRegistrationPolicy) : t := mk_reg ∅ policy false false.
(* @src src/core/registry.cpp:24-26 EntityRegistry::lock *)
Definition lock (r : t) : t := mk_reg r.(stores_) r.(policy_) true r.(sink_).
(* @src src/core/registry.cpp:40-42 EntityRegistry::set_trace_sink *)
Definition set_trace_sink (r : t) (on : bool) : t := mk_reg r.(stores_) r.(policy_) r.(locked_) on.
(* @src src/core/registry.cpp:32-34 EntityRegistry::registered_count *)
Definition registered_count (r : t) : nat := size r.(stores_).

(** A triple from its projections. *)
Lemma surjective_pairing_3 {A B C} (q : A * B * C) : q = (q.1.1, q.1.2, q.2).
Proof. by destruct q as [[??]?]. Qed.

Section Registry.
Context `{TC : !Toolchain}.

(** ["0x%016llx"]. *)
Definition hex16 (v : Z) : list Z :=
  codes "0x" ++ ((fun i => Id.hex_char (Z.land (Z.shiftr v (4 * Z.of_nat i)) 15)) <$> reverse (seq 0 16)).

(* @src src/core/registry.cpp:69-93 EntityRegistry::emit_registered_event_ *)
Definition emit_registered_event_ (r : t) (origin : ComponentOrigin) (name : list Z) (type_id : Z)
    : list Tr.TraceEvent :=
  if negb r.(sink_) then []
  else
    [Tr.mk_event Tr.Info (codes "component_registered")
       [Tr.mk_field (codes "origin")
          (Tr.FStr match origin with Built_In => codes "built_in" | User => codes "user" end);
        Tr.mk_field (codes "type_name") (Tr.FStr name);
        Tr.mk_field (codes "type_id") (Tr.FStr (hex16 type_id));
        Tr.mk_field (codes "tick") (Tr.FU64 0)]].

(* @src include/mith/core/registry.h:261-291 EntityRegistry::register_impl *)
Definition register_impl (r : t) (ty : ctype) (origin : ComponentOrigin)
    : t * RegistrationStatus * list Tr.TraceEvent :=
  if r.(locked_) && bool_decide (r.(policy_) = LockAfterInit) then (r, PolicyLocked, [])
  else if bool_decide (origin = User) && bool_decide (r.(policy_) = BuiltInOnly) then
    (r, PolicyForbidsUser, [])
  else
    let id := component_id ty in
    match r.(stores_) !! id with
    | Some existing =>
        if decide (existing.(s_tag) = ty) then (r, AlreadyRegistered, [])
        else (r, TypeIdCollision, [])
    | None =>
        (mk_reg (<[id := mk_store ty origin None]> r.(stores_)) r.(policy_) r.(locked_) r.(sink_),
         RegOk, emit_registered_event_ r origin (type_name ty) id)
    end.

(* @src include/mith/core/registry.h:129-133 EntityRegistry::register_component *)
Definition register_component (r : t) (T : Type) `{!Component T} := register_impl r (ctype_of T) User.
(* @src include/mith/core/registry.h:135-141 EntityRegistry::register_builtin_component *)
Definition register_builtin_component (r : t) (T : Type) `{!Component T} :=
  register_impl r (ctype_of T) Built_In.

(* @src include/mith/core/registry.h:148-151 EntityRegistry::is_registered *)
Definition is_registered (r : t) (ty : ctype) : bool := bool_decide (is_Some (r.(stores_) !! component_id ty)).

(* @src include/mith/core/registry.h:153-161 EntityRegistry::origin_of *)
Definition origin_of (r : t) (ty : ctype) : outcome ComponentOrigin :=
  match r.(stores_) !! component_id ty with
  | None => Aborted "origin_of<T>: component not registered"
  | Some s => Ok s.(s_origin)
  end.

(* @src include/mith/core/registry.h:163-169 EntityRegistry::has *)
Definition has (r : t) (ty : ctype) (id : Z) : bool :=
  if negb (id =? SELF_ENTITY) then false
  else match r.(stores_) !! component_id ty with
       | None => false
       | Some s => match s.(s_value) with Some _ => true | None => false end
       end.

(* @src include/mith/core/registry.h:171-204 EntityRegistry::get *)
Definition get (T : Type) `{!Component T} (r : t) (id : Z) : outcome T :=
  if negb (id =? SELF_ENTITY) then Aborted "get<T>: id != SELF_ENTITY (v0.1 N=1)"
  else match r.(stores_) !! component_id (ctype_of T) with
       | None => Aborted "get<T>: component not registered"
       | Some s =>
           if decide (s.(s_tag) = ctype_of T) then
             match s.(s_value) with
             | None => Aborted "get<T>: component not emplaced"
             | Some v => match prj v with Some c => Ok c | None => Undefined "value of another type" end
             end
           else Undefined "static_cast of a store of another type"
       end.

(* @src include/mith/core/registry.h:206-218 EntityRegistry::emplace *)
Definition emplace {T : Type} `{!Component T} (r : t) (id : Z) (c : T) : outcome t :=
  if negb (id =? SELF_ENTITY) then Aborted "emplace<T>: id != SELF_ENTITY (v0.1 N=1)"
  else match r.(stores_) !! component_id (ctype_of T) with
       | None => Aborted "emplace<T>: component not registered"
       | Some s =>
           if decide (s.(s_tag) = ctype_of T) then
             Ok (mk_reg (<[component_id (ctype_of T) := mk_store s.(s_tag) s.(s_origin) (Some (inj c))]>
                           r.(stores_)) r.(policy_) r.(locked_) r.(sink_))
           else Undefined "static_cast of a store of another type"
       end.

(** Writing through the reference [get] returned. *)
Definition set {T : Type} `{!Component T} (r : t) (id : Z) (c : T) : outcome t :=
  let! _ := get T r id in emplace r id c.

(* @src include/mith/core/registry.h:220-226 EntityRegistry::remove *)
Definition remove (r : t) (ty : ctype) (id : Z) : t :=
  if negb (id =? SELF_ENTITY) then r
  else match r.(stores_) !! component_id ty with
       | None => r
       | Some s => mk_reg (<[component_id ty := mk_store s.(s_tag) s.(s_origin) None]> r.(stores_))
                     r.(policy_) r.(locked_) r.(sink_)
       end.

(** ** Views and snapshots *)

(* @src include/mith/core/registry.h:338-341 ArchetypeView::has_all_impl_ *)
Definition has_all (r : t) (ts : list ctype) : bool := forallb (fun ty => has r ty SELF_ENTITY) ts.
(* @src include/mith/core/registry.h:323-326 ArchetypeView::size *)
Definition view_size (r : t) (ts : list ctype) : nat := if has_all r ts then 1%nat else 0%nat.

(* @src include/mith/core/entity_snapshot.h:21-30 EntitySnapshot *)
Record EntitySnapshot := mk_snapshot {
  snap_id : Z;
  snap_hid : Id.HierarchicalID;
  snap_position : PositionComponent;
  snap_velocity : VelocityComponent;
  snap_orientation : OrientationComponent;
  snap_health : HealthComponent;
  snap_role : RoleComponent;
  snap_state : BehaviourStateComponent;
}.

(** [if (has<T>(id)) field = get<T>(id);] *)
Definition get_or {T : Type} `{!Component T} (r : t) (id : Z) (dflt : T) : outcome T :=
  if has r (ctype_of T) id then get T r id else Ok dflt.

(* @src src/core/registry.cpp:48-67 EntityRegistry::snapshot *)
Definition snapshot (r : t) (id : Z) : outcome EntitySnapshot :=
  if negb (id =? SELF_ENTITY) then Aborted "snapshot: id != SELF_ENTITY (v0.1 N=1)"
  else
    let! i := get_or r id default_identity in
    let! p := get_or r id default_pos in
    let! v := get_or r id default_vel in
    let! o := get_or r id default_orient in
    let! h := get_or r id default_health in
    let! ro := get_or r id default_role in
    let! s := get_or r id default_state in
    Ok (mk_snapshot id i.(ic_id) p v o h ro s).

(** ** Reachable registries *)


(** One call of a mutating operation that returns. *)
Inductive step (r : t) : t -> Prop :=
| step_lock : step r (lock r)
| step_sink on : step r (set_trace_sink r on)
| step_register ty origin r' st evs : register_impl r ty origin = (r', st, evs) -> step r r'
| step_emplace T (H : Component T) (c : T) r' : emplace r SELF_ENTITY c = Ok r' -> step r r'
| step_remove ty id : step r (remove r ty id).

(** A store sits under its type's identifier and holds a value of its type. *)
Definition wf_store (k : Z) (s : store) : Prop :=
  component_id s.(s_tag) = k /\ forall v, s.(s_value) = Some v -> vtype v = s.(s_tag).
Definition wf (r : t) : Prop := map_Forall wf_store r.(stores_).

Definition registered (r : t) (ty : ctype) : Prop :=
  exists s, r.(stores_) !! component_id ty = Some s /\ s.(s_tag) = ty.

(** The outcomes of a registration, by case. *)
Lemma register_cases r ty origin :
  (exists st, register_impl r ty origin = (r, st, []) /\ st <> RegOk) \/
  (r.(stores_) !! component_id ty = None /\
   ~ (r.(locked_) = true /\ r.(policy_) = LockAfterInit) /\
   ~ (origin = User /\ r.(policy_) = BuiltInOnly) /\
   register_impl r ty origin =
     (mk_reg (<[component_id ty := mk_store ty origin None]> r.(stores_))
        r.(policy_) r.(locked_) r.(sink_), RegOk,
      emit_registered_event_ r origin (type_name ty) (component_id ty))).
Proof.
  unfold register_impl.
  destruct (r.(locked_) && bool_decide (r.(policy_) = LockAfterInit)) eqn:E1; [left; by eexists|].
  destruct (bool_decide (origin = User) && bool_decide (r.(policy_) = BuiltInOnly)) eqn:E2;
    [left; by eexists|].
  destruct (stores_ r !! component_id ty) eqn:E3.
  { destruct (decide _); left; by eexists. }
  right. split_and!; auto.
  - intros [H1 H2]. by rewrite H1, H2 in E1.
  - intros [-> H2]. by rewrite H2 in E2.
Qed.

Lemma emplace_ok T (H : Component T) r (c : T) r' :
  emplace r SELF_ENTITY c = Ok r' ->
  exists s, r.(stores_) !! component_id (ctype_of T) = Some s /\ s.(s_tag) = ctype_of T /\
    r' = mk_reg (<[component_id (ctype_of T) := mk_store (ctype_of T) s.(s_origin) (Some (inj c))]>
                   r.(stores_)) r.(policy_) r.(locked_) r.(sink_).
Proof.
  unfold emplace. cbn [negb Z.eqb SELF_ENTITY Pos.eqb]. destruct (stores_ r !! _) as [s|] eqn:E; [|done].
  destruct (decide _) as [Ht|]; [|done]. intros [= <-]. exists s. by rewrite Ht.
Qed.

Lemma step_wf r r' : step r r' -> wf r -> wf r'.
Proof.
  intros Hs Hw. destruct Hs as [|on|ty origin r' st evs E|T H c r' E|ty id]; [done|done|..].
  - destruct (register_cases r ty origin) as [(st' & E' & _)|(_ & _ & _ & E')];
      rewrite E' in E; injection E as <- _ _; [done|].
    by apply map_Forall_insert_2.
  - apply emplace_ok in E as (s & _ & _ & ->).
    apply map_Forall_insert_2; [|done]. split; [done|]. cbn. intros v [= <-]. apply inj_type.
  - unfold remove. destruct (negb _); [done|]. destruct (stores_ r !! _) as [s|] eqn:E; [|done].
    apply map_Forall_insert_2; [|done]. split; [|done]. by apply (Hw _ _ E).
Qed.

(** Identifiers, types and origins of stores never change. *)
Lemma step_stores r r' k s :
  step r r' -> r.(stores_) !! k = Some s ->
  exists s', r'.(stores_) !! k = Some s' /\ s'.(s_tag) = s.(s_tag) /\ s'.(s_origin) = s.(s_origin).
Proof.
  intros Hs Hk. destruct Hs as [|on|ty origin r' st evs E|T H c r' E|ty id]; eauto.
  - destruct (register_cases r ty origin) as [(st' & E' & _)|(Hn & _ & _ & E')];
      rewrite E' in E; injection E as <- _ _; [eauto|].
    cbn [stores_]. rewrite lookup_insert_ne by congruence. eauto.
  - apply emplace_ok in E as (s0 & E0 & Ht & ->). cbn [stores_].
    destruct (decide (component_id (ctype_of T) = k)) as [<-|].
    + rewrite lookup_insert_eq. simplify_eq. eexists. split; [done|]. by rewrite Ht.
    + rewrite lookup_insert_ne by done. eauto.
  - unfold remove. destruct (negb _); [eauto|]. destruct (stores_ r !! component_id ty) as [s0|] eqn:E; [|eauto].
    cbn [stores_]. destruct (decide (component_id ty = k)) as [<-|].
    + rewrite lookup_insert_eq. simplify_eq. by eexists.
    + rewrite lookup_insert_ne by done. eauto.
Qed.

(** A step that adds a store is a registration the policy allows. *)
Lemma step_new_store r r' k :
  step r r' -> r.(stores_) !! k = None -> is_Some (r'.(stores_) !! k) ->
  ~ (r.(locked_) = true /\ r.(policy_) = LockAfterInit) /\
  exists s, r'.(stores_) !! k = Some s /\ ~ (s.(s_origin) = User /\ r.(policy_) = BuiltInOnly).
Proof.
  intros Hs Hk Hk'. destruct Hs as [|on|ty origin r' st evs E|T H c r' E|ty id].
  1,2: cbn [lock set_trace_sink stores_] in Hk'; rewrite Hk in Hk'; by destruct Hk'.
  - destruct (register_cases r ty origin) as [(st' & E' & _)|(Hn & H1 & H2 & E')];
      rewrite E' in E; injection E as <- _ _; [rewrite Hk in Hk'; by destruct Hk'|].
    split; [done|]. cbn [stores_] in *. destruct (decide (component_id ty = k)) as [<-|].
    + rewrite lookup_insert_eq. by eexists.
    + rewrite lookup_insert_ne, Hk in Hk' by done. by destruct Hk'.
  - apply emplace_ok in E as (s0 & E0 & Ht & ->). cbn [stores_] in *.
    rewrite lookup_insert_ne, Hk in Hk' by congruence. by destruct Hk'.
  - revert Hk'. unfold remove. destruct (negb _); [rewrite Hk; by intros []|].
    destruct (stores_ r !! component_id ty) eqn:E; [|rewrite Hk; by intros []].
    cbn [stores_]. rewrite lookup_insert_ne, Hk by congruence. by intros [].
Qed.

Lemma step_policy r r' : step r r' -> r'.(policy_) = r.(policy_) /\ (r.(locked_) = true -> r'.(locked_) = true).
Proof.
  intros Hs. destruct Hs as [|on|ty origin r' st evs E|T H c r' E|ty id]; try done.
  - destruct (register_cases r ty origin) as [(st' & E' & _)|(Hn & H1 & H2 & E')];
      rewrite E' in E; by injection E as <- _ _.
  - by apply emplace_ok in E as (s0 & E0 & Ht & ->).
  - unfold remove. destruct (negb _); [done|]. by destruct (stores_ r !! _).
Qed.

Definition reachable (policy : ComponentRegistrationPolicy) : t -> Prop := rtc step (new_registry policy).

Lemma reachable_wf p r : reachable p r -> wf r.
Proof.
  intros H. assert (forall r0, wf r0 -> rtc step r0 r -> wf r) as G.
  { clear H. intros r0 Hw Hr. revert Hw. induction Hr; [done|]. intros. eauto using step_wf. }
  refine (G _ _ H). by intros k s.
Qed.

Lemma step_registered r r' ty : step r r' -> registered r ty -> registered r' ty.
Proof.
  intros Hs (s & E & Ht). destruct (step_stores _ _ _ _ Hs E) as (s' & E' & Ht' & _).
  exists s'. by rewrite Ht'.
Qed.

Lemma registered_id_inj r ty ty' :
  registered r ty -> registered r ty' -> component_id ty = component_id ty' -> ty = ty'.
Proof. intros (s & E & <-) (s' & E' & <-) H. congruence. Qed.

Lemma rtc_policy r r' : rtc step r r' -> r'.(policy_) = r.(policy_) /\ (r.(locked_) = true -> r'.(locked_) = true).
Proof.
  induction 1 as [|r r1 r2 Hs _ [IH1 IH2]]; [done|].
  destruct (step_policy _ _ Hs) as [Hp H2]. split; [congruence|auto].
Qed.

Lemma rtc_stores r r' k s :
  rtc step r r' -> r.(stores_) !! k = Some s ->
  exists s', r'.(stores_) !! k = Some s' /\ s'.(s_tag) = s.(s_tag) /\ s'.(s_origin) = s.(s_origin).
Proof.
  intros H. revert s. induction H as [|r r1 r2 Hs _ IH]; intros s Hk; [eauto|].
  destruct (step_stores _ _ _ _ Hs Hk) as (s1 & E1 & Ht & Ho).
  destruct (IH _ E1) as (s2 & ? & ? & ?). exists s2. by rewrite <- Ht, <- Ho.
Qed.

(** No step adds a store after the lock under [LockAfterInit]. *)
Lemma locked_no_new r r' k :
  rtc step r r' -> r.(policy_) = LockAfterInit -> r.(locked_) = true ->
  r.(stores_) !! k = None -> r'.(stores_) !! k = None.
Proof.
  induction 1 as [|r r1 r2 Hs _ IH]; intros Hp Hl Hk; [done|].
  destruct (step_policy _ _ Hs) as [Hp1 Hl1]. apply IH; [congruence|auto|].
  destruct (r1.(stores_) !! k) eqn:E; [|done].
  destruct (step_new_store _ _ k Hs Hk) as [[] _]; [by rewrite E|auto].
Qed.

Lemma builtin_only_stores r r' :
  rtc step r r' -> r.(policy_) = BuiltInOnly ->
  map_Forall (fun _ s => s.(s_origin) = Built_In) r.(stores_) ->
  map_Forall (fun _ s => s.(s_origin) = Built_In) r'.(stores_).
Proof.
  induction 1 as [|r r1 r2 Hs _ IH]; intros Hp Hb; [done|].
  destruct (step_policy _ _ Hs) as [Hp1 _]. apply IH; [congruence|].
  intros k s Hk. destruct (r.(stores_) !! k) as [s0|] eqn:E.
  - destruct (step_stores _ _ _ _ Hs E) as (s1 & E1 & _ & Ho).
    rewrite Hk in E1. injection E1 as <-. rewrite Ho. by apply (Hb k).
  - destruct (step_new_store _ _ k Hs E) as [_ (s1 & E1 & Hn)]; [by rewrite Hk|].
    rewrite Hk in E1. injection E1 as <-. destruct (s_origin s); [done|]. by destruct Hn.
Qed.

(** ** Reading and writing present components *)

Lemma get_ok_store {T : Type} {HT : Component T} r (v : T) :
  get T r SELF_ENTITY = Ok v ->
  exists s w, r.(stores_) !! component_id (ctype_of T) = Some s /\ s.(s_tag) = ctype_of T /\
    s.(s_value) = Some w /\ prj w = Some v.
Proof.
  unfold get. cbn [negb Z.eqb SELF_ENTITY Pos.eqb].
  destruct (stores_ r !! _) as [s|] eqn:E; [|done]. destruct (decide _) as [Ht|]; [|done].
  destruct (s_value s) as [w|] eqn:Ev; [|done]. destruct (prj w) eqn:Ep; [|done].
  intros [= ->]. by exists s, w.
Qed.

(** Writing a component that is present: it is read back, and the others that
    are present are not affected. *)
Lemma set_ok {T : Type} {HT : Component T} r (v0 c : T) :
  get T r SELF_ENTITY = Ok v0 ->
  exists r', set r SELF_ENTITY c = Ok r' /\ step r r' /\ get T r' SELF_ENTITY = Ok c /\
    forall (U : Type) (HU : Component U) (u : U), ctype_of U <> ctype_of T ->
      get U r SELF_ENTITY = Ok u -> get U r' SELF_ENTITY = Ok u.
Proof.
  intros G. destruct (get_ok_store r v0 G) as (s & w & E & Ht & _).
  unfold set. rewrite G. cbn [obind].
  assert (emplace r SELF_ENTITY c = Ok (mk_reg (<[component_id (ctype_of T) :=
      mk_store (s_tag s) (s_origin s) (Some (inj c))]> (stores_ r)) (policy_ r) (locked_ r) (sink_ r)))
      as Ee.
  { unfold emplace. cbn [negb Z.eqb SELF_ENTITY Pos.eqb]. rewrite E. by rewrite (decide_True _ _ Ht). }
  rewrite Ee. eexists. split; [done|]. split; [exact (step_emplace r T HT c _ Ee)|]. split.
  - unfold get. cbn [negb Z.eqb SELF_ENTITY Pos.eqb stores_]. rewrite lookup_insert_eq.
    cbn [s_tag s_value]. rewrite (decide_True _ _ Ht), prj_inj. done.
  - intros U HU u Hne GU. destruct (@get_ok_store U HU r u GU) as (s' & w' & E' & Ht' & _).
    revert GU. unfold get. cbn [negb Z.eqb SELF_ENTITY Pos.eqb stores_].
    rewrite lookup_insert_ne; [done|]. intros C. rewrite C in E. congruence.
Qed.

(** C23: typed access, over every history of registrations, locks, writes and
    removals and for any compiler's type names (identifiers may collide): for a
    type whose registration succeeded, writing a component never aborts; reading
    it back gives exactly the value written; no other registered type's component
    changes; after a removal [has] is false and [get] aborts; and neither reading
    nor writing reaches a store of another type. *)
Theorem typed_access p r (T U : Type) (HT : Component T) (HU : Component U) (c : T) :
  reachable p r -> registered r (ctype_of T) -> registered r (ctype_of U) ->
  (exists r',
     emplace r SELF_ENTITY c = Ok r' /\ reachable p r' /\
     has r' (ctype_of T) SELF_ENTITY = true /\
     get T r' SELF_ENTITY = Ok c /\
     (ctype_of U <> ctype_of T ->
      get U r' SELF_ENTITY = get U r SELF_ENTITY /\
      has r' (ctype_of U) SELF_ENTITY = has r (ctype_of U) SELF_ENTITY) /\
     has (remove r' (ctype_of T) SELF_ENTITY) (ctype_of T) SELF_ENTITY = false /\
     get T (remove r' (ctype_of T) SELF_ENTITY) SELF_ENTITY
       = Aborted "get<T>: component not emplaced") /\
  (if has r (ctype_of T) SELF_ENTITY then exists c0, get T r SELF_ENTITY = Ok c0
   else get T r SELF_ENTITY = Aborted "get<T>: component not emplaced").
Proof.
  intros Hr HTr HUr. pose proof (reachable_wf _ _ Hr) as Hw.
  destruct HTr as (s & E & Ht). split.
  - assert (emplace r SELF_ENTITY c = Ok (mk_reg (<[component_id (ctype_of T) :=
      mk_store (s_tag s) (s_origin s) (Some (inj c))]> (stores_ r)) (policy_ r) (locked_ r) (sink_ r)))
      as Ee.
    { unfold emplace. cbn [negb Z.eqb SELF_ENTITY Pos.eqb]. by rewrite E, decide_True. }
    eexists. split; [exact Ee|]. split.
    { eapply rtc_r; [exact Hr|]. exact (step_emplace r T HT c _ Ee). }
    clear Ee. unfold remove, get, has. cbn [negb Z.eqb SELF_ENTITY Pos.eqb stores_].
    rewrite lookup_insert_eq. cbn [stores_ s_tag s_value s_origin].
    rewrite lookup_insert_eq. cbn [s_tag s_value]. rewrite !decide_True, prj_inj by done.
    split_and!; try done. intros Hne. rewrite lookup_insert_ne; [done|].
    intros C. apply Hne. symmetry. eapply registered_id_inj; [|exact HUr|exact C]. by exists s.
  - unfold has, get. cbn [negb Z.eqb SELF_ENTITY Pos.eqb]. rewrite E, decide_True by done.
    destruct (s_value s) as [v|] eqn:Ev; [|done].
    destruct (Hw _ _ E) as [_ Hv]. destruct (@prj_type T HT v) as [c0 ->]; [|by eexists].
    rewrite <- Ht. by apply Hv.
Qed.

(** What the statement says of later states of the registry. *)
Lemma registration_persists r r2 ty :
  registered r ty -> rtc step r r2 -> registered r2 ty /\ origin_of r2 ty = origin_of r ty.
Proof.
  intros (s & Es & <-) H2. destruct (rtc_stores _ _ _ _ H2 Es) as (s' & Es' & Ht & Ho).
  split; [by exists s'|]. unfold origin_of. by rewrite Es, Es', Ho.
Qed.

Lemma builtin_only_origin p r : reachable p r ->
  p = BuiltInOnly -> forall ty, registered r ty -> origin_of r ty = Ok Built_In.
Proof.
  intros Hr -> ty (s & Es & _). unfold origin_of. rewrite Es. f_equal.
  refine (builtin_only_stores _ _ Hr eq_refl _ _ _ Es). by intros k s0.
Qed.

Lemma lock_freezes p r : reachable p r ->
  p = LockAfterInit -> r.(locked_) = true -> forall ty r2, rtc step r r2 -> is_registered r2 ty = is_registered r ty.
Proof.
  intros Hr -> Hl ty r2 H2. pose proof (proj1 (rtc_policy _ _ Hr)) as Hp. cbn in Hp.
  unfold is_registered. apply bool_decide_ext. destruct (stores_ r !! component_id ty) as [s|] eqn:Es.
  - destruct (rtc_stores _ _ _ _ H2 Es) as (s' & -> & _). split; by eexists.
  - by rewrite (locked_no_new _ _ _ H2 Hp Hl Es).
Qed.

(** C24: the registration policy over every history from a fresh registry.
    A registration succeeds exactly when the policy allows it now and the
    identifier is free; a refused one changes nothing, traces nothing, and its
    status says why; a successful one adds one empty store of that type and origin
    and traces one event if a sink is attached.  Registrations are permanent.
    Under [BuiltInOnly] no user component is ever registered; under
    [LockAfterInit] no type is registered after [lock]. *)
Theorem registration_policy p r ty origin r' st evs :
  reachable p r -> register_impl r ty origin = (r', st, evs) ->
  (st = RegOk <->
   ~ (r.(locked_) = true /\ p = LockAfterInit) /\ ~ (origin = User /\ p = BuiltInOnly) /\
   is_registered r ty = false) /\
  (st <> RegOk -> r' = r /\ evs = []) /\
  (st = PolicyLocked -> r.(locked_) = true /\ p = LockAfterInit) /\
  (st = PolicyForbidsUser -> origin = User /\ p = BuiltInOnly) /\
  (st = AlreadyRegistered -> registered r ty) /\
  (st = TypeIdCollision -> exists ty', ty' <> ty /\ registered r ty' /\ component_id ty' = component_id ty) /\
  (st = RegOk ->
   registered r' ty /\ origin_of r' ty = Ok origin /\ has r' ty SELF_ENTITY = false /\
   registered_count r' = S (registered_count r) /\
   length evs = if r.(sink_) then 1%nat else 0%nat) /\
  (forall ty' r2, registered r ty' -> rtc step r' r2 ->
     registered r2 ty' /\ origin_of r2 ty' = origin_of r ty') /\
  (p = BuiltInOnly -> forall ty', registered r ty' -> origin_of r ty' = Ok Built_In) /\
  (p = LockAfterInit -> r.(locked_) = true -> forall ty' r2, rtc step r r2 ->
     is_registered r2 ty' = is_registered r ty').
Proof.
  intros Hr E. pose proof (reachable_wf _ _ Hr) as Hw.
  pose proof (proj1 (rtc_policy _ _ Hr)) as Hp. cbn in Hp.
  assert (step r r') as Hs by (eapply step_register; exact E).
  pose proof E as E0. unfold register_impl in E0. rewrite Hp in E0.
  assert (forall ty' r2, registered r ty' -> rtc step r' r2 ->
     registered r2 ty' /\ origin_of r2 ty' = origin_of r ty') as Hkeep'
    by (intros; apply registration_persists; [done|by eapply rtc_l]).
  pose proof (builtin_only_origin p r Hr) as Hbi. pose proof (lock_freezes p r Hr) as Hlk.
  destruct (r.(locked_) && bool_decide (p = LockAfterInit)) eqn:E1.
  { injection E0 as <- <- <-. apply andb_true_iff in E1 as [E1 E2%bool_decide_eq_true].
    split_and!; try done. split; [done|]. intros (H & _). by destruct H. }
  assert (~ (r.(locked_) = true /\ p = LockAfterInit)) as N1.
  { intros [H1 H2]. by rewrite H1, bool_decide_eq_true_2 in E1. }
  destruct (bool_decide (origin = User) && bool_decide (p = BuiltInOnly)) eqn:E2.
  { injection E0 as <- <- <-. apply andb_true_iff in E2 as [H1%bool_decide_eq_true H2%bool_decide_eq_true].
    split_and!; try done. split; [done|]. intros (_ & C2 & _). by destruct C2. }
  assert (~ (origin = User /\ p = BuiltInOnly)) as N2.
  { intros [H1 H2]. by rewrite !bool_decide_eq_true_2 in E2. }
  destruct (stores_ r !! component_id ty) as [s|] eqn:Es.
  { assert (is_registered r ty = true) as Hreg by (apply bool_decide_eq_true; by rewrite Es).
    destruct (decide (s_tag s = ty)) as [Ht|Ht]; injection E0 as <- <- <-; rewrite Hreg;
      split_and!; try done; try (split; [done|]; by intros (_ & _ & ?)).
    - intros _. by exists s.
    - intros _. exists (s_tag s). split; [done|]. destruct (Hw _ _ Es) as [Hid _].
      split; [|done]. exists s. by rewrite Hid. }
  injection E0 as <- <- <-. split_and!; try done.
  - split; [|done]. intros _. split_and!; try done. apply bool_decide_eq_false. intros [? ?]; congruence.
  - intros _. unfold registered, origin_of, has, registered_count. cbn [stores_ negb Z.eqb SELF_ENTITY Pos.eqb].
    rewrite lookup_insert_eq, map_size_insert_None by done. split_and!; try done; [by eexists|].
    unfold emit_registered_event_. by destruct (sink_ r).
Qed.

(** A guarded read never fails and defaults to [dflt]. *)
Lemma get_or_ok {T : Type} {HT : Component T} r (dflt : T) :
  wf r -> (registered r (ctype_of T) \/ is_registered r (ctype_of T) = false) ->
  exists v, get_or r SELF_ENTITY dflt = Ok v /\
    (forall v', get T r SELF_ENTITY = Ok v' -> v = v') /\
    (has r (ctype_of T) SELF_ENTITY = false -> v = dflt).
Proof.
  intros Hw Ht. unfold get_or, has, get. cbn [negb Z.eqb SELF_ENTITY Pos.eqb].
  destruct (stores_ r !! component_id (ctype_of T)) as [s|] eqn:E; [|by eexists].
  destruct Ht as [(s' & E' & Ht)|Ht].
  2:{ exfalso. apply bool_decide_eq_false in Ht. apply Ht. by rewrite E. }
  rewrite E in E'. injection E' as <-. rewrite decide_True by done.
  destruct (s_value s) as [v|] eqn:Ev; [|by eexists].
  destruct (Hw _ _ E) as [_ Hv]. destruct (prj_type v) as [c0 ->]; [rewrite <- Ht; by apply Hv|].
  eexists. split; [done|]. split; [by intros v' [= ->]|done].
Qed.

(** A snapshot of the entity never aborts and copies each registered
    component that is present, the defaults standing for the others; it aborts for
    any other entity. *)
Theorem snapshot_total p r id :
  reachable p r ->
  (forall ty, registered r ty \/ is_registered r ty = false) ->
  if id =? SELF_ENTITY then
    exists s, snapshot r id = Ok s /\ s.(snap_id) = id /\
      (forall v, get PositionComponent r id = Ok v -> s.(snap_position) = v) /\
      (forall v, get VelocityComponent r id = Ok v -> s.(snap_velocity) = v) /\
      (forall v, get OrientationComponent r id = Ok v -> s.(snap_orientation) = v) /\
      (forall v, get HealthComponent r id = Ok v -> s.(snap_health) = v) /\
      (forall v, get RoleComponent r id = Ok v -> s.(snap_role) = v) /\
      (forall v, get BehaviourStateComponent r id = Ok v -> s.(snap_state) = v) /\
      (forall v, get IdentityComponent r id = Ok v -> s.(snap_hid) = v.(ic_id)) /\
      (has r TPosition id = false -> s.(snap_position) = default_pos) /\
      (has r TIdentity id = false -> s.(snap_hid) = Id.nil_hid)
  else snapshot r id = Aborted "snapshot: id != SELF_ENTITY (v0.1 N=1)".
Proof.
  intros Hr Ht. pose proof (reachable_wf _ _ Hr) as Hw. unfold snapshot.
  destruct (Z.eqb_spec id SELF_ENTITY) as [->|]; [|done]. cbn [negb].
  destruct (get_or_ok r default_identity Hw (Ht _)) as (i & -> & Gi & Di).
  destruct (get_or_ok r default_pos Hw (Ht _)) as (q & -> & Gq & Dq).
  destruct (get_or_ok r default_vel Hw (Ht _)) as (v & -> & Gv & _).
  destruct (get_or_ok r default_orient Hw (Ht _)) as (o & -> & Go & _).
  destruct (get_or_ok r default_health Hw (Ht _)) as (h & -> & Gh & _).
  destruct (get_or_ok r default_role Hw (Ht _)) as (ro & -> & Gro & _).
  destruct (get_or_ok r default_state Hw (Ht _)) as (st & -> & Gst & _).
  cbn [obind]. eexists. split; [done|]. cbn [snap_id snap_hid snap_position snap_velocity
    snap_orientation snap_health snap_role snap_state].
  split_and!; try done; try (intros w Hg; rewrite ?Gi, ?Gq, ?Gv by exact Hg; eauto; fail).
  - intros w Hg. by rewrite (Gi _ Hg).
  - intros Hh. by rewrite (Di Hh).
Qed.

(** *** The visitor of a view *)

(** A list of component types [Ts...] as the tuple of their values: which types they
    are, and the references [for_each] passes on. *)
Class Archetype (A : Type) := {
  arch_types : list ctype;
  arch_get : t -> outcome A;
  arch_present : forall r, wf r -> Forall (registered r) arch_types -> has_all r arch_types = true ->
    exists a, arch_get r = Ok a;
}.

Lemma get_present T (HT : Component T) r :
  wf r -> registered r (ctype_of T) -> has r (ctype_of T) SELF_ENTITY = true -> exists c, get T r SELF_ENTITY = Ok c.
Proof.
  intros Hw (s & E & Ht). unfold has, get. cbn [negb Z.eqb SELF_ENTITY Pos.eqb]. rewrite E, decide_True by done.
  destruct (s_value s) as [v|] eqn:Ev; [|done]. intros _. destruct (Hw _ _ E) as [_ Hv].
  destruct (prj_type v) as [c0 ->]; [rewrite <- Ht; by apply Hv|]. by eexists.
Qed.

#[export] Instance archetype_one T `{HT : !Component T} : Archetype T.
Proof.
  refine {| arch_types := [ctype_of T]; arch_get r := get T r SELF_ENTITY |}.
  intros r Hw Hr Ha. apply Forall_cons in Hr as [Hr _]. cbn in Ha. rewrite andb_true_r in Ha. by apply get_present.
Defined.
#[export] Instance archetype_more T A `{HT : !Component T, HA : !Archetype A} : Archetype (T * A).
Proof.
  refine {| arch_types := ctype_of T :: arch_types (A := A);
            arch_get r := let! c := get T r SELF_ENTITY in let! a := arch_get r in Ok (c, a) |}.
  intros r Hw Hr Ha. apply Forall_cons in Hr as [Hr Hrs]. cbn [has_all forallb] in Ha. apply andb_true_iff in Ha as [H1 H2].
  destruct (get_present T HT r Hw Hr H1) as [c ->], (arch_present r Hw Hrs H2) as [a ->]. by eexists.
Defined.

(** [fn] takes the entity and the components; what it does to the state of its caller
    is [S]. *)
(* @src include/mith/core/registry.h:331-336 ArchetypeView::for_each *)
Definition for_each {A S : Type} `{!Archetype A} (r : t) (fn : Z -> A -> S -> outcome S) (s : S) : outcome S :=
  if negb (has_all r (arch_types (A := A))) then Ok s
  else let! a := arch_get r in fn SELF_ENTITY a s.

(** A view of registered types: the visitor is called [size] times, that is, once
    with the components when all are present and not at all otherwise; reading them
    does not abort. *)
Theorem for_each_visits {A S : Type} `{!Archetype A} p r (fn : Z -> A -> S -> outcome S) (s : S) :
  reachable p r -> Forall (registered r) (arch_types (A := A)) ->
  match view_size r (arch_types (A := A)) with
  | O => for_each r fn s = Ok s
  | _ => exists a, arch_get r = Ok a /\ for_each r fn s = fn SELF_ENTITY a s
  end.
Proof.
  intros Hr Ht. unfold view_size, for_each. destruct (has_all r arch_types) eqn:Ha; [|done].
  destruct (arch_present r (reachable_wf _ _ Hr) Ht Ha) as [a Ea]. exists a. by rewrite Ea.
Qed.
End Registry.

#[global] Arguments get : simpl never.
#[global] Arguments set : simpl never.
#[global] Arguments emplace : simpl never.
#[global] Arguments register_impl : simpl never.

(** ** GCC's names *)

Definition gcc_name (ty : ctype) : list Z :=
  match ty with
  | TIdentity => codes "mith::IdentityComponent"
  | TPosition => codes "mith::PositionComponent"
  | TVelocity => codes "mith::VelocityComponent"
  | TOrientation => codes "mith::OrientationComponent"
  | THealth => codes "mith::HealthComponent"
  | TRole => codes "mith::RoleComponent"
  | TBehaviourState => codes "mith::BehaviourStateComponent"
  | TPermissionMask => codes "mith::PermissionMaskComponent"
  | TActionQueue => codes "mith::ActionQueueComponent"
  | TCommBuffer => codes "mith::CommBufferComponent"
  | TUser O => codes "app::Battery"
  | TUser _ => codes "{anonymous}::Payload"
  end.

(** [__PRETTY_FUNCTION__] as GCC prints it; two types of the same name (in two
    anonymous namespaces) have the same text. *)
Definition gcc : Toolchain := fun ty =>
  codes "constexpr std::string_view mith::detail::pretty_function() [with T = " ++ gcc_name ty ++
  codes "; std::string_view = std::basic_string_view<char>]".

Definition builtin_types : list ctype :=
  [TIdentity; TPosition; TVelocity; TOrientation; THealth; TRole; TBehaviourState;
   TPermissionMask; TActionQueue; TCommBuffer].

Lemma gcc_type_name ty : @type_name gcc ty = gcc_name ty.
Proof. destruct ty as [| | | | | | | | | |[|n]]; vm_compute; reflexivity. Qed.

(** The identifiers of the built-in components differ. *)
Lemma gcc_builtin_ids : NoDup (@component_id gcc <$> builtin_types).
Proof. apply (bool_decide_unpack _). vm_compute. exact I. Qed.

Definition prj_user (n : nat) (v : value) : option (UserComponent n) :=
  match v with VUser m d => if decide (m = n) then Some (mk_user d) else None | _ => None end.
#[global] Instance user_component n : Component (UserComponent n).
Proof.
  refine {| ctype_of := TUser n; inj v := VUser n (user_data v); prj := prj_user n |}; unfold prj_user.
  - intros []. case_decide; done.
  - done.
  - intros []; try done. intros [= ->]. case_decide; [by eexists|done].
Defined.

(** A registry with two built-in types and one of the application's. *)
Definition sample_registry : t :=
  let r := new_registry LockAfterInit in
  let r := (@register_builtin_component gcc r PositionComponent _).1.1 in
  let r := (@register_builtin_component gcc r HealthComponent _).1.1 in
  (@register_component gcc r (UserComponent 1) _).1.1.

Lemma sample_reachable : @reachable gcc LockAfterInit sample_registry.
Proof.
  unfold sample_registry, register_builtin_component, register_component.
  repeat (eapply rtc_r; [|eapply step_register; apply surjective_pairing_3]). apply rtc_refl.
Qed.

Lemma typed_access_witness :
  @reachable gcc LockAfterInit sample_registry /\
  (exists r', @emplace gcc PositionComponent _ sample_registry SELF_ENTITY (mk_pos 1 2 3) = Ok r' /\
     @get gcc PositionComponent _ r' SELF_ENTITY = Ok (mk_pos 1 2 3)).
Proof.
  split; [exact sample_reachable|].
  destruct (@typed_access gcc LockAfterInit sample_registry PositionComponent HealthComponent _ _
    (mk_pos 1 2 3) sample_reachable) as [(r' & E & _ & _ & G & _) _].
  - eexists. vm_compute. split; reflexivity.
  - eexists. vm_compute. split; reflexivity.
  - exists r'. split; assumption.
Defined.

(** Another application type of the same name is refused. *)
Lemma registration_policy_witness :
  (@register_impl gcc sample_registry (TUser 2) User).1.2 = TypeIdCollision /\
  exists ty', ty' <> TUser 2 /\ @registered gcc sample_registry ty'.
Proof.
  split; [vm_compute; reflexivity|].
  destruct (@registration_policy gcc LockAfterInit sample_registry (TUser 2) User
    (@register_impl gcc sample_registry (TUser 2) User).1.1 TypeIdCollision [] sample_reachable)
    as (_ & _ & _ & _ & _ & H & _); [vm_compute; reflexivity|].
  destruct (H eq_refl) as (ty' & ? & ? & _). exists ty'. split; assumption.
Defined.

Lemma snapshot_total_witness :
  exists s, @snapshot gcc (new_registry Open) SELF_ENTITY = Ok s /\ s.(snap_position) = default_pos.
Proof.
  destruct (@snapshot_total gcc Open (new_registry Open) SELF_ENTITY) as (s & E & _ & H).
  - apply rtc_refl.
  - intros ty. right. reflexivity.
  - exists s. split; [exact E|]. apply H. reflexivity.
Defined.

End Reg.
