(* ===== verification/ChaCha20.v ===== *)
(** The random generator of signed mode ([include/mith/identity/chacha20.h],
    [src/identity/chacha20.cpp]): the ChaCha20 block function and the stream it is
    drawn from.  The seed, which [std::random_device] supplies, is an argument. *)

From S2P Require Import Prelude MachineInt.
Local Open Scope Z_scope.

Module Chacha.

(* @src src/identity/chacha20.cpp:12-14 CHACHA_CONST *)
Definition CHACHA_CONST : list Z := [1634760805; 857760878; 2036477234; 1797285236].

(* @src src/identity/chacha20.cpp:16-18 rotl32 *)
Definition rotl32 (x : Z) (n : Z) : Z := Z.lor (MI.u32 (Z.shiftl x n)) (Z.shiftr x (32 - n)).

(* @src src/identity/chacha20.cpp:20-25 load_le32 *)
Definition load_le32 (l : list Z) (p : nat) : Z :=
  Z.lor (Z.lor (Z.lor (MI.at_ l p) (Z.shiftl (MI.at_ l (p + 1)) 8)) (Z.shiftl (MI.at_ l (p + 2)) 16))
    (Z.shiftl (MI.at_ l (p + 3)) 24).

(* @src src/identity/chacha20.cpp:27-32 store_le32 *)
Definition store_le32 (v : Z) : list Z :=
  [MI.u8 v; MI.u8 (Z.shiftr v 8); MI.u8 (Z.shiftr v 16); MI.u8 (Z.shiftr v 24)].

(* @src src/identity/chacha20.cpp:34-41 quarter_round *)
Definition quarter_round (a b c d : Z) : Z * Z * Z * Z :=
  let a := MI.u32 (a + b) in let d := Z.lxor d a in let d := rotl32 d 16 in
  let c := MI.u32 (c + d) in let b := Z.lxor b c in let b := rotl32 b 12 in
  let a := MI.u32 (a + b) in let d := Z.lxor d a in let d := rotl32 d 8 in
  let c := MI.u32 (c + d) in let b := Z.lxor b c in let b := rotl32 b 7 in
  (a, b, c, d).

(** [quarter_round(w[i], w[j], w[k], w[l])]: the arguments are references. *)
Definition quarter_round_at (i j k l : nat) (w : list Z) : list Z :=
  let '(a, b, c, d) := quarter_round (MI.at_ w i) (MI.at_ w j) (MI.at_ w k) (MI.at_ w l) in
  <[l := d]> (<[k := c]> (<[j := b]> (<[i := a]> w))).

(* @src src/identity/chacha20.cpp:62-73 chacha20_block (round pair) *)
Definition double_round (w : list Z) : list Z :=
  let w := quarter_round_at 0 4 8 12 w in
  let w := quarter_round_at 1 5 9 13 w in
  let w := quarter_round_at 2 6 10 14 w in
  let w := quarter_round_at 3 7 11 15 w in
  let w := quarter_round_at 0 5 10 15 w in
  let w := quarter_round_at 1 6 11 12 w in
  let w := quarter_round_at 2 7 8 13 w in
  quarter_round_at 3 4 9 14 w.

(* @src src/identity/chacha20.cpp:49-56 chacha20_block (initial state) *)
Definition initial_state (key : list Z) (counter : Z) (nonce : list Z) : list Z :=
  CHACHA_CONST ++ ((fun i => load_le32 key (i * 4)) <$> seq 0 8) ++
  [counter; load_le32 nonce 0; load_le32 nonce 4; load_le32 nonce 8].

(* @src src/identity/chacha20.cpp:45-79 chacha20_block *)
Definition chacha20_block (key : list Z) (counter : Z) (nonce : list Z) : list Z :=
  let s := initial_state key counter nonce in
  let w := Nat.iter 10 double_round s in
  concat ((fun i => store_le32 (MI.u32 (MI.at_ w i + MI.at_ s i))) <$> seq 0 16).

(* @src include/mith/identity/chacha20.h:61-65 ChaCha20Csprng *)
Record ChaCha20Csprng := mk_csprng {
  key_ : list Z;
  nonce_ : list Z;
  counter_ : Z;
  block_ : list Z;
  block_offset_ : nat;
}.

(* @src src/identity/chacha20.cpp:90-101 ChaCha20Csprng::init_ *)
Definition seeded (key nonce : list Z) : ChaCha20Csprng := mk_csprng key nonce 0 (replicate 64 0) 64.

(** [rd(i)] is the [i]-th word the entropy device returns. *)
(* @src src/identity/chacha20.cpp:81-88 ChaCha20Csprng::ChaCha20Csprng *)
Definition from_device (rd : nat -> Z) : ChaCha20Csprng :=
  seeded ((fun i => MI.u8 (Z.land (rd i) 255)) <$> seq 0 32) ((fun i => MI.u8 (Z.land (rd i) 255)) <$> seq 32 12).

(* @src src/identity/chacha20.cpp:105-109 ChaCha20Csprng::fill *)
Definition refill (g : ChaCha20Csprng) : ChaCha20Csprng :=
  if (64 <=? g.(block_offset_))%nat then
    mk_csprng g.(key_) g.(nonce_) (MI.u32 (g.(counter_) + 1)) (chacha20_block g.(key_) g.(counter_) g.(nonce_)) 0
  else g.

(** Each iteration produces a byte at least, so that [n] of them are enough. *)
(* @src src/identity/chacha20.cpp:103-116 ChaCha20Csprng::fill *)
Fixpoint fill_loop (fuel n : nat) (g : ChaCha20Csprng) : ChaCha20Csprng * list Z :=
  match fuel with
  | O => (g, [])
  | S fuel =>
      if (n =? 0)%nat then (g, [])
      else
        let g := refill g in
        let k := Nat.min n (64 - g.(block_offset_)) in
        let chunk := slice g.(block_offset_) k g.(block_) in
        let '(g, rest) := fill_loop fuel (n - k) (mk_csprng g.(key_) g.(nonce_) g.(counter_) g.(block_) (g.(block_offset_) + k)) in
        (g, chunk ++ rest)
  end.
Definition fill (n : nat) (g : ChaCha20Csprng) : ChaCha20Csprng * list Z := fill_loop n n g.

(** Successive calls of [fill]. *)
Fixpoint draws (ns : list nat) (g : ChaCha20Csprng) : ChaCha20Csprng * list (list Z) :=
  match ns with
  | [] => (g, [])
  | n :: ns =>
      let '(g, l) := fill n g in
      let '(g, ls) := draws ns g in
      (g, l :: ls)
  end.

(** ** The stream, byte by byte *)

Definition keystream (key nonce : list Z) (i : nat) : Z :=
  MI.at_ (chacha20_block key (MI.u32 (Z.of_nat (i / 64))) nonce) (i mod 64).

Lemma length_chacha20_block key counter nonce : length (chacha20_block key counter nonce) = 64%nat.
Proof.
  assert (forall (f : nat -> list Z) l, (forall i, length (f i) = 4%nat) -> length (concat (f <$> l)) = (4 * length l)%nat) as Hc.
  { intros f l Hf. induction l as [|i l IH]; [done|]. cbn [fmap list_fmap concat length]. rewrite length_app, Hf, IH. lia. }
  apply (Hc _ (seq 0 16)). intros i. reflexivity.
Qed.

#[local] Opaque chacha20_block.

(** The generator has produced [p] bytes, from the first [b] blocks. *)
Definition at_position (key nonce : list Z) (p b : nat) (g : ChaCha20Csprng) : Prop :=
  g.(key_) = key /\ g.(nonce_) = nonce /\ g.(counter_) = MI.u32 (Z.of_nat b) /\
  (g.(block_offset_) <= 64)%nat /\ (p + 64 = 64 * b + g.(block_offset_))%nat /\
  ((g.(block_offset_) < 64)%nat -> g.(block_) = chacha20_block key (MI.u32 (Z.of_nat (b - 1))) nonce).

Lemma refill_at key nonce p b g :
  at_position key nonce p b g ->
  exists b', at_position key nonce p b' (refill g) /\ ((refill g).(block_offset_) < 64)%nat.
Proof.
  intros (Hk & Hn & Hc & Ho & Hp & Hb). unfold refill. destruct (Nat.leb_spec 64 (block_offset_ g)) as [H|H].
  - exists (S b). split; [|cbn; lia]. split_and!; cbn; try done; try lia.
    + rewrite Hc. unfold MI.u32. rewrite Zplus_mod_idemp_l. f_equal. lia.
    + intros _. rewrite Hk, Hn, Hc. by rewrite Nat.sub_0_r.
  - exists b. by split_and!.
Qed.

Lemma slice_map (l : list Z) (f : nat -> Z) o k p :
  (o + k <= length l)%nat -> (forall i, (i < k)%nat -> MI.at_ l (o + i) = f (p + i)%nat) ->
  slice o k l = f <$> seq p k.
Proof.
  intros Hl Hf. apply list_eq_same_length with k; [by rewrite length_fmap, length_seq|by rewrite length_slice|].
  intros i a b Hi Ha Hb. unfold slice in Ha. rewrite lookup_take_lt, lookup_drop in Ha by done.
  rewrite list_lookup_fmap, lookup_seq_lt in Hb by done. injection Hb as <-. rewrite <- Hf by done.
  unfold MI.at_. symmetry. by apply nth_lookup_Some.
Qed.

Lemma fill_loop_at key nonce : forall fuel n p b g,
  (n <= fuel)%nat -> at_position key nonce p b g ->
  let '(g', l) := fill_loop fuel n g in
  l = keystream key nonce <$> seq p n /\ exists b', at_position key nonce (p + n) b' g'.
Proof.
  induction fuel as [|fuel IH]; intros n p b g Hn Hg.
  { replace n with 0%nat by lia. cbn. split; [done|]. rewrite Nat.add_0_r. eauto. }
  cbn [fill_loop]. destruct (Nat.eqb_spec n 0) as [->|Hn0].
  { cbn. split; [done|]. rewrite Nat.add_0_r. eauto. }
  destruct (refill_at key nonce p b g Hg) as (b1 & (Hk & Hnn & Hc & Ho & Hp & Hb) & Hlt). specialize (Hb Hlt).
  set (g1 := refill g) in *. set (k := Nat.min n (64 - block_offset_ g1)).
  specialize (IH (n - k)%nat (p + k)%nat b1
    (mk_csprng g1.(key_) g1.(nonce_) g1.(counter_) g1.(block_) (g1.(block_offset_) + k))).
  destruct (fill_loop _ _ _) as [g2 rest]. destruct IH as [-> (b2 & H2)]; [lia|by split_and!; cbn; try lia|].
  split.
  - replace n with (k + (n - k))%nat at 2 by lia. rewrite seq_app, fmap_app. f_equal. apply slice_map.
    + rewrite Hb, length_chacha20_block. lia.
    + intros i Hi. unfold keystream. rewrite Hb.
      assert (p + i = 64 * (b1 - 1) + (block_offset_ g1 + i))%nat as -> by lia.
      rewrite (Nat.mul_comm 64), Nat.div_add_l, Nat.div_small, Nat.add_0_r by lia.
      rewrite (Nat.add_comm (_ * 64)), Nat.Div0.mod_add, Nat.mod_small by lia. done.
  - exists b2. by replace (p + n)%nat with (p + k + (n - k))%nat by lia.
Qed.

Lemma draws_at key nonce : forall ns p b g,
  at_position key nonce p b g ->
  let '(g', ls) := draws ns g in
  concat ls = keystream key nonce <$> seq p (sum_list ns) /\ length <$> ls = ns.
Proof.
  induction ns as [|n ns IH]; intros p b g Hg; [done|]. cbn [draws]. unfold fill.
  pose proof (fill_loop_at key nonce n n p b g (le_n n) Hg) as F. destruct (fill_loop n n g) as [g1 l].
  destruct F as [-> (b1 & H1)]. specialize (IH _ _ _ H1). destruct (draws ns g1) as [g2 ls]. destruct IH as [E1 E2].
  cbn [concat fmap list_fmap sum_list]. rewrite E1, E2, seq_app, fmap_app. split; [done|].
  by rewrite length_fmap, length_seq.
Qed.

(** C40: The generator hands out the ChaCha20 key stream, each byte once.  However
    the random bytes are drawn (single calls of any size, across block boundaries,
    past the end of the 32-bit block counter), the concatenation of what the calls
    return is the key stream from its first byte on: byte [i] is byte [i mod 64] of
    the block with counter [i / 64 mod 2^32]; each call returns as many bytes as it
    was asked for. *)
Theorem draws_are_keystream (key nonce : list Z) (ns : list nat) :
  let '(_, ls) := draws ns (seeded key nonce) in
  concat ls = keystream key nonce <$> seq 0 (sum_list ns) /\ length <$> ls = ns.
Proof.
  apply (draws_at key nonce ns 0 0). split_and!; cbn; try done; try lia.
Qed.

#[local] Transparent chacha20_block.

(** The test vector of RFC 8439, section 2.3.2. *)
Example block_rfc8439 :
  chacha20_block (Z.of_nat <$> seq 0 32) 1 [0; 0; 0; 9; 0; 0; 0; 74; 0; 0; 0; 0] =
  [16; 241; 231; 228; 209; 59; 89; 21; 80; 15; 221; 31; 163; 32; 113; 196;
   199; 209; 244; 199; 51; 192; 104; 3; 4; 34; 170; 154; 195; 212; 108; 78;
   210; 130; 100; 70; 7; 159; 170; 9; 20; 194; 215; 5; 217; 139; 2; 162;
   181; 18; 156; 209; 222; 22; 78; 185; 203; 208; 131; 232; 162; 80; 60; 78].
Proof. vm_compute. reflexivity. Qed.
End Chacha.
