(* ===== verification/PeerKeys.v ===== *)
(** Keys and signatures of peers ([include/mith/identity/identity_auth.h],
    [include/mith/identity/ed25519.h], [src/identity/ed25519.cpp],
    [include/mith/comms/peer_key_registry.h], [src/comms/peer_key_registry.cpp],
    [include/mith/identity/identity_rotation.h],
    [src/identity/identity_rotation.cpp]).

    The TweetNaCl functions are the operations of the class [Crypto]; what the
    runtime relies on is the class [CryptoLaws].  The trust-on-first-use registry
    and the verifier's table are both refined to "the first key claimed for an
    identifier". *)

From S2P Require Import Prelude MachineInt Float32 Identity BoundedQueue Components.
Local Open Scope Z_scope.

Module Auth.
Import Comp.

(** ** The signature primitives *)

(** Key generation draws from the thread's generator: [crypto_keypair n] is the
    public and the private key of the [n]-th call.  [crypto_sign] returns the
    signed message, [crypto_sign_open] whether the return code is zero. *)
Class Crypto := {
  crypto_keypair : nat -> list Z * list Z;
  crypto_sign : list Z -> list Z -> list Z;
  crypto_sign_open : list Z -> list Z -> bool;
}.

(** NaCl's documented contract: sizes, the layout signature-then-message, and that
    what a private key signs opens under its public key. *)
Class CryptoLaws `(Crypto) : Prop := {
  keypair_public : forall n, length (crypto_keypair n).1 = PUBLIC_KEY_LEN /\
    MI.is_bytes (crypto_keypair n).1;
  sign_layout : forall m sk, exists sig, length sig = SIGNATURE_LEN /\ MI.is_bytes sig /\
    crypto_sign m sk = sig ++ m;
  sign_opens : forall n m,
    crypto_sign_open (crypto_sign m (crypto_keypair n).2) (crypto_keypair n).1 = true;
}.

(* @src include/mith/identity/ed25519.h:35-45 IdentityKeyPair *)
Record IdentityKeyPair := mk_pair { pair_public : IdentityKey; pair_private : list Z }.

(** Entries of [PeerEntry]; the verifier is the vector of them. *)
(* @src include/mith/identity/ed25519.h:88-92 Ed25519IdentityVerifier *)
Record PeerEntry := mk_peer { peer_hid : Id.HierarchicalID; peer_key : IdentityKey }.

(* @src include/mith/identity/identity_rotation.h:62-69 IdentityCertificate *)
Record IdentityCertificate := mk_cert {
  prev_id : Id.HierarchicalID;
  new_id : Id.HierarchicalID;
  new_key : IdentityKey;
  signature_by_prev : list Z;
  issued_at_s : Z;
}.

Definition IDENTITY_CERT_PAYLOAD_LEN : nat := 68.

(** ** The registry of pinned keys *)

(** [std::map] keyed by identifiers: its order is total (Identity), so it is a
    finite map. *)
(* @src include/mith/comms/peer_key_registry.h:30-52 PeerKeyRegistry *)
Definition PeerKeyRegistry : Type := gmap Id.HierarchicalID IdentityKey.

(* @src src/comms/peer_key_registry.cpp:7-17 PeerKeyRegistry::try_pin *)
Definition try_pin (keys_ : PeerKeyRegistry) (hid : Id.HierarchicalID) (key : IdentityKey)
    : PeerKeyRegistry * bool :=
  match keys_ !! hid with
  | None => (<[hid := key]> keys_, true)
  | Some pinned => (keys_, bool_decide (pinned.(public_key) = key.(public_key)))
  end.

(* @src src/comms/peer_key_registry.cpp:19-22 PeerKeyRegistry::find *)
Definition find (keys_ : PeerKeyRegistry) (hid : Id.HierarchicalID) : option IdentityKey := keys_ !! hid.
(* @src src/comms/peer_key_registry.cpp:24-26 PeerKeyRegistry::size *)
Definition size (keys_ : PeerKeyRegistry) : nat := base.size keys_.
(* @src src/comms/peer_key_registry.cpp:28-30 PeerKeyRegistry::clear *)
Definition clear (keys_ : PeerKeyRegistry) : PeerKeyRegistry := ∅.

(** ** Signatures *)

Section Signatures.
Context `{Crypto}.

(* @src src/identity/ed25519.cpp:23-28 generate_identity_keypair *)
Definition generate_identity_keypair (draws : nat) : IdentityKeyPair :=
  let '(pk, sk) := crypto_keypair draws in mk_pair (mk_key pk) sk.

(** The first 64 bytes of the signed message. *)
(* @src src/identity/ed25519.cpp:30-45 sign_payload *)
Definition sign_payload (sk payload : list Z) : list Z :=
  let sm := crypto_sign payload sk in
  take SIGNATURE_LEN sm.

(** [None] is the null pointer. *)
(* @src src/identity/ed25519.cpp:47-80 verify_signature *)
Definition verify_signature (pk : IdentityKey) (payload : option (list Z)) (payload_size : nat)
    (signature : option (list Z)) (signature_size : nat) : bool :=
  if negb (signature_size =? SIGNATURE_LEN)%nat then false
  else if (0 <? payload_size)%nat && bool_decide (payload = None) then false
  else
    match signature with
    | None => false
    | Some sg =>
        let sm := replicate (SIGNATURE_LEN + payload_size) 0 in
        let sm := write_at sm 0 (take SIGNATURE_LEN sg) in
        let sm := if (0 <? payload_size)%nat
                  then write_at sm SIGNATURE_LEN (take payload_size (default [] payload)) else sm in
        crypto_sign_open sm pk.(public_key)
    end.

(** The calls with whole buffers. *)
Definition verify_bytes (pk : IdentityKey) (payload sg : list Z) : bool :=
  verify_signature pk (Some payload) (length payload) (Some sg) (length sg).

(* @src src/identity/ed25519.cpp:86-95 Ed25519IdentityVerifier::verify *)
Fixpoint verify (peers_ : list PeerEntry) (claimed : Id.HierarchicalID) (payload : option (list Z))
    (payload_size : nat) (signature : option (list Z)) (signature_size : nat) : bool :=
  match peers_ with
  | [] => false
  | p :: peers_ =>
      if Id.hid_eqb p.(peer_hid) claimed
      then verify_signature p.(peer_key) payload payload_size signature signature_size
      else verify peers_ claimed payload payload_size signature signature_size
  end.

(* @src include/mith/identity/identity_auth.h:57-64 NoopIdentityVerifier::verify *)
Definition noop_verify (claimed : Id.HierarchicalID) (payload : option (list Z)) (payload_size : nat)
    (signature : option (list Z)) (signature_size : nat) : bool := true.
End Signatures.

(** The search loop of [add_peer]: the answer when the identifier is known. *)
(* @src src/identity/ed25519.cpp:98-103 Ed25519IdentityVerifier::add_peer *)
Fixpoint known_peer (peers_ : list PeerEntry) (hid : Id.HierarchicalID) (key : IdentityKey) : option bool :=
  match peers_ with
  | [] => None
  | p :: peers_ =>
      if Id.hid_eqb p.(peer_hid) hid
      then Some (bool_decide (p.(peer_key).(public_key) = key.(public_key)))
      else known_peer peers_ hid key
  end.

(* @src src/identity/ed25519.cpp:97-106 Ed25519IdentityVerifier::add_peer *)
Definition add_peer (peers_ : list PeerEntry) (hid : Id.HierarchicalID) (key : IdentityKey)
    : list PeerEntry * bool :=
  match known_peer peers_ hid key with
  | Some answer => (peers_, answer)
  | None => (peers_ ++ [mk_peer hid key], true)
  end.

(* @src src/identity/ed25519.cpp:108-110 Ed25519IdentityVerifier::known_peer_count *)
Definition known_peer_count (peers_ : list PeerEntry) : nat := length peers_.

(** ** The certificate's payload *)

(** The two bytes of a swarm identifier and the sixteen of a unit identifier. *)
Definition put_id (out : list Z) (off : nat) (id : Id.HierarchicalID) : list Z :=
  let out := <[off := MI.u8 (Z.land id.(Id.swarm_id) 255)]> out in
  let out := <[(off + 1)%nat := MI.u8 (Z.land (Z.shiftr id.(Id.swarm_id) 8) 255)]> out in
  write_at out (off + 2) id.(Id.unit_id).(Id.bytes_).

(* @src src/identity/identity_rotation.cpp:7-29 serialise_cert_payload *)
Definition serialise_cert_payload (prev_id new_id : Id.HierarchicalID) (new_key : IdentityKey)
    (out : list Z) : list Z :=
  let out := put_id out 0 prev_id in
  let out := put_id out 18 new_id in
  write_at out 36 new_key.(public_key).

(** ** First use wins *)

(** The key of the first claim for [h] in a history of claims. *)
Fixpoint first_key (l : list (Id.HierarchicalID * IdentityKey)) (h : Id.HierarchicalID) : option IdentityKey :=
  match l with
  | [] => None
  | (h', k) :: l => if decide (h' = h) then Some k else first_key l h
  end.

(** What both tables answer to a claim made after the history [l]. *)
Definition first_use (l : list (Id.HierarchicalID * IdentityKey)) (h : Id.HierarchicalID) (k : IdentityKey) : bool :=
  match first_key l h with None => true | Some k' => bool_decide (k' = k) end.

Definition pins (l : list (Id.HierarchicalID * IdentityKey)) : PeerKeyRegistry :=
  fold_left (fun r hk => (try_pin r hk.1 hk.2).1) l ∅.
Definition peers (l : list (Id.HierarchicalID * IdentityKey)) : list PeerEntry :=
  fold_left (fun r hk => (add_peer r hk.1 hk.2).1) l [].

Lemma first_key_snoc l h k h' :
  first_key (l ++ [(h, k)]) h' =
  match first_key l h' with Some k' => Some k' | None => if decide (h = h') then Some k else None end.
Proof.
  induction l as [|[h0 k0] l IH]; cbn; [done|]. destruct (decide (h0 = h')); [done|apply IH].
Qed.

Lemma public_key_inj (a b : IdentityKey) : a.(public_key) = b.(public_key) <-> a = b.
Proof. destruct a, b; cbn. split; [by intros ->|by intros [= ->]]. Qed.

Lemma try_pin_spec r l h k :
  (forall h', r !! h' = first_key l h') ->
  (forall h', (try_pin r h k).1 !! h' = first_key (l ++ [(h, k)]) h') /\
  (try_pin r h k).2 = first_use l h k.
Proof.
  unfold PeerKeyRegistry in *. intros Hr. unfold try_pin, first_use. rewrite Hr. destruct (first_key l h) as [k0|] eqn:E; cbn [fst snd].
  - split; [|apply bool_decide_ext, public_key_inj]. intros h'. rewrite first_key_snoc, Hr.
    destruct (first_key l h') eqn:E'; [done|]. rewrite decide_False by congruence. done.
  - split; [|done]. intros h'. unfold PeerKeyRegistry in *. rewrite first_key_snoc, lookup_insert, Hr.
    destruct (decide (h = h')) as [<-|]; [by rewrite E|by destruct (first_key l h')].
Qed.

Lemma known_peer_spec ps h k :
  known_peer ps h k =
  (fun p => bool_decide (p.(peer_key) = k)) <$> (list_find (fun p => p.(peer_hid) = h) ps ≫= fun q => Some q.2).
Proof.
  induction ps as [|p ps IH]; [done|]. cbn. destruct (Id.hid_eqb (peer_hid p) h) eqn:E.
  - apply Id.hid_eqb_eq in E. rewrite decide_True by done. cbn. f_equal.
    apply bool_decide_ext, public_key_inj.
  - rewrite decide_False by (intros C%Id.hid_eqb_eq; congruence). rewrite IH.
    by destruct (list_find _ ps) as [[??]|].
Qed.

(** The verifier's table is the history's first claims, in order. *)
Definition first_claims (ps : list PeerEntry) (l : list (Id.HierarchicalID * IdentityKey)) : Prop :=
  forall h, (list_find (fun p => p.(peer_hid) = h) ps ≫= fun q => Some q.2.(peer_key)) = first_key l h.

Lemma list_find_snoc {A} (P : A -> Prop) `{!forall x, Decision (P x)} (l : list A) x :
  (list_find P (l ++ [x]) ≫= fun q => Some q.2) =
  match list_find P l ≫= (fun q => Some q.2) with
  | Some y => Some y
  | None => if decide (P x) then Some x else None
  end.
Proof.
  induction l as [|y l IH]; cbn; [by destruct (decide (P x))|].
  destruct (decide (P y)); [done|].
  destruct (list_find P (l ++ [x])) as [[??]|], (list_find P l) as [[??]|]; cbn in *; congruence.
Qed.

Lemma add_peer_spec ps l h k :
  first_claims ps l ->
  first_claims (add_peer ps h k).1 (l ++ [(h, k)]) /\ (add_peer ps h k).2 = first_use l h k.
Proof.
  intros Hp. unfold add_peer, first_use. rewrite known_peer_spec.
  pose proof (Hp h) as Hh. destruct (list_find (fun p => peer_hid p = h) ps) as [[i p]|] eqn:E; cbn in Hh |- *.
  - rewrite <- Hh. split; [|done]. intros h'. rewrite first_key_snoc, <- Hp. cbn.
    destruct (list_find (fun p => peer_hid p = h') ps) as [[i' p']|] eqn:E'; [done|]. cbn.
    rewrite decide_False; [done|]. intros <-. congruence.
  - rewrite <- Hh. split; [|done]. intros h'. rewrite first_key_snoc, <- Hp.
    pose proof (list_find_snoc (fun p => peer_hid p = h') ps (mk_peer h k)) as S. cbn [peer_hid] in S.
    destruct (list_find (fun p => peer_hid p = h') (ps ++ [mk_peer h k])) as [[??]|],
      (list_find (fun p => peer_hid p = h') ps) as [[??]|]; cbn in S |- *.
    all: destruct (decide (h = h')); by simplify_eq.
Qed.

Lemma pins_spec l h : pins l !! h = first_key l h.
Proof.
  revert h. induction l as [|[h0 k0] l IH] using rev_ind; intros h; [done|].
  unfold pins. rewrite fold_left_app. by apply try_pin_spec.
Qed.

Lemma peers_spec l : first_claims (peers l) l.
Proof.
  induction l as [|[h0 k0] l IH] using rev_ind; [done|].
  unfold peers. rewrite fold_left_app. by apply add_peer_spec.
Qed.

Lemma verify_spec `{Crypto} ps claimed payload n sg m :
  verify ps claimed payload n sg m =
  match list_find (fun p => p.(peer_hid) = claimed) ps with
  | Some (_, p) => verify_signature p.(peer_key) payload n sg m
  | None => false
  end.
Proof.
  induction ps as [|p ps IH]; [done|]. cbn. destruct (Id.hid_eqb (peer_hid p) claimed) eqn:E.
  - apply Id.hid_eqb_eq in E. by rewrite decide_True.
  - rewrite decide_False by (intros C%Id.hid_eqb_eq; congruence). rewrite IH.
    by destruct (list_find _ ps) as [[??]|].
Qed.

(** C25: trust on first use, over every history of claims [(identifier, key)]: the
    pinned-key registry and the verifier's table both hold exactly the first key
    claimed for each identifier, both answer a further claim with "new or same
    key", and a refused claim changes neither; the verifier accepts a packet
    exactly when its sender is known and the signature verifies under that first
    key. *)
Theorem first_use_wins `{Crypto} (l : list (Id.HierarchicalID * IdentityKey)) h k :
  find (pins l) h = first_key l h /\
  (try_pin (pins l) h k).2 = first_use l h k /\
  (add_peer (peers l) h k).2 = first_use l h k /\
  (first_use l h k = false -> (try_pin (pins l) h k).1 = pins l /\ (add_peer (peers l) h k).1 = peers l) /\
  (forall l', first_key (l ++ l') h = match first_key l h with Some k0 => Some k0 | None => first_key l' h end) /\
  (forall payload n sg m, verify (peers l) h payload n sg m =
     match first_key l h with Some k0 => verify_signature k0 payload n sg m | None => false end).
Proof.
  pose proof (try_pin_spec _ l h k (pins_spec l)) as [_ T].
  pose proof (add_peer_spec _ l h k (peers_spec l)) as [_ A]. split_and!; try done.
  - apply pins_spec.
  - intros F. split.
    + unfold try_pin in *. destruct (pins l !! h) eqn:E; cbn [fst snd] in *; [done|]. congruence.
    + unfold add_peer in *. destruct (known_peer (peers l) h k); cbn [fst snd] in *; [done|]. congruence.
  - intros l'. induction l as [|[h0 k0] l IH]; [done|]. cbn. destruct (decide (h0 = h)); [done|].
    apply IH; [apply try_pin_spec, pins_spec|apply add_peer_spec, peers_spec].
  - intros payload n sg m. rewrite verify_spec, <- (peers_spec l h).
    by destruct (list_find _ (peers l)) as [[??]|].
Qed.

(** ** Signing and verifying *)

Lemma verify_bytes_open `{Crypto} pk payload sg :
  length sg = SIGNATURE_LEN -> verify_bytes pk payload sg = crypto_sign_open (sg ++ payload) pk.(public_key).
Proof.
  intros Hs. unfold verify_bytes, verify_signature. rewrite Hs, Nat.eqb_refl. cbn [negb].
  rewrite (bool_decide_eq_false_2 (Some payload = None)) by done. rewrite andb_false_r.
  rewrite (take_ge sg) by lia. rewrite replicate_add, write_at_0, drop_app_ge, length_replicate, Hs by len.
  rewrite Nat.sub_diag, drop_0. cbn [default]. f_equal.
  destruct (Nat.ltb_spec 0 (length payload)) as [|Hl].
  - rewrite (take_ge payload) by done. unfold write_at. rewrite <- Hs, take_app_length.
    cbn [id]. rewrite drop_ge by len. by rewrite app_nil_r.
  - destruct payload; [done|cbn in Hl; lia].
Qed.

(** What a key pair of the runtime signs verifies under its public key. *)
Lemma sign_verify `{CryptoLaws} n payload :
  verify_bytes (generate_identity_keypair n).(pair_public) payload
    (sign_payload (generate_identity_keypair n).(pair_private) payload) = true.
Proof.
  unfold generate_identity_keypair, sign_payload. pose proof (sign_opens n payload) as O.
  destruct (crypto_keypair n) as [pk sk]. cbn [pair_public pair_private fst snd] in *.
  destruct (sign_layout payload sk) as (sg & Hl & _ & E). rewrite E in *.
  rewrite <- Hl, take_app_length. by rewrite verify_bytes_open.
Qed.

Lemma length_sign_payload `{CryptoLaws} sk payload :
  length (sign_payload sk payload) = SIGNATURE_LEN /\ MI.is_bytes (sign_payload sk payload).
Proof.
  unfold sign_payload. destruct (sign_layout payload sk) as (sg & Hl & Hb & ->).
  rewrite <- Hl, take_app_length. done.
Qed.

(** The payload's layout. *)
Definition cert_bytes (prev_id new_id : Id.HierarchicalID) (new_key : IdentityKey) : list Z :=
  MI.le_bytes 2 prev_id.(Id.swarm_id) ++ prev_id.(Id.unit_id).(Id.bytes_) ++
  MI.le_bytes 2 new_id.(Id.swarm_id) ++ new_id.(Id.unit_id).(Id.bytes_) ++ new_key.(public_key).

Lemma put_id_spec out off id :
  Id.wf_hid id -> (off + 18 <= length out)%nat ->
  put_id out off id = write_at out off (MI.le_bytes 2 id.(Id.swarm_id) ++ id.(Id.unit_id).(Id.bytes_)).
Proof.
  intros [_ [Hl _]] Ho. unfold Id.SIZE in Hl. unfold put_id.
  rewrite !MI.u8_id by (rewrite MI.land_255_u8; apply MI.u8_range).
  fold (MI.put_u16 out off (Id.swarm_id id)).
  rewrite MI.put_u16_spec by lia. by rewrite write_at_app by len.
Qed.

Lemma serialise_cert_spec prev new k out :
  Id.wf_hid prev -> Id.wf_hid new -> wf_key k -> length out = IDENTITY_CERT_PAYLOAD_LEN ->
  serialise_cert_payload prev new k out = cert_bytes prev new k.
Proof.
  intros Wp Wn [Hk _] Ho. pose proof Wp as [_ [Lp _]]. pose proof Wn as [_ [Ln _]].
  unfold Id.SIZE in Lp, Ln. unfold PUBLIC_KEY_LEN in Hk. unfold IDENTITY_CERT_PAYLOAD_LEN in Ho.
  unfold serialise_cert_payload. rewrite (put_id_spec out) by (done || lia).
  rewrite put_id_spec by (done || blen).
  rewrite write_at_app by blen. rewrite write_at_app by blen.
  rewrite write_at_0, drop_ge by len. rewrite app_nil_r. unfold cert_bytes. by rewrite <- !app_assoc.
Qed.

Lemma swarm_inj a b (l l' : list Z) :
  MI.is_u16 a -> MI.is_u16 b -> MI.le_bytes 2 a ++ l = MI.le_bytes 2 b ++ l' -> a = b /\ l = l'.
Proof.
  intros Ha Hb E. apply app_inj_1 in E as [E ?]; [|by rewrite !MI.length_le_bytes]. split; [|done].
  apply (f_equal MI.le_value) in E. by rewrite !MI.le_value_bytes_id in E.
Qed.

(** The certificate payload.  Whatever the 68-byte buffer held, the bytes
    written are the two identifiers and the new key in their documented layout, so
    two payloads are equal only if both identifiers and the key are: a signature
    on one certificate is no signature on another.  A certificate signed with a
    key pair of the runtime verifies under that pair's public key. *)
Theorem cert_payload_binding `{CryptoLaws} prev new k prev' new' k' out out' n :
  Id.wf_hid prev -> Id.wf_hid new -> wf_key k ->
  Id.wf_hid prev' -> Id.wf_hid new' -> wf_key k' ->
  length out = IDENTITY_CERT_PAYLOAD_LEN -> length out' = IDENTITY_CERT_PAYLOAD_LEN ->
  length (serialise_cert_payload prev new k out) = IDENTITY_CERT_PAYLOAD_LEN /\
  (serialise_cert_payload prev new k out = serialise_cert_payload prev' new' k' out' <->
   prev = prev' /\ new = new' /\ k = k') /\
  verify_bytes (generate_identity_keypair n).(pair_public) (serialise_cert_payload prev new k out)
    (sign_payload (generate_identity_keypair n).(pair_private)
       (serialise_cert_payload prev new k out')) = true.
Proof.
  intros Wp Wn Wk Wp' Wn' Wk' Ho Ho'. rewrite !serialise_cert_spec by done. split_and!.
  - destruct Wp as [_ [Lp _]], Wn as [_ [Ln _]], Wk as [Lk _]. unfold Id.SIZE in Lp, Ln.
    unfold PUBLIC_KEY_LEN in Lk. unfold cert_bytes, IDENTITY_CERT_PAYLOAD_LEN. len.
  - split; [|by intros (-> & -> & ->)]. unfold cert_bytes. intros E.
    destruct Wp as [Sp [Lp _]], Wn as [Sn [Ln _]], Wp' as [Sp' [Lp' _]], Wn' as [Sn' [Ln' _]].
    apply swarm_inj in E as [E1 E]; [|done..].
    apply app_inj_1 in E as [E2 E]; [|congruence].
    apply swarm_inj in E as [E3 E]; [|done..].
    apply app_inj_1 in E as [E4 E]; [|congruence].
    destruct prev as [? []], new as [? []], prev' as [? []], new' as [? []], k, k'; cbn in *. by subst.
  - apply sign_verify.
Qed.

(** ** A concrete instance *)

(** A stand-in for the signature scheme, to evaluate the model with: the
    signature is the first half of the private key and a checksum. *)
Definition toy_checksum (m : list Z) : Z := MI.u8 (fold_left (fun a b => MI.u8 (a * 31 + b)) m 7).
Definition toy_key (n : nat) : Z := MI.u8 (Z.of_nat n + 1).
#[export] Instance toy_crypto : Crypto := {|
  crypto_keypair n := (replicate 32 (toy_key n), replicate 64 (toy_key n));
  crypto_sign m sk := replicate 32 (MI.u8 (MI.at_ sk 0)) ++ replicate 32 (toy_checksum m) ++ m;
  crypto_sign_open sm pk :=
    bool_decide (take 32 sm = take 32 pk) &&
    bool_decide (take 32 (drop 32 sm) = replicate 32 (toy_checksum (drop 64 sm)));
|}.

#[export] Instance toy_laws : CryptoLaws toy_crypto.
Proof.
  constructor.
  - intros n. cbn. split; [done|]. apply (MI.is_bytes_replicate_u8 32), MI.u8_range.
  - intros m sk. exists (replicate 32 (MI.u8 (MI.at_ sk 0)) ++ replicate 32 (toy_checksum m)).
    split_and!; [len; reflexivity| |].
    + apply MI.is_bytes_app. split; apply MI.is_bytes_replicate_u8, MI.u8_range.
    + cbn [crypto_sign toy_crypto]. by rewrite <- app_assoc.
  - intros n m. cbn [crypto_sign crypto_sign_open crypto_keypair toy_crypto fst snd].
    apply andb_true_iff. split; apply bool_decide_eq_true_2.
    + rewrite take_app_le, !take_ge by len. f_equal. unfold MI.at_, toy_key. cbn. apply MI.u8_id, MI.u8_range.
    + rewrite !drop_app_ge, !length_replicate by len. cbn [Nat.sub]. rewrite drop_0.
      rewrite take_app_le, take_ge by len. done.
Qed.

Definition sample_key (n : nat) : IdentityKey := (generate_identity_keypair n).(pair_public).

Lemma sample_key_wf n : wf_key (sample_key n).
Proof. split; [done|]. apply (MI.is_bytes_replicate_u8 32), MI.u8_range. Qed.

Lemma nil_hid_wf : Id.wf_hid Id.nil_hid.
Proof.
  repeat split; try (unfold MI.is_u16; cbn; lia). apply MI.bytesb_spec. reflexivity.
Qed.

Lemma cert_payload_binding_witness :
  length (serialise_cert_payload Id.nil_hid Id.nil_hid (sample_key 1) (replicate 68 9)) = 68%nat /\
  verify_bytes (sample_key 0) (serialise_cert_payload Id.nil_hid Id.nil_hid (sample_key 1) (replicate 68 9))
    (sign_payload (generate_identity_keypair 0).(pair_private)
       (serialise_cert_payload Id.nil_hid Id.nil_hid (sample_key 1) (replicate 68 8))) = true.
Proof.
  destruct (cert_payload_binding Id.nil_hid Id.nil_hid (sample_key 1) Id.nil_hid Id.nil_hid (sample_key 1)
    (replicate 68 9) (replicate 68 8) 0) as (H1 & _ & H2);
    try exact nil_hid_wf; try exact (sample_key_wf 1); try reflexivity.
  split; [exact H1|exact H2].
Defined.

End Auth.
