(* ===== verification/FaultMonitor.v ===== *)
(** The fault monitor ([include/mith/systems/fault_monitor_system.h],
    [src/systems/fault_monitor_system.cpp]).

    A two-state machine over the health component: below a threshold the
    permission mask is narrowed to two actions, and restored once health has risen
    by the hysteresis.  [tick_values] is the tick on the three components it holds
    references to, [tick] the whole tick on the registry. *)

From S2P Require Import Prelude MachineInt Float32 Identity BoundedQueue Components Trace Scheduler.
From S2P Require Import Registry.
Local Open Scope Z_scope.

Module FM.
Import Comp.

Definition NORMAL_STATE : Z := 0.
Definition DEGRADED_STATE : Z := 1.

(* @src include/mith/systems/fault_monitor_system.h:41-45 FaultMonitorSystem::Params *)
Record Params := mk_params {
  degraded_threshold : Z;
  degraded_hysteresis : Z;
  decrement_per_fault : Z;
}.
Definition default_params : Params := mk_params 40 10 5.

(* @src include/mith/systems/fault_monitor_system.h:58-65 FaultMonitorSystem *)
Record state := mk_fm {
  last_fault_count_ : Z;
  saved_allowed_builtins_ : Z;
  saved_allow_user_actions_ : bool;
  in_degraded_state_ : bool;
}.
(* @src src/systems/fault_monitor_system.cpp:10-15 FaultMonitorSystem::FaultMonitorSystem *)
Definition new_state : state := mk_fm 0 4294967295 true false.

(* @src src/systems/fault_monitor_system.cpp:17-27 FaultMonitorSystem::describe *)
Definition describe `{!Reg.Toolchain} : Sched.SystemDescriptor :=
  Sched.mk_desc (codes "FaultMonitorSystem")
    [Reg.component_id Reg.THealth]
    [Reg.component_id Reg.THealth; Reg.component_id Reg.TPermissionMask;
     Reg.component_id Reg.TBehaviourState] [] [].

(** The new faults taken off the health, saturating at zero. *)
(* @src src/systems/fault_monitor_system.cpp:38-51 FaultMonitorSystem::tick *)
Definition apply_faults (p : Params) (new_faults : Z) (h : HealthComponent) : HealthComponent :=
  if 0 <? new_faults then
    let total_drop := MI.u64 (new_faults * p.(decrement_per_fault)) in
    if h.(value) <=? total_drop then mk_health 0
    else mk_health (MI.u8 (h.(value) - total_drop))
  else h.

(* @src src/systems/fault_monitor_system.cpp:37-68 FaultMonitorSystem::tick *)
Definition tick_values (p : Params) (s : state) (now_count : Z)
    (health : HealthComponent) (mask : PermissionMaskComponent) (st : BehaviourStateComponent)
    : state * HealthComponent * PermissionMaskComponent * BehaviourStateComponent :=
  let new_faults := MI.u64 (now_count - s.(last_fault_count_)) in
  let health := apply_faults p new_faults health in
  if negb s.(in_degraded_state_) && (health.(value) <? p.(degraded_threshold)) then
    (mk_fm now_count mask.(allowed_builtins) mask.(allow_user_actions) true, health,
     mk_mask (Z.lor (MI.u32 (Z.shiftl 1 IDLE)) (MI.u32 (Z.shiftl 1 REGROUP))) false,
     mk_state DEGRADED_STATE)
  else if s.(in_degraded_state_) &&
          (MI.u32 (p.(degraded_threshold) + p.(degraded_hysteresis)) <=? health.(value)) then
    (mk_fm now_count s.(saved_allowed_builtins_) s.(saved_allow_user_actions_) false, health,
     mk_mask s.(saved_allowed_builtins_) s.(saved_allow_user_actions_), mk_state NORMAL_STATE)
  else
    (mk_fm now_count s.(saved_allowed_builtins_) s.(saved_allow_user_actions_) s.(in_degraded_state_),
     health, mask, st).

(** The references are written back at the end. *)
(* @src src/systems/fault_monitor_system.cpp:29-69 FaultMonitorSystem::tick *)
Definition tick `{!Reg.Toolchain} (p : Params) (s : state) (fault_count : Z) (registry : Reg.t)
    : outcome (state * Reg.t) :=
  let self := Reg.SELF_ENTITY in
  let! health := Reg.get HealthComponent registry self in
  let! mask := Reg.get PermissionMaskComponent registry self in
  let! st := Reg.get BehaviourStateComponent registry self in
  let '(s, health, mask, st) := tick_values p s fault_count health mask st in
  let! registry := Reg.set registry self health in
  let! registry := Reg.set registry self mask in
  let! registry := Reg.set registry self st in
  Ok (s, registry).

(** The tick on a registry that holds the three components. *)
Lemma fault_tick_spec `{!Reg.Toolchain} p s n r h m b :
  Reg.get HealthComponent r Reg.SELF_ENTITY = Ok h ->
  Reg.get PermissionMaskComponent r Reg.SELF_ENTITY = Ok m ->
  Reg.get BehaviourStateComponent r Reg.SELF_ENTITY = Ok b ->
  let v := tick_values p s n h m b in
  exists r', tick p s n r = Ok (v.1.1.1, r') /\
    Reg.get HealthComponent r' Reg.SELF_ENTITY = Ok v.1.1.2 /\
    Reg.get PermissionMaskComponent r' Reg.SELF_ENTITY = Ok v.1.2 /\
    Reg.get BehaviourStateComponent r' Reg.SELF_ENTITY = Ok v.2 /\
    forall (U : Type) (HU : Reg.Component U) (u : U),
      Reg.ctype_of U ∉ [Reg.THealth; Reg.TPermissionMask; Reg.TBehaviourState] ->
      Reg.get U r Reg.SELF_ENTITY = Ok u -> Reg.get U r' Reg.SELF_ENTITY = Ok u.
Proof.
  intros Gh Gm Gb v. unfold tick. rewrite Gh, Gm, Gb. cbn [obind]. fold v. destruct v as [[[s' h'] m'] b'].
  cbn [fst snd].
  destruct (Reg.set_ok r h h' Gh) as (r1 & -> & _ & Gh1 & F1). cbn [obind].
  destruct (Reg.set_ok r1 m m') as (r2 & -> & _ & Gm2 & F2); [by apply F1|]. cbn [obind].
  destruct (Reg.set_ok r2 b b') as (r3 & -> & _ & Gb3 & F3); [apply F2; [done|]; by apply F1|]. cbn [obind].
  eexists. split; [done|]. split_and!; [by apply F3, F2|by apply F3|done|].
  intros U HU u Hu GU. apply F3; [set_solver|]. apply F2; [set_solver|]. apply F1; [set_solver|done].
Qed.

(** ** Runs *)

(** What the monitor works on, and the events of a run: faults reported, the
    health set by something else, a tick. *)
Record env := mk_env {
  fm : state;
  faults : Z;
  hp : HealthComponent;
  pm : PermissionMaskComponent;
  bs : BehaviourStateComponent;
}.

Inductive event := Faults (n : Z) | SetHealth (v : Z) | Tick.

Definition exec (p : Params) (e : env) (ev : event) : env :=
  match ev with
  | Faults n => mk_env e.(fm) (MI.u64 (e.(faults) + n)) e.(hp) e.(pm) e.(bs)
  | SetHealth v => mk_env e.(fm) e.(faults) (mk_health (MI.u8 v)) e.(pm) e.(bs)
  | Tick =>
      let '(s, h, m, b) := tick_values p e.(fm) e.(faults) e.(hp) e.(pm) e.(bs) in
      mk_env s e.(faults) h m b
  end.

Definition run (p : Params) (e : env) (evs : list event) : env := fold_left (exec p) evs e.

Record wf_params (p : Params) : Prop := {
  wf_thr : MI.is_u8 p.(degraded_threshold);
  wf_hyst : MI.is_u8 p.(degraded_hysteresis);
  wf_dec : MI.is_u8 p.(decrement_per_fault);
}.

(** The permission mask of the degraded state. *)
Definition degraded_mask : PermissionMaskComponent := mk_mask 33 false.

(** The state machine's invariant for a run that started with the mask [m0]. *)
Record inv (m0 : PermissionMaskComponent) (e : env) : Prop := {
  inv_health : MI.is_u8 e.(hp).(value);
  inv_degraded : e.(fm).(in_degraded_state_) = true ->
    e.(pm) = degraded_mask /\ e.(bs) = mk_state DEGRADED_STATE /\
    mk_mask e.(fm).(saved_allowed_builtins_) e.(fm).(saved_allow_user_actions_) = m0;
  inv_normal : e.(fm).(in_degraded_state_) = false -> e.(pm) = m0;
}.

Lemma apply_faults_u8 p n h : MI.is_u8 h.(value) -> MI.is_u8 (apply_faults p n h).(value).
Proof.
  intros H. unfold apply_faults. repeat case_match; cbn; [unfold MI.is_u8; lia|apply MI.u8_range|done].
Qed.

Lemma degraded_bits : Z.lor (MI.u32 (Z.shiftl 1 IDLE)) (MI.u32 (Z.shiftl 1 REGROUP)) = 33.
Proof. reflexivity. Qed.

Lemma threshold_sum p : wf_params p ->
  MI.u32 (p.(degraded_threshold) + p.(degraded_hysteresis)) = p.(degraded_threshold) + p.(degraded_hysteresis).
Proof. intros [H1 H2 _]. apply MI.u32_id. unfold MI.is_u8, MI.is_u32 in *. lia. Qed.

(** The tick by case. *)
Lemma tick_values_cases p s n h m b :
  wf_params p ->
  let h' := apply_faults p (MI.u64 (n - s.(last_fault_count_))) h in
  let r := tick_values p s n h m b in
  r.1.1.1.(last_fault_count_) = n /\ r.1.1.2 = h' /\
  ((s.(in_degraded_state_) = false /\ h'.(value) < p.(degraded_threshold) /\
    r = (mk_fm n m.(allowed_builtins) m.(allow_user_actions) true, h', degraded_mask, mk_state DEGRADED_STATE)) \/
   (s.(in_degraded_state_) = true /\ p.(degraded_threshold) + p.(degraded_hysteresis) <= h'.(value) /\
    r = (mk_fm n s.(saved_allowed_builtins_) s.(saved_allow_user_actions_) false, h',
         mk_mask s.(saved_allowed_builtins_) s.(saved_allow_user_actions_), mk_state NORMAL_STATE)) \/
   ((if s.(in_degraded_state_) then h'.(value) < p.(degraded_threshold) + p.(degraded_hysteresis)
     else p.(degraded_threshold) <= h'.(value)) /\
    r = (mk_fm n s.(saved_allowed_builtins_) s.(saved_allow_user_actions_) s.(in_degraded_state_), h', m, b))).
Proof.
  intros Wp h' r. unfold r, tick_values. fold h'. rewrite degraded_bits, threshold_sum by done.
  destruct (in_degraded_state_ s) eqn:Ed; cbn [negb andb].
  - destruct (Z.leb_spec (degraded_threshold p + degraded_hysteresis p) h'.(value)); cbn [fst snd last_fault_count_];
      split_and!; try done; right; [left|right]; done.
  - destruct (Z.ltb_spec h'.(value) (degraded_threshold p)); cbn [fst snd last_fault_count_];
      split_and!; try done; [left|right; right]; done.
Qed.

Lemma exec_inv p m0 e ev : wf_params p -> inv m0 e -> inv m0 (exec p e ev).
Proof.
  intros Wp [Hh Hd Hn]. destruct ev as [n|v|]; cbn [exec].
  - by constructor.
  - constructor; cbn; [apply MI.u8_range|done|done].
  - destruct (tick_values_cases p e.(fm) e.(faults) e.(hp) e.(pm) e.(bs) Wp) as (_ & _ & H).
    pose proof (apply_faults_u8 p (MI.u64 (e.(faults) - e.(fm).(last_fault_count_))) _ Hh) as Hu.
    destruct H as [(Ed & _ & ->)|[(Ed & _ & ->)|(_ & ->)]]; constructor; cbn; try done.
    + intros _. rewrite (Hn Ed). by destruct m0.
    + intros _. by destruct (Hd Ed) as (_ & _ & ->).
Qed.

Lemma run_inv p m0 e evs : wf_params p -> inv m0 e -> inv m0 (run p e evs).
Proof.
  intros Wp. revert e. induction evs as [|ev evs IH]; intros e H; [done|].
  apply IH. by apply exec_inv.
Qed.

(** Fewer than [2^56] new faults cannot overflow the product. *)
Lemma apply_faults_saturates p n h :
  wf_params p -> MI.is_u8 h.(value) -> 0 <= n < 2 ^ 56 ->
  (apply_faults p n h).(value) = Z.max 0 (h.(value) - n * p.(decrement_per_fault)).
Proof.
  intros [_ _ Hd] Hh Hn. unfold MI.is_u8 in *. unfold apply_faults.
  destruct (Z.ltb_spec 0 n); [|assert (n = 0) as -> by lia; lia].
  rewrite MI.u64_id by (unfold MI.is_u64; nia).
  destruct (Z.leb_spec h.(value) (n * decrement_per_fault p)); cbn [value]; [lia|].
  rewrite MI.u8_id by (unfold MI.is_u8; nia). nia.
Qed.

(** C26: the fault monitor over every run of fault reports, health changes made
    elsewhere and ticks, from a fresh monitor and any mask.  A tick takes
    [decrement_per_fault] off the health for each fault reported since the last
    one (fewer than [2^56] of them), stopping at zero; it enters the degraded state exactly when health is
    below the threshold and leaves it exactly when health has reached threshold
    plus hysteresis; while degraded the mask allows IDLE and REGROUP and nothing
    else; whenever it is not degraded the mask is the original one. *)
Theorem fault_monitor_hysteresis p evs faults0 h0 m0 b0 :
  wf_params p -> MI.is_u8 h0.(value) ->
  let e := run p (mk_env new_state faults0 h0 m0 b0) evs in
  let e' := exec p e Tick in
  (0 <= MI.u64 (e.(faults) - e.(fm).(last_fault_count_)) < 2 ^ 56 ->
   e'.(hp).(value) = Z.max 0 (e.(hp).(value) -
     MI.u64 (e.(faults) - e.(fm).(last_fault_count_)) * p.(decrement_per_fault))) /\
  e'.(fm).(last_fault_count_) = e'.(faults) /\
  (e'.(fm).(in_degraded_state_) = true <->
   if e.(fm).(in_degraded_state_)
   then e'.(hp).(value) < p.(degraded_threshold) + p.(degraded_hysteresis)
   else e'.(hp).(value) < p.(degraded_threshold)) /\
  (e'.(fm).(in_degraded_state_) = true ->
   e'.(bs).(Comp.state) = DEGRADED_STATE /\
   forall t, 0 <= t -> allows e'.(pm) t = true <-> t = IDLE \/ t = REGROUP) /\
  (e'.(fm).(in_degraded_state_) = false -> e'.(pm) = m0) /\
  (e.(fm).(in_degraded_state_) = true -> e'.(fm).(in_degraded_state_) = false ->
   e'.(bs).(Comp.state) = NORMAL_STATE).
Proof.
  intros Wp Hh0 e e'.
  assert (inv m0 e) as I by (apply run_inv; [done|by constructor]).
  assert (inv m0 e') as I' by by apply exec_inv.
  destruct (tick_values_cases p e.(fm) e.(faults) e.(hp) e.(pm) e.(bs) Wp) as (Hl & Hv & H).
  unfold e', exec in *. clearbody e. destruct (tick_values _ _ _ _ _ _) as [[[s h] m] b] eqn:E.
  cbn [fst snd fm faults hp pm bs] in *.
  split_and!; [|done| |intros Hd; destruct (inv_degraded _ _ I' Hd) as (Hm & Hb & _); cbn in Hm, Hb|apply I'|].
  - intros Hn. rewrite Hv. apply apply_faults_saturates; [done|apply I|done].
  - destruct H as [(-> & Hc & [= -> -> _ _])|[(-> & Hc & [= -> -> _ _])|(Hc & [= -> -> _ _])]]; cbn in *.
    + split; [by intros|done].
    + split; [done|lia].
    + destruct (in_degraded_state_ (fm e)); [split; [by intros|done]|]. split; [done|lia].
  - rewrite Hb, Hm. split; [done|]. intros t Ht. clear -Ht.
    destruct (Z.leb_spec t BUILTIN_MAX) as [Hle|Hgt].
    + rewrite allows_builtin by lia. unfold degraded_mask; cbn [allowed_builtins].
      unfold BUILTIN_MAX, IDLE, REGROUP in *.
      assert (forallb (fun i => Bool.eqb (Z.testbit 33 i) ((i =? 0) || (i =? 5))) (seqZ 0 32) = true) as A by reflexivity.
      rewrite forallb_forall in A. specialize (A t ltac:(apply list_elem_of_In, elem_of_seqZ; lia)).
      apply Bool.eqb_prop in A. rewrite A, orb_true_iff, !Z.eqb_eq. done.
    + unfold IDLE, REGROUP, BUILTIN_MAX in *. destruct (Z.ltb_spec t CUSTOM_ACTION).
      * rewrite allows_reserved by done. split; [done|lia].
      * rewrite allows_user by done. cbn. unfold CUSTOM_ACTION in *. split; [done|lia].
  - intros Hd Hn. destruct H as [(Ed & _)|[(_ & _ & [= -> -> _ ->])|(Hc & [= -> -> _ _])]]; [congruence|done|].
    cbn in Hn. congruence.
Qed.

Lemma fault_monitor_hysteresis_witness :
  let p := default_params in
  let e := run p (mk_env new_state 0 (mk_health 100) default_mask default_state) [Faults 13; Tick; SetHealth 49] in
  (exec p e Tick).(fm).(in_degraded_state_) = true /\ (exec p e Tick).(hp).(value) = 49 /\
  (exec p (exec p e (SetHealth 50)) Tick).(pm) = default_mask.
Proof.
  cbv zeta.
  assert (wf_params default_params) as W by (constructor; unfold MI.is_u8; cbn; lia).
  pose proof (fault_monitor_hysteresis default_params [Faults 13; Tick; SetHealth 49; SetHealth 50] 0
    (mk_health 100) default_mask default_state W ltac:(unfold MI.is_u8; cbn; lia)) as H.
  cbv zeta in H. destruct H as (_ & _ & _ & _ & H & _).
  split; [reflexivity|]. split; [reflexivity|]. apply H. reflexivity.
Defined.

(** A threshold and hysteresis that add up to more than 255 make the degraded
    state permanent: the health is an 8-bit value, so no later tick restores the
    mask. *)
Theorem unreachable_recovery p evs evs' faults0 h0 m0 b0 :
  wf_params p -> MI.is_u8 h0.(value) -> 255 < p.(degraded_threshold) + p.(degraded_hysteresis) ->
  let e := run p (mk_env new_state faults0 h0 m0 b0) evs in
  e.(fm).(in_degraded_state_) = true -> (run p e evs').(fm).(in_degraded_state_) = true.
Proof.
  intros Wp Hh0 Hs e Hd.
  assert (inv m0 e) as I by (apply run_inv; [done|by constructor]). clearbody e.
  revert e Hd I. induction evs' as [|ev evs' IH]; intros e Hd I; [done|].
  apply IH; [|by apply exec_inv]. destruct ev as [n|v|]; cbn [exec]; [done|done|].
  destruct (tick_values_cases p e.(fm) e.(faults) e.(hp) e.(pm) e.(bs) Wp) as (_ & _ & H).
  pose proof (apply_faults_u8 p (MI.u64 (e.(faults) - e.(fm).(last_fault_count_))) _ (inv_health _ _ I)) as Hu.
  unfold MI.is_u8 in Hu.
  destruct H as [(Ed & _)|[(_ & Hc & _)|(_ & ->)]]; [congruence|lia|done].
Qed.

Lemma unreachable_recovery_witness :
  let p := mk_params 200 100 5 in
  let e := run p (mk_env new_state 0 (mk_health 100) default_mask default_state) [Tick] in
  e.(fm).(in_degraded_state_) = true /\
  (run p e [SetHealth 255; Tick]).(fm).(in_degraded_state_) = true.
Proof.
  cbv zeta. split; [reflexivity|].
  apply (unreachable_recovery (mk_params 200 100 5) [Tick] [SetHealth 255; Tick] 0 (mk_health 100) default_mask default_state).
  - constructor; unfold MI.is_u8; cbn; lia.
  - unfold MI.is_u8; cbn; lia.
  - cbn. lia.
  - reflexivity.
Defined.

End FM.
