(* ===== verification/TaskAlloc.v ===== *)
(** The task allocator ([include/mith/systems/task_alloc_system.h],
    [src/systems/task_alloc_system.cpp]): the response-threshold choice of a role
    and its stability window.

    The loop of the tick is [scan]; what it computes is specified by [winner]: the
    role with the largest margin, the first one among equals. *)

From S2P Require Import Prelude MachineInt Float32 Identity BoundedQueue Components Trace Scheduler.
From S2P Require Import NeighbourTable Registry.
Local Open Scope Z_scope.

Module TA.
Import Comp.

Definition MAX_TRACKED_ROLES : nat := 8.

(* @src include/mith/systems/task_alloc_system.h:44-66 TaskAllocSystem::Params *)
Record Params := mk_params {
  desired_ratios : list Z;
  thresholds : list Z;
  stability_window_s : Z;
  stimulus_gain : Z;
}.
Definition default_params : Params :=
  mk_params (replicate MAX_TRACKED_ROLES F32.zero) (replicate MAX_TRACKED_ROLES F32.one) F32.one F32.one.

(* @src include/mith/systems/task_alloc_system.h:80-86 TaskAllocSystem *)
Record state := mk_ta { time_since_last_switch_s_ : Z; total_switches_ : Z }.
(* @src src/systems/task_alloc_system.cpp:12-20 TaskAllocSystem::TaskAllocSystem *)
Definition new_state : state := mk_ta F32.zero 0.

(* @src src/systems/task_alloc_system.cpp:22-35 TaskAllocSystem::describe *)
Definition describe `{!Reg.Toolchain} : Sched.SystemDescriptor :=
  Sched.mk_desc (codes "TaskAllocSystem")
    [Reg.component_id Reg.TRole; Reg.component_id Reg.TBehaviourState]
    [Reg.component_id Reg.TRole] [Sched.NeighbourTableR] [].

(** [if (r < counts.size()) counts\[r\]++]. *)
Definition bump (counts : list Z) (r : Z) : list Z :=
  if r <? Z.of_nat (length counts) then alter (fun n => MI.u32 (n + 1)) (Z.to_nat r) counts else counts.

(** The role distribution of the entity and its neighbours, and their number. *)
(* @src src/systems/task_alloc_system.cpp:46-55 TaskAllocSystem::tick *)
Definition count_roles (self_role : Z) (entries : list NT.Entry) : list Z * Z :=
  fold_left (fun ct e => (bump ct.1 e.(NT.e_role).(role), MI.u32 (ct.2 + 1))) entries
    (bump (replicate MAX_TRACKED_ROLES 0) self_role, 1).

(** The margin of role [r], unless one of the loop's tests skips it. *)
(* @src src/systems/task_alloc_system.cpp:67-77 TaskAllocSystem::tick *)
Definition margin_of (p : Params) (counts : list Z) (total_f : Z) (r : nat) : option Z :=
  let ratio := MI.at_ p.(desired_ratios) r in
  if F32.leb ratio F32.zero then None
  else
    let desired_count := F32.mul ratio total_f in
    let deficit := F32.sub desired_count (F32.of_Z (MI.at_ counts r)) in
    if F32.leb deficit F32.zero then None
    else
      let stimulus := F32.mul deficit p.(stimulus_gain) in
      let theta := MI.at_ p.(thresholds) r in
      let margin := F32.sub stimulus theta in
      if F32.leb margin F32.zero then None else Some margin.

(** The candidate: its role and margin ([None] is [candidate_exists == false]). *)
(* @src src/systems/task_alloc_system.cpp:66-84 TaskAllocSystem::tick *)
Fixpoint scan (margin : nat -> option Z) (roles : list nat) (best : option (nat * Z)) : option (nat * Z) :=
  match roles with
  | [] => best
  | r :: roles =>
      scan margin roles
        match margin r with
        | None => best
        | Some m =>
            match best with
            | None => Some (r, m)
            | Some (_, best_margin) => if F32.gtb m best_margin then Some (r, m) else best
            end
        end
  end.

(** [merging] is [world_->is_merging()]. *)
(* @src src/systems/task_alloc_system.cpp:37-99 TaskAllocSystem::tick *)
Definition tick `{!Reg.Toolchain} (p : Params) (s : state) (merging : bool) (nt : NT.t)
    (registry : Reg.t) (delta_time : Z) : outcome (state * Reg.t) :=
  let time := F32.add s.(time_since_last_switch_s_) delta_time in
  let! self_role := Reg.get RoleComponent registry Reg.SELF_ENTITY in
  let '(counts, total) := count_roles self_role.(role) nt.(NT.entries_) in
  let total_f := F32.of_Z total in
  let best := scan (margin_of p counts total_f) (seq 0 (length p.(desired_ratios))) None in
  let effective_stability_s := if merging then F32.zero else p.(stability_window_s) in
  match best with
  | Some (best_role, _) =>
      if negb (Z.of_nat best_role =? self_role.(role)) && F32.geb time effective_stability_s then
        let! registry := Reg.set registry Reg.SELF_ENTITY (mk_role (Z.of_nat best_role)) in
        Ok (mk_ta F32.zero (MI.u64 (s.(total_switches_) + 1)), registry)
      else Ok (mk_ta time s.(total_switches_), registry)
  | None => Ok (mk_ta time s.(total_switches_), registry)
  end.

(** ** Counting *)

(** How many of a list of roles are [r]. *)
Definition occurrences (r : nat) (l : list Z) : nat := length (filter (Z.of_nat r =.) l).

Lemma length_bump c r : length (bump c r) = length c.
Proof. unfold bump. case_match; [apply length_alter|done]. Qed.

Lemma bump_u32 c r : Forall MI.is_u32 c -> Forall MI.is_u32 (bump c r).
Proof.
  intros Hc. unfold bump. case_match; [|done]. apply Forall_alter; [done|]. intros; apply MI.u32_range.
Qed.

Lemma at_u32 c i : (i < length c)%nat -> Forall MI.is_u32 c -> MI.is_u32 (MI.at_ c i).
Proof.
  intros Hi Hc. destruct (lookup_lt_is_Some_2 _ _ Hi) as [v Ev]. unfold MI.at_. rewrite nth_lookup, Ev.
  by eapply Forall_lookup_1.
Qed.

Lemma at_bump c r i :
  0 <= r -> (i < length c)%nat -> Forall MI.is_u32 c ->
  MI.at_ (bump c r) i = MI.u32 (MI.at_ c i + (if decide (Z.of_nat i = r) then 1 else 0)).
Proof.
  intros Hr Hi Hc. pose proof (at_u32 c i Hi Hc) as Hv. unfold bump, MI.at_ in *. rewrite !nth_lookup in *.
  destruct (lookup_lt_is_Some_2 _ _ Hi) as [v Ev]. rewrite Ev in *. cbn [default id] in *.
  destruct (Z.ltb_spec r (Z.of_nat (length c))).
  - destruct (decide (Z.of_nat i = r)) as [<-|Hne].
    + by rewrite Nat2Z.id, list_lookup_alter_eq, Ev.
    + rewrite list_lookup_alter_ne, Ev by lia. cbn. by rewrite Z.add_0_r, MI.u32_id.
  - rewrite decide_False, Ev by lia. cbn. by rewrite Z.add_0_r, MI.u32_id.
Qed.

Lemma fold_bump l c i :
  Forall (fun r => 0 <= r) l -> Forall MI.is_u32 c -> (i < length c)%nat ->
  MI.at_ (fold_left bump l c) i = MI.u32 (MI.at_ c i + Z.of_nat (occurrences i l)).
Proof.
  intros Hl. revert c. induction Hl as [|r l Hr _ IH]; intros c Hc Hi.
  - cbn. rewrite Z.add_0_r, MI.u32_id; [done|by apply at_u32].
  - cbn [fold_left]. rewrite IH by (rewrite ?length_bump; auto using bump_u32).
    rewrite at_bump by done. unfold MI.u32, occurrences. rewrite Zplus_mod_idemp_l, filter_cons. f_equal.
    destruct (decide (Z.of_nat i = r)); cbn [length]; lia.
Qed.

Definition roles_of (nt : list NT.Entry) : list Z := (fun e => e.(NT.e_role).(role)) <$> nt.

Lemma fold_roles entries c n :
  MI.is_u32 n ->
  fold_left (fun ct e => (bump ct.1 e.(NT.e_role).(role), MI.u32 (ct.2 + 1))) entries (c, n) =
  (fold_left bump (roles_of entries) c, MI.u32 (n + Z.of_nat (length entries))).
Proof.
  revert c n. induction entries as [|e l IH]; intros c n Hn.
  - cbn. by rewrite Z.add_0_r, MI.u32_id.
  - cbn [fold_left fst snd roles_of fmap list_fmap length]. rewrite IH by apply MI.u32_range.
    f_equal. unfold MI.u32. rewrite Zplus_mod_idemp_l. f_equal. lia.
Qed.

(** The loop counts the entity and its neighbours. *)
Lemma count_roles_spec self entries :
  0 <= self -> Forall (fun r => 0 <= r) (roles_of entries) -> Z.of_nat (length entries) < 2 ^ 32 - 1 ->
  (count_roles self entries).2 = 1 + Z.of_nat (length entries) /\
  forall i, (i < MAX_TRACKED_ROLES)%nat ->
    MI.at_ (count_roles self entries).1 i = Z.of_nat (occurrences i (self :: roles_of entries)).
Proof.
  intros Hs He Hl. unfold count_roles. rewrite fold_roles by (unfold MI.is_u32; lia). cbn [fst snd].
  split; [apply MI.u32_id; unfold MI.is_u32; lia|]. intros i Hi.
  change (fold_left bump (roles_of entries) (bump (replicate MAX_TRACKED_ROLES 0) self))
    with (fold_left bump (self :: roles_of entries) (replicate MAX_TRACKED_ROLES 0)).
  rewrite fold_bump; [|by constructor|apply Forall_replicate; unfold MI.is_u32; lia|by rewrite length_replicate].
  unfold MI.at_ at 1. rewrite nth_lookup, lookup_replicate_2 by done. cbn [default id]. rewrite Z.add_0_l.
  apply MI.u32_id. unfold MI.is_u32, occurrences.
  pose proof (length_filter (Z.of_nat i =.) (self :: roles_of entries)) as Hf.
  unfold roles_of in Hf at 2. rewrite length_cons, length_fmap in Hf. lia.
Qed.

(** ** The choice *)

(** [c] with margin [m] wins: no other role has a larger margin, and every
    earlier candidate a smaller one. *)
Definition winner (margin : nat -> option Z) (n c : nat) (m : Z) : Prop :=
  (c < n)%nat /\ margin c = Some m /\
  forall r m', (r < n)%nat -> margin r = Some m' ->
    F32.gtb m' m = false /\ ((r < c)%nat -> F32.gtb m m' = true).

(** The scan's state after the roles below [n]; [None] is "no candidate". *)
Definition scanned (margin : nat -> option Z) (n : nat) (best : option (nat * Z)) : Prop :=
  match best with
  | None => forall r, (r < n)%nat -> margin r = None
  | Some (c, m) => winner margin n c m
  end.
Definition comparable (margin : nat -> option Z) (n : nat) : Prop :=
  forall r m, (r < n)%nat -> margin r = Some m -> F32.is_nan m = false.

Lemma scan_step margin n best :
  F32.is_nan (default 0 (margin n)) = false -> comparable margin n -> scanned margin n best ->
  scanned margin (S n)
    match margin n with
    | None => best
    | Some m =>
        match best with
        | None => Some (n, m)
        | Some (_, bm) => if F32.gtb m bm then Some (n, m) else best
        end
    end.
Proof.
  intros Hn Hc H. destruct (margin n) as [m|] eqn:Em; cbn in Hn.
  - destruct best as [[c bm]|].
    + destruct H as (Hlt & Ec & H). destruct (F32.gtb m bm) eqn:G.
      * split; [lia|]. split; [done|]. intros r m' Hr Er. destruct (decide (r = n)) as [->|].
        { rewrite Em in Er. injection Er as <-. unfold F32.gtb. rewrite F32.ltb_irrefl. split; [done|lia]. }
        destruct (H r m' ltac:(lia) Er) as [H1 _]. split; [by eapply F32.not_gtb_trans|].
        intros _. apply (F32.not_gtb_ltb m' bm m); [apply (Hc r); [lia|done]|done|done].
      * split; [lia|]. split; [done|]. intros r m' Hr Er. destruct (decide (r = n)) as [->|].
        { rewrite Em in Er. injection Er as <-. split; [done|lia]. }
        apply H; [lia|done].
    + split; [lia|]. split; [done|]. intros r m' Hr Er. destruct (decide (r = n)) as [->|].
      * rewrite Em in Er. injection Er as <-. unfold F32.gtb. rewrite F32.ltb_irrefl. split; [done|lia].
      * rewrite (H r) in Er by lia. done.
  - destruct best as [[c bm]|].
    + destruct H as (Hlt & Ec & H). split; [lia|]. split; [done|]. intros r m' Hr Er.
      destruct (decide (r = n)) as [->|]; [congruence|]. apply H; [lia|done].
    + intros r Hr. destruct (decide (r = n)) as [->|]; [done|]. apply H. lia.
Qed.

Lemma scan_spec margin n :
  comparable margin n -> scanned margin n (scan margin (seq 0 n) None).
Proof.
  intros Hc.
  assert (forall k j best, (k + j = n)%nat -> scanned margin k best ->
    scanned margin n (scan margin (seq k j) best)) as G.
  { intros k j. revert k. induction j as [|j IH]; intros k best Hk Hb.
    - cbn. by replace n with k by lia.
    - cbn [seq scan]. apply IH; [lia|]. apply scan_step; [|intros r m Hr; apply Hc; lia|done].
      destruct (margin k) as [m|] eqn:E; [|done]. apply (Hc k); [lia|done]. }
  apply G; [done|]. intros r Hr. lia.
Qed.

(** The task allocator.  With parameters whose margins are numbers, and fewer
    than 2^32 neighbours, a tick never fails.  It counts exactly the roles of the
    entity and of its neighbours; the entity's role changes exactly when the
    winning role (the largest positive margin of stimulus over threshold, the
    first among equals) is another one and the time since the last switch has
    reached the stability window (any time at all during a merge).  A switch sets
    the role to the winner, restarts the time and counts one; otherwise the role
    and the count stay and the time advances.  No other component changes. *)
Theorem role_switches {TC : Reg.Toolchain} (p : Params) (s : state) (merging : bool) (nt : NT.t) reg (dt : Z) r0 :
  Reg.get RoleComponent reg Reg.SELF_ENTITY = Ok r0 ->
  0 <= r0.(role) -> Forall (fun r => 0 <= r) (roles_of nt.(NT.entries_)) ->
  Z.of_nat (length nt.(NT.entries_)) < 2 ^ 32 - 1 ->
  length p.(desired_ratios) = MAX_TRACKED_ROLES ->
  let counts := count_roles r0.(role) nt.(NT.entries_) in
  let margin := margin_of p counts.1 (F32.of_Z counts.2) in
  comparable margin MAX_TRACKED_ROLES ->
  let time := F32.add s.(time_since_last_switch_s_) dt in
  let gate := F32.geb time (if merging then F32.zero else p.(stability_window_s)) in
  exists s' reg' r', tick p s merging nt reg dt = Ok (s', reg') /\
    Reg.get RoleComponent reg' Reg.SELF_ENTITY = Ok r' /\
    counts.2 = 1 + Z.of_nat (length nt.(NT.entries_)) /\
    (forall i, (i < MAX_TRACKED_ROLES)%nat ->
       MI.at_ counts.1 i = Z.of_nat (occurrences i (r0.(role) :: roles_of nt.(NT.entries_)))) /\
    (r' <> r0 <->
     gate = true /\ exists c m, winner margin MAX_TRACKED_ROLES c m /\ Z.of_nat c <> r0.(role)) /\
    (r' <> r0 ->
     s' = mk_ta F32.zero (MI.u64 (s.(total_switches_) + 1)) /\
     exists c m, winner margin MAX_TRACKED_ROLES c m /\ r'.(role) = Z.of_nat c) /\
    (r' = r0 -> s' = mk_ta time s.(total_switches_)) /\
    forall (U : Type) (HU : Reg.Component U) (u : U), Reg.ctype_of U <> Reg.TRole ->
      Reg.get U reg Reg.SELF_ENTITY = Ok u -> Reg.get U reg' Reg.SELF_ENTITY = Ok u.
Proof.
  intros G0 Hr0 Hnt Hn Hp counts margin Hc time gate.
  destruct (count_roles_spec _ _ Hr0 Hnt Hn) as [Ht Hcount]. fold counts in Ht, Hcount.
  pose proof (scan_spec margin _ Hc) as Hs.
  unfold tick. rewrite G0. cbn [obind]. fold counts. rewrite (surjective_pairing counts).
  fold margin time. rewrite Hp. fold gate. set (best := scan margin _ None) in *.
  assert (forall c m c' m', winner margin MAX_TRACKED_ROLES c m -> winner margin MAX_TRACKED_ROLES c' m' -> c = c') as U1.
  { intros c m c' m' (Hlt & E & H) (Hlt' & E' & H'). destruct (Nat.lt_trichotomy c c') as [L|[|L]]; [|done|].
    - destruct (H' c m Hlt E) as [_ A]. destruct (H c' m' Hlt' E') as [B _]. specialize (A L). congruence.
    - destruct (H c' m' Hlt' E') as [_ A]. destruct (H' c m Hlt E) as [B _]. specialize (A L). congruence. }
  destruct best as [[c m]|]; cbn [scanned] in Hs.
  - destruct (Z.eqb_spec (Z.of_nat c) r0.(role)) as [Eq|Ne]; cbn [negb andb].
    + do 3 eexists. split_and!; try done. split; [done|]. intros (_ & c' & m' & W & N).
      by rewrite (U1 _ _ _ _ W Hs) in N.
    + destruct gate eqn:Eg.
      * destruct (Reg.set_ok reg r0 (mk_role (Z.of_nat c)) G0) as (reg' & -> & _ & G1 & F).
        assert (mk_role (Z.of_nat c) <> r0) as Hne by (intros <-; by apply Ne).
        do 3 eexists. split_and!; try done.
        { split; [|done]. intros _. split; [done|]. by exists c, m. }
        intros _. split; [done|]. by exists c, m.
      * do 3 eexists. split_and!; try done. by split; [|intros []].
  - do 3 eexists. split_and!; try done. split; [done|]. intros (_ & c & m & (Hlt & E & _) & _).
    by rewrite (Hs c Hlt) in E.
Qed.

(** A registry holding the role 0, and two neighbours of that role. *)
Definition sample_registry : Reg.t :=
  let r := (@Reg.register_builtin_component Reg.gcc (Reg.new_registry Reg.Open) RoleComponent _).1.1 in
  match @Reg.emplace Reg.gcc RoleComponent _ r Reg.SELF_ENTITY (mk_role 0) with Ok r => r | _ => r end.
Definition sample_entry (n : Z) : NT.Entry :=
  NT.mk_entry (Id.mk_hid n Id.nil_uuid) default_pos default_vel default_health (mk_role 0) default_state 0 0 0.
Definition sample_table : NT.t := NT.mk_nt [sample_entry 1; sample_entry 2] 2 0 0 ∅.

(** One role in two wanted: role 1 lacks 1.5 of three, above its threshold 1. *)
Definition half_params : Params :=
  mk_params (1056964608 :: 1056964608 :: replicate 6 F32.zero) (replicate 8 F32.one) F32.zero F32.one.

Lemma half_margins_comparable :
  let counts := count_roles 0 sample_table.(NT.entries_) in
  comparable (margin_of half_params counts.1 (F32.of_Z counts.2)) MAX_TRACKED_ROLES.
Proof.
  cbv zeta. intros r m Hr E.
  do 8 (destruct r as [|r]; [vm_compute in E; (discriminate E || (injection E as <-; reflexivity))|]).
  unfold MAX_TRACKED_ROLES in Hr. lia.
Qed.

Lemma role_switches_witness :
  exists s' reg' r', @tick Reg.gcc half_params new_state false sample_table sample_registry F32.one = Ok (s', reg') /\
    @Reg.get Reg.gcc RoleComponent _ reg' Reg.SELF_ENTITY = Ok r' /\ r' <> mk_role 0.
Proof.
  pose proof (@role_switches Reg.gcc half_params new_state false sample_table sample_registry F32.one (mk_role 0)
    ltac:(vm_compute; reflexivity) ltac:(cbn; lia)
    ltac:(repeat constructor; cbn; lia) ltac:(cbn; lia) eq_refl half_margins_comparable) as H.
  destruct H as (s' & reg' & r' & E & G & _ & _ & H & _).
  exists s', reg', r'. split; [exact E|]. split; [exact G|]. apply H. split; [vm_compute; reflexivity|].
  exists 1%nat, 1056964608. split; [|cbn; lia]. split; [unfold MAX_TRACKED_ROLES; lia|].
  split; [vm_compute; reflexivity|]. intros r m' Hr Er.
  do 8 (destruct r as [|r];
    [vm_compute in Er; (discriminate Er || (injection Er as <-; split; [vm_compute; reflexivity|lia]))|]).
  unfold MAX_TRACKED_ROLES in Hr. lia.
Defined.

End TA.
