(* ===== verification/ClockSync.v ===== *)
(** Clock synchronisation ([include/mith/systems/clock_sync_system.h],
    [src/systems/clock_sync_system.cpp]): the offset that draws the own synced time
    towards the mean of the neighbours', in steps of bounded size. *)

From S2P Require Import Prelude MachineInt Float32 Identity BoundedQueue Components Trace Scheduler.
From S2P Require Import NeighbourTable.
Local Open Scope Z_scope.


Module CS.

(* @src include/mith/systems/clock_sync_system.h:38-49 ClockSyncSystem::Params *)
Record Params := mk_params { adjustment_rate : Z; max_step_s : Z }.
(** [0.1f] and [1.0f]. *)
Definition default_params : Params := mk_params 1036831949 F32.one.

(* @src include/mith/systems/clock_sync_system.h:63-69 ClockSyncSystem *)
Record state := mk_cs { adjustments_ : Z; observations_ : Z }.
(* @src src/systems/clock_sync_system.cpp:12-18 ClockSyncSystem::ClockSyncSystem *)
Definition new_state : state := mk_cs 0 0.

(* @src src/systems/clock_sync_system.cpp:20-28 ClockSyncSystem::describe *)
Definition describe : Sched.SystemDescriptor :=
  Sched.mk_desc (codes "ClockSyncSystem") [] [] [Sched.NeighbourTableR] [].

(** The loop over the table: the sum of the gaps and their number. *)
(* @src src/systems/clock_sync_system.cpp:38-44 ClockSyncSystem::tick *)
Definition sum_gaps (my_sync : Z) (entries : list NT.Entry) : Z * Z :=
  fold_left (fun sn e => (F32.add sn.1 (F32.sub e.(NT.sync_time_s) my_sync), MI.u32 (sn.2 + 1)))
    entries (F32.zero, 0).

(** The correction, before the test that it is not zero. *)
(* @src src/systems/clock_sync_system.cpp:48-52 ClockSyncSystem::tick *)
Definition step_of (p : Params) (sum n : Z) : Z :=
  let mean_gap := F32.div sum (F32.of_Z n) in
  let step := F32.mul p.(adjustment_rate) mean_gap in
  if F32.gtb p.(max_step_s) F32.zero
  then F32.clamp step (F32.neg p.(max_step_s)) p.(max_step_s) else step.

(** [elapsed] and [offset] are the world's; their sum is [synced_time_s]. *)
(* @src src/systems/clock_sync_system.cpp:30-58 ClockSyncSystem::tick *)
Definition tick (p : Params) (s : state) (nt : NT.t) (elapsed offset : Z) : state * Z :=
  if F32.leb p.(adjustment_rate) F32.zero then (s, offset)
  else
    let my_sync := F32.add elapsed offset in
    let '(sum, n) := sum_gaps my_sync nt.(NT.entries_) in
    if n =? 0 then (s, offset)
    else
      let observations := MI.u64 (s.(observations_) + n) in
      let step := step_of p sum n in
      if F32.gtb (F32.abs step) F32.zero
      then (mk_cs (MI.u64 (s.(adjustments_) + 1)) observations, F32.add offset step)
      else (mk_cs s.(adjustments_) observations, offset).

Lemma sum_gaps_count my entries :
  Z.of_nat (length entries) < 2 ^ 32 -> (sum_gaps my entries).2 = Z.of_nat (length entries).
Proof.
  unfold sum_gaps. intros Hl.
  assert (forall sn, 0 <= sn.2 -> sn.2 + Z.of_nat (length entries) < 2 ^ 32 ->
    (fold_left (fun sn e => (F32.add sn.1 (F32.sub e.(NT.sync_time_s) my), MI.u32 (sn.2 + 1))) entries sn).2
    = sn.2 + Z.of_nat (length entries)) as G; [|by rewrite G].
  clear Hl. induction entries as [|e l IH]; intros sn H0 Hs; [cbn; lia|].
  cbn [fold_left length] in *. rewrite IH; cbn [snd]; rewrite MI.u32_id by (unfold MI.is_u32; lia); lia.
Qed.

(** C27: clock synchronisation.  With the adjustment disabled or no neighbour
    nothing changes.  Otherwise every neighbour counts as one observation, and the
    offset either stays or moves by one step, which counts as one adjustment; a
    step that is applied is never NaN, whatever clock values the neighbours
    announced, and with a positive limit it is at most the limit in size. *)
Theorem clock_step_bounded p s nt elapsed offset :
  let n := length nt.(NT.entries_) in
  let r := tick p s nt elapsed offset in
  let step := step_of p (sum_gaps (F32.add elapsed offset) nt.(NT.entries_)).1 (Z.of_nat n) in
  Z.of_nat n < 2 ^ 32 ->
  (F32.leb p.(adjustment_rate) F32.zero = true \/ n = 0%nat -> r = (s, offset)) /\
  (F32.leb p.(adjustment_rate) F32.zero = false -> n <> 0%nat ->
   r.1.(observations_) = MI.u64 (s.(observations_) + Z.of_nat n) /\
   ((r.2 = offset /\ r.1.(adjustments_) = s.(adjustments_)) \/
    (r.2 = F32.add offset step /\ r.1.(adjustments_) = MI.u64 (s.(adjustments_) + 1) /\
     F32.gtb (F32.abs step) F32.zero = true /\ F32.is_nan step = false /\
     (F32.gtb p.(max_step_s) F32.zero = true ->
      F32.leb (F32.neg p.(max_step_s)) step = true /\ F32.leb step p.(max_step_s) = true)))).
Proof.
  intros n r step Hn. unfold r, tick.
  pose proof (sum_gaps_count (F32.add elapsed offset) _ Hn) as E. fold n in E.
  destruct (F32.leb p.(adjustment_rate) F32.zero); [by split|].
  rewrite (surjective_pairing (sum_gaps _ _)), E. fold step. split.
  - intros [|H0]; [done|]. by rewrite H0.
  - intros _ H0. rewrite (proj2 (Z.eqb_neq _ 0)) by lia.
    destruct (F32.gtb (F32.abs step) F32.zero) eqn:G; cbn [fst snd observations_ adjustments_].
    + split; [done|]. right.
      assert (F32.is_nan step = false) as Hnan by (rewrite <- F32.is_nan_abs; by apply F32.ltb_not_nan in G as [_ ?]).
      split_and!; try done. intros Hm. unfold step, step_of in *. rewrite Hm in *. apply F32.clamp_in; [|by apply F32.leb_neg].
      destruct (F32.is_nan (F32.mul _ _)) eqn:N; [|done]. by rewrite F32.clamp_nan, N in Hnan.
    + split; [done|]. by left.
Qed.
(** A neighbour 40 seconds ahead moves the clock by the largest step. *)
Lemma clock_step_bounded_witness :
  let e := NT.mk_entry Id.nil_hid Comp.default_pos Comp.default_vel Comp.default_health Comp.default_role
    Comp.default_state 0 0 (F32.of_Z 40) in
  let nt := NT.mk_nt [e] 1 0 0 ∅ in
  (tick default_params new_state nt F32.zero F32.zero).1.(observations_) = 1 /\
  (tick default_params new_state nt F32.zero F32.zero).2 = F32.one.
Proof.
  cbv zeta. split; [|vm_compute; reflexivity].
  pose (nt := NT.mk_nt [NT.mk_entry Id.nil_hid Comp.default_pos Comp.default_vel Comp.default_health
    Comp.default_role Comp.default_state 0 0 (F32.of_Z 40)] 1 0 0 ∅).
  destruct (clock_step_bounded default_params new_state nt F32.zero F32.zero) as [_ H]; [cbn; lia|].
  destruct H as [H _]; [vm_compute; reflexivity|cbn; lia|exact H].
Defined.
End CS.
