(* ===== verification/PartitionMerge.v ===== *)
(** Partition-merge detection ([include/mith/systems/partition_merge_system.h],
    [src/systems/partition_merge_system.cpp]): a jump of the number of neighbours
    opens a window in which roles are not switched. *)

From S2P Require Import Prelude MachineInt Float32 Identity BoundedQueue Components Trace Scheduler.
From S2P Require Import NeighbourTable.
Local Open Scope Z_scope.


Module PM.

(* @src include/mith/systems/partition_merge_system.h:36-44 PartitionMergeSystem::Params *)
Record Params := mk_params { partition_heal_threshold : Z; merge_window_s : Z }.
Definition default_params : Params := mk_params 2 (F32.of_Z 2).

(* @src include/mith/systems/partition_merge_system.h:58-64 PartitionMergeSystem *)
Record state := mk_pm { last_peer_count_ : Z; heal_events_ : Z }.
(* @src src/systems/partition_merge_system.cpp:9-15 PartitionMergeSystem::PartitionMergeSystem *)
Definition new_state : state := mk_pm 0 0.

(* @src src/systems/partition_merge_system.cpp:17-25 PartitionMergeSystem::describe *)
Definition describe : Sched.SystemDescriptor :=
  Sched.mk_desc (codes "PartitionMergeSystem") [] [] [Sched.NeighbourTableR] [].

(** [window] is the world's merge window. *)
(* @src src/systems/partition_merge_system.cpp:27-48 PartitionMergeSystem::tick *)
Definition tick (p : Params) (s : state) (nt : NT.t) (window : Z) : state * Z :=
  let count := fold_left (fun c _ => MI.u32 (c + 1)) nt.(NT.entries_) 0 in
  if (s.(last_peer_count_) <? count) &&
     (p.(partition_heal_threshold) <=? MI.u32 (count - s.(last_peer_count_)))
  then (mk_pm count (MI.u64 (s.(heal_events_) + 1)), p.(merge_window_s))
  else (mk_pm count s.(heal_events_), window).

(** The peer counts a run of ticks sees, and the healings among them. *)
Definition run (p : Params) (s : state) (window : Z) (tables : list NT.t) : state * Z :=
  fold_left (fun sw nt => tick p sw.1 nt sw.2) tables (s, window).

Definition healed (p : Params) (last count : Z) : Prop :=
  last < count /\ p.(partition_heal_threshold) <= count - last.
#[global] Instance healed_dec p a b : Decision (healed p a b) := and_dec _ _.

Fixpoint healings (p : Params) (last : Z) (counts : list Z) : nat :=
  match counts with
  | [] => 0
  | c :: counts => (if decide (healed p last c) then 1 else 0) + healings p c counts
  end.

Definition counts_of (tables : list NT.t) : list Z := (fun nt => Z.of_nat (length nt.(NT.entries_))) <$> tables.

Lemma count_entries (l : list NT.Entry) :
  Z.of_nat (length l) < 2 ^ 32 -> fold_left (fun c _ => MI.u32 (c + 1)) l 0 = Z.of_nat (length l).
Proof.
  assert (forall c, 0 <= c -> c + Z.of_nat (length l) < 2 ^ 32 ->
    fold_left (fun c (_ : NT.Entry) => MI.u32 (c + 1)) l c = c + Z.of_nat (length l)) as G; [|intros; by rewrite G].
  induction l as [|e l IH]; intros c H0 Hs; [cbn; lia|].
  cbn [fold_left length] in *. rewrite IH; rewrite MI.u32_id by (unfold MI.is_u32; lia); lia.
Qed.

Lemma merge_tick_spec p s nt window :
  0 <= s.(last_peer_count_) -> Z.of_nat (length nt.(NT.entries_)) < 2 ^ 32 ->
  let count := Z.of_nat (length nt.(NT.entries_)) in
  tick p s nt window =
  if decide (healed p s.(last_peer_count_) count)
  then (mk_pm count (MI.u64 (s.(heal_events_) + 1)), p.(merge_window_s))
  else (mk_pm count s.(heal_events_), window).
Proof.
  intros H0 Hn count. unfold tick. rewrite count_entries by done. fold count.
  destruct (decide (healed p (last_peer_count_ s) count)) as [[H1 H2]|H].
  - rewrite (proj2 (Z.ltb_lt _ _)) by done. rewrite MI.u32_id by (unfold MI.is_u32; lia).
    by rewrite (proj2 (Z.leb_le _ _)).
  - destruct (Z.ltb_spec (last_peer_count_ s) count); [|done]. cbn [andb].
    rewrite MI.u32_id by (unfold MI.is_u32; lia).
    destruct (Z.leb_spec (partition_heal_threshold p) (count - last_peer_count_ s)); [|done].
    by destruct H.
Qed.

(** Partition-merge detection over any run of ticks on tables of fewer than
    2^32 entries.  The events counted are exactly the ticks at which the number of
    neighbours grew by at least the threshold since the previous tick; each of
    them sets the merge window to its full length, whatever was left of it, and no
    other tick touches it. *)
Theorem heal_detection p events last0 window tables :
  0 <= last0 -> MI.is_u64 events -> Forall (fun c => c < 2 ^ 32) (counts_of tables) ->
  let r := run p (mk_pm last0 events) window tables in
  r.1.(heal_events_) = MI.u64 (events + Z.of_nat (healings p last0 (counts_of tables))) /\
  r.1.(last_peer_count_) = default last0 (last (counts_of tables)) /\
  (healings p last0 (counts_of tables) = 0%nat -> r.2 = window) /\
  (healings p last0 (counts_of tables) <> 0%nat -> r.2 = p.(merge_window_s)).
Proof.
  intros H0 He Hc. revert events last0 window H0 He.
  induction tables as [|nt l IH]; intros events last0 window H0 He r.
  - cbn in *. rewrite Z.add_0_r, MI.u64_id by done. done.
  - cbn [counts_of fmap list_fmap] in Hc. apply Forall_cons in Hc as [Hn Hc].
    unfold r, run in *. cbn [fold_left fst snd]. rewrite merge_tick_spec by done. cbn [last_peer_count_].
    set (c := Z.of_nat (length (NT.entries_ nt))) in *.
    change (counts_of (nt :: l)) with (c :: counts_of l). cbn [healings].
    rewrite last_cons. replace (default last0 _) with (default c (last (counts_of l))) by by destruct (last (counts_of l)).
    destruct (decide (healed p last0 c)).
    + destruct (IH Hc (MI.u64 (events + 1)) c (merge_window_s p) ltac:(lia) (MI.u64_range _)) as (E1 & E2 & E3 & E4).
      cbn [heal_events_]. split_and!; [|done|done|].
      * rewrite E1. unfold MI.u64. rewrite Zplus_mod_idemp_l. f_equal. lia.
      * intros _. destruct (decide (healings p c (counts_of l) = 0%nat)); auto.
    + cbn [heal_events_]. apply IH; [done|lia|done].
Qed.

Lemma heal_detection_witness :
  let e := NT.mk_entry Id.nil_hid Comp.default_pos Comp.default_vel Comp.default_health Comp.default_role
    Comp.default_state 0 0 0 in
  let table n := NT.mk_nt (replicate n e) 0 0 0 ∅ in
  let r := run default_params (mk_pm 0 0) 0 [table 1%nat; table 3%nat; table 1%nat; table 2%nat] in
  r.1.(heal_events_) = 1 /\ r.2 = F32.of_Z 2.
Proof.
  cbv zeta.
  pose (table := fun n => NT.mk_nt (replicate n (NT.mk_entry Id.nil_hid Comp.default_pos Comp.default_vel
    Comp.default_health Comp.default_role Comp.default_state 0 0 0)) 0 0 0 ∅).
  destruct (heal_detection default_params 0 0 0 [table 1%nat; table 3%nat; table 1%nat; table 2%nat])
    as (H1 & _ & _ & H2).
  - lia.
  - unfold MI.is_u64; lia.
  - repeat constructor; cbn; lia.
  - split; [exact H1|apply H2; vm_compute; discriminate].
Defined.
End PM.
