(* ===== verification/Transport.v ===== *)
(** The transport interface ([include/mith/comms/transport.h]).

    The virtual classes [BeaconTransport] and [MessageTransport] are a type class
    over the handles [H] of transport objects and the environment [E] they act on
    (sockets, or the other worlds of a simulation).  A simulated transport reads the
    position of the sending world, so that the sends are given its registry. *)

From S2P Require Import Prelude MachineInt Float32 Identity BoundedQueue Components Trace Scheduler.
From S2P Require Import Registry.
Local Open Scope Z_scope.

Module Net.
Import Comp.

(* @src include/mith/comms/transport.h:37-70 BeaconTransport and MessageTransport *)
Class Transports (H E : Type) := {
  supports_beacons : H -> bool;
  supports_messages : H -> bool;
  send_beacon : H -> Reg.t -> StateVector -> E -> outcome (E * bool);
  send_message : H -> Reg.t -> Message -> E -> outcome (E * bool);
  poll_beacons : H -> E -> E * list StateVector;
  poll_messages : H -> E -> E * list Message;
}.

(** What sends may read of the sender's registry: its position, if
    [sends_read_position] says so, and nothing else. *)
Class Sends (H E : Type) `{!Transports H E} `{!Reg.Toolchain} := {
  sends_read_position : bool;
  send_beacon_reads : forall h r r' sv e,
    (sends_read_position = true ->
     Reg.get PositionComponent r Reg.SELF_ENTITY = Reg.get PositionComponent r' Reg.SELF_ENTITY) ->
    send_beacon h r sv e = send_beacon h r' sv e;
  send_message_reads : forall h r r' m e,
    (sends_read_position = true ->
     Reg.get PositionComponent r Reg.SELF_ENTITY = Reg.get PositionComponent r' Reg.SELF_ENTITY) ->
    send_message h r m e = send_message h r' m e;
}.

(** A transport that records what is sent and hands out what was put into its
    inboxes: for the examples. *)
Record wire := mk_wire {
  sent_beacons : list StateVector;
  sent_messages : list Message;
  in_beacons : list StateVector;
  in_messages : list Message;
}.
#[export] Instance wire_transports : Transports unit wire := {|
  supports_beacons _ := true;
  supports_messages _ := true;
  send_beacon _ _ sv e :=
    Ok (mk_wire (e.(sent_beacons) ++ [sv]) e.(sent_messages) e.(in_beacons) e.(in_messages), true);
  send_message _ _ m e :=
    Ok (mk_wire e.(sent_beacons) (e.(sent_messages) ++ [m]) e.(in_beacons) e.(in_messages), true);
  poll_beacons _ e := (mk_wire e.(sent_beacons) e.(sent_messages) [] e.(in_messages), e.(in_beacons));
  poll_messages _ e := (mk_wire e.(sent_beacons) e.(sent_messages) e.(in_beacons) [], e.(in_messages));
|}.
#[export, refine] Instance wire_sends `{!Reg.Toolchain} : Sends unit wire := {| sends_read_position := false |}.
Proof. all: done. Defined.
Definition empty_wire : wire := mk_wire [] [] [] [].

End Net.
