(* ===== verification/Actions.v ===== *)
(** Actions: the validator and the built-in handlers
    ([include/mith/behaviour/action_validator_system.h],
    [src/behaviour/action_validator_system.cpp],
    [include/mith/behaviour/builtin_action_handlers.h],
    [src/behaviour/builtin_action_handlers.cpp]).

    The validator drains the action queue into the validated buffer; the handlers
    read that buffer in the same tick.  The specification of the pair is
    [accepted]: the queued actions the mask allows, in order. *)

From S2P Require Import Prelude MachineInt Float32 Identity BoundedQueue Components Trace Scheduler.
From S2P Require Import Registry Transport.
Local Open Scope Z_scope.

Module Act.
Import Comp.

(** ** The validator *)

(* @src src/behaviour/action_validator_system.cpp:17-28 action_name *)
Definition action_name (t : Z) : list Z :=
  if t =? IDLE then codes "IDLE" else if t =? MOVE then codes "MOVE"
  else if t =? HOVER then codes "HOVER" else if t =? TRANSMIT then codes "TRANSMIT"
  else if t =? SCAN then codes "SCAN" else if t =? REGROUP then codes "REGROUP"
  else if t =? FOLLOW then codes "FOLLOW"
  else if CUSTOM_ACTION <=? t then codes "custom" else codes "reserved".

(* @src src/behaviour/action_validator_system.cpp:36-48 ActionValidatorSystem::describe *)
Definition describe_validator `{!Reg.Toolchain} : Sched.SystemDescriptor :=
  Sched.mk_desc (codes "ActionValidatorSystem")
    [Reg.component_id Reg.TPermissionMask] [Reg.component_id Reg.TActionQueue] [] [].

(* @src src/behaviour/action_validator_system.cpp:78-86 ActionValidatorSystem::tick *)
Definition rejected_event (a : Action) (tick : Z) : Tr.TraceEvent :=
  Tr.mk_event Tr.Warn (codes "action_rejected")
    [Tr.mk_field (codes "action_type") (Tr.FStr (action_name a.(a_type)));
     Tr.mk_field (codes "reason") (Tr.FStr (codes "permission_mask"));
     Tr.mk_field (codes "tick") (Tr.FU64 tick)].

(** What one popped action does to the component and the trace. *)
(* @src src/behaviour/action_validator_system.cpp:66-87 ActionValidatorSystem::tick *)
Definition validate (mask : PermissionMaskComponent) (tick : Z) (sink : bool) (a : Action)
    (aq : ActionQueueComponent) : ActionQueueComponent * list Tr.TraceEvent :=
  if allows mask a.(a_type) then
    (if aq.(validated_count) <? Z.of_nat AQ_CAPACITY then
       mk_aq aq.(aq_queue) aq.(permission_rejections_total) aq.(last_rejection_tick)
         (<[Z.to_nat aq.(validated_count) := a]> aq.(validated)) (MI.u8 (aq.(validated_count) + 1))
     else aq, [])
  else
    (mk_aq aq.(aq_queue) (MI.u32 (aq.(permission_rejections_total) + 1)) tick
       aq.(validated) aq.(validated_count),
     if sink then [rejected_event a tick] else []).

(** The draining loop; [fuel] bounds its turns. *)
(* @src src/behaviour/action_validator_system.cpp:65-88 ActionValidatorSystem::tick *)
Fixpoint drain (fuel : nat) (mask : PermissionMaskComponent) (tick : Z) (sink : bool)
    (aq : ActionQueueComponent) : option (ActionQueueComponent * list Tr.TraceEvent) :=
  match fuel with
  | O => None
  | S fuel =>
      match BQ.pop default_action AQ_CAPACITY aq.(aq_queue) with
      | (q, None) => Some (aq, [])
      | (q, Some a) =>
          let '(aq, ev) := validate mask tick sink a
            (mk_aq q aq.(permission_rejections_total) aq.(last_rejection_tick) aq.(validated)
               aq.(validated_count)) in
          r ← drain fuel mask tick sink aq; Some (r.1, ev ++ r.2)
      end
  end.

(* @src src/behaviour/action_validator_system.cpp:50-89 ActionValidatorSystem::tick *)
Definition tick_validator `{!Reg.Toolchain} (sink : bool) (ctx : Sched.SwarmContext) (registry : Reg.t)
    : outcome (Reg.t * list Tr.TraceEvent) :=
  let! aq := Reg.get ActionQueueComponent registry Reg.SELF_ENTITY in
  let! mask := Reg.get PermissionMaskComponent registry Reg.SELF_ENTITY in
  let aq := mk_aq aq.(aq_queue) aq.(permission_rejections_total) aq.(last_rejection_tick)
              aq.(validated) 0 in
  match drain (S aq.(aq_queue).(BQ.size_)) mask ctx.(Sched.tick_count) sink aq with
  | None => Undefined "the draining loop does not end"
  | Some (aq, ev) => let! registry := Reg.set registry Reg.SELF_ENTITY aq in Ok (registry, ev)
  end.

(** ** The handlers *)

(* @src src/behaviour/builtin_action_handlers.cpp:18-23 read_u32_le *)
Definition read_u32_le (params : list Z) (p : nat) : Z := MI.get_u32 params p.
(* @src src/behaviour/builtin_action_handlers.cpp:24-29 read_f32_le *)
Definition read_f32_le (params : list Z) (p : nat) : Z := read_u32_le params p.

(** The entries the handlers' loops visit. *)
Definition visited (aq : ActionQueueComponent) : list Action :=
  (fun i => nth i aq.(validated) default_action) <$> seq 0 (Z.to_nat aq.(validated_count)).

(* @src src/behaviour/builtin_action_handlers.cpp:38-46 MoveActionHandler::describe *)
Definition describe_move `{!Reg.Toolchain} : Sched.SystemDescriptor :=
  Sched.mk_desc (codes "MoveActionHandler")
    [Reg.component_id Reg.TActionQueue] [Reg.component_id Reg.TVelocity] [] [].

(** One turn of the loop, on the velocity and [handled_]. *)
(* @src src/behaviour/builtin_action_handlers.cpp:55-62 MoveActionHandler::tick *)
Definition move_step (vh : VelocityComponent * Z) (a : Action) : VelocityComponent * Z :=
  if negb (a.(a_type) =? MOVE) then vh
  else (mk_vel (read_f32_le a.(a_params) 0) (read_f32_le a.(a_params) 4) (read_f32_le a.(a_params) 8),
        MI.u64 (vh.2 + 1)).

(* @src src/behaviour/builtin_action_handlers.cpp:48-63 MoveActionHandler::tick *)
Definition tick_move `{!Reg.Toolchain} (handled_ : Z) (registry : Reg.t) : outcome (Z * Reg.t) :=
  let! aq := Reg.get ActionQueueComponent registry Reg.SELF_ENTITY in
  let! vel := Reg.get VelocityComponent registry Reg.SELF_ENTITY in
  let '(vel, handled_) := fold_left move_step (visited aq) (vel, handled_) in
  let! registry := Reg.set registry Reg.SELF_ENTITY vel in
  Ok (handled_, registry).

(* @src src/behaviour/builtin_action_handlers.cpp:121-129 HoverActionHandler::describe *)
Definition describe_hover `{!Reg.Toolchain} : Sched.SystemDescriptor :=
  Sched.mk_desc (codes "HoverActionHandler") [Reg.component_id Reg.TActionQueue] [] [] [].

(* @src src/behaviour/builtin_action_handlers.cpp:131-143 HoverActionHandler::tick *)
Definition tick_hover `{!Reg.Toolchain} (handled_ : Z) (registry : Reg.t) : outcome Z :=
  let! aq := Reg.get ActionQueueComponent registry Reg.SELF_ENTITY in
  Ok (fold_left (fun h a =>
        if (a.(a_type) =? IDLE) || (a.(a_type) =? HOVER) then MI.u64 (h + 1) else h) (visited aq) handled_).

(* @src src/behaviour/builtin_action_handlers.cpp:71-79 TransmitActionHandler::describe *)
Definition describe_transmit `{!Reg.Toolchain} : Sched.SystemDescriptor :=
  Sched.mk_desc (codes "TransmitActionHandler")
    [Reg.component_id Reg.TActionQueue] [] [] [Sched.TransportTx].

(** The message an action asks to send; the parameters past the header go to the
    front of the payload. *)
(* @src src/behaviour/builtin_action_handlers.cpp:96-109 TransmitActionHandler::tick *)
Definition message_of (self_hid : Id.HierarchicalID) (synced_time : Z) (a : Action) : Message :=
  mk_message self_hid a.(a_target) (read_u32_le a.(a_params) 0) (read_u32_le a.(a_params) 4) synced_time
    (write_at (replicate PAYLOAD_SIZE 0) 0 (slice 8 (PARAMS_SIZE - 8) a.(a_params))).

Section Transmit.
Context {H E : Type} `{!Net.Transports H E} `{!Reg.Toolchain}.

(* @src src/behaviour/builtin_action_handlers.cpp:92-113 TransmitActionHandler::tick *)
Fixpoint transmit_loop (h : H) (registry : Reg.t) (self_hid : Id.HierarchicalID) (synced_time : Z)
    (l : list Action) (handled_ : Z) (env : E) : outcome (Z * E) :=
  match l with
  | [] => Ok (handled_, env)
  | a :: l =>
      if negb (a.(a_type) =? TRANSMIT) then transmit_loop h registry self_hid synced_time l handled_ env
      else
        let! (env, _) := Net.send_message h registry (message_of self_hid synced_time a) env in
        transmit_loop h registry self_hid synced_time l (MI.u64 (handled_ + 1)) env
  end.

(** [h] is the message transport captured on construction, [synced_time] the
    world's. *)
(* @src src/behaviour/builtin_action_handlers.cpp:81-114 TransmitActionHandler::tick *)
Definition tick_transmit (h : option H) (handled_ synced_time : Z) (registry : Reg.t) (env : E)
    : outcome (Z * E) :=
  let! aq := Reg.get ActionQueueComponent registry Reg.SELF_ENTITY in
  match h with
  | None => Ok (handled_, env)
  | Some h =>
      if negb (Net.supports_messages h) then Ok (handled_, env)
      else
        let! i := Reg.get IdentityComponent registry Reg.SELF_ENTITY in
        transmit_loop h registry i.(ic_id) synced_time (visited aq) handled_ env
  end.
End Transmit.

(** ** The specification *)

(** The queued actions the mask allows, and the others. *)
Definition queued (aq : ActionQueueComponent) : list Action :=
  BQ.contents default_action AQ_CAPACITY aq.(aq_queue).
Definition accepted (m : PermissionMaskComponent) (l : list Action) : list Action :=
  filter (fun a => allows m a.(a_type) = true) l.
Definition refused (m : PermissionMaskComponent) (l : list Action) : list Action :=
  filter (fun a => allows m a.(a_type) = false) l.

Record wf_aq (aq : ActionQueueComponent) : Prop := {
  wfa_queue : BQ.wf AQ_CAPACITY aq.(aq_queue);
  wfa_validated : length aq.(validated) = AQ_CAPACITY;
  wfa_count : 0 <= aq.(validated_count) <= Z.of_nat AQ_CAPACITY;
  wfa_total : MI.is_u32 aq.(permission_rejections_total);
}.

Lemma visited_take aq : wf_aq aq -> visited aq = take (Z.to_nat aq.(validated_count)) aq.(validated).
Proof.
  intros [_ Hl Hc _]. unfold visited, AQ_CAPACITY in *. apply list_eq. intros i.
  rewrite list_lookup_fmap. destruct (decide (i < Z.to_nat (validated_count aq))%nat) as [Hi|Hi].
  - rewrite lookup_seq_lt, lookup_take_lt by done. cbn [fmap option_fmap option_map Nat.add].
    destruct (lookup_lt_is_Some_2 (validated aq) i) as [a Ea]; [lia|].
    by rewrite Ea, nth_lookup, Ea.
  - rewrite lookup_take_ge by lia. rewrite (lookup_ge_None_2 (seq _ _)) by len. done.
Qed.

(** One validated action. *)
Lemma validate_spec m tick sink a aq :
  wf_aq aq -> (Z.to_nat aq.(validated_count) < AQ_CAPACITY)%nat ->
  let r := validate m tick sink a aq in
  wf_aq r.1 /\ r.1.(aq_queue) = aq.(aq_queue) /\
  visited r.1 = visited aq ++ accepted m [a] /\
  r.1.(permission_rejections_total) =
    MI.u32 (aq.(permission_rejections_total) + Z.of_nat (length (refused m [a]))) /\
  r.1.(last_rejection_tick) = (if decide (refused m [a] = []) then aq.(last_rejection_tick) else tick) /\
  r.2 = (if sink then (fun a => rejected_event a tick) <$> refused m [a] else []) /\
  r.1.(validated_count) = aq.(validated_count) + Z.of_nat (length (accepted m [a])).
Proof.
  intros W Hc r. pose proof W as [Wq Wv Wc Wt]. unfold AQ_CAPACITY in *.
  unfold r, validate, accepted, refused. rewrite !filter_cons, !filter_nil.
  destruct (allows m (a_type a)) eqn:Ea; cbn [fst snd].
  - rewrite decide_True, decide_False by done. cbn [length Z.of_nat].
    rewrite (proj2 (Z.ltb_lt _ _)) by (unfold AQ_CAPACITY; lia).
    assert (MI.u8 (validated_count aq + 1) = validated_count aq + 1) as Eu
      by (apply MI.u8_id; unfold MI.is_u8; lia).
    assert (wf_aq (mk_aq (aq_queue aq) (permission_rejections_total aq) (last_rejection_tick aq)
       (<[Z.to_nat (validated_count aq):=a]> (validated aq)) (validated_count aq + 1))) as W'.
    { constructor; cbn; unfold AQ_CAPACITY; [done|by rewrite length_insert|lia|done]. }
    rewrite Eu. split_and!; try done.
    + rewrite !visited_take by done. cbn [validated validated_count].
      replace (Z.to_nat (validated_count aq + 1)) with (S (Z.to_nat (validated_count aq))) by lia.
      erewrite take_S_r by (apply list_lookup_insert_eq; lia).
      by rewrite take_insert_ge by lia.
    + cbn. by rewrite Z.add_0_r, MI.u32_id.
    + by destruct sink.
  - rewrite decide_False, decide_True by done. cbn [length Z.of_nat].
    split_and!; try done.
    + constructor; cbn; [done..|apply MI.u32_range].
    + by rewrite app_nil_r.
    + cbn. lia.
Qed.

(** Taking the front of the queue. *)
Lemma pop_cases (q : BQ.t Action) :
  BQ.wf AQ_CAPACITY q ->
  match BQ.contents default_action AQ_CAPACITY q with
  | [] => BQ.pop default_action AQ_CAPACITY q = (q, None)
  | a :: l => exists q', BQ.pop default_action AQ_CAPACITY q = (q', Some a) /\ BQ.wf AQ_CAPACITY q' /\
      BQ.contents default_action AQ_CAPACITY q' = l
  end.
Proof.
  assert (0 < AQ_CAPACITY)%nat as HN by (unfold AQ_CAPACITY; lia).
  intros W. pose proof (BQ.pop_refines default_action AQ_CAPACITY HN q W) as R.
  pose proof (BQ.pop_wf default_action AQ_CAPACITY HN q W) as W'.
  destruct (BQ.pop default_action AQ_CAPACITY q) as [q' o] eqn:E. cbn [fst snd] in *.
  unfold BQ.abs, BQ.spec_pop in R. cbn [BQ.items] in R.
  destruct (BQ.contents default_action AQ_CAPACITY q) as [|a l] eqn:Ec.
  - injection R as _ _ ->. f_equal. revert E. unfold BQ.pop. destruct (_ =? 0)%nat; [by intros [= ->]|done].
  - injection R as <- _ ->. by exists q'.
Qed.

Lemma accepted_cons m a l : accepted m (a :: l) = accepted m [a] ++ accepted m l.
Proof. unfold accepted. rewrite !filter_cons. by case_decide. Qed.
Lemma refused_cons m a l : refused m (a :: l) = refused m [a] ++ refused m l.
Proof. unfold refused. rewrite !filter_cons. by case_decide. Qed.
Lemma length_accepted m l : (length (accepted m l) <= length l)%nat.
Proof. apply length_filter. Qed.

(** What draining computes. *)
Definition drained (m : PermissionMaskComponent) (tick : Z) (sink : bool) (l : list Action)
    (aq aq' : ActionQueueComponent) (ev : list Tr.TraceEvent) : Prop :=
  wf_aq aq' /\ queued aq' = [] /\ visited aq' = visited aq ++ accepted m l /\
  aq'.(permission_rejections_total) =
    MI.u32 (aq.(permission_rejections_total) + Z.of_nat (length (refused m l))) /\
  aq'.(last_rejection_tick) = (if decide (refused m l = []) then aq.(last_rejection_tick) else tick) /\
  ev = (if sink then (fun a => rejected_event a tick) <$> refused m l else []).

Lemma drain_spec m tick sink l : forall fuel aq,
  wf_aq aq -> queued aq = l -> (length l < fuel)%nat ->
  (Z.to_nat aq.(validated_count) + length l <= AQ_CAPACITY)%nat ->
  exists aq' ev, drain fuel m tick sink aq = Some (aq', ev) /\ drained m tick sink l aq aq' ev.
Proof.
  induction l as [|a l IH]; intros fuel aq W Hq Hf Hc; (destruct fuel as [|fuel]; [cbn in Hf; lia|]).
  - pose proof (pop_cases (aq_queue aq) (wfa_queue _ W)) as P. unfold queued in Hq. rewrite Hq in P.
    cbn [drain]. rewrite P. do 2 eexists. split; [done|]. unfold drained, accepted, refused. rewrite !filter_nil.
    split_and!; try done; [by rewrite app_nil_r| |by destruct sink].
    cbn. rewrite Z.add_0_r, MI.u32_id; [done|apply W].
  - pose proof (pop_cases (aq_queue aq) (wfa_queue _ W)) as P. unfold queued in Hq. rewrite Hq in P.
    destruct P as (q' & P & Wq & Cq). cbn [drain]. rewrite P.
    set (aq0 := mk_aq q' _ _ _ _).
    assert (wf_aq aq0) as W0 by (destruct W; by constructor).
    assert (visited aq0 = visited aq) as V0 by done.
    cbn [length] in *.
    destruct (validate_spec m tick sink a aq0 W0) as (W1 & Q1 & V1 & T1 & L1 & E1 & C1); [cbn; lia|].
    destruct (validate m tick sink a aq0) as [aq1 ev1]. cbn [fst snd] in *.
    pose proof (length_accepted m [a]) as La. cbn [length] in La.
    destruct (IH fuel aq1 W1) as (aq2 & ev2 & E2 & W2 & Q2 & V2 & T2 & L2 & EV2).
    { unfold queued. rewrite Q1. exact Cq. }
    { lia. }
    { rewrite C1. pose proof (wfa_count _ W0). cbn [validated_count aq0] in *. lia. }
    rewrite E2. cbn. do 2 eexists. split; [done|]. unfold drained.
    rewrite accepted_cons, refused_cons. split_and!; try done.
    + by rewrite V2, V1, app_assoc, V0.
    + rewrite T2, T1. unfold MI.u32. rewrite Zplus_mod_idemp_l, length_app. f_equal. cbn. lia.
    + rewrite L2, L1. repeat case_decide as C; try done; destruct (refused m [a]), (refused m l); done.
    + rewrite E1, EV2. destruct sink; [by rewrite fmap_app|done].
Qed.

Lemma tick_validator_spec `{!Reg.Toolchain} sink ctx reg aq mask :
  Reg.get ActionQueueComponent reg Reg.SELF_ENTITY = Ok aq -> wf_aq aq ->
  Reg.get PermissionMaskComponent reg Reg.SELF_ENTITY = Ok mask ->
  exists reg' aq' ev, tick_validator sink ctx reg = Ok (reg', ev) /\
    Reg.get ActionQueueComponent reg' Reg.SELF_ENTITY = Ok aq' /\
    drained mask ctx.(Sched.tick_count) sink (queued aq)
      (mk_aq aq.(aq_queue) aq.(permission_rejections_total) aq.(last_rejection_tick) aq.(validated) 0) aq' ev /\
    forall (U : Type) (HU : Reg.Component U) (u : U), Reg.ctype_of U <> Reg.TActionQueue ->
      Reg.get U reg Reg.SELF_ENTITY = Ok u -> Reg.get U reg' Reg.SELF_ENTITY = Ok u.
Proof.
  intros Ga W Gm. unfold tick_validator. rewrite Ga, Gm. cbn [obind].
  set (aq0 := mk_aq _ _ _ _ 0).
  assert (wf_aq aq0) as W0 by (destruct W; constructor; cbn; [done..|unfold AQ_CAPACITY; lia|done]).
  assert (length (queued aq) = aq.(aq_queue).(BQ.size_)) as Hl by apply BQ.length_contents.
  destruct (drain_spec mask ctx.(Sched.tick_count) sink (queued aq) (S aq.(aq_queue).(BQ.size_)) aq0 W0)
    as (aq' & ev & E & D); [done|lia| |].
  { cbn. rewrite Hl. apply (BQ.wf_size _ _ (wfa_queue _ W)). }
  change (aq_queue aq0) with (aq_queue aq). rewrite E.
  destruct (Reg.set_ok reg aq aq' Ga) as (reg' & -> & _ & G' & F). cbn [obind].
  exists reg', aq', ev. split_and!; try done.
Qed.

(** The last action of a type in a list. *)
Definition of_type (t : Z) (l : list Action) : list Action := filter (fun a => a.(a_type) = t) l.
Definition move_effect (vel : VelocityComponent) (l : list Action) : VelocityComponent :=
  match last (of_type MOVE l) with
  | None => vel
  | Some a => mk_vel (MI.get_u32 a.(a_params) 0) (MI.get_u32 a.(a_params) 4) (MI.get_u32 a.(a_params) 8)
  end.

Lemma fold_move l vel h :
  MI.is_u64 h ->
  fold_left move_step l (vel, h) = (move_effect vel l, MI.u64 (h + Z.of_nat (length (of_type MOVE l)))).
Proof.
  intros Hh. induction l as [|a l IH] using rev_ind; [cbn; by rewrite Z.add_0_r, MI.u64_id|].
  rewrite fold_left_app, IH. cbn [fold_left]. unfold move_step, move_effect, of_type.
  rewrite filter_app, filter_cons, filter_nil.
  destruct (Z.eqb_spec (a_type a) MOVE) as [E|E]; cbn [negb].
  - rewrite decide_True, last_snoc, length_app by done. cbn [length snd]. f_equal.
    unfold MI.u64. rewrite Zplus_mod_idemp_l. f_equal. lia.
  - by rewrite decide_False, app_nil_r.
Qed.

Lemma fold_hover l h :
  MI.is_u64 h ->
  fold_left (fun h a => if (a.(a_type) =? IDLE) || (a.(a_type) =? HOVER) then MI.u64 (h + 1) else h) l h =
  MI.u64 (h + Z.of_nat (length (filter (fun a => a.(a_type) = IDLE \/ a.(a_type) = HOVER) l))).
Proof.
  intros Hh. induction l as [|a l IH] using rev_ind; [cbn; by rewrite Z.add_0_r, MI.u64_id|].
  rewrite fold_left_app, IH, filter_app, filter_cons, filter_nil. cbn [fold_left].
  destruct (decide (a_type a = IDLE \/ a_type a = HOVER)) as [D|D].
  - assert ((a_type a =? IDLE) || (a_type a =? HOVER) = true) as -> by (rewrite orb_true_iff, !Z.eqb_eq; done).
    rewrite length_app. cbn [length]. unfold MI.u64. rewrite Zplus_mod_idemp_l. f_equal. lia.
  - assert ((a_type a =? IDLE) || (a_type a =? HOVER) = false) as -> by (rewrite orb_false_iff, !Z.eqb_neq; tauto).
    by rewrite app_nil_r.
Qed.

(** The messages a list of actions sends, one after the other. *)
Fixpoint send_all {H E} `{!Net.Transports H E} (h : H) (reg : Reg.t) (ms : list Message) (env : E) : outcome E :=
  match ms with
  | [] => Ok env
  | m :: ms => let! (env, _) := Net.send_message h reg m env in send_all h reg ms env
  end.

Lemma transmit_spec {H E} `{!Net.Transports H E} `{!Reg.Toolchain} (h : H) reg id t l n env :
  MI.is_u64 n ->
  transmit_loop h reg id t l n env =
  let! env := send_all h reg (message_of id t <$> of_type TRANSMIT l) env in
  Ok (MI.u64 (n + Z.of_nat (length (of_type TRANSMIT l))), env).
Proof.
  revert n env. induction l as [|a l IH]; intros n env Hn; [cbn; by rewrite Z.add_0_r, MI.u64_id|].
  cbn [transmit_loop]. unfold of_type in *. rewrite filter_cons.
  destruct (Z.eqb_spec (a_type a) TRANSMIT) as [Ea|Ea]; cbn [negb].
  - rewrite decide_True by done. cbn [fmap list_fmap send_all length].
    destruct (Net.send_message h reg (message_of id t a) env) as [[env' b]| |]; cbn [obind]; try done.
    rewrite IH by apply MI.u64_range. destruct (send_all _ _ _ _); cbn [obind]; try done. do 2 f_equal.
    unfold MI.u64. rewrite Zplus_mod_idemp_l. f_equal. lia.
  - rewrite decide_False by done. by apply IH.
Qed.

(** C28: the action pipeline, for every well-formed queue and every mask: a
    validator's tick always ends with the queue empty, the validated actions being
    exactly the queued ones the mask allows, in order, and with every refused one
    counted and traced (if there is a sink).  The handlers then act on exactly
    those: the velocity is that of the last permitted MOVE (unchanged without one),
    the messages sent are those of the permitted TRANSMITs in order, and each
    handler's counter grows by the number of its actions.  So a forbidden action
    has no effect. *)
Theorem forbidden_actions_have_no_effect {H E} `{!Net.Transports H E} {TC : Reg.Toolchain}
    sink ctx reg aq mask vel idc (h : H) (env : E) n synced :
  Reg.get ActionQueueComponent reg Reg.SELF_ENTITY = Ok aq -> wf_aq aq ->
  Reg.get PermissionMaskComponent reg Reg.SELF_ENTITY = Ok mask ->
  Reg.get VelocityComponent reg Reg.SELF_ENTITY = Ok vel ->
  Reg.get IdentityComponent reg Reg.SELF_ENTITY = Ok idc ->
  MI.is_u64 n ->
  let allowed := accepted mask (queued aq) in
  exists reg1 aq1,
    tick_validator sink ctx reg = Ok (reg1,
      if sink then (fun a => rejected_event a ctx.(Sched.tick_count)) <$> refused mask (queued aq) else []) /\
    Reg.get ActionQueueComponent reg1 Reg.SELF_ENTITY = Ok aq1 /\ wf_aq aq1 /\
    queued aq1 = [] /\ visited aq1 = allowed /\
    aq1.(permission_rejections_total) =
      MI.u32 (aq.(permission_rejections_total) + Z.of_nat (length (refused mask (queued aq)))) /\
    (exists reg2, tick_move n reg1 = Ok (MI.u64 (n + Z.of_nat (length (of_type MOVE allowed))), reg2) /\
       Reg.get VelocityComponent reg2 Reg.SELF_ENTITY = Ok (move_effect vel allowed)) /\
    tick_hover n reg1 = Ok (MI.u64 (n + Z.of_nat (length
      (filter (fun a => a.(a_type) = IDLE \/ a.(a_type) = HOVER) allowed)))) /\
    (Net.supports_messages h = true ->
     tick_transmit (Some h) n synced reg1 env =
       let! env := send_all h reg1 (message_of idc.(ic_id) synced <$> of_type TRANSMIT allowed) env in
       Ok (MI.u64 (n + Z.of_nat (length (of_type TRANSMIT allowed))), env)).
Proof.
  intros Ga W Gm Gv Gi Hn allowed.
  destruct (tick_validator_spec sink ctx reg aq mask Ga W Gm) as (reg1 & aq1 & ev & Et & G1 & D & F).
  destruct D as (W1 & Q1 & V1 & T1 & _ & EV). rewrite EV in Et.
  change (visited aq1 = allowed) in V1.
  exists reg1, aq1. split_and!; try done.
  - unfold tick_move. rewrite G1, (F _ _ vel) by done. cbn [obind]. rewrite V1, fold_move by done.
    destruct (Reg.set_ok reg1 vel (move_effect vel allowed)) as (reg2 & -> & _ & G2 & _); [by apply F|].
    by exists reg2.
  - unfold tick_hover. rewrite G1. cbn [obind]. by rewrite V1, fold_hover.
  - intros Hs. unfold tick_transmit. rewrite G1, Hs, (F _ _ idc) by done. cbn [obind negb].
    by rewrite V1, transmit_spec.
Qed.

(** A queue of a MOVE, a TRANSMIT and a FOLLOW under a mask that forbids MOVE. *)
Definition action (t : Z) : Action :=
  mk_action t F32.zero (replicate MAX_MODIFIES 0) 0 (replicate PARAMS_SIZE 1) Id.nil_hid.
Definition sample_queue : BQ.t Action :=
  fold_left (fun q t => (BQ.push AQ_CAPACITY BQ.DropNewest (action t) q).1) [MOVE; TRANSMIT; FOLLOW]
    (BQ.empty_queue default_action AQ_CAPACITY).
Definition sample_aq : ActionQueueComponent :=
  mk_aq sample_queue 0 0 (replicate AQ_CAPACITY default_action) 0.
Definition sample_mask : PermissionMaskComponent := mk_mask 4294967293 true.

Definition put {T} {HT : Reg.Component T} (c : T) (r : Reg.t) : Reg.t :=
  let r := (@Reg.register_builtin_component Reg.gcc r T HT).1.1 in
  match @Reg.emplace Reg.gcc T HT r Reg.SELF_ENTITY c with Ok r => r | _ => r end.
Definition sample_registry : Reg.t :=
  put sample_aq (put sample_mask (put default_vel (put default_identity (Reg.new_registry Reg.Open)))).

Lemma sample_aq_wf : wf_aq sample_aq.
Proof.
  constructor; [|reflexivity|cbn; unfold AQ_CAPACITY; lia|unfold MI.is_u32; cbn; lia].
  unfold sample_aq, sample_queue. cbn [aq_queue fold_left].
  assert (0 < AQ_CAPACITY)%nat as HN by (unfold AQ_CAPACITY; lia).
  do 3 apply (BQ.push_wf AQ_CAPACITY BQ.DropNewest HN). apply (BQ.empty_wf default_action AQ_CAPACITY HN).
Qed.

Lemma forbidden_actions_have_no_effect_witness :
  exists reg1, @tick_validator Reg.gcc true (Sched.mk_ctx 1 0 0 3) sample_registry =
    Ok (reg1, [rejected_event (action MOVE) 3]) /\
    @tick_hover Reg.gcc 5 reg1 = Ok 5.
Proof.
  pose proof (@forbidden_actions_have_no_effect unit Net.wire Net.wire_transports Reg.gcc true
    (Sched.mk_ctx 1 0 0 3) sample_registry sample_aq sample_mask default_vel default_identity tt Net.empty_wire 5 0
    ltac:(vm_compute; reflexivity) sample_aq_wf ltac:(vm_compute; reflexivity) ltac:(vm_compute; reflexivity)
    ltac:(vm_compute; reflexivity) ltac:(unfold MI.is_u64; lia)) as H.
  cbv zeta in H. destruct H as (reg1 & aq1 & E & _ & _ & _ & _ & _ & _ & Hh & _).
  exists reg1. split; [exact E|exact Hh].
Defined.

End Act.
