(* ===== verification/Flocking.v ===== *)
(** Flocking and kinematics ([include/mith/systems/flocking_system.h],
    [src/systems/flocking_system.cpp], [include/mith/systems/kinematics_system.h],
    [src/systems/kinematics_system.cpp]), in the code's single-precision arithmetic
    and its order of operations. *)

From S2P Require Import Prelude MachineInt Float32 Identity BoundedQueue Components Trace Scheduler.
From S2P Require Import NeighbourTable Registry.
Local Open Scope Z_scope.

Module Flock.
Import Comp.

(* @src include/mith/systems/flocking_system.h:29-43 FlockingSystem::Params *)
Record Params := mk_params {
  separation_radius_m : Z;
  separation_weight : Z;
  alignment_weight : Z;
  cohesion_weight : Z;
  max_speed_mps : Z;
  vision_radius_m : Z;
}.
(** [5.0f, 1.5f, 1.0f, 1.0f, 5.0f, 30.0f]. *)
Definition default_params : Params :=
  mk_params (F32.of_Z 5) 1069547520 F32.one F32.one (F32.of_Z 5) (F32.of_Z 30).

(* @src src/systems/flocking_system.cpp:20-29 FlockingSystem::describe *)
Definition describe `{!Reg.Toolchain} : Sched.SystemDescriptor :=
  Sched.mk_desc (codes "FlockingSystem")
    [Reg.component_id Reg.TPosition; Reg.component_id Reg.TVelocity] [Reg.component_id Reg.TVelocity]
    [Sched.NeighbourTableR] [].

(** The accumulators. *)
(* @src src/systems/flocking_system.cpp:40-44 FlockingSystem::tick *)
Record acc := mk_acc {
  sep : VelocityComponent;
  align_ : VelocityComponent;
  coh : PositionComponent;
  n : Z;
}.
Definition acc0 : acc := mk_acc default_vel default_vel default_pos 0.

(* @src src/systems/flocking_system.cpp:48-70 FlockingSystem::tick (consider) *)
Definition consider (self_pos : PositionComponent) (sep_r_sq : Z) (a : acc) (nb : NT.Entry) : acc :=
  let dx := F32.sub self_pos.(x) nb.(NT.position).(x) in
  let dy := F32.sub self_pos.(y) nb.(NT.position).(y) in
  let dz := F32.sub self_pos.(z) nb.(NT.position).(z) in
  let dist_sq := F32.add (F32.add (F32.mul dx dx) (F32.mul dy dy)) (F32.mul dz dz) in
  let sep' :=
    if F32.gtb dist_sq F32.zero && F32.ltb dist_sq sep_r_sq then
      let dist := F32.sqrt dist_sq in
      mk_vel (F32.add a.(sep).(vx) (F32.div dx dist)) (F32.add a.(sep).(vy) (F32.div dy dist))
        (F32.add a.(sep).(vz) (F32.div dz dist))
    else a.(sep) in
  mk_acc sep'
    (mk_vel (F32.add a.(align_).(vx) nb.(NT.velocity).(vx)) (F32.add a.(align_).(vy) nb.(NT.velocity).(vy))
       (F32.add a.(align_).(vz) nb.(NT.velocity).(vz)))
    (mk_pos (F32.add a.(coh).(x) nb.(NT.position).(x)) (F32.add a.(coh).(y) nb.(NT.position).(y))
       (F32.add a.(coh).(z) nb.(NT.position).(z)))
    (MI.u64 (a.(n) + 1)).

(** The neighbours considered. *)
(* @src src/systems/flocking_system.cpp:72-80 FlockingSystem::tick *)
Definition visible (oob : Z -> Z) (p : Params) (nt : NT.t) (self_pos : PositionComponent) : list NT.Entry :=
  if F32.gtb p.(vision_radius_m) F32.zero
  then NT.for_each_within oob nt self_pos p.(vision_radius_m)
  else nt.(NT.entries_).

(** One axis of the update: the new speed from the accumulators. *)
(* @src src/systems/flocking_system.cpp:86-102 FlockingSystem::tick *)
Definition steer (p : Params) (dt inv_n v pos s al co : Z) : Z :=
  let al := F32.sub (F32.mul al inv_n) v in
  let co := F32.sub (F32.mul co inv_n) pos in
  F32.add v (F32.mul dt
    (F32.add (F32.add (F32.mul p.(separation_weight) s) (F32.mul p.(alignment_weight) al))
       (F32.mul p.(cohesion_weight) co))).

(* @src src/systems/flocking_system.cpp:104-114 FlockingSystem::tick *)
Definition clamp_speed (p : Params) (v : VelocityComponent) : VelocityComponent :=
  let speed_sq := F32.add (F32.add (F32.mul v.(vx) v.(vx)) (F32.mul v.(vy) v.(vy))) (F32.mul v.(vz) v.(vz)) in
  let max_sq := F32.mul p.(max_speed_mps) p.(max_speed_mps) in
  if F32.gtb speed_sq max_sq && F32.gtb speed_sq F32.zero then
    let scale := F32.div p.(max_speed_mps) (F32.sqrt speed_sq) in
    mk_vel (F32.mul v.(vx) scale) (F32.mul v.(vy) scale) (F32.mul v.(vz) scale)
  else v.

(** The velocity the tick writes; [None] is the early return. *)
(* @src src/systems/flocking_system.cpp:40-114 FlockingSystem::tick *)
Definition new_velocity (oob : Z -> Z) (p : Params) (nt : NT.t) (dt : Z) (pos : PositionComponent)
    (vel : VelocityComponent) : option VelocityComponent :=
  let sep_r_sq := F32.mul p.(separation_radius_m) p.(separation_radius_m) in
  let a := fold_left (consider pos sep_r_sq) (visible oob p nt pos) acc0 in
  if a.(n) =? 0 then None
  else
    let inv_n := F32.div F32.one (F32.of_Z a.(n)) in
    Some (clamp_speed p
      (mk_vel (steer p dt inv_n vel.(vx) pos.(x) a.(sep).(vx) a.(align_).(vx) a.(coh).(x))
         (steer p dt inv_n vel.(vy) pos.(y) a.(sep).(vy) a.(align_).(vy) a.(coh).(y))
         (steer p dt inv_n vel.(vz) pos.(z) a.(sep).(vz) a.(align_).(vz) a.(coh).(z)))).

(* @src src/systems/flocking_system.cpp:31-115 FlockingSystem::tick *)
Definition tick `{!Reg.Toolchain} (oob : Z -> Z) (p : Params) (nt : NT.t) (registry : Reg.t) (delta_time : Z)
    : outcome Reg.t :=
  match nt.(NT.entries_) with
  | [] => Ok registry
  | _ =>
      let! pos := Reg.get PositionComponent registry Reg.SELF_ENTITY in
      let! vel := Reg.get VelocityComponent registry Reg.SELF_ENTITY in
      match new_velocity oob p nt delta_time pos vel with
      | None => Ok registry
      | Some vel => Reg.set registry Reg.SELF_ENTITY vel
      end
  end.

(** ** Kinematics *)

(* @src src/systems/kinematics_system.cpp:8-16 KinematicsSystem::describe *)
Definition describe_kinematics `{!Reg.Toolchain} : Sched.SystemDescriptor :=
  Sched.mk_desc (codes "KinematicsSystem") [Reg.component_id Reg.TVelocity] [Reg.component_id Reg.TPosition] [] [].

(* @src src/systems/kinematics_system.cpp:24-26 KinematicsSystem::tick *)
Definition move (pos : PositionComponent) (vel : VelocityComponent) (dt : Z) : PositionComponent :=
  mk_pos (F32.add pos.(x) (F32.mul vel.(vx) dt)) (F32.add pos.(y) (F32.mul vel.(vy) dt))
    (F32.add pos.(z) (F32.mul vel.(vz) dt)).

(* @src src/systems/kinematics_system.cpp:18-27 KinematicsSystem::tick *)
Definition tick_kinematics `{!Reg.Toolchain} (registry : Reg.t) (delta_time : Z) : outcome Reg.t :=
  let! vel := Reg.get VelocityComponent registry Reg.SELF_ENTITY in
  let! pos := Reg.get PositionComponent registry Reg.SELF_ENTITY in
  Reg.set registry Reg.SELF_ENTITY (move pos vel delta_time).

(** ** Lemmas *)

Lemma is_nan_enc : F32.is_nan (F32.enc SpecFloat.S754_nan) = true.
Proof. reflexivity. Qed.

(** Arithmetic on a NaN gives a NaN. *)
Lemma add_nan a b : F32.is_nan a = true \/ F32.is_nan b = true -> F32.is_nan (F32.add a b) = true.
Proof.
  rewrite !F32.is_nan_dec. unfold F32.add. intros [->| ->]; [done|].
  by destruct (F32.dec a).
Qed.
Lemma sub_nan a b : F32.is_nan a = true \/ F32.is_nan b = true -> F32.is_nan (F32.sub a b) = true.
Proof.
  rewrite !F32.is_nan_dec. unfold F32.sub. intros [->| ->]; [done|].
  by destruct (F32.dec a).
Qed.
Lemma mul_nan a b : F32.is_nan a = true \/ F32.is_nan b = true -> F32.is_nan (F32.mul a b) = true.
Proof.
  rewrite !F32.is_nan_dec. unfold F32.mul. intros [->| ->]; [done|].
  by destruct (F32.dec a).
Qed.

(** The three axes of a velocity and of a position. *)
Inductive axis := AxisX | AxisY | AxisZ.
Definition vel_at (i : axis) (v : VelocityComponent) : Z :=
  match i with AxisX => v.(vx) | AxisY => v.(vy) | AxisZ => v.(vz) end.
Definition pos_at (i : axis) (q : PositionComponent) : Z :=
  match i with AxisX => q.(x) | AxisY => q.(y) | AxisZ => q.(z) end.

(** What a neighbour announces on an axis is not a number. *)
Definition nan_on (i : axis) (e : NT.Entry) : Prop :=
  F32.is_nan (vel_at i e.(NT.velocity)) = true \/ F32.is_nan (pos_at i e.(NT.position)) = true.
Definition nan_acc (i : axis) (a : acc) : Prop :=
  F32.is_nan (vel_at i a.(align_)) = true \/ F32.is_nan (pos_at i a.(coh)) = true.

Lemma consider_nan pos r i a e : nan_acc i a \/ nan_on i e -> nan_acc i (consider pos r a e).
Proof.
  unfold nan_acc, nan_on. intros [[H|H]|[H|H]]; [left|right|left|right]; destruct i; cbn in *; apply add_nan; auto.
Qed.

Lemma fold_nan pos r i l a :
  nan_acc i a \/ Exists (nan_on i) l -> nan_acc i (fold_left (consider pos r) l a).
Proof.
  revert a. induction l as [|e l IH]; intros a H; cbn [fold_left].
  - destruct H as [H|H]; [done|by apply Exists_nil in H].
  - apply IH. rewrite Exists_cons in H. destruct H as [H|[H|H]]; [left|left|by right]; apply consider_nan; auto.
Qed.

Lemma steer_nan p dt inv_n v pos s al co :
  F32.is_nan al = true \/ F32.is_nan co = true -> F32.is_nan (steer p dt inv_n v pos s al co) = true.
Proof.
  intros H. unfold steer. apply add_nan. right. apply mul_nan. right. apply add_nan.
  destruct H as [H|H]; [left; apply add_nan|]; right; apply mul_nan; right; apply sub_nan; left; apply mul_nan; by left.
Qed.

Lemma fold_count pos r l a :
  0 <= a.(n) -> a.(n) + Z.of_nat (length l) < 2 ^ 64 ->
  (fold_left (consider pos r) l a).(n) = a.(n) + Z.of_nat (length l).
Proof.
  revert a. induction l as [|e l IH]; intros a H0 H; cbn [fold_left length] in *; [lia|].
  rewrite IH; cbn [consider n]; rewrite MI.u64_id by (unfold MI.is_u64; lia); lia.
Qed.

Lemma new_velocity_alone oob p nt dt pos vel :
  visible oob p nt pos = [] -> new_velocity oob p nt dt pos vel = None.
Proof. intros H. unfold new_velocity. by rewrite H. Qed.

Lemma clamp_speed_nan p v i : F32.is_nan (vel_at i v) = true -> clamp_speed p v = v.
Proof.
  intros H. unfold clamp_speed, F32.gtb. rewrite F32.ltb_nan; [done|]. right. apply add_nan.
  destruct i; cbn [vel_at] in H; [left; apply add_nan; left|left; apply add_nan; right|right]; apply mul_nan; by left.
Qed.

Lemma move_nan pos vel dt i : F32.is_nan (vel_at i vel) = true -> F32.is_nan (pos_at i (move pos vel dt)) = true.
Proof. intros H. destruct i; cbn [pos_at move x y z]; apply add_nan; right; apply mul_nan; by left. Qed.

(** The new velocity is not a number wherever a visible neighbour's data is not. *)
Lemma new_velocity_nan oob p nt dt pos vel i :
  Z.of_nat (length (visible oob p nt pos)) < 2 ^ 64 -> Exists (nan_on i) (visible oob p nt pos) ->
  exists v, new_velocity oob p nt dt pos vel = Some v /\ F32.is_nan (vel_at i v) = true.
Proof.
  intros Hn X. unfold new_velocity. set (a := fold_left _ _ _).
  assert (a.(n) = Z.of_nat (length (visible oob p nt pos))) as Ea
    by (unfold a; rewrite fold_count; change (n acc0) with 0; lia).
  assert (nan_acc i a) as Na by (apply fold_nan; by right).
  destruct (Z.eqb_spec a.(n) 0) as [E0|E0].
  { destruct (visible oob p nt pos); [by apply Exists_nil in X|rewrite length_cons in Ea; lia]. }
  eexists. split; [done|]. match goal with |- context [clamp_speed p ?w] => set (v1 := w) end.
  assert (F32.is_nan (vel_at i v1) = true) as Nv by (destruct i; cbn [vel_at v1 vx vy vz]; by apply steer_nan).
  by rewrite (clamp_speed_nan p v1 i Nv).
Qed.

(** C29: flocking.  A tick with nobody in sight (an empty table, or no neighbour
    within the vision radius) changes nothing, and any tick changes the velocity
    only.  But NaN is contagious, on each of the three axes: one visible neighbour whose
    velocity or position is NaN on an axis makes the entity's own velocity NaN on that
    axis, which no clamp catches, and the next kinematics tick makes its position NaN
    on that axis. *)
Theorem flocking_and_nan {TC : Reg.Toolchain} oob p nt reg dt pos vel :
  Reg.get PositionComponent reg Reg.SELF_ENTITY = Ok pos ->
  Reg.get VelocityComponent reg Reg.SELF_ENTITY = Ok vel ->
  Z.of_nat (length (visible oob p nt pos)) < 2 ^ 64 ->
  (nt.(NT.entries_) = [] \/ visible oob p nt pos = [] -> tick oob p nt reg dt = Ok reg) /\
  exists reg' vel', tick oob p nt reg dt = Ok reg' /\
    Reg.get VelocityComponent reg' Reg.SELF_ENTITY = Ok vel' /\
    (forall (U : Type) (HU : Reg.Component U) (u : U), Reg.ctype_of U <> Reg.TVelocity ->
       Reg.get U reg Reg.SELF_ENTITY = Ok u -> Reg.get U reg' Reg.SELF_ENTITY = Ok u) /\
    (nt.(NT.entries_) <> [] -> forall i, Exists (nan_on i) (visible oob p nt pos) ->
     F32.is_nan (vel_at i vel') = true /\
     exists reg'' pos', tick_kinematics reg' dt = Ok reg'' /\
       Reg.get PositionComponent reg'' Reg.SELF_ENTITY = Ok pos' /\ F32.is_nan (pos_at i pos') = true).
Proof.
  intros Gp Gv Hn. split.
  { intros H. unfold tick. destruct (NT.entries_ nt) eqn:E; [done|]. destruct H as [|H]; [done|].
    rewrite Gp, Gv. cbn [obind]. by rewrite new_velocity_alone. }
  assert (exists reg' vel', tick oob p nt reg dt = Ok reg' /\
    Reg.get VelocityComponent reg' Reg.SELF_ENTITY = Ok vel' /\
    (forall (U : Type) (HU : Reg.Component U) (u : U), Reg.ctype_of U <> Reg.TVelocity ->
       Reg.get U reg Reg.SELF_ENTITY = Ok u -> Reg.get U reg' Reg.SELF_ENTITY = Ok u) /\
    (nt.(NT.entries_) <> [] -> forall i, Exists (nan_on i) (visible oob p nt pos) -> F32.is_nan (vel_at i vel') = true))
    as (reg' & vel' & Et & Gv' & F & N).
  { pose proof (fun i => new_velocity_nan oob p nt dt pos vel i Hn) as Hv. unfold tick.
    destruct (NT.entries_ nt) eqn:E; [by exists reg, vel|]. rewrite Gp, Gv. cbn [obind].
    destruct (new_velocity oob p nt dt pos vel) as [v|].
    - destruct (Reg.set_ok reg vel v Gv) as (reg' & -> & _ & G' & F). exists reg', v. split_and!; try done.
      intros _ i X. by destruct (Hv i X) as (v' & [= <-] & Nv).
    - exists reg, vel. split_and!; try done. intros _ i X. by destruct (Hv i X) as (v' & [=] & _). }
  exists reg', vel'. split_and!; try done. intros Hne i X. specialize (N Hne i X). split; [done|].
  unfold tick_kinematics. rewrite Gv', (F _ _ pos) by done. cbn [obind].
  destruct (Reg.set_ok reg' pos (move pos vel' dt)) as (reg'' & -> & _ & G'' & _); [by apply F|].
  exists reg'', (move pos vel' dt). split_and!; try done. by apply move_nan.
Qed.

(** The origin, and a neighbour one metre away whose velocity is NaN. *)
Definition put {T} {HT : Reg.Component T} (c : T) (r : Reg.t) : Reg.t :=
  let r := (@Reg.register_builtin_component Reg.gcc r T HT).1.1 in
  match @Reg.emplace Reg.gcc T HT r Reg.SELF_ENTITY c with Ok r => r | _ => r end.
Definition sample_registry : Reg.t := put default_vel (put default_pos (Reg.new_registry Reg.Open)).
Definition nan_sv : StateVector :=
  mk_sv Id.nil_hid (mk_pos F32.one F32.zero F32.zero) (mk_vel F32.zero F32.quiet_nan F32.zero)
    default_health default_role default_state 0 F32.zero zero_key zero_signature.
Definition nan_table : NT.t := NT.upsert (fun _ => 0) NT.empty_table nan_sv F32.zero NT.UNKNOWN_RSSI.

Lemma flocking_and_nan_witness :
  exists reg' vel', @tick Reg.gcc (fun _ => 0) default_params nan_table sample_registry F32.one = Ok reg' /\
    @Reg.get Reg.gcc VelocityComponent _ reg' Reg.SELF_ENTITY = Ok vel' /\ F32.is_nan vel'.(vy) = true.
Proof.
  destruct (@flocking_and_nan Reg.gcc (fun _ => 0) default_params nan_table sample_registry F32.one default_pos default_vel)
    as [_ (reg' & vel' & E & G & _ & N)].
  - vm_compute; reflexivity.
  - vm_compute; reflexivity.
  - vm_compute; reflexivity.
  - exists reg', vel'. split; [exact E|]. split; [exact G|]. apply (N ltac:(discriminate) AxisY).
    apply Exists_exists. exists (NT.entry_of nan_sv F32.zero NT.UNKNOWN_RSSI).
    split; [|left; reflexivity]. apply list_elem_of_In. vm_compute. left. reflexivity.
Defined.

End Flock.
