(* ===== verification/WorldState.v ===== *)
(** The state of a world and the operations that do not involve its scheduler
    ([include/mith/core/world.h], [src/core/world.cpp]).

    [core] has the fields of the class [World] but for the scheduler, then what the
    object can reach: the private data of the built-in systems constructed on it,
    the environment of its transports, and the state of the application's own
    systems and handlers.  Entropy is a stream with a position in it. *)

From S2P Require Import Prelude MachineInt Float32 Identity BoundedQueue Components Trace Scheduler.
From S2P Require Import NeighbourTable Registry PeerKeys Transport FaultMonitor TaskAlloc ClockSync.
From S2P Require Import PartitionMerge Flocking Actions.
Local Open Scope Z_scope.

Module WS.
Import Comp.

(** What the platform provides: whether signed mode is compiled in, the words of
    the random device, and the out-of-range float-to-int conversion. *)
Class Platform := {
  auth_enabled : bool;
  random_word : nat -> Z;
  f2i_oob : Z -> Z;
  hardware_concurrency : Z;
}.

(* @src include/mith/identity/identity_rotation.h:36-41 IdentityRotationPolicy *)
Inductive IdentityRotationPolicy := PERMANENT | PER_MISSION | PERIODIC | EVENT_DRIVEN.
#[global] Instance RotationPolicy_eq_dec : EqDecision IdentityRotationPolicy.
Proof. solve_decision. Defined.

(* @src include/mith/core/world.h:59-84 WorldConfig *)
Record WorldConfig := mk_config {
  cfg_swarm_id : Z;
  tick_rate_hz : Z;
  beacon_rate_hz : Z;
  neighbour_timeout_s : Z;
  thread_pool_size : Z;
  enable_flocking : bool;
  enable_task_alloc : bool;
  enable_fault_monitor : bool;
  registration_policy : Reg.ComponentRegistrationPolicy;
  scheduler_mode : Sched.SchedulerMode;
  identity_rotation_policy : IdentityRotationPolicy;
  identity_rotation_period_s : Z;
}.
(** [20.0f, 10.0f, 0.5f] and [60.0f]. *)
Definition default_config : WorldConfig :=
  mk_config 1 1101004800 1092616192 1056964608 0 true true true Reg.LockAfterInit Sched.Sequential
    PERMANENT 1114636288.

(** ** Private data of the systems that hold transports *)

(* @src include/mith/systems/discovery_system.h:45-48 DiscoveryState *)
Inductive DiscoveryState := Bootstrapping | Active.
#[global] Instance DiscoveryState_eq_dec : EqDecision DiscoveryState.
Proof. solve_decision. Defined.

(* @src include/mith/systems/discovery_system.h:52-68 DiscoverySystem::Params *)
Record discovery_params := mk_dparams {
  bootstrap_quorum : Z;
  bootstrap_timeout_s : Z;
  hello_period_s : Z;
}.
(** [1], [30.0f] and [1.0f]. *)
Definition default_dparams : discovery_params := mk_dparams 1 (F32.of_Z 30) F32.one.

(** A registered message handler: the one of the discovery system, one whose
    system was destroyed after a refused registration, or the application's. *)
Inductive handler := HDiscovery | HDangling | HUser (n : nat).
#[global] Instance handler_eq_dec : EqDecision handler.
Proof. solve_decision. Defined.

Section Core.
Context {H E U : Type}.

(* @src include/mith/comms/beacon_system.h:43-56 BeaconSystem *)
Record beacon_state := mk_beacon {
  b_beacon_transport : option H;
  b_message_transport : option H;
  beacon_period_s_ : Z;
  neighbour_timeout_s_ : Z;
  time_since_last_beacon_s_ : Z;
  rejected_beacons_ : Z;
}.

(* @src include/mith/systems/discovery_system.h:93-108 DiscoverySystem *)
Record discovery_state := mk_disc {
  d_message_transport : option H;
  self_id_ : Id.HierarchicalID;
  d_params : discovery_params;
  d_state : DiscoveryState;
  peers_seen_ : Z;
  time_in_bootstrap_s_ : Z;
  time_since_last_hello_s_ : Z;
  hellos_sent_ : Z;
  welcomes_sent_ : Z;
  welcomes_received_ : Z;
  hellos_received_ : Z;
}.

(** One slot per built-in system class: a class's name is fixed, so a scheduler
    holds at most one of each. *)
Record systems := mk_systems {
  s_beacon : beacon_state;
  s_discovery : discovery_state;
  s_fault : FM.Params * FM.state;
  s_alloc : TA.Params * TA.state;
  s_flock : Flock.Params;
  s_clock : CS.Params * CS.state;
  s_merge : PM.Params * PM.state;
  s_move : Z;
  s_transmit : option H * Z;
  s_hover : Z;
}.

(* @src include/mith/core/world.h:269-289 World *)
Record core := mk_core {
  config_ : WorldConfig;
  registry_ : Reg.t;
  context_ : Sched.SwarmContext;
  transport_ : option H;
  beacon_only_ : option H;
  message_only_ : option H;
  neighbour_table_ : NT.t;
  fault_count_ : Z;
  rotation_count_ : Z;
  last_rotation_time_s_ : Z;
  last_cert_ : option Auth.IdentityCertificate;
  message_handlers_ : list (option handler);
  peer_keys_ : Auth.PeerKeyRegistry;
  trace_ : option (list Tr.TraceEvent);
  clock_offset_s_ : Z;
  merge_window_remaining_s_ : Z;
  current_keypair_ : option Auth.IdentityKeyPair;
  initialized_ : bool;
  sys_ : systems;
  entropy_ : nat;
  draws_ : nat;
  env_ : E;
  user_ : U;
}.

(** ** Field updates *)

Definition systems_eta (s : systems) : systems := mk_systems s.(s_beacon) s.(s_discovery) s.(s_fault)
  s.(s_alloc) s.(s_flock) s.(s_clock) s.(s_merge) s.(s_move) s.(s_transmit) s.(s_hover).
Definition set_s_beacon (v : beacon_state) (s : systems) : systems := ltac:(record_set (systems_eta s) (s_beacon s) v).
Definition set_s_discovery (v : discovery_state) (s : systems) : systems := ltac:(record_set (systems_eta s) (s_discovery s) v).
Definition set_s_fault (v : FM.Params * FM.state) (s : systems) : systems := ltac:(record_set (systems_eta s) (s_fault s) v).
Definition set_s_alloc (v : TA.Params * TA.state) (s : systems) : systems := ltac:(record_set (systems_eta s) (s_alloc s) v).
Definition set_s_flock (v : Flock.Params) (s : systems) : systems := ltac:(record_set (systems_eta s) (s_flock s) v).
Definition set_s_clock (v : CS.Params * CS.state) (s : systems) : systems := ltac:(record_set (systems_eta s) (s_clock s) v).
Definition set_s_merge (v : PM.Params * PM.state) (s : systems) : systems := ltac:(record_set (systems_eta s) (s_merge s) v).
Definition set_s_move (v : Z) (s : systems) : systems := ltac:(record_set (systems_eta s) (s_move s) v).
Definition set_s_transmit (v : option H * Z) (s : systems) : systems := ltac:(record_set (systems_eta s) (s_transmit s) v).
Definition set_s_hover (v : Z) (s : systems) : systems := ltac:(record_set (systems_eta s) (s_hover s) v).

Definition core_eta (w : core) : core := mk_core w.(config_) w.(registry_) w.(context_) w.(transport_)
  w.(beacon_only_) w.(message_only_) w.(neighbour_table_) w.(fault_count_) w.(rotation_count_)
  w.(last_rotation_time_s_) w.(last_cert_) w.(message_handlers_) w.(peer_keys_) w.(trace_)
  w.(clock_offset_s_) w.(merge_window_remaining_s_) w.(current_keypair_) w.(initialized_) w.(sys_)
  w.(entropy_) w.(draws_) w.(env_) w.(user_).
Definition with_config (v : WorldConfig) (w : core) : core := ltac:(record_set (core_eta w) (config_ w) v).
Definition with_registry (v : Reg.t) (w : core) : core := ltac:(record_set (core_eta w) (registry_ w) v).
Definition with_context (v : Sched.SwarmContext) (w : core) : core := ltac:(record_set (core_eta w) (context_ w) v).
Definition with_transport (v : option H) (w : core) : core := ltac:(record_set (core_eta w) (transport_ w) v).
Definition with_beacon_only (v : option H) (w : core) : core := ltac:(record_set (core_eta w) (beacon_only_ w) v).
Definition with_message_only (v : option H) (w : core) : core := ltac:(record_set (core_eta w) (message_only_ w) v).
Definition with_neighbour_table (v : NT.t) (w : core) : core := ltac:(record_set (core_eta w) (neighbour_table_ w) v).
Definition with_fault_count (v : Z) (w : core) : core := ltac:(record_set (core_eta w) (fault_count_ w) v).
Definition with_rotation_count (v : Z) (w : core) : core := ltac:(record_set (core_eta w) (rotation_count_ w) v).
Definition with_last_rotation_time_s (v : Z) (w : core) : core := ltac:(record_set (core_eta w) (last_rotation_time_s_ w) v).
Definition with_last_cert (v : option Auth.IdentityCertificate) (w : core) : core := ltac:(record_set (core_eta w) (last_cert_ w) v).
Definition with_message_handlers (v : list (option handler)) (w : core) : core := ltac:(record_set (core_eta w) (message_handlers_ w) v).
Definition with_peer_keys (v : Auth.PeerKeyRegistry) (w : core) : core := ltac:(record_set (core_eta w) (peer_keys_ w) v).
Definition with_trace (v : option (list Tr.TraceEvent)) (w : core) : core := ltac:(record_set (core_eta w) (trace_ w) v).
Definition with_clock_offset_s (v : Z) (w : core) : core := ltac:(record_set (core_eta w) (clock_offset_s_ w) v).
Definition with_merge_window_remaining_s (v : Z) (w : core) : core := ltac:(record_set (core_eta w) (merge_window_remaining_s_ w) v).
Definition with_current_keypair (v : option Auth.IdentityKeyPair) (w : core) : core := ltac:(record_set (core_eta w) (current_keypair_ w) v).
Definition with_initialized (v : bool) (w : core) : core := ltac:(record_set (core_eta w) (initialized_ w) v).
Definition with_sys (v : systems) (w : core) : core := ltac:(record_set (core_eta w) (sys_ w) v).
Definition with_entropy (v : nat) (w : core) : core := ltac:(record_set (core_eta w) (entropy_ w) v).
Definition with_draws (v : nat) (w : core) : core := ltac:(record_set (core_eta w) (draws_ w) v).
Definition with_env (v : E) (w : core) : core := ltac:(record_set (core_eta w) (env_ w) v).
Definition with_user (v : U) (w : core) : core := ltac:(record_set (core_eta w) (user_ w) v).

Section Ops.
Context `{!Platform} `{!Reg.Toolchain} `{!Auth.Crypto}.
Implicit Types w : core.

(** ** Accessors *)

(* @src src/core/world.cpp:172-179 World::beacon_transport *)
Definition beacon_transport w : option H :=
  match w.(transport_) with Some h => Some h | None => w.(beacon_only_) end.
(* @src src/core/world.cpp:180-187 World::message_transport *)
Definition message_transport w : option H :=
  match w.(transport_) with Some h => Some h | None => w.(message_only_) end.
(* @src src/core/world.cpp:157-161 World::identity *)
Definition identity w : outcome Id.HierarchicalID :=
  let! c := Reg.get IdentityComponent w.(registry_) Reg.SELF_ENTITY in Ok c.(ic_id).
(* @src include/mith/core/world.h:213-213 World::synced_time_s *)
Definition synced_time_s w : Z := F32.add w.(context_).(Sched.elapsed_time_s) w.(clock_offset_s_).
(* @src include/mith/core/world.h:220-220 World::is_merging *)
Definition is_merging w : bool := F32.gtb w.(merge_window_remaining_s_) F32.zero.
(* @src src/core/world.cpp:253-257 World::identity_keypair *)
Definition identity_keypair w : option Auth.IdentityKeyPair := w.(current_keypair_).

(** ** Updates *)

(* @src src/core/world.cpp:192-198 World::report_fault *)
Definition report_fault w : core := with_fault_count (MI.u64 (w.(fault_count_) + 1)) w.
(* @src src/core/world.cpp:259-265 World::register_message_handler *)
Definition register_message_handler (h : option handler) w : core :=
  with_message_handlers (w.(message_handlers_) ++ [h]) w.

(** Events go to the sink, if there is one. *)
Definition emit (ev : list Tr.TraceEvent) w : core :=
  with_trace (match w.(trace_) with Some l => Some (l ++ ev) | None => None end) w.

(** A fresh identifier; each takes four words of the random device. *)
Definition fresh_hid w : Id.HierarchicalID * core :=
  (Id.generate_hid (fun i => random_word (w.(entropy_) + i)) w.(config_).(cfg_swarm_id),
   with_entropy (w.(entropy_) + 4) w).
Definition fresh_keypair w : Auth.IdentityKeyPair * core :=
  (Auth.generate_identity_keypair w.(draws_), with_draws (S w.(draws_)) w).

(** The certificate branch of signed mode; the payload buffer is overwritten
    whole, so its first contents do not matter. *)
(* @src src/core/world.cpp:222-242 World::rotate_identity *)
Definition issue_certificate (prev_id new_id : Id.HierarchicalID) w : core :=
  match w.(current_keypair_) with
  | None => w
  | Some kp =>
      let '(next, w) := fresh_keypair w in
      let payload := Auth.serialise_cert_payload prev_id new_id next.(Auth.pair_public)
                       (replicate Auth.IDENTITY_CERT_PAYLOAD_LEN 0) in
      let cert := Auth.mk_cert prev_id new_id next.(Auth.pair_public)
                    (Auth.sign_payload kp.(Auth.pair_private) payload)
                    w.(context_).(Sched.elapsed_time_s) in
      with_current_keypair (Some next) (with_last_cert (Some cert) w)
  end.

(* @src src/core/world.cpp:212-247 World::rotate_identity *)
Definition rotate_identity w : outcome core :=
  if negb w.(initialized_) then Aborted "rotate_identity(): init() not called"
  else
    let! id_comp := Reg.get IdentityComponent w.(registry_) Reg.SELF_ENTITY in
    let prev_id := id_comp.(ic_id) in
    let '(new_id, w) := fresh_hid w in
    let w := if auth_enabled then issue_certificate prev_id new_id w else w in
    let! reg := Reg.set w.(registry_) Reg.SELF_ENTITY (mk_identity new_id) in
    Ok (with_rotation_count (MI.u64 (w.(rotation_count_) + 1))
          (with_last_rotation_time_s w.(context_).(Sched.elapsed_time_s) (with_registry reg w))).

(** Successive rotations, with the certificates published on the way. *)
Fixpoint rotate_n (n : nat) w : outcome (core * list (option Auth.IdentityCertificate)) :=
  match n with
  | O => Ok (w, [])
  | S n =>
      let! w := rotate_identity w in
      let! (w', certs) := rotate_n n w in
      Ok (w', w.(last_cert_) :: certs)
  end.

(** What a neighbour that knows an identity and its key does with certificates. *)
Fixpoint verify_chain (id : Id.HierarchicalID) (key : IdentityKey)
    (certs : list (option Auth.IdentityCertificate)) : option (Id.HierarchicalID * IdentityKey) :=
  match certs with
  | [] => Some (id, key)
  | None :: _ => None
  | Some c :: certs =>
      if Id.hid_eqb c.(Auth.prev_id) id &&
         Auth.verify_bytes key
           (Auth.serialise_cert_payload c.(Auth.prev_id) c.(Auth.new_id) c.(Auth.new_key)
              (replicate Auth.IDENTITY_CERT_PAYLOAD_LEN 0)) c.(Auth.signature_by_prev)
      then verify_chain c.(Auth.new_id) c.(Auth.new_key) certs else None
  end.

(** An initialised world with an identity and, in signed mode, the [k]-th pair. *)
Record ready w (id : Id.HierarchicalID) (k : nat) : Prop := {
  rd_init : w.(initialized_) = true;
  rd_id : Reg.get IdentityComponent w.(registry_) Reg.SELF_ENTITY = Ok (mk_identity id);
  rd_key : auth_enabled = true -> w.(current_keypair_) = Some (Auth.generate_identity_keypair k);
}.

Lemma fresh_hid_spec w :
  MI.is_u16 w.(config_).(cfg_swarm_id) ->
  let id := (fresh_hid w).1 in
  Id.wf_hid id /\ id.(Id.swarm_id) = w.(config_).(cfg_swarm_id) /\
  Id.version id.(Id.unit_id) = 4 /\ is_broadcast id = false.
Proof.
  intros Hs id. destruct (Id.generate_spec (fun i => random_word (w.(entropy_) + i))) as (W & V & _ & N & _).
  by split_and!.
Qed.

Lemma rotate_spec `{!Auth.CryptoLaws _} w id k :
  ready w id k -> MI.is_u16 w.(config_).(cfg_swarm_id) ->
  exists w', rotate_identity w = Ok w' /\
    let new := (fresh_hid w).1 in
    ready w' new (if auth_enabled then w.(draws_) else k) /\
    w'.(config_) = w.(config_) /\ w'.(context_) = w.(context_) /\ w'.(sys_) = w.(sys_) /\
    w'.(rotation_count_) = MI.u64 (w.(rotation_count_) + 1) /\
    w'.(last_rotation_time_s_) = w.(context_).(Sched.elapsed_time_s) /\
    w'.(last_cert_) =
      (if auth_enabled then
         let key := (Auth.generate_identity_keypair w.(draws_)).(Auth.pair_public) in
         Some (Auth.mk_cert id new key
           (Auth.sign_payload (Auth.generate_identity_keypair k).(Auth.pair_private)
              (Auth.serialise_cert_payload id new key (replicate Auth.IDENTITY_CERT_PAYLOAD_LEN 0)))
           w.(context_).(Sched.elapsed_time_s))
       else w.(last_cert_)) /\
    (forall (T : Type) (HT : Reg.Component T) (c : T), Reg.ctype_of T <> Reg.TIdentity ->
       Reg.get T w.(registry_) Reg.SELF_ENTITY = Ok c -> Reg.get T w'.(registry_) Reg.SELF_ENTITY = Ok c).
Proof.
  intros [Hi Hg Hk] Hs. unfold rotate_identity. rewrite Hi, Hg. cbn [negb obind ic_id].
  rewrite (surjective_pairing (fresh_hid w)). set (new := (fresh_hid w).1).
  set (w1 := if auth_enabled then _ else _).
  assert (registry_ w1 = registry_ w) as Er.
  { unfold w1, issue_certificate. destruct auth_enabled; [|done]. cbn. by destruct (current_keypair_ w). }
  rewrite Er.
  destruct (Reg.set_ok w.(registry_) (mk_identity id) (mk_identity new) Hg) as (reg & -> & _ & G & F).
  cbn [obind]. eexists. split; [done|]. cbv zeta.
  unfold w1, issue_certificate in *. destruct auth_enabled eqn:Ea; cbn in *.
  - rewrite (Hk eq_refl). cbn. split_and!; try done.
  - split_and!; try done. constructor; [done|done|intros; congruence].
Qed.
End Ops.
End Core.
Arguments core : clear implicits.
Arguments beacon_state : clear implicits.
Arguments discovery_state : clear implicits.
Arguments systems : clear implicits.

(** A certificate made by a rotation passes the neighbour's check. *)
Lemma certificate_verifies `{!Auth.Crypto} `{!Auth.CryptoLaws _} id new key t certs k :
  verify_chain id (Auth.generate_identity_keypair k).(Auth.pair_public)
    (Some (Auth.mk_cert id new key
       (Auth.sign_payload (Auth.generate_identity_keypair k).(Auth.pair_private)
          (Auth.serialise_cert_payload id new key (replicate Auth.IDENTITY_CERT_PAYLOAD_LEN 0))) t) :: certs) =
  verify_chain new key certs.
Proof.
  cbn [verify_chain Auth.prev_id Auth.new_id Auth.new_key Auth.signature_by_prev].
  by rewrite Id.hid_eqb_refl, Auth.sign_verify.
Qed.

(** C30: identity rotation.  Any number of rotations of an initialised world
    succeed; each installs a fresh version-4 identity of the configured swarm that
    is not the broadcast identity, touches no other component, stamps the time and
    counts once.  In signed mode the certificates they publish form a chain: a
    neighbour that knew the first identity and its public key, and checks each
    certificate with the key before it, arrives at the world's current identity
    and public key.  In unsigned mode no certificate is made. *)
Theorem rotation_chain {H E U} `{!Platform} {TC : Reg.Toolchain} `{!Auth.Crypto} `{!Auth.CryptoLaws _}
    (w : core H E U) id k n :
  ready w id k -> MI.is_u16 w.(config_).(cfg_swarm_id) -> MI.is_u64 w.(rotation_count_) ->
  exists w' certs id' k',
    rotate_n n w = Ok (w', certs) /\ ready w' id' k' /\ identity w' = Ok id' /\
    w'.(rotation_count_) = MI.u64 (w.(rotation_count_) + Z.of_nat n) /\
    (n <> 0%nat ->
     Id.wf_hid id' /\ id'.(Id.swarm_id) = w.(config_).(cfg_swarm_id) /\
     Id.version id'.(Id.unit_id) = 4 /\ is_broadcast id' = false /\
     w'.(last_rotation_time_s_) = w.(context_).(Sched.elapsed_time_s)) /\
    (forall (T : Type) (HT : Reg.Component T) (c : T), Reg.ctype_of T <> Reg.TIdentity ->
       Reg.get T w.(registry_) Reg.SELF_ENTITY = Ok c -> Reg.get T w'.(registry_) Reg.SELF_ENTITY = Ok c) /\
    length certs = n /\
    if auth_enabled
    then verify_chain id (Auth.generate_identity_keypair k).(Auth.pair_public) certs =
           Some (id', (Auth.generate_identity_keypair k').(Auth.pair_public))
    else Forall (fun c => c = w.(last_cert_)) certs /\ w'.(last_cert_) = w.(last_cert_).
Proof.
  revert w id k. induction n as [|n IH]; intros w id k Hr Hs Hc.
  - exists w, [], id, k. pose proof Hr as [_ Hg _]. split_and!; try done.
    + unfold identity. by rewrite Hg.
    + by rewrite Z.add_0_r, MI.u64_id.
    + by destruct auth_enabled.
  - destruct (rotate_spec w id k Hr Hs) as (w1 & E1 & R1 & C1 & X1 & _ & N1 & L1 & K1 & F1).
    destruct (fresh_hid_spec w Hs) as (Wn & Sn & Vn & Bn).
    destruct (IH w1 _ _ R1) as (w' & certs & id' & k' & E2 & R & I & N & G & F & L & K);
      [by rewrite C1|rewrite N1; apply MI.u64_range|].
    exists w', (w1.(last_cert_) :: certs), id', k'. cbn [rotate_n]. rewrite E1. cbn [obind]. rewrite E2.
    cbn [obind]. split_and!; try done.
    + rewrite N, N1. unfold MI.u64. rewrite Zplus_mod_idemp_l. f_equal. lia.
    + intros _. destruct n as [|n].
      * cbn in E2. injection E2 as <- <-. unfold identity in I. rewrite (rd_id _ _ _ R1) in I.
        cbn in I. injection I as <-. done.
      * rewrite C1, X1 in G. by apply G.
    + intros T HT c Hne Hg. apply F; [done|]. by apply F1.
    + cbn. by rewrite L.
    + destruct auth_enabled.
      * by rewrite K1, certificate_verifies.
      * rewrite K1 in *. destruct K as [K1' K2]. split; [by constructor|done].
Qed.

(** A signed world with its first key pair. *)
Definition sample_platform (auth : bool) : Platform :=
  {| auth_enabled := auth; random_word n := Z.of_nat n; f2i_oob _ := 0; hardware_concurrency := 4 |}.
Definition sample_registry : Reg.t :=
  let r := (@Reg.register_builtin_component Reg.gcc (Reg.new_registry Reg.Open) IdentityComponent _).1.1 in
  match @Reg.emplace Reg.gcc IdentityComponent _ r Reg.SELF_ENTITY default_identity with Ok r => r | _ => r end.
Definition no_systems : systems unit :=
  mk_systems (mk_beacon None None 0 0 0 0)
    (mk_disc None Id.nil_hid default_dparams Bootstrapping 0 0 0 0 0 0 0)
    (FM.default_params, FM.new_state) (TA.default_params, TA.new_state) Flock.default_params
    (CS.default_params, CS.new_state) (PM.default_params, PM.new_state) 0 (None, 0) 0.
Definition sample_core : core unit Net.wire unit :=
  mk_core default_config sample_registry (Sched.mk_ctx 1 0 0 0) None None None NT.empty_table 0 0 0 None [] ∅
    None 0 0 (Some (@Auth.generate_identity_keypair Auth.toy_crypto 0)) true no_systems 0 1 Net.empty_wire tt.

Lemma rotation_chain_witness :
  exists w' certs id' k',
    @rotate_n _ _ _ (sample_platform true) Reg.gcc Auth.toy_crypto 2 sample_core = Ok (w', certs) /\
    @verify_chain Auth.toy_crypto Id.nil_hid (@Auth.generate_identity_keypair Auth.toy_crypto 0).(Auth.pair_public) certs =
      Some (id', (@Auth.generate_identity_keypair Auth.toy_crypto k').(Auth.pair_public)) /\
    w'.(rotation_count_) = 2.
Proof.
  destruct (@rotation_chain unit Net.wire unit (sample_platform true) Reg.gcc Auth.toy_crypto Auth.toy_laws
    sample_core Id.nil_hid 0 2) as (w' & certs & id' & k' & E & _ & _ & N & _ & _ & _ & K).
  - constructor; [reflexivity|vm_compute; reflexivity|reflexivity].
  - unfold MI.is_u16; cbn; lia.
  - unfold MI.is_u64; cbn; lia.
  - exists w', certs, id', k'. split; [exact E|]. split; [exact K|exact N].
Defined.

End WS.
