(* ===== verification/Discovery.v ===== *)
(** Peer discovery ([include/mith/systems/discovery_system.h],
    [src/systems/discovery_system.cpp]): the bootstrap state machine and the
    handler of HELLO and WELCOME messages, on the state of the world. *)

From S2P Require Import Prelude MachineInt Float32 Identity BoundedQueue Components Trace Scheduler.
From S2P Require Import NeighbourTable Registry PeerKeys Transport FaultMonitor TaskAlloc ClockSync.
From S2P Require Import PartitionMerge Flocking Actions WorldState.
Local Open Scope Z_scope.

Module Disc.
Import Comp WS.

(** The key fills the front of the payload. *)
(* @src src/systems/discovery_system.cpp:24-29 embed_pubkey_into_payload *)
Definition embed_pubkey_into_payload (m : Message) (key : IdentityKey) : Message :=
  mk_message m.(m_sender) m.(m_recipient) m.(m_type) m.(m_seq) m.(m_timestamp_s)
    (write_at (replicate PAYLOAD_SIZE 0) 0 key.(public_key)).

(* @src src/systems/discovery_system.cpp:31-42 extract_pubkey_from_payload *)
Definition extract_pubkey_from_payload (m : Message) : option IdentityKey :=
  let any_nonzero :=
    fold_left (fun any i => if negb (MI.at_ m.(m_payload) i =? 0) then true else any)
      (seq 0 PUBLIC_KEY_LEN) false in
  if negb any_nonzero then None else Some (mk_key (slice 0 PUBLIC_KEY_LEN m.(m_payload))).

(* @src src/systems/discovery_system.cpp:65-73 DiscoverySystem::describe *)
Definition describe : Sched.SystemDescriptor :=
  Sched.mk_desc (codes "DiscoverySystem") [] [] [Sched.NeighbourTableR] [Sched.TransportTx].

Section Discovery.
Context {H E U : Type} `{!Platform} `{!Reg.Toolchain} `{!Auth.Crypto} `{!Net.Transports H E}.
Implicit Types (w : core H E U) (d : discovery_state H).

Definition disc w : discovery_state H := w.(sys_).(s_discovery).
Definition with_disc d w : core H E U := with_sys (set_s_discovery d w.(sys_)) w.

(** The constructor registers the message handler. *)
(* @src src/systems/discovery_system.cpp:49-63 DiscoverySystem::DiscoverySystem *)
Definition new_discovery (params : discovery_params) w : core H E U :=
  register_message_handler (Some HDiscovery)
    (with_disc (mk_disc (message_transport w) Id.nil_hid params Bootstrapping 0 F32.zero F32.zero 0 0 0 0) w).

Definition set_self_id (id : Id.HierarchicalID) d : discovery_state H :=
  mk_disc d.(d_message_transport) id d.(d_params) d.(d_state) d.(peers_seen_) d.(time_in_bootstrap_s_)
    d.(time_since_last_hello_s_) d.(hellos_sent_) d.(welcomes_sent_) d.(welcomes_received_) d.(hellos_received_).
Definition set_times (tb th : Z) d : discovery_state H :=
  mk_disc d.(d_message_transport) d.(self_id_) d.(d_params) d.(d_state) d.(peers_seen_) tb th
    d.(hellos_sent_) d.(welcomes_sent_) d.(welcomes_received_) d.(hellos_received_).
Definition set_hellos_sent (n : Z) d : discovery_state H :=
  mk_disc d.(d_message_transport) d.(self_id_) d.(d_params) d.(d_state) d.(peers_seen_)
    d.(time_in_bootstrap_s_) d.(time_since_last_hello_s_) n d.(welcomes_sent_) d.(welcomes_received_)
    d.(hellos_received_).
Definition set_welcomes_sent (n : Z) d : discovery_state H :=
  mk_disc d.(d_message_transport) d.(self_id_) d.(d_params) d.(d_state) d.(peers_seen_)
    d.(time_in_bootstrap_s_) d.(time_since_last_hello_s_) d.(hellos_sent_) n d.(welcomes_received_)
    d.(hellos_received_).
Definition set_received (hellos welcomes : Z) d : discovery_state H :=
  mk_disc d.(d_message_transport) d.(self_id_) d.(d_params) d.(d_state) d.(peers_seen_)
    d.(time_in_bootstrap_s_) d.(time_since_last_hello_s_) d.(hellos_sent_) d.(welcomes_sent_) welcomes hellos.
Definition set_peers (n : Z) (st : DiscoveryState) d : discovery_state H :=
  mk_disc d.(d_message_transport) d.(self_id_) d.(d_params) st n
    d.(time_in_bootstrap_s_) d.(time_since_last_hello_s_) d.(hellos_sent_) d.(welcomes_sent_)
    d.(welcomes_received_) d.(hellos_received_).

(** A HELLO or WELCOME from this node; in signed mode it carries the key. *)
(* @src src/systems/discovery_system.cpp:97-107 DiscoverySystem::tick *)
Definition announcement w (type : Z) (recipient : Id.HierarchicalID) : Message :=
  let m := mk_message (disc w).(self_id_) recipient type 0 F32.zero (replicate PAYLOAD_SIZE 0) in
  if auth_enabled then
    match w.(current_keypair_) with
    | Some kp => embed_pubkey_into_payload m kp.(Auth.pair_public)
    | None => m
    end
  else m.

(** Emission of a HELLO when the period has elapsed. *)
(* @src src/systems/discovery_system.cpp:91-111 DiscoverySystem::tick *)
Definition send_hello w : outcome (core H E U) :=
  let d := disc w in
  if F32.gtb d.(d_params).(hello_period_s) F32.zero &&
     F32.geb d.(time_since_last_hello_s_) d.(d_params).(hello_period_s) then
    match d.(d_message_transport) with
    | None => Ok w
    | Some h =>
        if negb (Net.supports_messages h) then Ok w
        else
          let! (env, _) := Net.send_message h w.(registry_) (announcement w DISCOVERY_HELLO BROADCAST_ID) w.(env_) in
          let d := set_hellos_sent (MI.u64 (d.(hellos_sent_) + 1)) (set_times d.(time_in_bootstrap_s_) F32.zero d) in
          Ok (with_disc d (with_env env w))
    end
  else Ok w.

(** The count of the neighbours and the promotion. *)
(* @src src/systems/discovery_system.cpp:113-129 DiscoverySystem::tick *)
Definition promote w : core H E U :=
  let d := disc w in
  let count := fold_left (fun c _ => MI.u32 (c + 1)) w.(neighbour_table_).(NT.entries_) 0 in
  let st :=
    if d.(d_params).(bootstrap_quorum) <=? count then Active
    else if F32.geb d.(time_in_bootstrap_s_) d.(d_params).(bootstrap_timeout_s) then Active
    else d.(d_state) in
  with_disc (set_peers count st d) w.

(* @src src/systems/discovery_system.cpp:75-130 DiscoverySystem::tick *)
Definition tick (delta_time : Z) w : outcome (core H E U) :=
  let! w :=
    if Id.is_nil (disc w).(self_id_).(Id.unit_id) && w.(initialized_) then
      let! id := identity w in Ok (with_disc (set_self_id id (disc w)) w)
    else Ok w in
  let d := disc w in
  match d.(d_state) with
  | Active => Ok w
  | Bootstrapping =>
      let d := set_times (F32.add d.(time_in_bootstrap_s_) delta_time)
                 (F32.add d.(time_since_last_hello_s_) delta_time) d in
      let! w := send_hello (with_disc d w) in
      Ok (promote w)
  end.

(** Pinning the key a message advertises, in signed mode. *)
(* @src src/systems/discovery_system.cpp:135-145 DiscoverySystem::handle_message_ *)
Definition pin_advertised (m : Message) w : core H E U :=
  if auth_enabled then
    match extract_pubkey_from_payload m with
    | Some key => with_peer_keys (Auth.try_pin w.(peer_keys_) m.(m_sender) key).1 w
    | None => w
    end
  else w.

(* @src src/systems/discovery_system.cpp:132-176 DiscoverySystem::handle_message_ *)
Definition handle_message_ (m : Message) w : outcome (core H E U * bool) :=
  if m.(m_type) =? DISCOVERY_HELLO then
    let d := disc w in
    let w := with_disc (set_received (MI.u64 (d.(hellos_received_) + 1)) d.(welcomes_received_) d) w in
    let w := pin_advertised m w in
    match (disc w).(d_message_transport) with
    | None => Ok (w, true)
    | Some h =>
        if negb (Net.supports_messages h) then Ok (w, true)
        else
          let! (env, _) := Net.send_message h w.(registry_)
                             (announcement w DISCOVERY_WELCOME m.(m_sender)) w.(env_) in
          Ok (with_disc (set_welcomes_sent (MI.u64 ((disc w).(welcomes_sent_) + 1)) (disc w)) (with_env env w), true)
    end
  else if m.(m_type) =? DISCOVERY_WELCOME then
    let d := disc w in
    let w := with_disc (set_received d.(hellos_received_) (MI.u64 (d.(welcomes_received_) + 1)) d) w in
    Ok (pin_advertised m w, true)
  else Ok (w, false).

(** ** Announcing keys *)

Lemma any_nonzero_spec (l : list Z) idx any :
  fold_left (fun any i => if negb (MI.at_ l i =? 0) then true else any) idx any =
  any || existsb (fun i => negb (MI.at_ l i =? 0)) idx.
Proof.
  revert any. induction idx as [|i idx IH]; intros any; cbn; [by rewrite orb_false_r|].
  rewrite IH. destruct (negb _); cbn; [by rewrite orb_true_r|done].
Qed.

(** A key that is not all zeros travels in the payload. *)
Lemma extract_embed m key :
  wf_key key -> key <> zero_key -> extract_pubkey_from_payload (embed_pubkey_into_payload m key) = Some key.
Proof.
  intros [Hl Hb] Hz. unfold extract_pubkey_from_payload, embed_pubkey_into_payload. cbn [m_payload].
  set (pl := write_at _ 0 _). rewrite any_nonzero_spec. cbn [orb].
  assert (slice 0 PUBLIC_KEY_LEN pl = key.(public_key)) as Es.
  { unfold pl. rewrite <- Hl. rewrite slice_write_at_0 by lia. by apply slice_all. }
  rewrite Es. destruct (existsb _ _) eqn:Ex; [by destruct key|]. exfalso. apply Hz.
  assert (key.(public_key) = replicate PUBLIC_KEY_LEN 0) as E0.
  { apply list_eq. intros i. destruct (decide (i < PUBLIC_KEY_LEN)%nat) as [Hi|Hi].
    - rewrite lookup_replicate_2 by done.
      destruct (existsb_exists (fun i => negb (MI.at_ pl i =? 0)) (seq 0 PUBLIC_KEY_LEN)) as [_ X].
      destruct (Z.eqb_spec (MI.at_ pl i) 0) as [Z0|Z0].
      + destruct (lookup_lt_is_Some_2 key.(public_key) i) as [b Eb]; [lia|]. rewrite Eb. f_equal.
        unfold MI.at_ in Z0. rewrite nth_lookup in Z0. unfold pl in Z0.
        by rewrite lookup_write_at_0, Eb in Z0 by lia.
      + rewrite X in Ex; [done|]. exists i. split; [apply list_elem_of_In, elem_of_seq; lia|].
        by apply negb_true_iff, Z.eqb_neq.
    - rewrite !lookup_ge_None_2; [done|by rewrite length_replicate; lia|lia]. }
  destruct key as [l]. cbn in E0. by rewrite E0.
Qed.

Lemma extract_none m : Forall (fun b => b = 0) m.(m_payload) -> extract_pubkey_from_payload m = None.
Proof.
  intros Hz. unfold extract_pubkey_from_payload. rewrite any_nonzero_spec. cbn [orb].
  destruct (existsb _ _) eqn:Ex; [|done]. apply existsb_exists in Ex as (i & _ & Hi).
  apply negb_true_iff, Z.eqb_neq in Hi. destruct Hi. unfold MI.at_. rewrite nth_lookup.
  destruct (m_payload m !! i) as [b|] eqn:Eb; [|done]. by apply (Forall_lookup_1 _ _ _ _ Hz Eb).
Qed.

Lemma announcement_key w type recipient kp :
  auth_enabled = true -> w.(current_keypair_) = Some kp -> wf_key kp.(Auth.pair_public) ->
  kp.(Auth.pair_public) <> zero_key ->
  extract_pubkey_from_payload (announcement w type recipient) = Some kp.(Auth.pair_public).
Proof. intros Ha Hk Hw Hz. unfold announcement. rewrite Ha, Hk. by apply extract_embed. Qed.

Lemma announcement_fields w type recipient :
  (announcement w type recipient).(m_sender) = (disc w).(self_id_) /\
  (announcement w type recipient).(m_recipient) = recipient /\
  (announcement w type recipient).(m_type) = type.
Proof. unfold announcement. destruct auth_enabled; [|done]. by destruct (current_keypair_ w). Qed.

(** The registry after the handler saw an advertised key. *)
Lemma pin_advertised_spec m w key :
  auth_enabled = true -> extract_pubkey_from_payload m = Some key ->
  (pin_advertised m w).(peer_keys_) = (Auth.try_pin w.(peer_keys_) m.(m_sender) key).1 /\
  pin_advertised m w = with_peer_keys (Auth.try_pin w.(peer_keys_) m.(m_sender) key).1 w.
Proof. intros Ha Hx. unfold pin_advertised. by rewrite Ha, Hx. Qed.

Lemma disc_pin m w : disc (pin_advertised m w) = disc w.
Proof. unfold pin_advertised. destruct auth_enabled; [|done]. by destruct (extract_pubkey_from_payload m). Qed.

Lemma pin_keeps m w :
  (pin_advertised m w).(current_keypair_) = w.(current_keypair_) /\
  (pin_advertised m w).(env_) = w.(env_) /\ (pin_advertised m w).(registry_) = w.(registry_).
Proof. unfold pin_advertised. destruct auth_enabled; [|done]. by destruct (extract_pubkey_from_payload m). Qed.

(** Emitting a HELLO over a transport whose sends succeed. *)
Definition hello_gate d : bool :=
  F32.gtb d.(d_params).(hello_period_s) F32.zero &&
  F32.geb d.(time_since_last_hello_s_) d.(d_params).(hello_period_s) &&
  match d.(d_message_transport) with Some h => Net.supports_messages h | None => false end.

Lemma send_hello_cases w :
  (hello_gate (disc w) = false /\ send_hello w = Ok w) \/
  (hello_gate (disc w) = true /\ exists h, (disc w).(d_message_transport) = Some h /\
     send_hello w =
       (let! (env, _) := Net.send_message h w.(registry_) (announcement w DISCOVERY_HELLO BROADCAST_ID) w.(env_) in
        Ok (with_disc (set_hellos_sent (MI.u64 ((disc w).(hellos_sent_) + 1))
                         (set_times (disc w).(time_in_bootstrap_s_) F32.zero (disc w))) (with_env env w)))).
Proof.
  unfold hello_gate, send_hello. destruct (F32.gtb _ _ && F32.geb _ _); cbn [andb]; [|by left].
  destruct (d_message_transport (disc w)) as [h|]; [|by left].
  destruct (Net.supports_messages h) eqn:Es; cbn [negb]; [right|by left].
  split; [done|]. by exists h.
Qed.

(** When the promotion makes the node active. *)
Lemma promote_spec w (nt : NT.t) :
  (disc w).(d_state) = Bootstrapping -> w.(neighbour_table_) = nt ->
  Z.of_nat (length nt.(NT.entries_)) < 2 ^ 32 ->
  (disc (promote w)).(d_state) = Active <->
  (disc w).(d_params).(bootstrap_quorum) <= Z.of_nat (length nt.(NT.entries_)) \/
  F32.geb (disc w).(time_in_bootstrap_s_) (disc w).(d_params).(bootstrap_timeout_s) = true.
Proof.
  intros Hs <- Hl. unfold promote. rewrite PM.count_entries by done. fold (disc w).
  cbn [disc with_disc with_sys sys_ set_s_discovery s_discovery set_peers d_state]. fold (disc w). rewrite Hs.
  destruct (Z.leb_spec (bootstrap_quorum (d_params (disc w))) (Z.of_nat (length (NT.entries_ (neighbour_table_ w)))));
    [split; [by left|done]|].
  destruct (F32.geb _ _); split; try done; [by right|]. intros [|]; [lia|done].
Qed.
End Discovery.

(** Transports whose sends succeed for the senders [sender_ok] and in the environments
    [env_ok] describe.  An entity with a position is such a sender, and no send or poll
    leaves the good environments. *)
Class Reliable (H E : Type) `{!Net.Transports H E} `{!Reg.Toolchain} := {
  sender_ok : Reg.t -> Prop;
  env_ok : E -> Prop;
  sender_ok_position : forall r p, Reg.get PositionComponent r Reg.SELF_ENTITY = Ok p -> sender_ok r;
  send_message_ok : forall h r m e, sender_ok r -> env_ok e ->
    exists e' b, Net.send_message h r m e = Ok (e', b) /\ env_ok e';
  send_beacon_ok : forall h r sv e, sender_ok r -> env_ok e ->
    exists e' b, Net.send_beacon h r sv e = Ok (e', b) /\ env_ok e';
  poll_beacons_ok : forall h e, env_ok e -> env_ok (Net.poll_beacons h e).1;
  poll_messages_ok : forall h e, env_ok e -> env_ok (Net.poll_messages h e).1;
}.

Section CanSend.
Context {H E U : Type} `{!Reg.Toolchain} `{!Net.Transports H E} `{!Reliable H E}.
Implicit Types w : core H E U.

Definition can_send w : Prop := sender_ok w.(registry_) /\ env_ok w.(env_).

Lemma can_send_same w w' : w'.(registry_) = w.(registry_) -> w'.(env_) = w.(env_) -> can_send w -> can_send w'.
Proof. unfold can_send. by intros -> ->. Qed.

Lemma send_ok w h m : can_send w -> exists e' b, Net.send_message h w.(registry_) m w.(env_) = Ok (e', b) /\ env_ok e'.
Proof. intros [Hs He]. by apply send_message_ok. Qed.
End CanSend.

(** Whether the handler claims a message, and what it leaves alone. *)
Definition is_discovery (m : Message) : bool :=
  (m.(m_type) =? DISCOVERY_HELLO) || (m.(m_type) =? DISCOVERY_WELCOME).

Lemma handle_total {H E U} `{!Platform} `{!Reg.Toolchain} `{!Auth.Crypto} `{!Net.Transports H E} `{!Reliable H E}
    (w : core H E U) m :
  can_send w ->
  exists w', handle_message_ m w = Ok (w', is_discovery m) /\
    w'.(registry_) = w.(registry_) /\ w'.(message_handlers_) = w.(message_handlers_) /\ env_ok w'.(env_) /\
    (disc w').(d_state) = (disc w).(d_state) /\
    (disc w').(hellos_received_) =
      (if m.(m_type) =? DISCOVERY_HELLO then MI.u64 ((disc w).(hellos_received_) + 1) else (disc w).(hellos_received_)) /\
    (disc w').(welcomes_received_) =
      (if m.(m_type) =? DISCOVERY_WELCOME then MI.u64 ((disc w).(welcomes_received_) + 1)
       else (disc w).(welcomes_received_)).
Proof.
  intros Hc.
  assert (forall w1 : core H E U, (pin_advertised m w1).(message_handlers_) = w1.(message_handlers_)) as Ph.
  { intros w1. unfold pin_advertised. destruct auth_enabled; [|done]. by destruct (extract_pubkey_from_payload m). }
  unfold handle_message_, is_discovery. destruct (Z.eqb_spec m.(m_type) DISCOVERY_HELLO) as [Et|Et]; cbn [orb].
  - rewrite Et. cbn [Z.eqb DISCOVERY_HELLO DISCOVERY_WELCOME Pos.eqb].
    set (w1 := with_disc _ w). pose proof (pin_keeps m w1) as (_ & Ke & Kr). pose proof (Ph w1) as Kh.
    pose proof (disc_pin m w1) as Kd. set (w2 := pin_advertised m w1) in *.
    assert (forall x : bool, disc w2 = disc w1) as Kd' by done.
    destruct (d_message_transport (disc w2)) as [h|]; [destruct (negb _)|].
    1,3: eexists; split; [done|]; rewrite Kr, Kh, Kd, Ke; destruct Hc; by split_and!.
    destruct (send_ok w2 h (announcement w2 DISCOVERY_WELCOME m.(m_sender))) as (e' & b & -> & He');
      [exact (can_send_same w w2 Kr Ke Hc)|].
    cbn [obind]. eexists; split; [done|].
    cbn [registry_ env_ message_handlers_ disc with_disc with_sys with_env sys_ set_s_discovery s_discovery set_welcomes_sent
         d_state hellos_received_ welcomes_received_]. rewrite Kr, Kh. fold (disc w2). rewrite Kd. by split_and!.
  - destruct (m_type m =? DISCOVERY_WELCOME).
    + eexists; split; [done|]. rewrite disc_pin, Ph. destruct (pin_keeps m (with_disc (set_received (hellos_received_ (disc w))
        (MI.u64 (welcomes_received_ (disc w) + 1)) (disc w)) w)) as (_ & -> & ->). destruct Hc. by split_and!.
    + exists w. destruct Hc. by split_and!.
Qed.

(** What discovery leaves alone: all but its own slot, the keys and the transports. *)
Definition frame {H E U} (w w' : core H E U) : Prop :=
  w'.(registry_) = w.(registry_) /\ w'.(message_handlers_) = w.(message_handlers_) /\
  w'.(neighbour_table_) = w.(neighbour_table_) /\ w'.(initialized_) = w.(initialized_) /\
  w'.(sys_).(s_beacon) = w.(sys_).(s_beacon) /\ (w'.(config_), w'.(context_)) = (w.(config_), w.(context_)).

Lemma pin_frame {H E U} `{!Platform} (m : Message) (w : core H E U) : frame w (pin_advertised m w).
Proof. unfold pin_advertised. destruct auth_enabled; [|done]. by destruct (extract_pubkey_from_payload m). Qed.

Lemma frame_trans {H E U} (w1 w2 w3 : core H E U) : frame w1 w2 -> frame w2 w3 -> frame w1 w3.
Proof. unfold frame. intros (?&?&?&?&?&?) (?&?&?&?&?&?). split_and!; etransitivity; eauto. Qed.

Lemma handle_frame {H E U} `{!Platform} `{!Reg.Toolchain} `{!Auth.Crypto} `{!Net.Transports H E} `{!Reliable H E}
    (w : core H E U) m :
  can_send w -> exists w', handle_message_ m w = Ok (w', is_discovery m) /\ frame w w' /\ env_ok w'.(env_).
Proof.
  intros Hc. pose proof (proj2 Hc) as He.
  unfold handle_message_, is_discovery. destruct (Z.eqb_spec m.(m_type) DISCOVERY_HELLO) as [Et|Et]; cbn [orb].
  - set (w1 := with_disc _ w). pose proof (pin_frame m w1) as F. set (w2 := pin_advertised m w1) in *.
    assert (frame w w2) as F2 by exact (frame_trans w w1 w2 ltac:(done) F).
    assert (w2.(env_) = w.(env_)) as V2 by (destruct (pin_keeps m w1) as (_ & V & _); exact V). clearbody w2. clear F.
    assert (can_send w2) as C2 by exact (can_send_same w w2 (proj1 F2) V2 Hc).
    destruct (d_message_transport (disc w2)) as [h|]; [|eexists; split; [done|]; by rewrite V2].
    destruct (negb _); [eexists; split; [done|]; by rewrite V2|].
    destruct (send_ok w2 h (announcement w2 DISCOVERY_WELCOME m.(m_sender)) C2) as (e' & b & -> & He').
    cbn [obind]. by eexists.
  - destruct (m_type m =? DISCOVERY_WELCOME); [|by exists w].
    eexists. split; [done|]. set (w1 := with_disc _ w). destruct (pin_keeps m w1) as (_ & -> & _).
    split; [exact (frame_trans w w1 _ ltac:(done) (pin_frame m w1))|done].
Qed.

(** ** Ticks and messages *)

Section Histories.
Context {H E U : Type} `{!Platform} {TC : Reg.Toolchain} `{!Auth.Crypto} `{!Net.Transports H E} `{!Reliable H E}.
Implicit Types (w : core H E U) (d : discovery_state H).

(** The transport carries messages. *)
Definition carries d : bool := match d.(d_message_transport) with Some h => Net.supports_messages h | None => false end.
(** A HELLO that can be answered. *)
Definition answers d (m : Message) : bool := (m.(m_type) =? DISCOVERY_HELLO) && carries d.

(** What no message and, once [Active], no tick changes. *)
Definition same_node d d' : Prop :=
  d'.(d_state) = d.(d_state) /\ d'.(d_message_transport) = d.(d_message_transport) /\ d'.(hellos_sent_) = d.(hellos_sent_).

(** [e'] results from [e] by the sending of one WELCOME to each of [recipients], in order. *)
Fixpoint welcomed d (reg : Reg.t) (recipients : list Id.HierarchicalID) (e e' : E) : Prop :=
  match recipients with
  | [] => e' = e
  | r :: recipients => exists h welcome b e1, d.(d_message_transport) = Some h /\
      welcome.(m_type) = DISCOVERY_WELCOME /\ welcome.(m_recipient) = r /\
      Net.send_message h reg welcome e = Ok (e1, b) /\ welcomed d reg recipients e1 e'
  end.

Lemma handle_answers w m : can_send w ->
  exists w', handle_message_ m w = Ok (w', is_discovery m) /\ frame w w' /\ env_ok w'.(env_) /\
    same_node (disc w) (disc w') /\ (disc w').(self_id_) = (disc w).(self_id_) /\
    (disc w').(welcomes_sent_) =
      (if answers (disc w) m then MI.u64 ((disc w).(welcomes_sent_) + 1) else (disc w).(welcomes_sent_)) /\
    (answers (disc w) m = false -> w'.(env_) = w.(env_)) /\
    (answers (disc w) m = true -> exists h welcome b, (disc w).(d_message_transport) = Some h /\
       welcome.(m_type) = DISCOVERY_WELCOME /\ welcome.(m_recipient) = m.(m_sender) /\
       welcome.(m_sender) = (disc w).(self_id_) /\ Net.send_message h w.(registry_) welcome w.(env_) = Ok (w'.(env_), b)).
Proof.
  intros Hc. destruct (handle_frame w m Hc) as (w' & E' & F & He). exists w'. split; [done|]. split; [done|]. split; [done|].
  revert E'. clear F He. unfold handle_message_, answers, carries, same_node.
  destruct (Z.eqb_spec m.(m_type) DISCOVERY_HELLO) as [Et|Et]; cbn [andb].
  - set (w1 := with_disc _ w). pose proof (pin_keeps m w1) as (_ & Ke & Kr). pose proof (disc_pin m w1) as Kd.
    set (w2 := pin_advertised m w1) in *. clearbody w2. rewrite Kd. change (d_message_transport (disc w1)) with (d_message_transport (disc w)).
    change (registry_ w1) with (registry_ w) in Kr. change (env_ w1) with (env_ w) in Ke.
    destruct (d_message_transport (disc w)) as [h|] eqn:Eh.
    + destruct (Net.supports_messages h); cbn [negb].
      * destruct (Net.send_message _ _ _ _) as [[e b0]| |] eqn:Es; [|done..]. cbn [obind]. intros [= <- _].
        cbn [disc with_disc with_sys with_env sys_ set_s_discovery s_discovery set_welcomes_sent d_state d_message_transport
             hellos_sent_ welcomes_sent_ self_id_ env_].
        split_and!; try reflexivity; try discriminate; [exact Eh|]. intros _. exists h, (announcement w2 DISCOVERY_WELCOME m.(m_sender)), b0.
        destruct (announcement_fields w2 DISCOVERY_WELCOME m.(m_sender)) as (Fs & Fr & Ft). rewrite Fr, Ft, Fs, Kd.
        rewrite Kr, Ke in Es. by split_and!.
      * intros [= <- _]. rewrite Kd, Ke. by split_and!.
    + intros [= <- _]. rewrite Kd, Ke. by split_and!.
  - destruct (m_type m =? DISCOVERY_WELCOME); intros [= <- _]; [|by split_and!]. rewrite disc_pin.
    set (w1 := with_disc _ w). destruct (pin_keeps m w1) as (_ & -> & _). by split_and!.
Qed.

Lemma active_tick w dt id :
  (disc w).(d_state) = Active -> Reg.get IdentityComponent w.(registry_) Reg.SELF_ENTITY = Ok (mk_identity id) ->
  exists w', tick dt w = Ok w' /\ frame w w' /\ w'.(env_) = w.(env_) /\ same_node (disc w) (disc w') /\
    (disc w').(welcomes_sent_) = (disc w).(welcomes_sent_).
Proof.
  intros Ha Hg. unfold tick, identity. rewrite Hg. cbn [obind ic_id]. destruct (Id.is_nil _ && _); cbn [obind].
  - cbn [disc with_disc with_sys sys_ set_s_discovery s_discovery set_self_id d_state]. fold (disc w). rewrite Ha.
    eexists. split; [done|]. by split_and!.
  - rewrite Ha. exists w. by split_and!.
Qed.

Inductive event := Ticked (dt : Z) | Received (m : Message).
Definition exec (ev : event) w : outcome (core H E U) :=
  match ev with Ticked dt => tick dt w | Received m => let! (w, _) := handle_message_ m w in Ok w end.
Fixpoint run (evs : list event) w : outcome (core H E U) :=
  match evs with
  | [] => Ok w
  | ev :: evs => let! w := exec ev w in run evs w
  end.
(** The senders of the HELLOs in a history that can be answered. *)
Definition asked d (evs : list event) : list Id.HierarchicalID :=
  ev ← evs; match ev with Received m => if answers d m then [m.(m_sender)] else [] | Ticked _ => [] end.

Lemma same_asked d d' evs : same_node d d' -> asked d' evs = asked d evs.
Proof.
  intros (_ & Ht & _). apply list_bind_ext; [|done]. intros [dt|m]; [done|]. unfold answers, carries. by rewrite Ht.
Qed.
Lemma same_welcomed d d' reg rs e e' : same_node d d' -> welcomed d' reg rs e e' -> welcomed d reg rs e e'.
Proof.
  intros (_ & Ht & _). revert e. induction rs as [|r rs IH]; intros e; [done|]. cbn [welcomed]. rewrite Ht.
  intros (h & m & b & e1 & Eh & Em & Er & Es & Hw). exists h, m, b, e1. split_and!; try done. by apply IH.
Qed.

(** Once active, a node stays so: it fails in no history, sends no HELLO, and sends
    nothing but the answers to the HELLOs it receives. *)
Lemma active_run id evs : forall w,
  w.(initialized_) = true -> can_send w -> (disc w).(d_state) = Active -> MI.is_u64 (disc w).(welcomes_sent_) ->
  Reg.get IdentityComponent w.(registry_) Reg.SELF_ENTITY = Ok (mk_identity id) ->
  exists w', run evs w = Ok w' /\ same_node (disc w) (disc w') /\
    (disc w').(welcomes_sent_) = MI.u64 ((disc w).(welcomes_sent_) + Z.of_nat (length (asked (disc w) evs))) /\
    welcomed (disc w) w.(registry_) (asked (disc w) evs) w.(env_) w'.(env_).
Proof.
  induction evs as [|ev evs IH]; intros w Hi Hc Ha Hu Hg.
  { exists w. split; [done|]. split; [by split_and!|]. split; [|done]. cbn. by rewrite Z.add_0_r, MI.u64_id. }
  cbn [run exec asked mbind list_bind]. fold (asked (disc w) evs). destruct ev as [dt|m].
  - cbn [exec]. destruct (active_tick w dt id Ha Hg) as (w1 & -> & F & V & S & Ew). cbn [obind].
    destruct (IH w1) as (w' & -> & S' & Ew' & W); [..|exists w'].
    { destruct F as (_ & _ & _ & -> & _). done. }
    { by apply (can_send_same w w1 (proj1 F) V). }
    { by rewrite (proj1 S). } { by rewrite Ew. } { by rewrite (proj1 F). }
    rewrite (same_asked _ _ evs S), Ew, V, (proj1 F) in *. split; [done|]. split; [by unfold same_node in *; intuition congruence|].
    split; [done|]. by apply (same_welcomed _ _ _ _ _ _ S).
  - cbn [exec]. destruct (handle_answers w m Hc) as (w1 & -> & F & He & S & _ & Ew & Vn & Vy). cbn [obind].
    assert (can_send w1) as C1 by (split; [rewrite (proj1 F); apply Hc|exact He]).
    destruct (IH w1) as (w' & -> & S' & Ew' & W); [|done|by rewrite (proj1 S)| |by rewrite (proj1 F)|exists w'].
    { destruct F as (_ & _ & _ & -> & _). done. }
    { rewrite Ew. destruct (answers _ _); [apply MI.u64_range|done]. }
    rewrite (same_asked _ _ evs S), (proj1 F) in *. split; [done|]. split; [by unfold same_node in *; intuition congruence|].
    apply (same_welcomed _ _ _ _ _ _ S) in W. destruct (answers (disc w) m).
    + destruct (Vy eq_refl) as (h & welcome & b & Eh & Et & Er & _ & Es). split.
      * rewrite Ew', Ew, NT.u64_add_l. cbn [app length]. f_equal. lia.
      * cbn [app welcomed]. by exists h, welcome, b, w1.(env_).
    + split; [by rewrite Ew', Ew|]. by rewrite (Vn eq_refl) in W.
Qed.
End Histories.

(** One tick of a bootstrapping node. *)
Lemma bootstrap_tick {H E U} `{!Platform} {TC : Reg.Toolchain} `{!Auth.Crypto} `{!Net.Transports H E}
    `{!Reliable H E} (w : core H E U) dt id :
  w.(initialized_) = true -> can_send w ->
  Reg.get IdentityComponent w.(registry_) Reg.SELF_ENTITY = Ok (mk_identity id) ->
  Z.of_nat (length w.(neighbour_table_).(NT.entries_)) < 2 ^ 32 ->
  let d := disc w in
  let tb := F32.add d.(time_in_bootstrap_s_) dt in
  let th := F32.add d.(time_since_last_hello_s_) dt in
  exists w', tick dt w = Ok w' /\
    (disc w').(self_id_) = (if Id.is_nil d.(self_id_).(Id.unit_id) then id else d.(self_id_)) /\
    (d.(d_state) = Active -> (disc w').(d_state) = Active /\ w'.(env_) = w.(env_)) /\
    (d.(d_state) = Bootstrapping ->
     let gate := F32.gtb d.(d_params).(hello_period_s) F32.zero && F32.geb th d.(d_params).(hello_period_s) && carries d in
     ((disc w').(d_state) = Active <->
      d.(d_params).(bootstrap_quorum) <= Z.of_nat (length w.(neighbour_table_).(NT.entries_)) \/
      F32.geb tb d.(d_params).(bootstrap_timeout_s) = true) /\
     (disc w').(hellos_sent_) = (if gate then MI.u64 (d.(hellos_sent_) + 1) else d.(hellos_sent_)) /\
     (gate = false -> w'.(env_) = w.(env_)) /\
     (gate = true -> exists h hello b, d.(d_message_transport) = Some h /\
        hello.(m_type) = DISCOVERY_HELLO /\ is_broadcast hello.(m_recipient) = true /\
        hello.(m_sender) = (disc w').(self_id_) /\
        Net.send_message h w.(registry_) hello w.(env_) = Ok (w'.(env_), b))).
Proof.
  intros Hi Hc Hg Hl d tb th. unfold tick. fold d. rewrite Hi, andb_true_r.
  set (self := if Id.is_nil _ then id else _).
  assert (exists w1, (if Id.is_nil (Id.unit_id (self_id_ d)) then let! id := identity w in Ok (with_disc (set_self_id id d) w)
            else Ok w) = Ok w1 /\ disc w1 = set_self_id self d /\ w1.(env_) = w.(env_) /\
            w1.(registry_) = w.(registry_) /\ w1.(neighbour_table_) = w.(neighbour_table_))
    as (w1 & -> & D1 & V1 & R1 & N1).
  { unfold self, identity. destruct (Id.is_nil _).
    - rewrite Hg. cbn [obind ic_id]. eexists. by split_and!.
    - exists w. split_and!; try done. fold d. by destruct d. }
  cbn [obind]. rewrite D1. cbn [set_self_id d_state time_in_bootstrap_s_ time_since_last_hello_s_].
  destruct (d_state d) eqn:Ed.
  2:{ exists w1. rewrite D1. cbn [set_self_id self_id_ d_state]. by split_and!. }
  fold tb th. set (d2 := set_times tb th (set_self_id self d)). set (w2 := with_disc d2 w1).
  destruct (send_hello_cases w2) as [(Eg & Es)|(Eg & h & Eh & Es)].
  - rewrite Es. cbn [obind]. eexists. split; [done|]. split_and!; [done|done|].
    intros _. change (_ && _ && _) with (hello_gate (disc w2)). rewrite Eg.
    split_and!; [|done|done|done].
    exact (promote_spec w2 w.(neighbour_table_) Ed N1 Hl).
  - destruct (send_ok w2 h (announcement w2 DISCOVERY_HELLO BROADCAST_ID)) as (e' & b & Ee & _);
      [exact (can_send_same w w2 R1 V1 Hc)|].
    rewrite Es, Ee. cbn [obind]. eexists. split; [done|]. split_and!; [done|done|].
    intros _. change (_ && _ && _) with (hello_gate (disc w2)). rewrite Eg.
    split_and!; [|done|done|].
    + match goal with |- d_state (disc (promote ?x)) = _ <-> _ =>
        exact (promote_spec x w.(neighbour_table_) Ed N1 Hl) end.
    + intros _. exists h, (announcement w2 DISCOVERY_HELLO BROADCAST_ID), b.
      destruct (announcement_fields w2 DISCOVERY_HELLO BROADCAST_ID) as (Fs & Fr & Ft).
      rewrite Fr, Ft, Fs. split_and!; try done. cbn. by rewrite <- R1, <- V1.
Qed.

(** C31: the discovery state machine, on a transport whose sends succeed.  A tick of an
    initialised world never fails.  While bootstrapping the node sends one HELLO if the
    period has elapsed (and the transport carries messages) and none otherwise, and
    becomes [Active] exactly when the neighbours reach the quorum or the time the
    timeout.  In either state a HELLO is answered with one WELCOME, addressed to its
    sender, if the transport carries messages; no other message makes it send, and no
    message changes its state.  Once [Active] it stays so through whatever ticks and
    messages follow: it sends no HELLO, and what it sends is exactly one WELCOME to the
    sender of each HELLO, in the order of their arrival. *)
Theorem bootstrap_machine {H E U} `{!Platform} {TC : Reg.Toolchain} `{!Auth.Crypto} `{!Net.Transports H E}
    `{!Reliable H E} (w : core H E U) dt id :
  w.(initialized_) = true -> can_send w ->
  Reg.get IdentityComponent w.(registry_) Reg.SELF_ENTITY = Ok (mk_identity id) ->
  Z.of_nat (length w.(neighbour_table_).(NT.entries_)) < 2 ^ 32 ->
  let d := disc w in
  let tb := F32.add d.(time_in_bootstrap_s_) dt in
  let th := F32.add d.(time_since_last_hello_s_) dt in
  (exists w', tick dt w = Ok w' /\
    (disc w').(self_id_) = (if Id.is_nil d.(self_id_).(Id.unit_id) then id else d.(self_id_)) /\
    (d.(d_state) = Active -> (disc w').(d_state) = Active /\ w'.(env_) = w.(env_)) /\
    (d.(d_state) = Bootstrapping ->
     let gate := F32.gtb d.(d_params).(hello_period_s) F32.zero && F32.geb th d.(d_params).(hello_period_s) && carries d in
     ((disc w').(d_state) = Active <->
      d.(d_params).(bootstrap_quorum) <= Z.of_nat (length w.(neighbour_table_).(NT.entries_)) \/
      F32.geb tb d.(d_params).(bootstrap_timeout_s) = true) /\
     (disc w').(hellos_sent_) = (if gate then MI.u64 (d.(hellos_sent_) + 1) else d.(hellos_sent_)) /\
     (gate = false -> w'.(env_) = w.(env_)) /\
     (gate = true -> exists h hello b, d.(d_message_transport) = Some h /\
        hello.(m_type) = DISCOVERY_HELLO /\ is_broadcast hello.(m_recipient) = true /\
        hello.(m_sender) = (disc w').(self_id_) /\
        Net.send_message h w.(registry_) hello w.(env_) = Ok (w'.(env_), b)))) /\
  (forall m, exists w', handle_message_ m w = Ok (w', is_discovery m) /\ (disc w').(d_state) = d.(d_state) /\
     (answers d m = false -> w'.(env_) = w.(env_)) /\
     (answers d m = true -> exists h welcome b, d.(d_message_transport) = Some h /\
        welcome.(m_type) = DISCOVERY_WELCOME /\ welcome.(m_recipient) = m.(m_sender) /\
        welcome.(m_sender) = d.(self_id_) /\ Net.send_message h w.(registry_) welcome w.(env_) = Ok (w'.(env_), b))) /\
  (d.(d_state) = Active -> MI.is_u64 d.(welcomes_sent_) -> forall evs, exists w', run evs w = Ok w' /\
     (disc w').(d_state) = Active /\ (disc w').(hellos_sent_) = d.(hellos_sent_) /\
     (disc w').(welcomes_sent_) = MI.u64 (d.(welcomes_sent_) + Z.of_nat (length (asked d evs))) /\
     welcomed d w.(registry_) (asked d evs) w.(env_) w'.(env_)).
Proof.
  intros Hi Hc Hg Hl d tb th. split; [by apply bootstrap_tick|]. split.
  - intros m. destruct (handle_answers w m Hc) as (w' & E' & _ & _ & S & _ & _ & Vn & Vy). exists w'. split; [exact E'|].
    split; [apply S|]. by split.
  - intros Ha Hu evs. destruct (active_run id evs w Hi Hc Ha Hu Hg) as (w' & E' & (S1 & _ & S3) & Ew & W).
    exists w'. split; [exact E'|]. split; [by rewrite S1|]. by split_and!.
Qed.

Lemma tick_frame {H E U} `{!Platform} {TC : Reg.Toolchain} `{!Auth.Crypto} `{!Net.Transports H E} `{!Reliable H E}
    (w : core H E U) dt i :
  can_send w -> Reg.get IdentityComponent w.(registry_) Reg.SELF_ENTITY = Ok i ->
  exists w', tick dt w = Ok w' /\ frame w w' /\ env_ok w'.(env_).
Proof.
  intros Hc Hg. unfold tick.
  assert (exists w1, (if Id.is_nil (Id.unit_id (self_id_ (disc w))) && initialized_ w
                      then let! id := identity w in Ok (with_disc (set_self_id id (disc w)) w)
                      else Ok w) = Ok w1 /\ frame w w1 /\ w1.(env_) = w.(env_)) as (w1 & -> & F1 & V1).
  { destruct (_ && _); [|by exists w]. unfold identity. rewrite Hg. cbn [obind]. by eexists. }
  assert (can_send w1) as C1 by exact (can_send_same w w1 (proj1 F1) V1 Hc).
  cbn [obind]. destruct (d_state (disc w1)); [|exists w1; by destruct C1].
  set (w2 := with_disc _ w1). assert (frame w w2) as F2 by exact (frame_trans w w1 w2 F1 ltac:(done)).
  assert (can_send w2) as C2 by exact C1. clearbody w2. destruct (send_hello_cases w2) as [(_ & ->)|(_ & h & _ & ->)].
  - cbn [obind]. eexists. split; [done|]. split; [done|]. apply C2.
  - destruct (send_ok w2 h (announcement w2 DISCOVERY_HELLO BROADCAST_ID) C2) as (e' & b & -> & He').
    cbn [obind]. by eexists.
Qed.

(** The two answers of the handler, in signed mode and on a working transport. *)
Lemma handle_hello {H E U} `{!Platform} {TC : Reg.Toolchain} `{!Auth.Crypto} `{!Net.Transports H E} `{!Reliable H E}
    (w : core H E U) m h key :
  can_send w -> auth_enabled = true -> m.(m_type) = DISCOVERY_HELLO -> extract_pubkey_from_payload m = Some key ->
  (disc w).(d_message_transport) = Some h -> Net.supports_messages h = true ->
  exists w' welcome b, handle_message_ m w = Ok (w', true) /\
    w'.(peer_keys_) = (Auth.try_pin w.(peer_keys_) m.(m_sender) key).1 /\
    welcome = announcement w DISCOVERY_WELCOME m.(m_sender) /\
    Net.send_message h w.(registry_) welcome w.(env_) = Ok (w'.(env_), b) /\
    (disc w').(welcomes_sent_) = MI.u64 ((disc w).(welcomes_sent_) + 1) /\
    (disc w').(hellos_received_) = MI.u64 ((disc w).(hellos_received_) + 1).
Proof.
  intros Hc Ha Ht Hx Hm Hs. unfold handle_message_. rewrite Ht. cbn [Z.eqb DISCOVERY_HELLO Pos.eqb].
  set (w1 := with_disc _ w). destruct (pin_advertised_spec m w1 key Ha Hx) as [_ ->].
  set (w2 := with_peer_keys _ w1).
  assert (d_message_transport (disc w2) = Some h) as -> by exact Hm. rewrite Hs. cbn [negb].
  destruct (send_ok w2 h (announcement w2 DISCOVERY_WELCOME m.(m_sender)) Hc) as (e' & b & Ee & _).
  rewrite Ee. cbn [obind]. eexists _, _, b. split; [done|]. split; [done|]. split; [done|].
  split; [exact Ee|]. done.
Qed.

Lemma handle_welcome {H E U} `{!Platform} {TC : Reg.Toolchain} `{!Auth.Crypto} `{!Net.Transports H E}
    (w : core H E U) m key :
  auth_enabled = true -> m.(m_type) = DISCOVERY_WELCOME -> extract_pubkey_from_payload m = Some key ->
  exists w', handle_message_ m w = Ok (w', true) /\
    w'.(peer_keys_) = (Auth.try_pin w.(peer_keys_) m.(m_sender) key).1 /\ w'.(env_) = w.(env_) /\
    (disc w').(welcomes_received_) = MI.u64 ((disc w).(welcomes_received_) + 1).
Proof.
  intros Ha Ht Hx. unfold handle_message_. rewrite Ht. cbn [Z.eqb DISCOVERY_HELLO DISCOVERY_WELCOME Pos.eqb].
  set (w1 := with_disc _ w). destruct (pin_advertised_spec m w1 key Ha Hx) as [_ ->].
  eexists. by split_and!.
Qed.

(** C32: the signed handshake.  When a node that has captured its identity sends a
    HELLO and another receives it, both end with each other's public key pinned,
    provided neither had a key for the other before: the receiver pins the
    sender's key and answers with exactly one WELCOME addressed to the sender, and
    that WELCOME makes the sender pin the receiver's key and is not answered, so
    that the exchange ends. *)
Theorem handshake_pins_both {H E U} `{!Platform} {TC : Reg.Toolchain} `{!Auth.Crypto} `{!Net.Transports H E}
    `{!Reliable H E} (a b : core H E U) h ka kb :
  auth_enabled = true -> can_send b ->
  a.(current_keypair_) = Some ka -> wf_key ka.(Auth.pair_public) -> ka.(Auth.pair_public) <> zero_key ->
  b.(current_keypair_) = Some kb -> wf_key kb.(Auth.pair_public) -> kb.(Auth.pair_public) <> zero_key ->
  (disc b).(d_message_transport) = Some h -> Net.supports_messages h = true ->
  b.(peer_keys_) !! (disc a).(self_id_) = None -> a.(peer_keys_) !! (disc b).(self_id_) = None ->
  let hello := announcement a DISCOVERY_HELLO BROADCAST_ID in
  exists b' welcome r a',
    handle_message_ hello b = Ok (b', true) /\
    b'.(peer_keys_) = <[(disc a).(self_id_) := ka.(Auth.pair_public)]> b.(peer_keys_) /\
    welcome.(m_type) = DISCOVERY_WELCOME /\ welcome.(m_recipient) = (disc a).(self_id_) /\
    Net.send_message h b.(registry_) welcome b.(env_) = Ok (b'.(env_), r) /\
    handle_message_ welcome a = Ok (a', true) /\ a'.(env_) = a.(env_) /\
    a'.(peer_keys_) = <[(disc b).(self_id_) := kb.(Auth.pair_public)]> a.(peer_keys_).
Proof.
  intros Ha Hc Hka Wka Zka Hkb Wkb Zkb Hm Hs Nb Na hello.
  destruct (announcement_fields a DISCOVERY_HELLO BROADCAST_ID) as (Fs & _ & Ft).
  pose proof (announcement_key a DISCOVERY_HELLO BROADCAST_ID ka Ha Hka Wka Zka) as Fk.
  destruct (handle_hello b hello h _ Hc Ha Ft Fk Hm Hs) as (b' & welcome & r & Eb & Pb & -> & Es & _ & _).
  unfold hello in Pb at 1. rewrite Fs in Pb. unfold hello in Es, Pb |- *. rewrite Fs in *.
  destruct (announcement_fields b DISCOVERY_WELCOME (disc a).(self_id_)) as (Gs & Gr & Gt).
  pose proof (announcement_key b DISCOVERY_WELCOME (disc a).(self_id_) kb Ha Hkb Wkb Zkb) as Gk.
  destruct (handle_welcome a _ _ Ha Gt Gk) as (a' & Ea & Pa & Va & _). rewrite Gs in Pa.
  exists b', (announcement b DISCOVERY_WELCOME (disc a).(self_id_)), r, a'.
  unfold Auth.try_pin in Pa, Pb. rewrite Na in Pa. rewrite Nb in Pb. by split_and!.
Qed.

(** A tick leaves the registry and the key pair alone, and a captured identity. *)
Lemma tick_keeps {H E U} `{!Platform} {TC : Reg.Toolchain} `{!Auth.Crypto} `{!Net.Transports H E} `{!Reliable H E}
    (w : core H E U) dt :
  can_send w -> Id.is_nil (disc w).(self_id_).(Id.unit_id) = false ->
  exists w', tick dt w = Ok w' /\ w'.(registry_) = w.(registry_) /\
    w'.(current_keypair_) = w.(current_keypair_) /\ (disc w').(self_id_) = (disc w).(self_id_).
Proof.
  intros Hc Hn. unfold tick. rewrite Hn. cbn [andb obind].
  destruct (d_state (disc w)); [|by exists w].
  set (w2 := with_disc _ w).
  destruct (send_hello_cases w2) as [(_ & Es)|(_ & h & _ & Es)].
  - rewrite Es. cbn [obind]. eexists. by split_and!.
  - destruct (send_ok w2 h (announcement w2 DISCOVERY_HELLO BROADCAST_ID) Hc) as (e' & b & Ee & _).
    rewrite Es, Ee. cbn [obind]. eexists. by split_and!.
Qed.

(** The identity captured by the discovery system goes stale.  It is captured
    once, at the first tick; after a rotation every later announcement still names
    the old identity as its sender, while it carries the new key, so a peer that
    pins it binds the old identity to the new key and has no key for the new one. *)
Theorem discovery_identity_goes_stale {H E U} `{!Platform} {TC : Reg.Toolchain} `{!Auth.Crypto}
    `{!Auth.CryptoLaws _} `{!Net.Transports H E} `{!Reliable H E} (w : core H E U) id k dt type recipient :
  ready w id k -> MI.is_u16 w.(config_).(cfg_swarm_id) -> (forall w', rotate_identity w = Ok w' -> can_send w') ->
  (disc w).(self_id_) = id -> Id.is_nil id.(Id.unit_id) = false -> auth_enabled = true ->
  (Auth.generate_identity_keypair w.(draws_)).(Auth.pair_public) <> zero_key ->
  exists w' w'', rotate_identity w = Ok w' /\ tick dt w' = Ok w'' /\
    identity w'' = Ok (fresh_hid w).1 /\
    (announcement w'' type recipient).(m_sender) = id /\
    extract_pubkey_from_payload (announcement w'' type recipient) =
      Some (Auth.generate_identity_keypair w.(draws_)).(Auth.pair_public).
Proof.
  intros Hr Hs Hc Hd Hn Ha Hz.
  destruct (rotate_spec w id k Hr Hs) as (w' & Er & R & _ & _ & Y & _). rewrite Ha in R.
  assert (disc w' = disc w) as Dw by (unfold disc; by rewrite Y).
  destruct (tick_keeps w' dt (Hc w' Er)) as (w'' & Et & Rr & Rk & Rs); [by rewrite Dw, Hd|].
  exists w', w''. split_and!; [done|done| | |].
  - unfold identity. rewrite Rr, (rd_id _ _ _ R). done.
  - destruct (announcement_fields w'' type recipient) as (-> & _). by rewrite Rs, Dw.
  - apply announcement_key; [done|rewrite Rk; by apply R| |done].
    unfold Auth.generate_identity_keypair. destruct (Auth.keypair_public w.(draws_)) as [H1' H2'].
    destruct (Auth.crypto_keypair _). by split.
Qed.

(** ** Examples *)

#[local] Existing Instance Net.wire_transports.
#[local] Existing Instance Auth.toy_laws.
#[export] Instance wire_reliable {TC : Reg.Toolchain} : Reliable unit Net.wire.
Proof. refine {| sender_ok _ := True; env_ok _ := True |}; intros; by do 2 eexists || done. Defined.

(** A node with identity [n], the [n]-th key pair and a working transport. *)
Definition node_id (n : nat) : Id.HierarchicalID := Id.mk_hid 1 (Id.mk_uuid (replicate 16 (Z.of_nat (S n)))).
Definition node (n : nat) (st : DiscoveryState) : core unit Net.wire unit :=
  with_disc (mk_disc (Some tt) (node_id n) default_dparams st 0 0 (F32.of_Z 2) 0 0 0 0)
    (with_current_keypair (Some (@Auth.generate_identity_keypair Auth.toy_crypto n))
       (with_registry
          (match @Reg.emplace Reg.gcc IdentityComponent _ sample_registry Reg.SELF_ENTITY (mk_identity (node_id n))
           with Ok r => r | _ => sample_registry end) sample_core)).

(** A node that bootstraps, and one that is active and meets a HELLO between two ticks. *)
Definition meeting : list event :=
  [Ticked F32.one;
   Received (@announcement unit Net.wire unit (sample_platform true) (node 0 Bootstrapping) DISCOVERY_HELLO BROADCAST_ID);
   Ticked F32.one].

Lemma bootstrap_machine_witness :
  exists w' a', @tick unit Net.wire unit (sample_platform true) Reg.gcc _ F32.one (node 0 Bootstrapping) = Ok w' /\
    (disc w').(hellos_sent_) = 1 /\ (disc w').(d_state) <> Active /\
    @run unit Net.wire unit (sample_platform true) Reg.gcc _ meeting (node 1 Active) = Ok a' /\
    (disc a').(d_state) = Active /\ (disc a').(hellos_sent_) = 0 /\ (disc a').(welcomes_sent_) = 1.
Proof.
  destruct (@bootstrap_machine unit Net.wire unit (sample_platform true) Reg.gcc Auth.toy_crypto _ _
    (node 0 Bootstrapping) F32.one (node_id 0)) as [(w' & Et & _ & _ & B) _];
    [reflexivity|by split|vm_compute; reflexivity|vm_compute; reflexivity|].
  destruct (@bootstrap_machine unit Net.wire unit (sample_platform true) Reg.gcc Auth.toy_crypto _ _
    (node 1 Active) F32.one (node_id 1)) as (_ & _ & R);
    [reflexivity|by split|vm_compute; reflexivity|vm_compute; reflexivity|].
  destruct (B eq_refl) as (A & S & _). destruct (R eq_refl ltac:(unfold MI.is_u64; cbn; lia) meeting) as (a' & Er & Ea & Eh & Ew & _).
  exists w', a'. split; [exact Et|]. split; [exact S|]. split.
  - intros C. apply A in C as [C|C]; [revert C; vm_compute; intros C; by apply C|vm_compute in C; discriminate C].
  - split; [exact Er|]. split; [exact Ea|]. split; [exact Eh|exact Ew].
Defined.

Lemma toy_wf n : wf_key (@Auth.generate_identity_keypair Auth.toy_crypto n).(Auth.pair_public).
Proof. apply Auth.sample_key_wf. Qed.

Lemma handshake_pins_both_witness :
  exists b', @handle_message_ unit Net.wire unit (sample_platform true) _
      (@announcement unit Net.wire unit (sample_platform true) (node 0 Bootstrapping) DISCOVERY_HELLO BROADCAST_ID)
      (node 1 Active) = Ok (b', true) /\
    b'.(peer_keys_) !! node_id 0 = Some (Auth.sample_key 0).
Proof.
  destruct (@handshake_pins_both unit Net.wire unit (sample_platform true) Reg.gcc Auth.toy_crypto _ _
    (node 0 Bootstrapping) (node 1 Active) tt (@Auth.generate_identity_keypair Auth.toy_crypto 0)
    (@Auth.generate_identity_keypair Auth.toy_crypto 1)) as (b' & welcome & r & a' & Eb & Pb & _);
    try reflexivity; try apply toy_wf; try discriminate; [by split|].
  exists b'. split; [exact Eb|]. rewrite Pb. apply lookup_insert_eq.
Defined.

Lemma discovery_identity_goes_stale_witness :
  exists w' w'', @rotate_identity _ _ _ (sample_platform true) Reg.gcc Auth.toy_crypto (node 0 Active) = Ok w' /\
    @tick unit Net.wire unit (sample_platform true) Reg.gcc _ F32.one w' = Ok w'' /\
    (@announcement unit Net.wire unit (sample_platform true) w'' DISCOVERY_WELCOME BROADCAST_ID).(m_sender) = node_id 0 /\
    (@fresh_hid _ _ _ (sample_platform true) (node 0 Active)).1 <> node_id 0.
Proof.
  destruct (@discovery_identity_goes_stale unit Net.wire unit (sample_platform true) Reg.gcc Auth.toy_crypto _ _ _
    (node 0 Active) (node_id 0) 0 F32.one DISCOVERY_WELCOME BROADCAST_ID) as (w' & w'' & Er & Et & _ & Es & _).
  - constructor; [reflexivity|vm_compute; reflexivity|reflexivity].
  - unfold MI.is_u16; cbn; lia.
  - by split.
  - reflexivity.
  - reflexivity.
  - reflexivity.
  - discriminate.
  - exists w', w''. split; [exact Er|]. split; [exact Et|]. split; [exact Es|]. vm_compute. discriminate.
Defined.

End Disc.
