(* ===== verification/Links.v ===== *)
(** The transports over the operating system ([include/mith/comms/serial_transport.h],
    [src/comms/serial_transport.cpp], [include/mith/comms/udp_multicast_transport.h],
    [src/comms/udp_multicast_transport.cpp]).

    The system calls are parameters: a type class over the state [E] of the kernel.
    What the transports rely on is stated by further classes: each call returns and
    the loops that repeat it end ([Progress]), a serial line loses nothing and keeps
    the order ([Line]), a datagram socket hands out whole datagrams ([Datagrams]).
    Each is instantiated by a concrete kernel in the examples. *)

From S2P Require Import Prelude MachineInt Float32 Identity BoundedQueue SerialFraming Components UdpWire.
From S2P Require Import Trace Scheduler Registry Transport PeerKeys WorldState Discovery.
From S2P Require Import NeighbourTable FaultMonitor TaskAlloc ClockSync PartitionMerge Flocking Actions.
Local Open Scope Z_scope.

Module Link.
Import Comp.

(** The result of a system call that transfers data: done, [EAGAIN] or
    [EWOULDBLOCK], or another error. *)
Inductive io (A : Type) := Did (a : A) | Again | Failed.
Arguments Did {A} a. Arguments Again {A}. Arguments Failed {A}.

(** [read(fd, buf, n)] and [write(fd, bytes, n)] on a file descriptor; [recv] and
    [sendto] on a socket and the group it is bound to. *)
Class Kernel (E : Type) := {
  sys_read : Z -> nat -> E -> E * io (list Z);
  sys_write : Z -> list Z -> E -> E * io nat;
  sys_recv : Z -> nat -> E -> E * io (list Z);
  sys_sendto : Z -> list Z -> E -> E * io nat;
}.

(** Bounds on the number of calls: [write_budget fd n] for writing [n] bytes,
    [read_budget fd] and [recv_budget fd] for reading until there is nothing left.
    A call that does not end the loop lowers its bound. *)
Class Progress (E : Type) `{!Kernel E} := {
  write_budget : Z -> nat -> E -> nat;
  read_budget : Z -> E -> nat;
  recv_budget : Z -> E -> nat;
  write_progress : forall fd l e, l <> [] ->
    match sys_write fd l e with
    | (e', Did k) => (k <= length l)%nat /\
        (k < length l -> write_budget fd (length l - k) e' < write_budget fd (length l) e)%nat
    | (e', Again) => (write_budget fd (length l) e' < write_budget fd (length l) e)%nat
    | (_, Failed) => True
    end;
  read_progress : forall fd n e b l,
    (sys_read fd n e).2 = Did (b :: l) -> (read_budget fd (sys_read fd n e).1 < read_budget fd e)%nat;
  recv_progress : forall fd n e b l,
    (sys_recv fd n e).2 = Did (b :: l) -> (recv_budget fd (sys_recv fd n e).1 < recv_budget fd e)%nat;
}.

(** ** What the two transports share: the inboxes and the routing of a frame *)

Record Inbox := mk_inbox {
  inbox_beacons : list StateVector;
  inbox_messages : list Message;
  parse_errors : Z;
}.
Definition add_beacon (sv : StateVector) (i : Inbox) : Inbox :=
  mk_inbox (i.(inbox_beacons) ++ [sv]) i.(inbox_messages) i.(parse_errors).
Definition add_message (m : Message) (i : Inbox) : Inbox :=
  mk_inbox i.(inbox_beacons) (i.(inbox_messages) ++ [m]) i.(parse_errors).
Definition add_error (i : Inbox) : Inbox :=
  mk_inbox i.(inbox_beacons) i.(inbox_messages) (MI.u64 (i.(parse_errors) + 1)).

Section Serial.
Context {E : Type} `{!Kernel E}.

(** *** SerialTransport *)

(* @src src/comms/serial_transport.cpp:18-33 SerialTransport::Impl *)
Record Serial := mk_serial {
  s_fd : Z;
  s_own_fd : bool;
  s_parser : Framing.Parser;
  s_healthy : bool;
  s_bytes_sent : Z;
  s_bytes_received : Z;
  s_inbox : Inbox;
}.
(* @src src/comms/serial_transport.cpp:91-99 SerialTransport::for_fd *)
Definition new_serial (fd : Z) (own : bool) : Serial :=
  mk_serial fd own (Framing.new_parser Framing.MAX_PAYLOAD_BYTES) true 0 0 (mk_inbox [] [] 0).

(** [buf] holds the [framed_len] bytes from [written] on; the result says whether
    all were written.  [None] is the end of the fuel. *)
(* @src src/comms/serial_transport.cpp:115-125 SerialTransport::write_framed *)
Fixpoint write_loop (fuel : nat) (fd : Z) (buf : list Z) (written framed_len : nat) (e : E) : option (E * bool) :=
  if (written <? framed_len)%nat then
    match fuel with
    | O => None
    | S fuel =>
        match sys_write fd (slice written (framed_len - written) buf) e with
        | (e, Again) => write_loop fuel fd buf written framed_len e
        | (e, Failed) => Some (e, false)
        | (e, Did n) => write_loop fuel fd buf (written + n) framed_len e
        end
    end
  else Some (e, true).

(** The local array has room for one frame; what it holds initially is never read.
    The fuel depends on the length of the frame. *)
(* @src src/comms/serial_transport.cpp:106-128 SerialTransport::write_framed *)
Definition write_framed (fuel : nat -> nat) (payload : list Z) (s : Serial) (e : E) : option (E * Serial * bool) :=
  let size := (Framing.FRAME_HEADER_BYTES + Wire.MAX_FRAME_BYTES)%nat in
  let '(buf, framed_len) := Framing.encode payload (replicate size 0) size in
  if (framed_len =? 0)%nat then Some (e, s, false)
  else
    match write_loop (fuel framed_len) s.(s_fd) buf 0 framed_len e with
    | None => None
    | Some (e, false) =>
        Some (e, mk_serial s.(s_fd) s.(s_own_fd) s.(s_parser) false s.(s_bytes_sent) s.(s_bytes_received) s.(s_inbox),
              false)
    | Some (e, true) =>
        Some (e, mk_serial s.(s_fd) s.(s_own_fd) s.(s_parser) s.(s_healthy)
                   (MI.u64 (s.(s_bytes_sent) + Z.of_nat framed_len)) s.(s_bytes_received) s.(s_inbox), true)
    end.

(* @src src/comms/serial_transport.cpp:130-135 SerialTransport::send_beacon *)
Definition serial_send_beacon (fuel : nat -> nat) (sv : StateVector) (s : Serial) (e : E) : option (E * Serial * bool) :=
  let '(inner, n) := Wire.encode_beacon sv (replicate Wire.MAX_FRAME_BYTES 0) Wire.MAX_FRAME_BYTES in
  if (n =? 0)%nat then Some (e, s, false) else write_framed fuel (take n inner) s e.
(* @src src/comms/serial_transport.cpp:137-142 SerialTransport::send_message *)
Definition serial_send_message (fuel : nat -> nat) (m : Message) (s : Serial) (e : E) : option (E * Serial * bool) :=
  let '(inner, n) := Wire.encode_message m (replicate Wire.MAX_FRAME_BYTES 0) Wire.MAX_FRAME_BYTES in
  if (n =? 0)%nat then Some (e, s, false) else write_framed fuel (take n inner) s e.

(** The callback of the parser. *)
(* @src src/comms/serial_transport.cpp:157-170 SerialTransport::drain_fd (on_frame) *)
Definition route_frame (i : Inbox) (frame : list Z) : Inbox :=
  let flen := length frame in
  let tag := Wire.peek_tag frame flen in
  if tag =? Wire.TAG_BEACON then
    match Wire.decode_beacon frame flen with Some sv => add_beacon sv i | None => add_error i end
  else if tag =? Wire.TAG_MESSAGE then
    match Wire.decode_message frame flen with Some m => add_message m i | None => add_error i end
  else add_error i.

(** One successful read.  The callback does not touch the parser, so that it can run
    on the frames after [feed] has returned. *)
(* @src src/comms/serial_transport.cpp:156-170 SerialTransport::drain_fd *)
Definition take_in (bytes : list Z) (s : Serial) : Serial :=
  let '(p, frames) := Framing.feed s.(s_parser) bytes in
  mk_serial s.(s_fd) s.(s_own_fd) p s.(s_healthy) s.(s_bytes_sent)
    (MI.u64 (s.(s_bytes_received) + Z.of_nat (length bytes))) (fold_left route_frame frames s.(s_inbox)).
Definition unhealthy (s : Serial) : Serial :=
  mk_serial s.(s_fd) s.(s_own_fd) s.(s_parser) false s.(s_bytes_sent) s.(s_bytes_received) s.(s_inbox).

(* @src src/comms/serial_transport.cpp:144-172 SerialTransport::drain_fd *)
Fixpoint drain_fd (fuel : nat) (s : Serial) (e : E) : option (E * Serial) :=
  match fuel with
  | O => None
  | S fuel =>
      match sys_read s.(s_fd) 1024 e with
      | (e, Again) => Some (e, s)
      | (e, Failed) => Some (e, unhealthy s)
      | (e, Did []) => Some (e, s)
      | (e, Did bytes) => drain_fd fuel (take_in bytes s) e
      end
  end.

Definition with_inbox (i : Inbox) (s : Serial) : Serial :=
  mk_serial s.(s_fd) s.(s_own_fd) s.(s_parser) s.(s_healthy) s.(s_bytes_sent) s.(s_bytes_received) i.

(* @src src/comms/serial_transport.cpp:174-178 SerialTransport::poll_beacons *)
Definition serial_poll_beacons (fuel : nat) (s : Serial) (e : E) : option (E * Serial * list StateVector) :=
  match drain_fd fuel s e with
  | None => None
  | Some (e, s) =>
      Some (e, with_inbox (mk_inbox [] s.(s_inbox).(inbox_messages) s.(s_inbox).(parse_errors)) s,
            s.(s_inbox).(inbox_beacons))
  end.
(* @src src/comms/serial_transport.cpp:180-184 SerialTransport::poll_messages *)
Definition serial_poll_messages (fuel : nat) (s : Serial) (e : E) : option (E * Serial * list Message) :=
  match drain_fd fuel s e with
  | None => None
  | Some (e, s) =>
      Some (e, with_inbox (mk_inbox s.(s_inbox).(inbox_beacons) [] s.(s_inbox).(parse_errors)) s,
            s.(s_inbox).(inbox_messages))
  end.
End Serial.

(** *** UDPMulticastTransport *)

(** The part of the configuration the open transport uses. *)
(* @src src/comms/udp_multicast_transport.cpp:18-32 UDPMulticastTransport::Impl *)
Record Udp := mk_udp {
  u_fd : Z;
  u_self_id : Id.HierarchicalID;
  u_healthy : bool;
  u_bytes_sent : Z;
  u_bytes_received : Z;
  u_inbox : Inbox;
}.
(** The state that [open] leaves when every call succeeds. *)
Definition new_udp (fd : Z) (self_id : Id.HierarchicalID) : Udp :=
  mk_udp fd self_id true 0 0 (mk_inbox [] [] 0).

Section Udp.
Context {E : Type} `{!Kernel E}.

Definition udp_send (frame : list Z) (u : Udp) (e : E) : E * Udp * bool :=
  match sys_sendto u.(u_fd) frame e with
  | (e, Did sent) =>
      (e, mk_udp u.(u_fd) u.(u_self_id) u.(u_healthy) (MI.u64 (u.(u_bytes_sent) + Z.of_nat sent)) u.(u_bytes_received)
            u.(u_inbox), true)
  | (e, _) => (e, mk_udp u.(u_fd) u.(u_self_id) false u.(u_bytes_sent) u.(u_bytes_received) u.(u_inbox), false)
  end.

(* @src src/comms/udp_multicast_transport.cpp:126-137 UDPMulticastTransport::send_beacon *)
Definition udp_send_beacon (sv : StateVector) (u : Udp) (e : E) : E * Udp * bool :=
  let '(buf, n) := Wire.encode_beacon sv (replicate Wire.MAX_FRAME_BYTES 0) Wire.MAX_FRAME_BYTES in
  if (n =? 0)%nat then (e, u, false) else udp_send (take n buf) u e.
(* @src src/comms/udp_multicast_transport.cpp:139-150 UDPMulticastTransport::send_message *)
Definition udp_send_message (m : Message) (u : Udp) (e : E) : E * Udp * bool :=
  let '(buf, n) := Wire.encode_message m (replicate Wire.MAX_FRAME_BYTES 0) Wire.MAX_FRAME_BYTES in
  if (n =? 0)%nat then (e, u, false) else udp_send (take n buf) u e.

(** The routing of one datagram, without the echoes of what the node itself sent. *)
(* @src src/comms/udp_multicast_transport.cpp:168-182 UDPMulticastTransport::drain_socket (loop body) *)
Definition route_datagram (self_id : Id.HierarchicalID) (buf : list Z) (i : Inbox) : Inbox :=
  let n := length buf in
  let tag := Wire.peek_tag buf n in
  if tag =? Wire.TAG_BEACON then
    match Wire.decode_beacon buf n with
    | None => add_error i
    | Some sv => if Id.hid_eqb sv.(sv_id) self_id then i else add_beacon sv i
    end
  else if tag =? Wire.TAG_MESSAGE then
    match Wire.decode_message buf n with
    | None => add_error i
    | Some m => if Id.hid_eqb m.(m_sender) self_id then i else add_message m i
    end
  else add_error i.

(* @src src/comms/udp_multicast_transport.cpp:156-184 UDPMulticastTransport::drain_socket *)
Fixpoint drain_socket (fuel : nat) (u : Udp) (e : E) : option (E * Udp) :=
  match fuel with
  | O => None
  | S fuel =>
      match sys_recv u.(u_fd) Wire.MAX_FRAME_BYTES e with
      | (e, Again) => Some (e, u)
      | (e, Failed) =>
          Some (e, mk_udp u.(u_fd) u.(u_self_id) false u.(u_bytes_sent) u.(u_bytes_received) u.(u_inbox))
      | (e, Did []) => Some (e, u)
      | (e, Did buf) =>
          drain_socket fuel
            (mk_udp u.(u_fd) u.(u_self_id) u.(u_healthy) u.(u_bytes_sent)
               (MI.u64 (u.(u_bytes_received) + Z.of_nat (length buf)))
               (route_datagram u.(u_self_id) buf u.(u_inbox))) e
      end
  end.

(* @src src/comms/udp_multicast_transport.cpp:186-190 UDPMulticastTransport::poll_beacons *)
Definition udp_poll_beacons (fuel : nat) (u : Udp) (e : E) : option (E * Udp * list StateVector) :=
  match drain_socket fuel u e with
  | None => None
  | Some (e, u) =>
      Some (e, mk_udp u.(u_fd) u.(u_self_id) u.(u_healthy) u.(u_bytes_sent) u.(u_bytes_received)
                 (mk_inbox [] u.(u_inbox).(inbox_messages) u.(u_inbox).(parse_errors)), u.(u_inbox).(inbox_beacons))
  end.
(* @src src/comms/udp_multicast_transport.cpp:192-196 UDPMulticastTransport::poll_messages *)
Definition udp_poll_messages (fuel : nat) (u : Udp) (e : E) : option (E * Udp * list Message) :=
  match drain_socket fuel u e with
  | None => None
  | Some (e, u) =>
      Some (e, mk_udp u.(u_fd) u.(u_self_id) u.(u_healthy) u.(u_bytes_sent) u.(u_bytes_received)
                 (mk_inbox u.(u_inbox).(inbox_beacons) [] u.(u_inbox).(parse_errors)), u.(u_inbox).(inbox_messages))
  end.
End Udp.

(** ** Instances of the transport interface

    The loops get the fuel that the kernel's bounds say is enough; what happens
    without it (a call that never returns) does not occur, which [serial_reliable]
    and [drain_fd_total] prove. *)
Section Instances.
Context {E : Type} `{!Kernel E} `{!Progress E}.

Definition send_fuel (s : Serial) (e : E) (n : nat) : nat := S (write_budget s.(s_fd) n e).
Definition lift_send (r : option (E * Serial * bool)) : outcome (Serial * E * bool) :=
  match r with Some (e, s, b) => Ok (s, e, b) | None => Undefined "the write never completes" end.

Definition serial_transport : Net.Transports unit (Serial * E) := {|
  Net.supports_beacons _ := true;
  Net.supports_messages _ := true;
  Net.send_beacon _ _ sv '(s, e) := lift_send (serial_send_beacon (send_fuel s e) sv s e);
  Net.send_message _ _ m '(s, e) := lift_send (serial_send_message (send_fuel s e) m s e);
  Net.poll_beacons _ '(s, e) :=
    match serial_poll_beacons (S (read_budget s.(s_fd) e)) s e with
    | Some (e, s, l) => ((s, e), l)
    | None => ((s, e), [])
    end;
  Net.poll_messages _ '(s, e) :=
    match serial_poll_messages (S (read_budget s.(s_fd) e)) s e with
    | Some (e, s, l) => ((s, e), l)
    | None => ((s, e), [])
    end;
|}.

Definition udp_transport : Net.Transports unit (Udp * E) := {|
  Net.supports_beacons _ := true;
  Net.supports_messages _ := true;
  Net.send_beacon _ _ sv '(u, e) := let '(e, u, b) := udp_send_beacon sv u e in Ok ((u, e), b);
  Net.send_message _ _ m '(u, e) := let '(e, u, b) := udp_send_message m u e in Ok ((u, e), b);
  Net.poll_beacons _ '(u, e) :=
    match udp_poll_beacons (S (recv_budget u.(u_fd) e)) u e with
    | Some (e, u, l) => ((u, e), l)
    | None => ((u, e), [])
    end;
  Net.poll_messages _ '(u, e) :=
    match udp_poll_messages (S (recv_budget u.(u_fd) e)) u e with
    | Some (e, u, l) => ((u, e), l)
    | None => ((u, e), [])
    end;
|}.

(** *** The loops end *)

Lemma write_loop_total fd buf fl : forall fuel w e,
  (w <= fl)%nat -> (fl <= length buf)%nat -> (write_budget fd (fl - w) e < fuel)%nat ->
  is_Some (write_loop fuel fd buf w fl e).
Proof.
  induction fuel as [|fuel IH]; intros w e Hw Hb Hf; [lia|]. cbn [write_loop].
  destruct (Nat.ltb_spec w fl) as [Hl|]; [|by eexists].
  assert (length (slice w (fl - w) buf) = (fl - w)%nat) as Ls by (unfold slice; rewrite length_take, length_drop; lia).
  pose proof (write_progress fd (slice w (fl - w) buf) e) as P. rewrite Ls in P.
  destruct (sys_write fd (slice w (fl - w) buf) e) as [e' [k| |]]; [| |by eexists].
  - destruct P as [P1 P2]; [intros Hn; rewrite Hn in Ls; cbn in Ls; lia|].
    destruct (decide (k < fl - w)%nat) as [Hk|Hk].
    + apply IH; [lia|done|]. specialize (P2 Hk). replace (fl - (w + k))%nat with (fl - w - k)%nat by lia. lia.
    + replace (w + k)%nat with fl by lia. destruct fuel; cbn [write_loop]; rewrite Nat.ltb_irrefl; by eexists.
  - apply IH; [lia|done|]. enough (write_budget fd (fl - w) e' < write_budget fd (fl - w) e)%nat by lia.
    apply P. intros Hn. rewrite Hn in Ls. cbn in Ls. lia.
Qed.

Lemma encode_cases payload size :
  let '(buf, n) := Framing.encode payload (replicate size 0) size in
  n = 0%nat \/ (buf = write_at (replicate size 0) 0 (Framing.frame_of payload) /\ n = length (Framing.frame_of payload) /\
               (n <= length buf)%nat).
Proof.
  rewrite Framing.encode_spec by (by rewrite length_replicate).
  destruct (_ || _)%bool eqn:Ho; [by left|]. right. apply orb_false_iff in Ho as [_ Hc%Nat.ltb_ge].
  assert (length (Framing.frame_of payload) = (Framing.FRAME_HEADER_BYTES + length payload)%nat) as Lf by done.
  split; [done|]. split; [done|]. rewrite length_write_at; rewrite length_replicate; lia.
Qed.

Lemma write_framed_total payload s e : is_Some (write_framed (send_fuel s e) payload s e).
Proof.
  unfold write_framed. pose proof (encode_cases payload (Framing.FRAME_HEADER_BYTES + Wire.MAX_FRAME_BYTES)) as C.
  destruct (Framing.encode _ _ _) as [buf n]. destruct (Nat.eqb_spec n 0) as [|Hn]; [by eexists|].
  destruct C as [|(_ & _ & Hl)]; [done|].
  destruct (write_loop_total s.(s_fd) buf n (send_fuel s e n) 0 e) as [[e' b] Ew]; [lia|done|unfold send_fuel; rewrite Nat.sub_0_r; lia|].
  rewrite Ew. destruct b; by eexists.
Qed.

Lemma drain_fd_total : forall fuel s e, (read_budget s.(s_fd) e < fuel)%nat -> is_Some (drain_fd fuel s e).
Proof.
  induction fuel as [|fuel IH]; intros s e Hf; [lia|]. cbn [drain_fd].
  pose proof (read_progress s.(s_fd) 1024 e) as P. destruct (sys_read s.(s_fd) 1024 e) as [e' [[|b l]| |]];
    [by eexists| |by eexists|by eexists].
  apply IH. cbn [fst snd] in P. specialize (P b l eq_refl).
  unfold take_in. destruct (Framing.feed _ _). cbn [s_fd]. lia.
Qed.

Lemma drain_socket_total : forall fuel u e, (recv_budget u.(u_fd) e < fuel)%nat -> is_Some (drain_socket fuel u e).
Proof.
  induction fuel as [|fuel IH]; intros u e Hf; [lia|]. cbn [drain_socket].
  pose proof (recv_progress u.(u_fd) Wire.MAX_FRAME_BYTES e) as P.
  destruct (sys_recv u.(u_fd) Wire.MAX_FRAME_BYTES e) as [e' [[|b l]| |]]; [by eexists| |by eexists|by eexists].
  apply IH. cbn [fst snd] in P. specialize (P b l eq_refl). cbn [u_fd]. lia.
Qed.

(** Worlds on either transport have what [runtime_never_aborts] asks of theirs. *)
#[export] Instance serial_reliable `{!Reg.Toolchain} : @Disc.Reliable unit (Serial * E) serial_transport _.
Proof.
  refine (@Disc.Build_Reliable unit (Serial * E) serial_transport _ (fun _ => True) (fun _ => True) (fun _ _ _ => I) _ _
    (fun _ _ _ => I) (fun _ _ _ => I)); intros [] r v [s e] _ _; cbn [Net.send_message Net.send_beacon serial_transport];
    unfold serial_send_message, serial_send_beacon;
    match goal with |- context [Wire.encode_message ?m ?b ?c] => destruct (Wire.encode_message m b c) as [inner n]
                  | |- context [Wire.encode_beacon ?m ?b ?c] => destruct (Wire.encode_beacon m b c) as [inner n] end;
    (destruct (n =? 0)%nat; [by do 2 eexists|]);
    destruct (write_framed_total (take n inner) s e) as [[[e' s'] b] ->]; by do 2 eexists.
Defined.

#[export] Instance udp_reliable `{!Reg.Toolchain} : @Disc.Reliable unit (Udp * E) udp_transport _.
Proof.
  refine (@Disc.Build_Reliable unit (Udp * E) udp_transport _ (fun _ => True) (fun _ => True) (fun _ _ _ => I) _ _
    (fun _ _ _ => I) (fun _ _ _ => I)); intros [] r v [u e] _ _; cbn [Net.send_message Net.send_beacon udp_transport];
    [destruct (udp_send_message v u e) as [[e' u'] b]|destruct (udp_send_beacon v u e) as [[e' u'] b]]; by do 2 eexists.
Defined.

(** Neither transport looks at the sender's registry. *)
#[export] Instance serial_sends `{!Reg.Toolchain} : @Net.Sends unit (Serial * E) serial_transport _.
Proof. refine (@Net.Build_Sends unit (Serial * E) serial_transport _ false _ _); done. Defined.
#[export] Instance udp_sends `{!Reg.Toolchain} : @Net.Sends unit (Udp * E) udp_transport _.
Proof. refine (@Net.Build_Sends unit (Udp * E) udp_transport _ false _ _); done. Defined.
End Instances.

(** ** A serial line between two transports *)

(** A line from descriptor [a] to descriptor [b]: bytes arrive in order, none is
    lost or invented.  A write may be partial, a read may return any part of what is
    in flight, and either may find nothing to do. *)
Class Line (E : Type) `{!Kernel E} (a b : Z) := {
  in_flight : E -> list Z;
  line_write : forall l e, l <> [] ->
    match sys_write a l e with
    | (e', Did k) => (k <= length l)%nat /\ in_flight e' = in_flight e ++ take k l
    | (e', Again) => in_flight e' = in_flight e
    | (_, Failed) => False
    end;
  line_read : forall n e,
    match sys_read b n e with
    | (e', Did l) => in_flight e = l ++ in_flight e'
    | (e', Again) => in_flight e' = in_flight e
    | (_, Failed) => False
    end;
}.

(** What the two ends send and hand out. *)
Definition packet : Type := StateVector + Message.
Definition beacons_of (l : list packet) : list StateVector :=
  omap (fun v => match v with inl sv => Some sv | inr _ => None end) l.
Definition messages_of (l : list packet) : list Message :=
  omap (fun v => match v with inl _ => None | inr m => Some m end) l.
Definition frame (v : packet) : list Z :=
  match v with inl sv => Wire.beacon_frame sv | inr m => Wire.message_frame m end.
Definition wf_packet (v : packet) : Prop :=
  match v with inl sv => wf_sv sv | inr m => wf_message m end.

Inductive link_op := SendPacket (v : packet) | PollBeacons | PollMessages.

(** Both transports encode into a buffer of the size of the longest frame. *)
Lemma encoded_beacon sv : wf_sv sv -> exists buf n,
  Wire.encode_beacon sv (replicate Wire.MAX_FRAME_BYTES 0) Wire.MAX_FRAME_BYTES = (buf, n) /\ (n =? 0)%nat = false /\
  take n buf = Wire.beacon_frame sv.
Proof.
  intros W. pose proof (Wire.length_beacon_frame sv W) as L. rewrite Wire.encode_beacon_spec by (done || by rewrite length_replicate).
  do 2 eexists. split; [done|]. split; [done|]. rewrite <- L at 1. apply take_write_at_0. rewrite length_replicate, L.
  change Wire.MAX_FRAME_BYTES with 181%nat. lia.
Qed.
Lemma encoded_message m : wf_message m -> exists buf n,
  Wire.encode_message m (replicate Wire.MAX_FRAME_BYTES 0) Wire.MAX_FRAME_BYTES = (buf, n) /\ (n =? 0)%nat = false /\
  take n buf = Wire.message_frame m.
Proof.
  intros W. pose proof (Wire.length_message_frame m W) as L. rewrite Wire.encode_message_spec by (done || by rewrite length_replicate).
  do 2 eexists. split; [done|]. split; [done|]. rewrite <- L at 1. apply take_write_at_0. rewrite length_replicate, L.
  change Wire.MAX_FRAME_BYTES with 181%nat. lia.
Qed.

Section OnALine.
Context {E : Type} `{!Kernel E} `{!Progress E} (a b : Z) `{!Line E a b}.

(** One operation: the sender is [tx], the receiver [rx]. *)
Definition link_exec (reg : Reg.t) (o : link_op) (st : Serial * Serial * E)
    : outcome (Serial * Serial * E * list packet) :=
  let '(tx, rx, e) := st in
  match o with
  | SendPacket (inl sv) =>
      let! (tx, e, _) := @Net.send_beacon _ _ serial_transport tt reg sv (tx, e) in Ok (tx, rx, e, [])
  | SendPacket (inr m) =>
      let! (tx, e, _) := @Net.send_message _ _ serial_transport tt reg m (tx, e) in Ok (tx, rx, e, [])
  | PollBeacons =>
      let '(rx, e, l) := @Net.poll_beacons _ _ serial_transport tt (rx, e) in Ok (tx, rx, e, inl <$> l)
  | PollMessages =>
      let '(rx, e, l) := @Net.poll_messages _ _ serial_transport tt (rx, e) in Ok (tx, rx, e, inr <$> l)
  end.

Fixpoint link_run (reg : Reg.t) (os : list link_op) (st : Serial * Serial * E)
    : outcome (Serial * Serial * E * list packet) :=
  match os with
  | [] => let '(tx, rx, e) := st in Ok (tx, rx, e, [])
  | o :: os =>
      let! (tx, rx, e, l1) := link_exec reg o st in
      let! (tx, rx, e, l2) := link_run reg os (tx, rx, e) in
      Ok (tx, rx, e, l1 ++ l2)
  end.

Definition sent (os : list link_op) : list packet :=
  omap (fun o => match o with SendPacket v => Some v | _ => None end) os.

(** Still to be handed out: what is in the inboxes and what is under way [vs]. *)
Definition under_way (rx : Serial) (e : E) (vs : list packet) : Prop :=
  exists p, Framing.feed rx.(s_parser) (in_flight e) = (p, frame <$> vs) /\
    Framing.wf p /\ p.(Framing.state_) = Framing.WaitSync1 /\
    length p.(Framing.buffer_) = Framing.MAX_PAYLOAD_BYTES /\ Forall wf_packet vs.

Lemma length_frame v : wf_packet v -> (length (frame v) <= Wire.MAX_FRAME_BYTES)%nat /\ MI.is_bytes (frame v).
Proof.
  assert (forall h, Id.wf_hid h -> MI.is_bytes (Wire.hid_bytes h)) as Hh.
  { intros h (_ & _ & Hb). apply MI.is_bytes_app. auto with mith. }
  destruct v as [sv|m]; intros W; cbn [frame].
  - split; [rewrite Wire.length_beacon_frame by done; change Wire.MAX_FRAME_BYTES with 181%nat; lia|].
    destruct W as [Wi _ _ Wh _ _ _ _ [_ Wk] [_ Ws]]. unfold Wire.beacon_frame, Wire.signed_bytes.
    apply Forall_cons_2; [unfold MI.is_u8, Wire.TAG_BEACON; lia|].
    rewrite !MI.is_bytes_app. split_and!; auto with mith. apply (Forall_cons_2 _ _ _ Wh), Forall_nil_2.
  - split; [by rewrite Wire.length_message_frame by done|].
    destruct W as [Ws Wr _ _ _ [_ Wp]]. unfold Wire.message_frame.
    apply Forall_cons_2; [unfold MI.is_u8, Wire.TAG_MESSAGE; lia|].
    rewrite !MI.is_bytes_app. split_and!; auto with mith.
Qed.

Lemma starts_self f : Wire.starts f f.
Proof. unfold Wire.starts. apply take_ge. done. Qed.

Lemma route_packet v i : wf_packet v ->
  route_frame i (frame v) =
    mk_inbox (i.(inbox_beacons) ++ beacons_of [v]) (i.(inbox_messages) ++ messages_of [v]) i.(parse_errors).
Proof.
  intros W. unfold route_frame, Wire.peek_tag. destruct v as [sv|m]; cbn [frame].
  - rewrite Wire.length_beacon_frame by done. cbn [Nat.ltb Nat.leb].
    rewrite (Wire.at_0_starts _ _ _ (starts_self (Wire.beacon_frame sv))). rewrite Z.eqb_refl.
    rewrite (Wire.decode_beacon_starts sv) by (done || apply starts_self). unfold add_beacon. cbn. by rewrite app_nil_r.
  - rewrite Wire.length_message_frame by done. cbn [Nat.ltb Nat.leb].
    rewrite (Wire.at_0_starts _ _ _ (starts_self (Wire.message_frame m))). change (Wire.TAG_MESSAGE =? Wire.TAG_BEACON) with false.
    rewrite Z.eqb_refl. cbn match.
    rewrite (Wire.decode_message_starts m) by (done || apply starts_self). unfold add_message. cbn. by rewrite app_nil_r.
Qed.

Lemma under_way_send rx e e' vs v :
  under_way rx e vs -> wf_packet v -> in_flight e' = in_flight e ++ Framing.frame_of (frame v) ->
  under_way rx e' (vs ++ [v]).
Proof.
  intros (p & F & W & St & L & V) Hv Hf. destruct (length_frame v Hv) as [Lv Bv].
  assert (Wire.MAX_FRAME_BYTES = 181%nat) as HM by done. rewrite HM in Lv.
  pose proof (Framing.feed_frame p (frame v) W Bv (or_introl St)) as D.
  unfold Framing.MAX_PAYLOAD_BYTES in *. destruct D as (D1 & D2 & _ & _ & D5); [lia|lia|].
  pose proof (Framing.feed_wf p _ W (Framing.frame_of_is_bytes _ Bv)) as W'.
  destruct (Framing.feed p (Framing.frame_of (frame v))) as [p' f'] eqn:F'. cbn [fst snd] in *. subst f'.
  exists p'. rewrite Hf, Framing.feed_app, F, F', fmap_app. split; [done|]. split; [done|]. split; [done|].
  split; [unfold Framing.MAX_PAYLOAD_BYTES; lia|]. apply Forall_app. by repeat constructor.
Qed.

Lemma route_packets vs : forall i, Forall wf_packet vs ->
  fold_left route_frame (frame <$> vs) i =
    mk_inbox (i.(inbox_beacons) ++ beacons_of vs) (i.(inbox_messages) ++ messages_of vs) i.(parse_errors).
Proof.
  induction vs as [|v vs IH]; intros i V; [destruct i; cbn; by rewrite !app_nil_r|]. apply Forall_cons in V as [Hv V].
  cbn [fmap list_fmap fold_left]. rewrite route_packet, IH by done. cbn [inbox_beacons inbox_messages parse_errors].
  rewrite <- !app_assoc. f_equal; [|]; f_equal; unfold beacons_of, messages_of; by destruct v.
Qed.

Lemma under_way_read rx e e' vs l :
  under_way rx e vs -> in_flight e = l ++ in_flight e' ->
  exists v1 v2, vs = v1 ++ v2 /\ under_way (take_in l rx) e' v2 /\
    (take_in l rx).(s_inbox) = mk_inbox (rx.(s_inbox).(inbox_beacons) ++ beacons_of v1)
      (rx.(s_inbox).(inbox_messages) ++ messages_of v1) rx.(s_inbox).(parse_errors).
Proof.
  intros (p & F & W & St & L & V) Hl. rewrite Hl, Framing.feed_app in F. unfold take_in, under_way.
  destruct (Framing.feed (s_parser rx) l) as [p1 f1]. destruct (Framing.feed p1 (in_flight e')) as [p2 f2] eqn:F2.
  injection F as -> E1. symmetry in E1. apply fmap_app_inv in E1 as (v1 & v2 & -> & -> & ->).
  apply Forall_app in V as [V1 V2]. exists v1, v2. split; [done|]. cbn [s_parser s_inbox].
  split; [by exists p|]. by apply route_packets.
Qed.

(** *** A drain, a write and a send, on the line *)

(** The fields a drain or a poll leaves alone. *)
Definition same_node (s s' : Serial) : Prop :=
  s'.(s_fd) = s.(s_fd) /\ s'.(s_healthy) = s.(s_healthy).

Lemma drain_fd_line : forall fuel rx e vs e' rx',
  rx.(s_fd) = b -> drain_fd fuel rx e = Some (e', rx') -> under_way rx e vs ->
  same_node rx rx' /\ exists v1 v2, vs = v1 ++ v2 /\ under_way rx' e' v2 /\
    rx'.(s_inbox) = mk_inbox (rx.(s_inbox).(inbox_beacons) ++ beacons_of v1)
      (rx.(s_inbox).(inbox_messages) ++ messages_of v1) rx.(s_inbox).(parse_errors).
Proof.
  assert (forall rx e vs, under_way rx e vs -> exists v1 v2, vs = v1 ++ v2 /\ under_way rx e v2 /\
    rx.(s_inbox) = mk_inbox (rx.(s_inbox).(inbox_beacons) ++ beacons_of v1)
      (rx.(s_inbox).(inbox_messages) ++ messages_of v1) rx.(s_inbox).(parse_errors)) as Stop.
  { intros rx e vs Hu. exists [], vs. split; [done|]. split; [done|]. cbn. rewrite !app_nil_r. by destruct (s_inbox rx). }
  assert (forall rx e e' vs, in_flight e' = in_flight e -> under_way rx e vs -> under_way rx e' vs) as Same.
  { intros rx e e' vs Hi (p & F & Hu). exists p. by rewrite Hi. }
  induction fuel as [|fuel IH]; intros rx e vs e' rx' Hfd Hd Hu; [done|]. cbn [drain_fd] in Hd. rewrite Hfd in Hd.
  pose proof (line_read (a := a) 1024 e) as Lr. destruct (sys_read b 1024 e) as [e1 [l| |]]; [| |done].
  - destruct l as [|x l]; [injection Hd as <- <-; split; [done|]; by eapply Stop, Same|].
    destruct (under_way_read rx e e1 vs (x :: l) Hu Lr) as (v1 & v2 & -> & Hu2 & Hi).
    assert (same_node rx (take_in (x :: l) rx)) as Sn by (unfold take_in; by destruct (Framing.feed _ _)).
    destruct (IH _ _ _ _ _ (eq_trans (proj1 Sn) Hfd) Hd Hu2) as (Sn2 & v3 & v4 & -> & Hu4 & Hi4).
    split; [destruct Sn, Sn2; split; congruence|]. exists (v1 ++ v3), v4. rewrite app_assoc. split; [done|]. split; [done|].
    rewrite Hi4, Hi. cbn [inbox_beacons inbox_messages parse_errors]. unfold beacons_of, messages_of.
    by rewrite !omap_app, !app_assoc.
  - injection Hd as <- <-. split; [done|]. by eapply Stop, Same.
Qed.

Lemma write_loop_line buf fl : forall fuel w e r,
  (w <= fl)%nat -> (fl <= length buf)%nat -> write_loop fuel a buf w fl e = Some r ->
  r.2 = true /\ in_flight r.1 = in_flight e ++ slice w (fl - w) buf.
Proof.
  assert (forall e, in_flight e = in_flight e ++ slice fl (fl - fl) buf) as Stop
    by (intros e; by rewrite Nat.sub_diag, app_nil_r).
  induction fuel as [|fuel IH]; intros w e r Hw Hb Hr; cbn [write_loop] in Hr;
    destruct (Nat.ltb_spec w fl) as [Hl|Hl]; try done.
  1,3: injection Hr as <-; replace w with fl by lia; split; [done|apply Stop].
  assert (length (slice w (fl - w) buf) = (fl - w)%nat) as Ls by (unfold slice; rewrite length_take, length_drop; lia).
  pose proof (line_write (b := b) (slice w (fl - w) buf) e) as Lw.
  destruct (sys_write a (slice w (fl - w) buf) e) as [e1 [k| |]].
  - destruct Lw as [L1 L2]; [intros Hn; rewrite Hn in Ls; cbn in Ls; lia|].
    destruct (IH (w + k)%nat e1 r ltac:(lia) Hb Hr) as [-> ->]. split; [done|]. rewrite L2, <- app_assoc. f_equal.
    replace (fl - (w + k))%nat with (fl - w - k)%nat by lia. unfold slice. rewrite take_take, Nat.min_l by lia.
    rewrite <- (take_drop k (take (fl - w) (drop w buf))). rewrite take_take, Nat.min_l by lia. f_equal.
    rewrite skipn_firstn_comm, drop_drop. done.
  - destruct (IH w e1 r Hw Hb Hr) as [-> ->]. split; [done|]. rewrite Lw; [done|]. intros Hn. rewrite Hn in Ls. cbn in Ls. lia.
  - destruct Lw. intros Hn. rewrite Hn in Ls. cbn in Ls. lia.
Qed.

Lemma write_framed_line payload s e :
  s.(s_fd) = a -> (length payload <= Wire.MAX_FRAME_BYTES)%nat ->
  exists e' s', write_framed (send_fuel s e) payload s e = Some (e', s', true) /\ same_node s s' /\
    in_flight e' = in_flight e ++ Framing.frame_of payload.
Proof.
  intros Hfd Hlen. destruct (write_framed_total payload s e) as [r Hr]. unfold write_framed in *.
  rewrite Framing.encode_spec in * by (by rewrite length_replicate).
  assert (Wire.MAX_FRAME_BYTES = 181%nat) as HM by done. rewrite HM in *.
  unfold Framing.MAX_PAYLOAD_BYTES, Framing.FRAME_HEADER_BYTES in *.
  rewrite (proj2 (Nat.ltb_ge _ _)), (proj2 (Nat.ltb_ge _ _)) in * by lia. cbn [orb] in *.
  destruct (Nat.eqb_spec (4 + length payload) 0) as [|_]; [lia|].
  assert (length (Framing.frame_of payload) = (4 + length payload)%nat) as Lf by done.
  destruct (write_loop _ _ _ _ _ _) as [[e1 ok]|] eqn:Ew; [|done]. rewrite Hfd in Ew.
  apply write_loop_line in Ew as [E1 E2]; [|lia|rewrite length_write_at; rewrite length_replicate; lia].
  cbn [fst snd] in E1, E2. subst ok. do 2 eexists. split; [done|]. split; [done|]. rewrite E2. f_equal.
  rewrite Nat.sub_0_r, <- Lf, slice_write_at_0 by done. unfold slice. cbn [drop]. by apply take_ge.
Qed.

(** *** Histories *)

Lemma serial_send_packet fuel v s e : wf_packet v ->
  match v with inl sv => serial_send_beacon fuel sv s e | inr m => serial_send_message fuel m s e end =
    write_framed fuel (frame v) s e.
Proof.
  intros W. destruct v as [sv|m]; unfold serial_send_beacon, serial_send_message; cbn [frame].
  - by destruct (encoded_beacon sv W) as (buf & n & -> & -> & ->).
  - by destruct (encoded_message m W) as (buf & n & -> & -> & ->).
Qed.

Lemma beacons_of_app l1 l2 : beacons_of (l1 ++ l2) = beacons_of l1 ++ beacons_of l2.
Proof. apply omap_app. Qed.
Lemma messages_of_app l1 l2 : messages_of (l1 ++ l2) = messages_of l1 ++ messages_of l2.
Proof. apply omap_app. Qed.
Lemma beacons_of_inl l : beacons_of (inl <$> l) = l /\ messages_of (inl <$> l) = [].
Proof. induction l as [|x l [I1 I2]]; [done|]. split; [cbn; by f_equal|exact I2]. Qed.
Lemma messages_of_inr l : beacons_of (inr <$> l) = [] /\ messages_of (inr <$> l) = l.
Proof. induction l as [|x l [I1 I2]]; [done|]. split; [exact I1|cbn; by f_equal]. Qed.

(** What an operation or a history does: what was handed out, with what is still
    there, is what was there and what was sent. *)
Definition link_step (st st' : Serial * Serial * E) (vs vs' out new : list packet) : Prop :=
  let '(tx, rx, _) := st in let '(tx', rx', e') := st' in
  same_node tx tx' /\ same_node rx rx' /\ under_way rx' e' vs' /\
  beacons_of out ++ rx'.(s_inbox).(inbox_beacons) ++ beacons_of vs' =
    rx.(s_inbox).(inbox_beacons) ++ beacons_of vs ++ beacons_of new /\
  messages_of out ++ rx'.(s_inbox).(inbox_messages) ++ messages_of vs' =
    rx.(s_inbox).(inbox_messages) ++ messages_of vs ++ messages_of new /\
  rx'.(s_inbox).(parse_errors) = rx.(s_inbox).(parse_errors).

Lemma link_exec_ok reg o tx rx e vs :
  tx.(s_fd) = a -> rx.(s_fd) = b -> under_way rx e vs -> Forall wf_packet (sent [o]) ->
  exists st' l vs', link_exec reg o (tx, rx, e) = Ok (st', l) /\ link_step (tx, rx, e) st' vs vs' l (sent [o]).
Proof.
  intros Ha Hb Hu Hw. destruct o as [v| |].
  - apply Forall_cons in Hw as [Hv _]. destruct (length_frame v Hv) as [Hl _].
    destruct (write_framed_line (frame v) tx e Ha Hl) as (e' & tx' & Ew & Sn & Hf).
    rewrite <- (serial_send_packet _ v tx e Hv) in Ew.
    exists (tx', rx, e'), [], (vs ++ [v]). split.
    { destruct v; cbn [link_exec Net.send_beacon Net.send_message serial_transport]; by rewrite Ew. }
    split; [done|]. split; [done|]. split; [by eapply under_way_send|].
    rewrite beacons_of_app, messages_of_app. done.
  - destruct (drain_fd_total (S (read_budget rx.(s_fd) e)) rx e) as [[e' rx'] Hd]; [lia|].
    destruct (drain_fd_line _ _ _ _ _ _ Hb Hd Hu) as (Sn & v1 & v2 & -> & Hu2 & Hi).
    do 2 eexists. exists v2. split.
    { cbn [link_exec Net.poll_beacons serial_transport]. unfold serial_poll_beacons. by rewrite Hd. }
    split; [done|]. split; [done|]. split; [exact Hu2|]. cbn [s_inbox with_inbox inbox_beacons inbox_messages parse_errors].
    rewrite !(proj1 (beacons_of_inl _)), !(proj2 (beacons_of_inl _)), Hi, !beacons_of_app, !messages_of_app.
    cbn [inbox_beacons inbox_messages parse_errors]. change (sent [PollBeacons]) with (@nil packet). cbn. by rewrite !app_nil_r, !app_assoc.
  - destruct (drain_fd_total (S (read_budget rx.(s_fd) e)) rx e) as [[e' rx'] Hd]; [lia|].
    destruct (drain_fd_line _ _ _ _ _ _ Hb Hd Hu) as (Sn & v1 & v2 & -> & Hu2 & Hi).
    do 2 eexists. exists v2. split.
    { cbn [link_exec Net.poll_messages serial_transport]. unfold serial_poll_messages. by rewrite Hd. }
    split; [done|]. split; [done|]. split; [exact Hu2|]. cbn [s_inbox with_inbox inbox_beacons inbox_messages parse_errors].
    rewrite !(proj1 (messages_of_inr _)), !(proj2 (messages_of_inr _)), Hi, !beacons_of_app, !messages_of_app.
    cbn [inbox_beacons inbox_messages parse_errors]. change (sent [PollMessages]) with (@nil packet). cbn. by rewrite !app_nil_r, !app_assoc.
Qed.

Lemma link_run_ok reg : forall os tx rx e vs,
  tx.(s_fd) = a -> rx.(s_fd) = b -> under_way rx e vs -> Forall wf_packet (sent os) ->
  exists st' l vs', link_run reg os (tx, rx, e) = Ok (st', l) /\ link_step (tx, rx, e) st' vs vs' l (sent os).
Proof.
  induction os as [|o os IH]; intros tx rx e vs Ha Hb Hu Hw.
  { exists (tx, rx, e), [], vs. split; [done|]. unfold link_step. cbn. rewrite !app_nil_r. by split_and!. }
  assert (sent (o :: os) = sent [o] ++ sent os) as Es by (unfold sent; rewrite <- omap_app; done).
  rewrite Es in Hw |- *. apply Forall_app in Hw as [Hw1 Hw2].
  destruct (link_exec_ok reg o tx rx e vs Ha Hb Hu Hw1) as ([[tx1 rx1] e1] & l1 & v1 & E1 & (T1 & R1 & U1 & B1 & M1 & P1)).
  destruct (IH tx1 rx1 e1 v1) as ([[tx2 rx2] e2] & l2 & v2 & E2 & (T2 & R2 & U2 & B2 & M2 & P2));
    [destruct T1; congruence|destruct R1; congruence|done|done|].
  exists (tx2, rx2, e2), (l1 ++ l2), v2. cbn [link_run]. rewrite E1. cbn [obind]. rewrite E2. split; [done|].
  unfold link_step, same_node in *. rewrite !beacons_of_app, !messages_of_app, <- !app_assoc, B2, M2.
  split_and!; try (destruct T1, T2, R1, R2; congruence); try done.
  - rewrite !app_assoc in *. by rewrite B1.
  - rewrite !app_assoc in *. by rewrite M1.
Qed.

(** C35: A serial line between two transports carries every beacon and every message
    exactly once and in order, whatever the sizes of the partial writes and of the
    reads, and however often a call has to be repeated.  In any sequence of sends and
    polls on a line that starts empty, every send succeeds; what has been handed out,
    then what is in the inbox, then what is under way is what was sent, for beacons
    and for messages; no frame fails to parse and both ends stay healthy.  Once the
    line has delivered its bytes nothing is under way: everything sent has arrived. *)
Theorem serial_link_exactly_once (reg : Reg.t) (own_a own_b : bool) (e : E) (os : list link_op)
    (Hempty : in_flight e = []) (Hwf : Forall wf_packet (sent os)) :
  exists tx rx e' out vs, link_run reg os (new_serial a own_a, new_serial b own_b, e) = Ok (tx, rx, e', out) /\
    beacons_of out ++ rx.(s_inbox).(inbox_beacons) ++ beacons_of vs = beacons_of (sent os) /\
    messages_of out ++ rx.(s_inbox).(inbox_messages) ++ messages_of vs = messages_of (sent os) /\
    rx.(s_inbox).(parse_errors) = 0 /\ tx.(s_healthy) = true /\ rx.(s_healthy) = true /\
    (in_flight e' = [] -> vs = []).
Proof.
  assert (under_way (new_serial b own_b) e []) as Hu.
  { exists (Framing.new_parser Framing.MAX_PAYLOAD_BYTES). rewrite Hempty. split; [done|].
    split; [apply Framing.new_parser_wf|]. split; [done|]. split; [apply length_replicate|constructor]. }
  destruct (link_run_ok reg os (new_serial a own_a) (new_serial b own_b) e [] eq_refl eq_refl Hu Hwf)
    as ([[tx rx] e'] & out & vs & R & ([_ T] & [_ Rx] & (p & F & _) & B & M & P)).
  exists tx, rx, e', out, vs. split; [done|]. split; [exact B|]. split; [exact M|]. split; [exact P|].
  split; [exact T|]. split; [exact Rx|]. intros Hf. rewrite Hf in F. injection F as _ F. by destruct vs.
Qed.
End OnALine.

(** ** The datagram socket *)

(** A socket whose receive queue holds datagrams; [recv] takes the first one and
    cuts it to the size of the buffer. *)
Class Datagrams (E : Type) `{!Kernel E} (fd : Z) := {
  queue : E -> list (list Z);
  datagram_recv : forall n e,
    match sys_recv fd n e with
    | (e', Did d) => exists x q, queue e = x :: q /\ d = take n x /\ queue e' = q
    | (e', Again) => queue e = [] /\ queue e' = []
    | (_, Failed) => False
    end;
}.

(** What becomes of a datagram. *)
Inductive verdict := Accepted (v : packet) | Echo | Malformed.
Definition judge (self_id : Id.HierarchicalID) (d : list Z) : verdict :=
  let buf := take Wire.MAX_FRAME_BYTES d in
  match Wire.decode_beacon buf (length buf), Wire.decode_message buf (length buf) with
  | Some sv, _ => if Id.hid_eqb sv.(sv_id) self_id then Echo else Accepted (inl sv)
  | None, Some m => if Id.hid_eqb m.(m_sender) self_id then Echo else Accepted (inr m)
  | None, None => Malformed
  end.
Definition accepted (self_id : Id.HierarchicalID) (ds : list (list Z)) : list packet :=
  omap (fun d => match judge self_id d with Accepted v => Some v | _ => None end) ds.
Definition is_malformed (v : verdict) : bool := match v with Malformed => true | _ => false end.
Definition is_echo (v : verdict) : bool := match v with Echo => true | _ => false end.
Definition malformed (self_id : Id.HierarchicalID) (ds : list (list Z)) : nat :=
  length (List.filter is_malformed (judge self_id <$> ds)).
Definition echoes (self_id : Id.HierarchicalID) (ds : list (list Z)) : nat :=
  length (List.filter is_echo (judge self_id <$> ds)).
Definition sender (v : packet) : Id.HierarchicalID := match v with inl sv => sv.(sv_id) | inr m => m.(m_sender) end.

(** The queue up to the first empty datagram, and what is left in it. *)
Fixpoint until_empty (ds : list (list Z)) : list (list Z) * list (list Z) :=
  match ds with
  | [] => ([], [])
  | [] :: ds => ([], ds)
  | d :: ds => let '(now, later) := until_empty ds in (d :: now, later)
  end.

Lemma beacon_tag buf n sv : Wire.decode_beacon buf n = Some sv -> Wire.peek_tag buf n = Wire.TAG_BEACON.
Proof.
  unfold Wire.decode_beacon, Wire.peek_tag. destruct (Nat.ltb_spec n (Wire.FRAME_HEADER_BYTES + Wire.BEACON_PAYLOAD_BYTES)); [done|].
  unfold Wire.FRAME_HEADER_BYTES in *. rewrite (proj2 (Nat.ltb_lt 0 n)) by lia.
  destruct (Z.eqb_spec (MI.at_ buf 0) Wire.TAG_BEACON); done.
Qed.
Lemma message_tag buf n m : Wire.decode_message buf n = Some m -> Wire.peek_tag buf n = Wire.TAG_MESSAGE.
Proof.
  unfold Wire.decode_message, Wire.peek_tag. destruct (Nat.ltb_spec n (Wire.FRAME_HEADER_BYTES + Wire.MESSAGE_PAYLOAD_BYTES)); [done|].
  unfold Wire.FRAME_HEADER_BYTES in *. rewrite (proj2 (Nat.ltb_lt 0 n)) by lia.
  destruct (Z.eqb_spec (MI.at_ buf 0) Wire.TAG_MESSAGE); done.
Qed.

Lemma route_judged self d i :
  route_datagram self (take Wire.MAX_FRAME_BYTES d) i =
    match judge self d with
    | Accepted (inl sv) => add_beacon sv i
    | Accepted (inr m) => add_message m i
    | Echo => i
    | Malformed => add_error i
    end.
Proof.
  unfold route_datagram, judge. set (buf := take _ d).
  destruct (Wire.decode_beacon buf (length buf)) as [sv|] eqn:Eb.
  { rewrite (beacon_tag _ _ _ Eb), Z.eqb_refl. by destruct (Id.hid_eqb _ _). }
  destruct (Wire.decode_message buf (length buf)) as [m|] eqn:Em.
  { rewrite (message_tag _ _ _ Em). change (Wire.TAG_MESSAGE =? Wire.TAG_BEACON) with false. cbn match.
    rewrite Z.eqb_refl. by destruct (Id.hid_eqb _ _). }
  by repeat case_match.
Qed.

Lemma accounted self ds :
  length ds = (length (accepted self ds) + echoes self ds + malformed self ds)%nat.
Proof.
  unfold accepted, echoes, malformed. induction ds as [|d ds IH]; [done|]. cbn. destruct (judge self d); cbn in *; lia.
Qed.

(** A datagram is accepted only if it starts with the frame of the value. *)
Lemma judge_accepted self d v : MI.is_bytes d -> judge self d = Accepted v ->
  wf_packet v /\ sender v <> self /\ Wire.starts d (frame v).
Proof.
  intros Hd. unfold judge. set (buf := take _ d).
  assert (MI.is_bytes buf) as Hb by (by apply Forall_take).
  assert (forall f, Wire.starts buf f -> Wire.starts d f) as Hs.
  { intros f Hf. pose proof (Wire.starts_length _ _ Hf) as Hl. unfold Wire.starts in *. rewrite <- Hf at 2. subst buf.
    rewrite length_take in Hl. rewrite take_take, Nat.min_l by lia. done. }
  destruct (Wire.decode_beacon buf (length buf)) as [sv|] eqn:Eb.
  { destruct (Id.hid_eqb _ _) eqn:En; [done|]. intros [= <-]. apply Wire.decode_beacon_inv in Eb as [W S]; try done.
    split; [done|]. split; [|by apply Hs]. cbn. intros <-. by rewrite Id.hid_eqb_refl in En. }
  destruct (Wire.decode_message buf (length buf)) as [m|] eqn:Em; [|done].
  destruct (Id.hid_eqb _ _) eqn:En; [done|]. intros [= <-]. apply Wire.decode_message_inv in Em as [W S]; try done.
  split; [done|]. split; [|by apply Hs]. cbn. intros <-. by rewrite Id.hid_eqb_refl in En.
Qed.

Lemma judge_frame self v : wf_packet v ->
  judge self (frame v) = if Id.hid_eqb (sender v) self then Echo else Accepted v.
Proof.
  intros W. unfold judge. assert (length (frame v) <= Wire.MAX_FRAME_BYTES)%nat as Hl by (by apply length_frame).
  rewrite take_ge by done. destruct v as [sv|m]; cbn [frame sender] in *.
  - rewrite Wire.length_beacon_frame by done. rewrite (Wire.decode_beacon_starts sv) by (done || apply starts_self). done.
  - rewrite Wire.length_message_frame by done.
    rewrite (Wire.decode_beacon_message m) by apply starts_self.
    rewrite (Wire.decode_message_starts m) by (done || apply starts_self). done.
Qed.

Lemma until_empty_incl ds : forall d, d ∈ (until_empty ds).1 -> d ∈ ds.
Proof.
  induction ds as [|[|c t] ds IH]; intros d; cbn; [done|by intros ?%not_elem_of_nil|].
  destruct (until_empty ds) as [now later]. cbn in *. rewrite !elem_of_cons. intros [?|?]; auto.
Qed.

Section OnASocket.
Context {E : Type} `{!Kernel E} `{!Progress E} (fd : Z) `{!Datagrams E fd}.

(** The inbox after some datagrams were routed. *)
Definition received (self : Id.HierarchicalID) (ds : list (list Z)) (i : Inbox) : Inbox :=
  mk_inbox (i.(inbox_beacons) ++ beacons_of (accepted self ds)) (i.(inbox_messages) ++ messages_of (accepted self ds))
    (MI.u64 (i.(parse_errors) + Z.of_nat (malformed self ds))).

Lemma received_cons self d ds i :
  received self ds (route_datagram self (take Wire.MAX_FRAME_BYTES d) i) = received self (d :: ds) i.
Proof.
  rewrite route_judged. unfold received, accepted, malformed. cbn. destruct (judge self d) as [[sv|m]| |]; cbn;
    rewrite <- ?app_assoc; try done. f_equal. unfold MI.u64. rewrite Zplus_mod_idemp_l. f_equal. lia.
Qed.

Lemma drain_socket_ok self : forall fuel u e r,
  u.(u_fd) = fd -> u.(u_self_id) = self -> MI.is_u64 u.(u_inbox).(parse_errors) -> drain_socket fuel u e = Some r ->
  r.2.(u_fd) = fd /\ r.2.(u_self_id) = self /\ r.2.(u_healthy) = u.(u_healthy) /\
  r.2.(u_inbox) = received self (until_empty (queue e)).1 u.(u_inbox) /\
  queue r.1 = (until_empty (queue e)).2.
Proof.
  assert (forall i, MI.is_u64 i.(parse_errors) -> received self [] i = i) as Nil.
  { intros i Hi. unfold received. cbn. rewrite !app_nil_r, Z.add_0_r, MI.u64_id by done. by destruct i. }
  induction fuel as [|fuel IH]; intros u e r Hfd Hs Hp Hd; [done|]. cbn [drain_socket] in Hd. rewrite Hfd, Hs in Hd.
  pose proof (datagram_recv (fd := fd) Wire.MAX_FRAME_BYTES e) as Lr.
  destruct (sys_recv fd Wire.MAX_FRAME_BYTES e) as [e1 [d| |]]; [| |done].
  - destruct Lr as (x & q & Hq & -> & Hq1). rewrite Hq.
    destruct (take Wire.MAX_FRAME_BYTES x) as [|c t] eqn:Et.
    + injection Hd as <-. assert (x = []) as -> by (by destruct x). cbn. by rewrite Nil.
    + destruct x as [|c' x]; [done|]. apply IH in Hd as (R1 & R2 & R3 & R4 & R5); cbn [u_fd u_self_id u_inbox u_healthy] in *.
      * split; [done|]. split; [done|]. split; [done|]. rewrite R4, R5, Hq1. cbn [until_empty].
        destruct (until_empty q) as [now later]. cbn [fst snd]. split; [|done]. rewrite <- Et. apply received_cons.
      * done.
      * done.
      * rewrite <- Et, route_judged. destruct (judge self _) as [[sv|m]| |]; cbn; try done. apply MI.u64_range.
  - destruct Lr as [Hq Hq1]. injection Hd as <-. rewrite Hq. cbn. rewrite Nil; done.
Qed.

Lemma udp_send_packet v u e : wf_packet v ->
  match v with inl sv => udp_send_beacon sv u e | inr m => udp_send_message m u e end = udp_send (frame v) u e.
Proof.
  intros W. destruct v as [sv|m]; unfold udp_send_beacon, udp_send_message; cbn [frame].
  - by destruct (encoded_beacon sv W) as (buf & n & -> & -> & ->).
  - by destruct (encoded_message m W) as (buf & n & -> & -> & ->).
Qed.

(** C36: A poll of the datagram socket sorts what has arrived, whatever it is.  The
    datagrams up to the first empty one are each accepted, dropped as an echo of the
    node itself, or counted as a parse error; what is handed out is the accepted
    beacons (or messages) of this and earlier drains in their order, the other kind
    stays in its inbox, and the rest of the queue waits for the next poll, which an
    empty datagram ends early.  Only a datagram that starts with the frame of a
    well-formed value of another node is accepted (what follows the frame is not looked
    at); and such a frame, which is what the sends hand to [sendto], always
    is. *)
Theorem udp_poll_sorts (u : Udp) (e : E) (Hfd : u.(u_fd) = fd) (Hp : MI.is_u64 u.(u_inbox).(parse_errors))
    (Hq : Forall MI.is_bytes (queue e)) :
  let self := u.(u_self_id) in
  let '(now, later) := until_empty (queue e) in
  (exists u' e', @Net.poll_beacons _ _ udp_transport tt (u, e) =
       ((u', e'), u.(u_inbox).(inbox_beacons) ++ beacons_of (accepted self now)) /\ queue e' = later /\
     u'.(u_inbox) = mk_inbox [] (u.(u_inbox).(inbox_messages) ++ messages_of (accepted self now))
                      (MI.u64 (u.(u_inbox).(parse_errors) + Z.of_nat (malformed self now))) /\
     u'.(u_healthy) = u.(u_healthy)) /\
  (exists u' e', @Net.poll_messages _ _ udp_transport tt (u, e) =
       ((u', e'), u.(u_inbox).(inbox_messages) ++ messages_of (accepted self now)) /\ queue e' = later /\
     u'.(u_inbox) = mk_inbox (u.(u_inbox).(inbox_beacons) ++ beacons_of (accepted self now)) []
                      (MI.u64 (u.(u_inbox).(parse_errors) + Z.of_nat (malformed self now))) /\
     u'.(u_healthy) = u.(u_healthy)) /\
  length now = (length (accepted self now) + echoes self now + malformed self now)%nat /\
  Forall (fun v => wf_packet v /\ sender v <> self /\ exists d, d ∈ queue e /\ Wire.starts d (frame v)) (accepted self now) /\
  (forall v, wf_packet v ->
     match v with inl sv => udp_send_beacon sv u e | inr m => udp_send_message m u e end = udp_send (frame v) u e /\
     judge self (frame v) = if Id.hid_eqb (sender v) self then Echo else Accepted v).
Proof.
  intros self. destruct (drain_socket_total (S (recv_budget u.(u_fd) e)) u e) as [[e' u'] Hd]; [lia|].
  destruct (drain_socket_ok self _ _ _ _ Hfd eq_refl Hp Hd) as (R1 & R2 & R3 & R4 & R5). cbn [fst snd] in *.
  pose proof (until_empty_incl (queue e)) as Hin. destruct (until_empty (queue e)) as [now later]. cbn [fst snd] in *.
  split_and!.
  - cbn [Net.poll_beacons udp_transport]. unfold udp_poll_beacons. rewrite Hd, R4. do 2 eexists. split; [done|]. by cbn.
  - cbn [Net.poll_messages udp_transport]. unfold udp_poll_messages. rewrite Hd, R4. do 2 eexists. split; [done|]. by cbn.
  - apply accounted.
  - apply Forall_forall. intros v Hv. apply list_elem_of_omap in Hv as (d & Hdn & Hj).
    destruct (judge self d) as [v'| |] eqn:Ej; try done. injection Hj as ->. rewrite Forall_forall in Hq.
    apply judge_accepted in Ej as (W & Sn & St); [|by apply Hq, Hin]. split; [done|]. split; [done|]. exists d. auto.
  - intros v Hv. split; [by apply udp_send_packet|by apply judge_frame].
Qed.
End OnASocket.

(** ** Examples *)

(** A kernel with one line, from descriptor 1 to descriptor 2, and one socket: a
    write or a read moves at most seven bytes, and every other call has to be
    repeated. *)
Record pipe := mk_pipe { bytes : list Z; datagrams : list (list Z); busy : nat }.
Definition pipe_read (n : nat) (e : pipe) : pipe * io (list Z) :=
  match e.(busy), e.(bytes) with
  | S k, _ => (mk_pipe e.(bytes) e.(datagrams) k, Again)
  | O, [] => (e, Again)
  | O, _ => (mk_pipe (drop (Nat.min n 7) e.(bytes)) e.(datagrams) 0, Did (take (Nat.min n 7) e.(bytes)))
  end.
Definition pipe_write (l : list Z) (e : pipe) : pipe * io nat :=
  match e.(busy) with
  | S k => (mk_pipe e.(bytes) e.(datagrams) k, Again)
  | O => (mk_pipe (e.(bytes) ++ take 7 l) e.(datagrams) 1, Did (Nat.min 7 (length l)))
  end.
Definition pipe_recv (n : nat) (e : pipe) : pipe * io (list Z) :=
  match e.(datagrams) with
  | [] => (e, Again)
  | d :: ds => (mk_pipe e.(bytes) ds e.(busy), Did (take n d))
  end.
#[local] Instance pipe_kernel : Kernel pipe := {|
  sys_read _ n e := pipe_read n e;
  sys_write _ l e := pipe_write l e;
  sys_recv _ n e := pipe_recv n e;
  sys_sendto _ d e := (e, Did (length d));
|}.
#[local] Instance pipe_progress : Progress pipe.
Proof.
  refine {| write_budget _ n e := (2 * n + e.(busy))%nat; read_budget _ e := length e.(bytes);
            recv_budget _ e := length e.(datagrams) |}.
  - intros fd l e Hl. cbn [sys_write pipe_kernel]. unfold pipe_write. destruct (busy e) eqn:Eb; cbn [busy]; lia.
  - intros fd n e b l. cbn [sys_read pipe_kernel]. unfold pipe_read. destruct (busy e), (bytes e) as [|x t] eqn:Ex; cbn [snd fst]; try done.
    intros [= Ht]. cbn [bytes]. apply (f_equal length) in Ht. rewrite length_take in Ht. rewrite length_drop. cbn [length] in *. lia.
  - intros fd n e b l. cbn [sys_recv pipe_kernel]. unfold pipe_recv. destruct (datagrams e); cbn; [done|]. lia.
Defined.
#[local] Instance pipe_line : Line pipe 1 2.
Proof.
  refine {| in_flight := bytes |}.
  - intros l e Hl. cbn [sys_write pipe_kernel]. unfold pipe_write. destruct (busy e); cbn [bytes]; [|done]. split; [lia|].
    f_equal. destruct (decide (7 <= length l)%nat); [by rewrite Nat.min_l|]. rewrite Nat.min_r by lia. by rewrite !take_ge by lia.
  - intros n e. cbn [sys_read pipe_kernel]. unfold pipe_read. destruct (busy e), (bytes e) as [|x t] eqn:Ex; cbn [bytes]; try done.
    by rewrite take_drop.
Defined.
#[local] Instance pipe_datagrams : Datagrams pipe 3.
Proof.
  refine {| queue := datagrams |}. intros n e. cbn [sys_recv pipe_kernel]. unfold pipe_recv.
  destruct (datagrams e) eqn:Ed; cbn [datagrams]; [done|]. eauto.
Defined.

Definition sample_ops : list link_op :=
  [SendPacket (inl Wire.sample_sv); PollMessages; SendPacket (inr Wire.sample_message); SendPacket (inl default_sv);
   PollBeacons].
Lemma sample_ops_wf : Forall wf_packet (sent sample_ops).
Proof.
  apply Forall_cons_2; [exact Wire.sample_sv_wf|]. apply Forall_cons_2; [exact Wire.sample_message_wf|].
  apply Forall_cons_2; [exact default_sv_wf|]. apply Forall_nil_2.
Qed.

Lemma serial_link_exactly_once_witness :
  exists tx rx e' out vs, link_run (Reg.new_registry Reg.Open) sample_ops (new_serial 1 true, new_serial 2 true, mk_pipe [] [] 0)
      = Ok (tx, rx, e', out) /\
    beacons_of out ++ rx.(s_inbox).(inbox_beacons) ++ beacons_of vs = [Wire.sample_sv; default_sv] /\
    messages_of out ++ rx.(s_inbox).(inbox_messages) ++ messages_of vs = [Wire.sample_message] /\
    tx.(s_healthy) = true.
Proof.
  destruct (@serial_link_exactly_once pipe pipe_kernel pipe_progress 1 2 pipe_line (Reg.new_registry Reg.Open) true true
    (mk_pipe [] [] 0) sample_ops eq_refl sample_ops_wf) as (tx & rx & e' & out & vs & R & B & M & _ & T & _).
  exists tx, rx, e', out, vs. split; [exact R|]. split; [exact B|]. split; [exact M|exact T].
Defined.

(** A queue with a frame, an echo, noise, an empty datagram and one more frame. *)
Definition sample_queue : list (list Z) :=
  [Wire.beacon_frame Wire.sample_sv; Wire.beacon_frame default_sv; [7; 7]; []; Wire.message_frame Wire.sample_message].
Lemma udp_poll_sorts_witness :
  exists u' e', @Net.poll_beacons _ _ udp_transport tt (new_udp 3 default_sv.(sv_id), mk_pipe [] sample_queue 0) =
      ((u', e'), [Wire.sample_sv]) /\
    u'.(u_inbox).(parse_errors) = 1 /\ e'.(datagrams) = [Wire.message_frame Wire.sample_message].
Proof.
  pose proof (@udp_poll_sorts pipe pipe_kernel pipe_progress 3 pipe_datagrams (new_udp 3 default_sv.(sv_id)) (mk_pipe [] sample_queue 0) eq_refl) as P.
  cbn zeta in P. destruct P as [(u' & e' & Hp & Hq & Hi & _) _].
  - unfold MI.is_u64. cbn. lia.
  - apply (Forall_impl (fun d => MI.bytesb d = true)); [|intros d Hd; apply MI.bytesb_spec; exact Hd].
    repeat (apply Forall_cons_2; [vm_compute; reflexivity|]). apply Forall_nil_2.
  - exists u', e'. split; [etransitivity; [exact Hp|]; vm_compute; reflexivity|]. split; [rewrite Hi; vm_compute; reflexivity|exact Hq].
Defined.
End Link.
