(* ===== verification/LinkSetup.v ===== *)
(** Opening, configuring and destroying the transports over the operating system
    ([src/comms/serial_transport.cpp], [src/comms/udp_multicast_transport.cpp]).

    The calls made on these paths are a type class over the state [E] of the kernel
    ([Posix]), with the constants of the platform's headers; what they promise about
    the table of open descriptors, the status flags and the sockets is [PosixLaws],
    which the concrete kernel of the examples satisfies.  [Links] has what the
    transports do once they are open. *)

From S2P Require Import Prelude MachineInt Float32 Identity BoundedQueue SerialFraming Components UdpWire.
From S2P Require Import Trace Scheduler Registry Transport PeerKeys WorldState Discovery Links.
Local Open Scope Z_scope.

Module Setup.
Import Comp Link.

(** ** The kernel *)

(** [struct termios], [sockaddr_in] with its port in host order, the socket options
    the code sets. *)
Record termios := mk_termios {
  c_iflag : Z;
  c_oflag : Z;
  c_cflag : Z;
  c_lflag : Z;
  c_ispeed : Z;
  c_ospeed : Z;
  c_cc : list Z;
}.
Record sockaddr := mk_sockaddr { sin_port : Z; sin_addr : Z }.
Inductive sockopt :=
| ReuseAddr | ReusePort | AddMembership (group : Z) | DropMembership (group : Z) | MulticastTtl (ttl : Z)
| MulticastLoop (on : Z).

(** A result below zero is the failure of a call that returns a number; [false] and
    [None] are those of the others. *)
Class Posix (E : Type) := {
  O_RDWR : Z; O_NOCTTY : Z; O_NONBLOCK : Z;
  B9600 : Z; B19200 : Z; B38400 : Z; B57600 : Z; B115200 : Z; B230400 : Z;
  CLOCAL : Z; CREAD : Z; CRTSCTS : Z; VMIN : nat; VTIME : nat;
  cfmakeraw : termios -> termios;
  inet_pton : list Z -> option Z;
  sys_open : list Z -> Z -> E -> E * Z;
  sys_close : Z -> E -> E;
  fcntl_getfl : Z -> E -> Z;
  fcntl_setfl : Z -> Z -> E -> E * bool;
  tcgetattr : Z -> E -> option termios;
  tcsetattr : Z -> termios -> E -> E * bool;
  sys_socket : E -> E * Z;
  setsockopt : Z -> sockopt -> E -> E * bool;
  sys_bind : Z -> sockaddr -> E -> E * bool;
}.

Section Operations.
Context {E : Type} `{!Posix E}.

(* @src src/comms/serial_transport.cpp:37-41 set_nonblocking *)
Definition set_nonblocking (fd : Z) (e : E) : E * bool :=
  let flags := fcntl_getfl fd e in
  if flags <? 0 then (e, false) else fcntl_setfl fd (Z.lor flags O_NONBLOCK) e.

(** *** SerialTransport *)

(* @src src/comms/serial_transport.cpp:45-55 baud_to_speed *)
Definition baud_to_speed (baud : Z) : Z :=
  if baud =? 9600 then B9600
  else if baud =? 19200 then B19200
  else if baud =? 38400 then B38400
  else if baud =? 57600 then B57600
  else if baud =? 115200 then B115200
  else if baud =? 230400 then B230400
  else 0.

(** [cfsetispeed] and [cfsetospeed], and the stores to the fields. *)
Definition set_speed (speed : Z) (t : termios) : termios :=
  mk_termios t.(c_iflag) t.(c_oflag) t.(c_cflag) t.(c_lflag) speed speed t.(c_cc).
Definition set_cflag (v : Z) (t : termios) : termios :=
  mk_termios t.(c_iflag) t.(c_oflag) v t.(c_lflag) t.(c_ispeed) t.(c_ospeed) t.(c_cc).
Definition set_cc (i : nat) (v : Z) (t : termios) : termios :=
  mk_termios t.(c_iflag) t.(c_oflag) t.(c_cflag) t.(c_lflag) t.(c_ispeed) t.(c_ospeed) (<[i := v]> t.(c_cc)).

(** The attributes a line gets; the flags are 32-bit. *)
(* @src src/comms/serial_transport.cpp:64-72 configure_termios *)
Definition line_attributes (speed : Z) (tio : termios) : termios :=
  let tio := set_speed speed (cfmakeraw tio) in
  let tio := set_cflag (Z.lor tio.(c_cflag) (Z.lor CLOCAL CREAD)) tio in
  let tio := set_cflag (Z.ldiff tio.(c_cflag) CRTSCTS) tio in
  set_cc VTIME 0 (set_cc VMIN 0 tio).

(* @src src/comms/serial_transport.cpp:57-74 configure_termios *)
Definition configure_termios (fd baud_rate : Z) (e : E) : E * bool :=
  let speed := baud_to_speed baud_rate in
  if speed =? 0 then (e, false)
  else match tcgetattr fd e with
       | None => (e, false)
       | Some tio => tcsetattr fd (line_attributes speed tio) e
       end.

(* @src src/comms/serial_transport.cpp:78-89 SerialTransport::open *)
Definition serial_open (device : list Z) (baud_rate : Z) (e : E) : E * option Serial :=
  let '(e, fd) := sys_open device (Z.lor O_RDWR O_NOCTTY) e in
  if fd <? 0 then (e, None)
  else
    let '(e, ok) := configure_termios fd baud_rate e in
    if negb ok then (sys_close fd e, None)
    else
      let '(e, ok) := set_nonblocking fd e in
      if negb ok then (sys_close fd e, None) else (e, Some (new_serial fd true)).

(* @src src/comms/serial_transport.cpp:91-99 SerialTransport::for_fd *)
Definition serial_for_fd (fd : Z) (own_fd : bool) (e : E) : E * option Serial :=
  if fd <? 0 then (e, None)
  else
    let '(e, ok) := set_nonblocking fd e in
    if negb ok then (e, None) else (e, Some (new_serial fd own_fd)).

(* @src src/comms/serial_transport.cpp:30-32 SerialTransport::Impl::~Impl *)
Definition serial_destroy (s : Serial) (e : E) : E :=
  if s.(s_own_fd) && (0 <=? s.(s_fd)) then sys_close s.(s_fd) e else e.

(** *** UDPMulticastTransport *)

(* @src include/mith/comms/udp_multicast_transport.h:39-48 UDPMulticastTransport::Config *)
Record UdpConfig := mk_udp_config {
  group_address : list Z;
  port : Z;
  interface_address : list Z;
  multicast_ttl : Z;
  recv_buffer_bytes : Z;
  self_id : Id.HierarchicalID;
}.
Definition default_udp_config : UdpConfig :=
  mk_udp_config (codes "239.10.20.30") 47474 (codes "0.0.0.0") 1 (64 * 1024) Id.nil_hid.

(** The object while it is being opened: [group_sa] is zero until it is known. *)
(* @src src/comms/udp_multicast_transport.cpp:18-21 UDPMulticastTransport::Impl *)
Record UdpImpl := mk_impl { i_config : UdpConfig; i_fd : Z; i_group_sa : sockaddr }.

(* @src src/comms/udp_multicast_transport.cpp:34-45 UDPMulticastTransport::Impl::~Impl *)
Definition udp_destroy (i : UdpImpl) (e : E) : E :=
  if 0 <=? i.(i_fd) then
    let '(e, _) := setsockopt i.(i_fd) (DropMembership i.(i_group_sa).(sin_addr)) e in
    sys_close i.(i_fd) e
  else e.

(** An early return destroys the object. *)
Definition abandon (i : UdpImpl) (e : E) : E * option UdpImpl := (udp_destroy i e, None).

(** Steps 5 and 6: options whose failure is ignored, and the mode of the descriptor. *)
(* @src src/comms/udp_multicast_transport.cpp:105-118 UDPMulticastTransport::open *)
Definition udp_finish (i : UdpImpl) (e : E) : E * option UdpImpl :=
  let '(e, _) := setsockopt i.(i_fd) (MulticastTtl i.(i_config).(multicast_ttl)) e in
  let '(e, _) := setsockopt i.(i_fd) (MulticastLoop 1) e in
  let '(e, ok) := set_nonblocking i.(i_fd) e in
  if negb ok then abandon i e else (e, Some i).

(** Step 4: joining the group. *)
(* @src src/comms/udp_multicast_transport.cpp:90-103 UDPMulticastTransport::open *)
Definition udp_join (i : UdpImpl) (e : E) : E * option UdpImpl :=
  match inet_pton i.(i_config).(group_address) with
  | None => abandon (mk_impl i.(i_config) i.(i_fd) (mk_sockaddr i.(i_config).(port) 0)) e
  | Some group =>
      let i := mk_impl i.(i_config) i.(i_fd) (mk_sockaddr i.(i_config).(port) group) in
      let '(e, ok) := setsockopt i.(i_fd) (AddMembership group) e in
      if negb ok then abandon i e else udp_finish i e
  end.

(** Step 3: binding. *)
(* @src src/comms/udp_multicast_transport.cpp:76-88 UDPMulticastTransport::open *)
Definition udp_bind (i : UdpImpl) (e : E) : E * option UdpImpl :=
  match inet_pton i.(i_config).(interface_address) with
  | None => abandon i e
  | Some addr =>
      let '(e, ok) := sys_bind i.(i_fd) (mk_sockaddr i.(i_config).(port) addr) e in
      if negb ok then abandon i e else udp_join i e
  end.

(** The second option is set only if the first could be. *)
(* @src src/comms/udp_multicast_transport.cpp:58-119 UDPMulticastTransport::open *)
Definition udp_open (cfg : UdpConfig) (e : E) : E * option UdpImpl :=
  let '(e, fd) := sys_socket e in
  let i := mk_impl cfg fd (mk_sockaddr 0 0) in
  if fd <? 0 then abandon i e
  else
    let '(e, ok) := setsockopt fd ReuseAddr e in
    if negb ok then abandon i e
    else
      let '(e, ok) := setsockopt fd ReusePort e in
      if negb ok then abandon i e else udp_bind i e.

(** The transport that [Links] models. *)
Definition udp_of (i : UdpImpl) : Udp := new_udp i.(i_fd) i.(i_config).(self_id).
End Operations.

(** ** What the kernel promises *)

(** What is set on a socket. *)
Record socket := mk_socket {
  so_reuse_addr : bool;
  so_reuse_port : bool;
  so_bound : option sockaddr;
  so_groups : list Z;
}.
Definition fresh_socket : socket := mk_socket false false None [].
Definition apply_opt (o : sockopt) (s : socket) : socket :=
  match o with
  | ReuseAddr => mk_socket true s.(so_reuse_port) s.(so_bound) s.(so_groups)
  | ReusePort => mk_socket s.(so_reuse_addr) true s.(so_bound) s.(so_groups)
  | AddMembership g => mk_socket s.(so_reuse_addr) s.(so_reuse_port) s.(so_bound) (g :: s.(so_groups))
  | DropMembership g => mk_socket s.(so_reuse_addr) s.(so_reuse_port) s.(so_bound) (filter (fun h => h <> g) s.(so_groups))
  | MulticastTtl _ | MulticastLoop _ => s
  end.
Definition apply_bind (a : sockaddr) (s : socket) : socket :=
  mk_socket s.(so_reuse_addr) s.(so_reuse_port) (Some a) s.(so_groups).

(** The descriptors open in the process, the state of a socket, and the attributes
    last requested for a line.  A new descriptor was not open before; the calls on a
    descriptor open and close none and keep the rest of what is observed. *)
Class PosixLaws (E : Type) `{!Posix E} := {
  fds : E -> gset Z;
  socket_of : Z -> E -> socket;
  requested : Z -> E -> option termios;
  open_law : forall p f e, let r := sys_open p f e in
    (r.2 < 0 /\ fds r.1 = fds e) \/ (0 <= r.2 /\ r.2 ∉ fds e /\ fds r.1 = {[r.2]} ∪ fds e);
  socket_law : forall e, let r := sys_socket e in
    (r.2 < 0 /\ fds r.1 = fds e) \/
    (0 <= r.2 /\ r.2 ∉ fds e /\ fds r.1 = {[r.2]} ∪ fds e /\ socket_of r.2 r.1 = fresh_socket);
  close_law : forall fd e, fds (sys_close fd e) = fds e ∖ {[fd]};
  setfl_law : forall fd f e, let r := fcntl_setfl fd f e in
    fds r.1 = fds e /\ socket_of fd r.1 = socket_of fd e /\ requested fd r.1 = requested fd e /\
    (r.2 = true -> Z.land (fcntl_getfl fd r.1) O_NONBLOCK = Z.land f O_NONBLOCK);
  tcsetattr_law : forall fd t e, let r := tcsetattr fd t e in
    fds r.1 = fds e /\ (r.2 = true -> requested fd r.1 = Some t);
  setsockopt_law : forall fd o e, let r := setsockopt fd o e in
    fds r.1 = fds e /\ socket_of fd r.1 = if r.2 then apply_opt o (socket_of fd e) else socket_of fd e;
  bind_law : forall fd a e, let r := sys_bind fd a e in
    fds r.1 = fds e /\ socket_of fd r.1 = if r.2 then apply_bind a (socket_of fd e) else socket_of fd e;
}.

Section Laws.
Context {E : Type} `{!Posix E} `{!PosixLaws E}.
Implicit Types e : E.

(** Name the results of a call, and what its law says of them. *)
Tactic Notation "call" constr(c) "as" simple_intropattern(p) "by" constr(law) ident(L) :=
  pose proof law as L; cbv zeta in L; destruct c as p; cbn [fst snd] in L.

Definition nonblocking (fd : Z) e : Prop := Z.land (fcntl_getfl fd e) O_NONBLOCK = O_NONBLOCK.

Lemma set_nonblocking_spec fd e :
  let r := set_nonblocking fd e in
  fds r.1 = fds e /\ socket_of fd r.1 = socket_of fd e /\ requested fd r.1 = requested fd e /\
  (r.2 = true -> nonblocking fd r.1).
Proof.
  unfold set_nonblocking. destruct (_ <? 0); [by split_and!|].
  destruct (setfl_law fd (Z.lor (fcntl_getfl fd e) O_NONBLOCK) e) as (F & S & R & N). split_and!; try done.
  intros Ho. unfold nonblocking. rewrite (N Ho). apply Z.bits_inj'. intros n _.
  rewrite Z.land_spec, Z.lor_spec. by destruct (Z.testbit _ n), (Z.testbit _ n).
Qed.

Lemma configure_spec fd baud e :
  let r := configure_termios fd baud e in
  fds r.1 = fds e /\
  (r.2 = true -> baud_to_speed baud <> 0 /\ exists tio, requested fd r.1 = Some (line_attributes (baud_to_speed baud) tio)).
Proof.
  unfold configure_termios. destruct (Z.eqb_spec (baud_to_speed baud) 0) as [|Hs]; [by split|].
  destruct (tcgetattr fd e) as [tio|]; [|by split]. destruct (tcsetattr_law fd (line_attributes (baud_to_speed baud) tio) e) as [F R].
  split; [done|]. intros Ho. split; [done|]. exists tio. by apply R.
Qed.

(** The attributes: the speed both ways, no flow control, the receiver on. *)
Lemma line_attributes_spec speed tio :
  let t := line_attributes speed tio in
  t.(c_ispeed) = speed /\ t.(c_ospeed) = speed /\ Z.land t.(c_cflag) CRTSCTS = 0 /\
  (Z.land (Z.lor CLOCAL CREAD) CRTSCTS = 0 -> Z.land t.(c_cflag) (Z.lor CLOCAL CREAD) = Z.lor CLOCAL CREAD).
Proof.
  cbn. split_and!; [done|done|..].
  - apply Z.bits_inj'. intros n _. rewrite Z.land_spec, Z.ldiff_spec, Z.bits_0.
    destruct (Z.testbit CRTSCTS n); by rewrite ?andb_false_r.
  - intros H0'. apply Z.bits_inj'. intros n _. pose proof (f_equal (fun v => Z.testbit v n) H0') as Hn. cbn in Hn.
    rewrite Z.land_spec, Z.bits_0 in Hn. rewrite Z.land_spec, Z.ldiff_spec, (Z.lor_spec (c_cflag _)).
    destruct (Z.testbit (Z.lor CLOCAL CREAD) n); [|by rewrite andb_false_r].
    cbn [andb] in Hn. rewrite Hn, orb_true_r. done.
Qed.

Lemma serial_open_spec device baud e :
  match serial_open device baud e with
  | (e', None) => fds e' = fds e
  | (e', Some s) =>
      let fd := s.(s_fd) in
      s = new_serial fd true /\ 0 <= fd /\ fd ∉ fds e /\ fds e' = {[fd]} ∪ fds e /\ nonblocking fd e' /\
      baud_to_speed baud <> 0 /\ exists tio, requested fd e' = Some (line_attributes (baud_to_speed baud) tio)
  end.
Proof.
  unfold serial_open. call (sys_open device (Z.lor O_RDWR O_NOCTTY) e) as [e' x] by (open_law device (Z.lor O_RDWR O_NOCTTY) e) L.
  destruct (Z.ltb_spec x 0) as [Hx|Hx]; [destruct L as [[_ L]|[L _]]; [done|lia]|].
  destruct L as [[L _]|(_ & Hn & L)]; [lia|].
  assert (forall e1, fds e1 = fds e' -> fds (sys_close x e1) = fds e) as C.
  { intros e1 H1'. rewrite close_law, H1', L. set_solver. }
  call (configure_termios x baud e') as [e1 ok] by (configure_spec x baud e') L0. destruct L0 as [L1 L2].
  destruct ok; cbn [negb]; [|by apply C].
  destruct (L2 eq_refl) as (Hb & tio & Ht).
  call (set_nonblocking x e1) as [e2 ok] by (set_nonblocking_spec x e1) L0. destruct L0 as (L3 & _ & L4 & L5).
  destruct ok; cbn [negb]; [|apply C; congruence].
  cbn [new_serial s_fd]. split_and!; try done; [congruence|by apply L5|]. exists tio. congruence.
Qed.

Lemma serial_for_fd_spec fd own e :
  match serial_for_fd fd own e with
  | (e', None) => fds e' = fds e
  | (e', Some s) => s = new_serial fd own /\ 0 <= fd /\ fds e' = fds e /\ nonblocking fd e'
  end.
Proof.
  unfold serial_for_fd. destruct (Z.ltb_spec fd 0) as [|Hf]; [done|].
  call (set_nonblocking fd e) as [e' ok] by (set_nonblocking_spec fd e) L. destruct L as (L1 & _ & _ & L2).
  destruct ok; cbn [negb]; [|done].
  split_and!; try done. by apply L2.
Qed.

Lemma serial_destroy_spec s e :
  fds (serial_destroy s e) = if s.(s_own_fd) && (0 <=? s.(s_fd)) then fds e ∖ {[s.(s_fd)]} else fds e.
Proof. unfold serial_destroy. destruct (_ && _); [apply close_law|done]. Qed.

(** A descriptor the call has opened, on top of those that were open before. *)
Definition owned (before : gset Z) (fd : Z) e : Prop := 0 <= fd /\ fd ∉ before /\ fds e = {[fd]} ∪ before.

Lemma owned_same before fd e e' : fds e' = fds e -> owned before fd e -> owned before fd e'.
Proof. unfold owned. by intros ->. Qed.

Lemma udp_destroy_spec before i e : owned before i.(i_fd) e -> fds (udp_destroy i e) = before.
Proof.
  intros (H0' & Hn & Hf). unfold udp_destroy. rewrite (proj2 (Z.leb_le _ _)) by done.
  call (setsockopt i.(i_fd) (DropMembership i.(i_group_sa).(sin_addr)) e) as [e' ok]
    by (setsockopt_law i.(i_fd) (DropMembership i.(i_group_sa).(sin_addr)) e) L.
  rewrite close_law, (proj1 L), Hf. set_solver.
Qed.

(** What the rest of [open] gives from a socket in state [s]. *)
Definition opens before fd (s : socket) (P : UdpImpl -> Prop) (r : E * option UdpImpl) : Prop :=
  match r with
  | (e', None) => fds e' = before
  | (e', Some i) => i.(i_fd) = fd /\ owned before fd e' /\ socket_of fd e' = s /\ nonblocking fd e' /\ P i
  end.

Lemma abandon_opens before s P i e : owned before i.(i_fd) e -> opens before i.(i_fd) s P (abandon i e).
Proof. apply udp_destroy_spec. Qed.

Lemma udp_finish_spec before i e :
  owned before i.(i_fd) e -> opens before i.(i_fd) (socket_of i.(i_fd) e) (fun i' => i' = i) (udp_finish i e).
Proof.
  intros O. unfold udp_finish.
  call (setsockopt i.(i_fd) (MulticastTtl i.(i_config).(multicast_ttl)) e) as [e1 b1]
    by (setsockopt_law i.(i_fd) (MulticastTtl i.(i_config).(multicast_ttl)) e) L1.
  call (setsockopt i.(i_fd) (MulticastLoop 1) e1) as [e2 b2] by (setsockopt_law i.(i_fd) (MulticastLoop 1) e1) L2.
  call (set_nonblocking i.(i_fd) e2) as [e3 ok] by (set_nonblocking_spec i.(i_fd) e2) L3.
  destruct L1 as [F1 S1], L2 as [F2 S2], L3 as (F3 & S3 & _ & N3).
  assert (owned before i.(i_fd) e3) as O3 by (apply (owned_same _ _ e); [congruence|done]).
  destruct ok; cbn [negb]; [|by apply abandon_opens]. split_and!; try done; [|by apply N3].
  rewrite S3, S2. destruct b2; cbn [apply_opt]; rewrite S1; by destruct b1.
Qed.

Lemma udp_join_spec before i s e :
  owned before i.(i_fd) e -> socket_of i.(i_fd) e = s ->
  match inet_pton i.(i_config).(group_address) with
  | Some g => opens before i.(i_fd) (apply_opt (AddMembership g) s)
                (fun i' => i' = mk_impl i.(i_config) i.(i_fd) (mk_sockaddr i.(i_config).(port) g)) (udp_join i e)
  | None => (udp_join i e).2 = None /\ fds (udp_join i e).1 = before
  end.
Proof.
  intros O S. unfold udp_join. destruct (inet_pton _) as [g|].
  - cbv zeta. cbn [i_fd]. call (setsockopt i.(i_fd) (AddMembership g) e) as [e1 ok] by (setsockopt_law i.(i_fd) (AddMembership g) e) L.
    destruct L as [F1 S1]. pose proof (owned_same before (i_fd i) e e1 F1 O) as O1.
    pose (i' := mk_impl i.(i_config) i.(i_fd) (mk_sockaddr i.(i_config).(port) g)).
    destruct ok; cbn [negb]; [|exact (abandon_opens before _ _ i' e1 O1)].
    rewrite <- S, <- S1. exact (udp_finish_spec before i' e1 O1).
  - split; [done|]. by apply (udp_destroy_spec before (mk_impl _ _ _)).
Qed.

Lemma udp_bind_spec before i s e :
  owned before i.(i_fd) e -> socket_of i.(i_fd) e = s ->
  match inet_pton i.(i_config).(interface_address), inet_pton i.(i_config).(group_address) with
  | Some a, Some g =>
      opens before i.(i_fd) (apply_opt (AddMembership g) (apply_bind (mk_sockaddr i.(i_config).(port) a) s))
        (fun i' => i' = mk_impl i.(i_config) i.(i_fd) (mk_sockaddr i.(i_config).(port) g)) (udp_bind i e)
  | _, _ => (udp_bind i e).2 = None /\ fds (udp_bind i e).1 = before
  end.
Proof.
  intros O S. unfold udp_bind. destruct (inet_pton (interface_address _)) as [a|].
  2:{ split; [done|by apply udp_destroy_spec]. }
  call (sys_bind i.(i_fd) (mk_sockaddr i.(i_config).(port) a) e) as [e1 ok]
    by (bind_law i.(i_fd) (mk_sockaddr i.(i_config).(port) a) e) L. destruct L as [F1 S1].
  pose proof (owned_same before (i_fd i) e e1 F1 O) as O1. destruct ok; cbn [negb].
  - rewrite S in S1. exact (udp_join_spec before i _ e1 O1 S1).
  - destruct (inet_pton _); [by apply abandon_opens|split; [done|by apply udp_destroy_spec]].
Qed.

Lemma udp_open_spec cfg e :
  match udp_open cfg e with
  | (e', None) => fds e' = fds e
  | (e', Some i) => exists a g, inet_pton cfg.(interface_address) = Some a /\ inet_pton cfg.(group_address) = Some g /\
      i = mk_impl cfg i.(i_fd) (mk_sockaddr cfg.(port) g) /\ owned (fds e) i.(i_fd) e' /\ nonblocking i.(i_fd) e' /\
      socket_of i.(i_fd) e' = mk_socket true true (Some (mk_sockaddr cfg.(port) a)) [g]
  end.
Proof.
  unfold udp_open. call (sys_socket e) as [e0 fd] by (socket_law e) L0. set (i := mk_impl _ _ _).
  destruct (Z.ltb_spec fd 0) as [Hx|Hx]; [destruct L0 as [[_ L0]|[L0 _]]; [|lia]|].
  { unfold abandon, udp_destroy, i. cbn [i_fd]. by rewrite (proj2 (Z.leb_gt _ _)). }
  destruct L0 as [[L0 _]|(_ & Hn & L0 & S0)]; [lia|].
  assert (owned (fds e) (i_fd i) e0) as O0 by done.
  call (setsockopt fd ReuseAddr e0) as [e1 ok] by (setsockopt_law fd ReuseAddr e0) L1. destruct L1 as [F1 S1].
  pose proof (owned_same _ (i_fd i) e0 e1 F1 O0) as O1. destruct ok; cbn [negb]; [|by apply (udp_destroy_spec (fds e) i)].
  call (setsockopt fd ReusePort e1) as [e2 ok] by (setsockopt_law fd ReusePort e1) L2. destruct L2 as [F2 S2].
  pose proof (owned_same _ (i_fd i) e1 e2 F2 O1) as O2. destruct ok; cbn [negb]; [|by apply (udp_destroy_spec (fds e) i)].
  pose proof (udp_bind_spec (fds e) i _ e2 O2 S2) as B. cbn [i i_config] in B.
  destruct (inet_pton cfg.(interface_address)) as [a|], (inet_pton cfg.(group_address)) as [g|]; fold i in B.
  - destruct (udp_bind i e2) as [e3 [i'|]]; [|exact B]. destruct B as (Hfd & O3 & S3 & N3 & ->).
    exists a, g. split_and!; try done. cbn [i i_fd i_config] in *. rewrite S3, S1, S0. done.
  - destruct (udp_bind i e2) as [e3 r]. destruct B as [B1 B2]. cbn [snd] in B1. by subst r.
  - destruct (udp_bind i e2) as [e3 r]. destruct B as [B1 B2]. cbn [snd] in B1. by subst r.
  - destruct (udp_bind i e2) as [e3 r]. destruct B as [B1 B2]. cbn [snd] in B1. by subst r.
Qed.
End Laws.

(** ** A concrete kernel

    Descriptors are numbered from 3 up, as after the standard streams; each call that
    may fail takes its outcome from a list of faults, and succeeds once it is empty.
    The constants are those of Linux on x86-64. *)
Record kernel := mk_kernel {
  k_fds : gset Z;
  k_flags : gmap Z Z;
  k_lines : gmap Z termios;
  k_sockets : gmap Z socket;
  k_faults : list bool;
}.
Definition k_fail (k : kernel) : kernel * bool :=
  (mk_kernel k.(k_fds) k.(k_flags) k.(k_lines) k.(k_sockets) (tail k.(k_faults)), default false (head k.(k_faults))).
Definition k_fresh (k : kernel) : Z := Z.of_nat (fresh (set_map Z.to_nat k.(k_fds) : gset nat)).
Definition k_new (k : kernel) : kernel * Z :=
  let '(k, bad) := k_fail k in
  let fd := k_fresh k in
  if bad then (k, -1)
  else (mk_kernel ({[fd]} ∪ k.(k_fds)) (<[fd := 2]> k.(k_flags)) k.(k_lines) (<[fd := fresh_socket]> k.(k_sockets)) k.(k_faults), fd).
Definition k_socket (fd : Z) (k : kernel) : socket := default fresh_socket (k.(k_sockets) !! fd).
Definition k_on_socket (f : socket -> socket) (fd : Z) (k : kernel) : kernel * bool :=
  let '(k, bad) := k_fail k in
  if bad then (k, false)
  else (mk_kernel k.(k_fds) k.(k_flags) k.(k_lines) (<[fd := f (k_socket fd k)]> k.(k_sockets)) k.(k_faults), true).
Definition k_cfmakeraw (t : termios) : termios :=
  mk_termios (Z.ldiff t.(c_iflag) 1515) (Z.ldiff t.(c_oflag) 1) (Z.lor (Z.ldiff t.(c_cflag) 304) 48) (Z.ldiff t.(c_lflag) 32843)
    t.(c_ispeed) t.(c_ospeed) (<[5%nat := 0]> (<[6%nat := 1]> t.(c_cc))).
Definition k_inet_pton (s : list Z) : option Z :=
  if decide (s = codes "0.0.0.0") then Some 0 else if decide (s = codes "239.10.20.30") then Some 4010415134 else None.

#[local] Instance kernel_posix : Posix kernel := {
  O_RDWR := 2; O_NOCTTY := 256; O_NONBLOCK := 2048;
  B9600 := 13; B19200 := 14; B38400 := 15; B57600 := 4097; B115200 := 4098; B230400 := 4099;
  CLOCAL := 2048; CREAD := 128; CRTSCTS := 2147483648; VMIN := 6; VTIME := 5;
  cfmakeraw := k_cfmakeraw;
  inet_pton := k_inet_pton;
  sys_open _ _ := k_new;
  sys_close fd k := mk_kernel (k.(k_fds) ∖ {[fd]}) k.(k_flags) k.(k_lines) k.(k_sockets) k.(k_faults);
  fcntl_getfl fd k := if decide (fd ∈ k.(k_fds)) then default 0 (k.(k_flags) !! fd) else -1;
  fcntl_setfl fd f k :=
    let '(k, bad) := k_fail k in
    if bad || negb (bool_decide (fd ∈ k.(k_fds))) then (k, false)
    else (mk_kernel k.(k_fds) (<[fd := f]> k.(k_flags)) k.(k_lines) k.(k_sockets) k.(k_faults), true);
  tcgetattr fd k := if decide (fd ∈ k.(k_fds)) then Some (default (mk_termios 1280 5 191 35387 13 13 (replicate 32 0)) (k.(k_lines) !! fd)) else None;
  tcsetattr fd t k :=
    let '(k, bad) := k_fail k in
    if bad then (k, false) else (mk_kernel k.(k_fds) k.(k_flags) (<[fd := t]> k.(k_lines)) k.(k_sockets) k.(k_faults), true);
  sys_socket := k_new;
  setsockopt fd o := k_on_socket (apply_opt o) fd;
  sys_bind fd a := k_on_socket (apply_bind a) fd;
}.

Lemma k_fresh_spec k : k_fresh k ∉ k.(k_fds).
Proof.
  intros Hin. apply (is_fresh (set_map Z.to_nat k.(k_fds) : gset nat)).
  apply elem_of_map. exists (k_fresh k). split; [unfold k_fresh; by rewrite Nat2Z.id|done].
Qed.

Lemma k_new_spec k : let r := k_new k in
  (r.2 < 0 /\ k_fds r.1 = k_fds k) \/
  (0 <= r.2 /\ r.2 ∉ k_fds k /\ k_fds r.1 = {[r.2]} ∪ k_fds k /\ k_socket r.2 r.1 = fresh_socket).
Proof.
  unfold k_new, k_fail. destruct (default false _); [by left|right]. cbn [fst snd k_fds].
  split_and!; [unfold k_fresh; lia|apply (k_fresh_spec (mk_kernel _ _ _ _ _))|done|].
  unfold k_socket. cbn. by rewrite lookup_insert_eq.
Qed.

Lemma k_on_socket_spec f fd k : let r := k_on_socket f fd k in
  k_fds r.1 = k_fds k /\ k_socket fd r.1 = if r.2 then f (k_socket fd k) else k_socket fd k.
Proof.
  unfold k_on_socket, k_fail, k_socket. destruct (default false _); [done|]. cbn. by rewrite lookup_insert_eq.
Qed.

#[local] Program Instance kernel_laws : PosixLaws kernel := {
  fds := k_fds; socket_of := k_socket; requested fd k := k.(k_lines) !! fd;
}.
Next Obligation.
  intros p f k. destruct (k_new_spec k) as [L|(A & B & C & _)]; [by left|by right].
Qed.
Next Obligation. exact k_new_spec. Qed.
Next Obligation. done. Qed.
Next Obligation.
  intros fd f k. cbn. destruct (default false _); [done|]. cbn. destruct (bool_decide _) eqn:Hb; [|done].
  apply bool_decide_eq_true in Hb. split_and!; try done. cbn. intros _. by rewrite decide_True, lookup_insert_eq by done.
Qed.
Next Obligation.
  intros fd t k. cbn. destruct (default false _); [done|]. cbn. split; [done|]. by rewrite lookup_insert_eq.
Qed.
Next Obligation. intros fd o. apply k_on_socket_spec. Qed.
Next Obligation. intros fd a. apply k_on_socket_spec. Qed.

Definition boot (faults : list bool) : kernel := mk_kernel {[0; 1; 2]} ∅ ∅ ∅ faults.

(** C37: a transport owns exactly its descriptor.  If [SerialTransport::open] or
    [UDPMulticastTransport::open] fails, at whichever call, the descriptors open in
    the process are those that were open before.  If it succeeds, one new
    descriptor is open, in non-blocking mode, and destroying the transport closes it
    and no other: a serial line at a supported speed, with raw attributes, the
    speed in both directions and no flow control; a socket with both reuse options,
    bound to the configured interface and port, and in the configured group.
    [for_fd] opens and closes nothing, also when it fails, and the transport it
    returns closes the descriptor on destruction exactly when it was told to own it. *)
Theorem transports_own_their_descriptors {E : Type} `{!Posix E} `{!PosixLaws E} (e : E) :
  (forall device baud, match serial_open device baud e with
   | (e', None) => fds e' = fds e
   | (e', Some s) =>
       let fd := s.(s_fd) in
       s = new_serial fd true /\ 0 <= fd /\ fd ∉ fds e /\ fds e' = {[fd]} ∪ fds e /\ nonblocking fd e' /\
       fds (serial_destroy s e') = fds e /\
       exists raw t, requested fd e' = Some t /\ t = line_attributes (baud_to_speed baud) raw /\ baud_to_speed baud <> 0 /\
         t.(c_ispeed) = baud_to_speed baud /\ t.(c_ospeed) = baud_to_speed baud /\ Z.land t.(c_cflag) CRTSCTS = 0
   end) /\
  (forall fd own, match serial_for_fd fd own e with
   | (e', None) => fds e' = fds e
   | (e', Some s) => s = new_serial fd own /\ 0 <= fd /\ fds e' = fds e /\ nonblocking fd e' /\
       fds (serial_destroy s e') = if own then fds e ∖ {[fd]} else fds e
   end) /\
  (forall cfg, match udp_open cfg e with
   | (e', None) => fds e' = fds e
   | (e', Some i) => exists a g, inet_pton cfg.(interface_address) = Some a /\ inet_pton cfg.(group_address) = Some g /\
       i = mk_impl cfg i.(i_fd) (mk_sockaddr cfg.(port) g) /\ udp_of i = new_udp i.(i_fd) cfg.(self_id) /\
       0 <= i.(i_fd) /\ i.(i_fd) ∉ fds e /\ fds e' = {[i.(i_fd)]} ∪ fds e /\ nonblocking i.(i_fd) e' /\
       socket_of i.(i_fd) e' = mk_socket true true (Some (mk_sockaddr cfg.(port) a)) [g] /\
       fds (udp_destroy i e') = fds e
   end).
Proof.
  split; [|split].
  - intros device baud. pose proof (serial_open_spec device baud e) as S. destruct (serial_open device baud e) as [e' [s|]]; [|done].
    destruct S as (Es & H0' & Hn & Hf & Hb & Hs & tio & Ht). cbv zeta. split_and!; try done.
    + rewrite serial_destroy_spec, Es. cbn [new_serial s_own_fd s_fd andb]. rewrite (proj2 (Z.leb_le _ _)), Hf by done. set_solver.
    + exists tio, (line_attributes (baud_to_speed baud) tio). destruct (line_attributes_spec (baud_to_speed baud) tio) as (A & B & C & _).
      by split_and!.
  - intros fd own. pose proof (serial_for_fd_spec fd own e) as S. destruct (serial_for_fd fd own e) as [e' [s|]]; [|done].
    destruct S as (-> & H0' & Hf & Hb). split_and!; try done. rewrite serial_destroy_spec, Hf. cbn [new_serial s_own_fd s_fd].
    by rewrite (proj2 (Z.leb_le _ _)), andb_true_r by done.
  - intros cfg. pose proof (udp_open_spec cfg e) as S. destruct (udp_open cfg e) as [e' [i|]]; [|done].
    destruct S as (a & g & Ha & Hg & Ei & O & Hb & Hs). exists a, g. pose proof O as (H0' & Hn & Hf).
    split_and!; try done; [unfold udp_of; by rewrite Ei|by apply udp_destroy_spec].
Qed.

(** A line at 57600 baud; one at a speed that is not supported; one whose attributes
    cannot be set; the default multicast transport, and the same when each of the
    calls that count fails in turn; a descriptor that is lent, and a closed one. *)
Lemma transports_own_their_descriptors_witness :
  (exists s k, serial_open (codes "/dev/ttyUSB0") 57600 (boot []) = (k, Some s) /\ s.(s_fd) = 3 /\ nonblocking 3 k /\
     fds (serial_destroy s k) = {[0; 1; 2]}) /\
  (forall p, p ∈ [([], 12345); ([true], 9600); ([false; true], 9600); ([false; false; true], 9600)] ->
     exists k, serial_open (codes "/dev/ttyUSB0") p.2 (boot p.1) = (k, None) /\ fds k = {[0; 1; 2]}) /\
  (exists s k, serial_for_fd 2 false (boot []) = (k, Some s) /\ fds (serial_destroy s k) = {[0; 1; 2]}) /\
  (exists k, serial_for_fd 9 true (boot []) = (k, None) /\ fds k = {[0; 1; 2]}) /\
  (exists i k, udp_open default_udp_config (boot []) = (k, Some i) /\ i.(i_fd) = 3 /\ nonblocking 3 k /\
     fds (udp_destroy i k) = {[0; 1; 2]}) /\
  (forall n, n ∈ [0; 1; 2; 3; 4; 7]%nat -> exists k,
     udp_open default_udp_config (boot (replicate n false ++ [true])) = (k, None) /\ fds k = {[0; 1; 2]}).
Proof.
  split_and!.
  - destruct (transports_own_their_descriptors (boot [])) as (T & _ & _). specialize (T (codes "/dev/ttyUSB0") 57600).
    assert (option_map s_fd (serial_open (codes "/dev/ttyUSB0") 57600 (boot [])).2 = Some 3) as Q by (vm_compute; reflexivity).
    destruct (serial_open _ _ _) as [k [s|]]; [|done]. injection Q as Q. exists s, k. cbv zeta in T. rewrite Q in T.
    destruct T as (_ & _ & _ & _ & N & D & _). by split_and!.
  - intros [l b] Hp. destruct (transports_own_their_descriptors (boot l)) as (T & _ & _). specialize (T (codes "/dev/ttyUSB0") b).
    assert (option_map s_fd (serial_open (codes "/dev/ttyUSB0") b (boot l)).2 = None) as Q.
    { repeat (apply elem_of_cons in Hp as [Hp|Hp]; [injection Hp as -> ->; vm_compute; reflexivity|]). by apply elem_of_nil in Hp. }
    cbn [fst snd]. destruct (serial_open _ _ _) as [k [s|]]; [done|]. by exists k.
  - destruct (transports_own_their_descriptors (boot [])) as (_ & T & _). specialize (T 2 false).
    assert (option_map s_fd (serial_for_fd 2 false (boot [])).2 = Some 2) as Q by (vm_compute; reflexivity).
    destruct (serial_for_fd _ _ _) as [k [s|]]; [|done]. exists s, k. by destruct T as (_ & _ & _ & _ & D).
  - destruct (transports_own_their_descriptors (boot [])) as (_ & T & _). specialize (T 9 true).
    assert (option_map s_fd (serial_for_fd 9 true (boot [])).2 = None) as Q by (vm_compute; reflexivity).
    destruct (serial_for_fd _ _ _) as [k [s|]]; [done|]. by exists k.
  - destruct (transports_own_their_descriptors (boot [])) as (_ & _ & T). specialize (T default_udp_config).
    assert (option_map i_fd (udp_open default_udp_config (boot [])).2 = Some 3) as Q by (vm_compute; reflexivity).
    destruct (udp_open _ _) as [k [i|]]; [|done]. injection Q as Q. exists i, k.
    destruct T as (a & g & _ & _ & _ & _ & _ & _ & _ & N & _ & D). rewrite Q in N. by split_and!.
  - intros n Hn. destruct (transports_own_their_descriptors (boot (replicate n false ++ [true]))) as (_ & _ & T).
    specialize (T default_udp_config).
    assert (option_map i_fd (udp_open default_udp_config (boot (replicate n false ++ [true]))).2 = None) as Q.
    { repeat (apply elem_of_cons in Hn as [->|Hn]; [vm_compute; reflexivity|]). by apply elem_of_nil in Hn. }
    destruct (udp_open _ _) as [k [i|]]; [done|]. by exists k.
Defined.
End Setup.
