(* ===== verification/Beacon.v ===== *)
(** The beacon system ([include/mith/comms/beacon_system.h],
    [src/comms/beacon_system.cpp]): sending the own beacon, accepting the others'
    with signature and first-use checks, and routing messages to handlers or the
    application's buffer. *)

From S2P Require Import Prelude MachineInt Float32 Identity BoundedQueue Components UdpWire Trace.
From S2P Require Import Scheduler NeighbourTable Registry PeerKeys Transport FaultMonitor TaskAlloc.
From S2P Require Import ClockSync PartitionMerge Flocking Actions WorldState Discovery.
Local Open Scope Z_scope.

Module Bcn.
Import Comp WS.

(* @src src/comms/beacon_system.cpp:31-48 BeaconSystem::describe *)
Definition describe `{!Reg.Toolchain} : Sched.SystemDescriptor :=
  Sched.mk_desc (codes "BeaconSystem")
    [Reg.component_id Reg.TIdentity; Reg.component_id Reg.TPosition; Reg.component_id Reg.TVelocity;
     Reg.component_id Reg.THealth; Reg.component_id Reg.TRole; Reg.component_id Reg.TBehaviourState]
    [Reg.component_id Reg.TCommBuffer]
    [Sched.TransportRx] [Sched.NeighbourTableR; Sched.TransportTx].

(** The bytes a beacon's signature covers; the stack buffer is written whole. *)
(* @src src/comms/beacon_system.cpp:88-90 BeaconSystem::tick *)
Definition signed_bytes (sv : StateVector) : list Z :=
  (Wire.serialise_beacon_signed_payload sv (replicate Wire.BEACON_SIGNED_PREFIX_BYTES 0) 0
     Wire.BEACON_SIGNED_PREFIX_BYTES).1.

Definition set_auth (key : IdentityKey) (sig : list Z) (sv : StateVector) : StateVector :=
  mk_sv sv.(sv_id) sv.(sv_position) sv.(sv_velocity) sv.(sv_health) sv.(sv_role) sv.(sv_state) sv.(sv_tick)
    sv.(sv_sync_time_s) key sig.

(* @src src/comms/beacon_system.cpp:85-94 BeaconSystem::tick *)
Definition sign_beacon `{!Auth.Crypto} (kp : Auth.IdentityKeyPair) (sv : StateVector) : StateVector :=
  let sv := set_auth kp.(Auth.pair_public) sv.(sv_signature) sv in
  set_auth sv.(sv_sender_pubkey) (Auth.sign_payload kp.(Auth.pair_private) (signed_bytes sv)) sv.

(** What the receive loop works on: the table, the pinned keys and the count of
    rejected beacons. *)
Record rx := mk_rx { rx_table : NT.t; rx_keys : Auth.PeerKeyRegistry; rx_rejected : Z }.

Definition pubkey_present (b : StateVector) : bool :=
  existsb (fun byte => negb (byte =? 0)) b.(sv_sender_pubkey).(public_key).

(** One turn of the receive loop. *)
(* @src src/comms/beacon_system.cpp:108-138 BeaconSystem::tick *)
Definition receive `{!Platform} `{!Auth.Crypto} (self : Id.HierarchicalID) (now : Z) (r : rx) (b : StateVector) : rx :=
  if Id.hid_eqb b.(sv_id) self then r
  else
    let accept r := mk_rx (NT.upsert f2i_oob r.(rx_table) b now NT.UNKNOWN_RSSI) r.(rx_keys) r.(rx_rejected) in
    let reject r := mk_rx r.(rx_table) r.(rx_keys) (MI.u64 (r.(rx_rejected) + 1)) in
    if auth_enabled && pubkey_present b then
      if negb (Auth.verify_bytes b.(sv_sender_pubkey) (signed_bytes b) b.(sv_signature)) then reject r
      else
        let '(keys, ok) := Auth.try_pin r.(rx_keys) b.(sv_id) b.(sv_sender_pubkey) in
        let r := mk_rx r.(rx_table) keys r.(rx_rejected) in
        if negb ok then reject r else accept r
    else accept r.

Section Beacon.
Context {H E U : Type} `{!Platform} `{!Reg.Toolchain} `{!Auth.Crypto} `{!Net.Transports H E}.
Implicit Types w : core H E U.

(** The application's message handlers. *)
Variable user_handler : nat -> Message -> core H E U -> outcome (core H E U * bool).

Definition bcn w : beacon_state H := w.(sys_).(s_beacon).
Definition with_bcn (b : beacon_state H) w : core H E U := with_sys (set_s_beacon b w.(sys_)) w.

(* @src src/comms/beacon_system.cpp:21-29 BeaconSystem::BeaconSystem *)
Definition new_beacon w : core H E U :=
  with_bcn (mk_beacon (beacon_transport w) (message_transport w)
    (if F32.gtb w.(config_).(beacon_rate_hz) F32.zero
     then F32.div F32.one w.(config_).(beacon_rate_hz) else F32.zero)
    w.(config_).(WS.neighbour_timeout_s) F32.zero 0) w.

Definition set_since (t : Z) (b : beacon_state H) : beacon_state H :=
  mk_beacon b.(b_beacon_transport) b.(b_message_transport) b.(beacon_period_s_) b.(neighbour_timeout_s_)
    t b.(rejected_beacons_).
Definition set_rejected (n : Z) (b : beacon_state H) : beacon_state H :=
  mk_beacon b.(b_beacon_transport) b.(b_message_transport) b.(beacon_period_s_) b.(neighbour_timeout_s_)
    b.(time_since_last_beacon_s_) n.

(** Step 1: the state vector of the own entity. *)
(* @src src/comms/beacon_system.cpp:64-74 BeaconSystem::tick *)
Definition own_state (ctx : Sched.SwarmContext) w : outcome StateVector :=
  let reg := w.(registry_) in
  let! i := Reg.get IdentityComponent reg Reg.SELF_ENTITY in
  let! p := Reg.get PositionComponent reg Reg.SELF_ENTITY in
  let! v := Reg.get VelocityComponent reg Reg.SELF_ENTITY in
  let! h := Reg.get HealthComponent reg Reg.SELF_ENTITY in
  let! r := Reg.get RoleComponent reg Reg.SELF_ENTITY in
  let! s := Reg.get BehaviourStateComponent reg Reg.SELF_ENTITY in
  Ok (mk_sv i.(ic_id) p v h r s (MI.u32 ctx.(Sched.tick_count)) (synced_time_s w) zero_key zero_signature).

(** Step 2: the beacon, if its period has elapsed. *)
(* @src src/comms/beacon_system.cpp:76-97 BeaconSystem::tick *)
Definition emit_beacon (sv : StateVector) (delta_time : Z) w : outcome (core H E U) :=
  let b := bcn w in
  let since := F32.add b.(time_since_last_beacon_s_) delta_time in
  let w := with_bcn (set_since since b) w in
  if F32.gtb b.(beacon_period_s_) F32.zero && F32.geb since b.(beacon_period_s_) then
    match b.(b_beacon_transport) with
    | None => Ok w
    | Some h =>
        if negb (Net.supports_beacons h) then Ok w
        else
          let sv := if auth_enabled then
                      match w.(current_keypair_) with Some kp => sign_beacon kp sv | None => sv end
                    else sv in
          let! (env, _) := Net.send_beacon h w.(registry_) sv w.(env_) in
          Ok (with_bcn (set_since F32.zero b) (with_env env w))
    end
  else Ok w.

(** Step 3: the inbound beacons. *)
(* @src src/comms/beacon_system.cpp:99-139 BeaconSystem::tick *)
Definition drain_beacons (self : Id.HierarchicalID) (now : Z) w : core H E U :=
  match (bcn w).(b_beacon_transport) with
  | None => w
  | Some h =>
      if negb (Net.supports_beacons h) then w
      else
        let '(env, beacons) := Net.poll_beacons h w.(env_) in
        let r := fold_left (receive self now) beacons
                   (mk_rx w.(neighbour_table_) w.(peer_keys_) (bcn w).(rejected_beacons_)) in
        with_bcn (set_rejected r.(rx_rejected) (bcn w))
          (with_neighbour_table r.(rx_table) (with_peer_keys r.(rx_keys) (with_env env w)))
  end.

(** Offering a message to the handlers, in order; an empty function is skipped. *)
(* @src src/comms/beacon_system.cpp:152-155 BeaconSystem::tick *)
Fixpoint offer (hs : list (option handler)) (m : Message) w : outcome (core H E U * bool) :=
  match hs with
  | [] => Ok (w, false)
  | None :: hs => offer hs m w
  | Some h :: hs =>
      let! (w, claimed) :=
        match h with
        | HDiscovery => Disc.handle_message_ m w
        | HDangling => Undefined "the handler's system has been destroyed"
        | HUser n => user_handler n m w
        end in
      if claimed then Ok (w, true) else offer hs m w
  end.

(* @src src/comms/beacon_system.cpp:156-156 BeaconSystem::tick *)
Definition push_message (m : Message) w : outcome (core H E U) :=
  let! cb := Reg.get CommBufferComponent w.(registry_) Reg.SELF_ENTITY in
  let cb := mk_cb (BQ.push CB_CAPACITY BQ.DropOldest m cb.(cb_queue)).1 in
  let! reg := Reg.set w.(registry_) Reg.SELF_ENTITY cb in
  Ok (with_registry reg w).

(* @src src/comms/beacon_system.cpp:151-157 BeaconSystem::tick *)
Fixpoint route (messages : list Message) w : outcome (core H E U) :=
  match messages with
  | [] => Ok w
  | m :: messages =>
      let! (w, claimed) := offer w.(message_handlers_) m w in
      let! w := if claimed then Ok w else push_message m w in
      route messages w
  end.

(** Step 4: the inbound messages. *)
(* @src src/comms/beacon_system.cpp:141-158 BeaconSystem::tick *)
Definition drain_messages w : outcome (core H E U) :=
  match (bcn w).(b_message_transport) with
  | None => Ok w
  | Some h =>
      if negb (Net.supports_messages h) then Ok w
      else
        let '(env, messages) := Net.poll_messages h w.(env_) in
        let w := with_env env w in
        let! _ := Reg.get CommBufferComponent w.(registry_) Reg.SELF_ENTITY in
        route messages w
  end.

(* @src src/comms/beacon_system.cpp:50-159 BeaconSystem::tick *)
Definition tick (ctx : Sched.SwarmContext) (delta_time : Z) w : outcome (core H E U) :=
  let now := ctx.(Sched.elapsed_time_s) in
  let w := with_neighbour_table (NT.age_out f2i_oob w.(neighbour_table_) now (bcn w).(neighbour_timeout_s_)) w in
  match (bcn w).(b_beacon_transport), (bcn w).(b_message_transport) with
  | None, None => Ok w
  | _, _ =>
      let! sv := own_state ctx w in
      let! w := emit_beacon sv delta_time w in
      let w := drain_beacons sv.(sv_id) now w in
      drain_messages w
  end.
End Beacon.

(** ** Acceptance of beacons *)

Section Acceptance.
Context `{!Platform} `{!Auth.Crypto}.
Variable self : Id.HierarchicalID.
Variable now : Z.

(** A beacon of another node; one whose key must be checked; one whose signature
    its own key verifies. *)
Definition foreign (b : StateVector) : bool := negb (Id.hid_eqb b.(sv_id) self).
Definition checked (b : StateVector) : bool := auth_enabled && pubkey_present b.
Definition authentic (b : StateVector) : bool :=
  Auth.verify_bytes b.(sv_sender_pubkey) (signed_bytes b) b.(sv_signature).

(** The claims on keys that a batch makes. *)
Definition claims (bs : list StateVector) : list (Id.HierarchicalID * IdentityKey) :=
  (fun b => (b.(sv_id), b.(sv_sender_pubkey))) <$>
    filter (fun b => foreign b && checked b && authentic b = true) bs.

(** What is accepted, by the keys [keys] the node ends up with. *)
Definition accepted (keys : Auth.PeerKeyRegistry) (b : StateVector) : bool :=
  foreign b && (negb (checked b) ||
    authentic b && bool_decide (Auth.find keys b.(sv_id) = Some b.(sv_sender_pubkey))).
Definition rejected (keys : Auth.PeerKeyRegistry) (b : StateVector) : bool :=
  foreign b && negb (accepted keys b).

(** The entries that a list of accepted beacons leaves: the latest wins. *)
Definition observe (m : gmap Id.HierarchicalID NT.Entry) (bs : list StateVector) : gmap Id.HierarchicalID NT.Entry :=
  fold_left (fun m b => <[b.(sv_id) := NT.entry_of b now NT.UNKNOWN_RSSI]> m) bs m.

Definition receive_all (bs : list StateVector) (r : rx) : rx := fold_left (receive self now) bs r.

(** One beacon: the four outcomes. *)
Lemma receive_cases r b :
  (foreign b = false /\ receive self now r b = r) \/
  (foreign b = true /\ checked b = false /\
   receive self now r b = mk_rx (NT.upsert f2i_oob r.(rx_table) b now NT.UNKNOWN_RSSI) r.(rx_keys) r.(rx_rejected)) \/
  (foreign b = true /\ checked b = true /\ authentic b = false /\
   receive self now r b = mk_rx r.(rx_table) r.(rx_keys) (MI.u64 (r.(rx_rejected) + 1))) \/
  (foreign b = true /\ checked b = true /\ authentic b = true /\
   receive self now r b =
     let '(keys, ok) := Auth.try_pin r.(rx_keys) b.(sv_id) b.(sv_sender_pubkey) in
     if ok then mk_rx (NT.upsert f2i_oob r.(rx_table) b now NT.UNKNOWN_RSSI) keys r.(rx_rejected)
     else mk_rx r.(rx_table) keys (MI.u64 (r.(rx_rejected) + 1))).
Proof.
  unfold foreign, checked, authentic, receive. destruct (Id.hid_eqb _ _); [by left|right].
  destruct (auth_enabled && pubkey_present b); [right|by left].
  destruct (Auth.verify_bytes _ _ _); [right|by left]. cbn [negb].
  destruct (Auth.try_pin _ _ _) as [keys ok]. by destruct ok.
Qed.

Lemma try_pin_grows (keys : Auth.PeerKeyRegistry) h k h' :
  Auth.find (Auth.try_pin keys h k).1 h' =
  match Auth.find keys h' with Some k' => Some k' | None => if decide (h = h') then Some k else None end.
Proof.
  unfold Auth.try_pin, Auth.find. destruct (keys !! h) as [k0|] eqn:E0; cbn [fst].
  - destruct (keys !! h') eqn:E'; [done|]. rewrite decide_False by congruence. done.
  - unfold Auth.PeerKeyRegistry in *. destruct (decide (h = h')) as [<-|Hn].
    + by rewrite lookup_insert_eq, E0.
    + rewrite lookup_insert_ne by done. by destruct (keys !! h').
Qed.

(** Receiving pins exactly the first authentic claim of each identifier. *)
Lemma receive_all_keys bs r h :
  Auth.find (receive_all bs r).(rx_keys) h =
  match Auth.find r.(rx_keys) h with Some k => Some k | None => Auth.first_key (claims bs) h end.
Proof.
  revert r. induction bs as [|b bs IH]; intros r; [by destruct (Auth.find _ h)|].
  unfold receive_all. cbn [fold_left]. fold (receive_all bs (receive self now r b)). rewrite IH.
  unfold claims. rewrite filter_cons.
  destruct (receive_cases r b) as [[Hf ->]|[(Hf & Hc & ->)|[(Hf & Hc & Ha & ->)|(Hf & Hc & Ha & ->)]]];
    rewrite Hf; cbn [andb]; [| |rewrite Hc, Ha|rewrite Hc, Ha]; cbn [andb].
  1,3: rewrite decide_False by done; reflexivity.
  1: rewrite Hc, decide_False by done; reflexivity.
  rewrite decide_True by done. cbn [fmap list_fmap Auth.first_key].
  pose proof (try_pin_grows r.(rx_keys) b.(sv_id) b.(sv_sender_pubkey) h) as G.
  destruct (Auth.try_pin _ _ _) as [keys ok]. cbn [fst] in G.
  assert (forall (c : bool) (x y : rx), x.(rx_keys) = keys -> y.(rx_keys) = keys ->
            (if c then x else y).(rx_keys) = keys) as P by (by intros []).
  rewrite P by done. rewrite G. destruct (Auth.find (rx_keys r) h); [done|].
  by destruct (decide (sv_id b = h)).
Qed.

Lemma receive_all_grows bs r h k :
  Auth.find r.(rx_keys) h = Some k -> Auth.find (receive_all bs r).(rx_keys) h = Some k.
Proof. intros Hk. by rewrite receive_all_keys, Hk. Qed.

Lemma try_pin_keeps (keys : Auth.PeerKeyRegistry) h k :
  is_Some (Auth.find keys h) -> (Auth.try_pin keys h k).1 = keys.
Proof.
  unfold Auth.try_pin, Auth.find, Auth.PeerKeyRegistry in *. intros [k0 ->]. done.
Qed.

Lemma try_pin_verdict (keys : Auth.PeerKeyRegistry) h k :
  (Auth.try_pin keys h k).2 = bool_decide (Auth.find (Auth.try_pin keys h k).1 h = Some k).
Proof.
  unfold Auth.try_pin, Auth.find, Auth.PeerKeyRegistry in *.
  destruct (keys !! h) as [k0|] eqn:E0; cbn [fst snd].
  - rewrite E0. apply bool_decide_ext. rewrite Auth.public_key_inj. split; [by intros ->|by intros [= ->]].
  - symmetry. apply bool_decide_eq_true_2, lookup_insert_eq.
Qed.

(** The verdict on a beacon can be read off the keys held in the end. *)
Lemma receive_verdict b bs r :
  let r1 := receive self now r b in
  let keys := (receive_all bs r1).(rx_keys) in
  r1.(rx_table) = (if accepted keys b then NT.upsert f2i_oob r.(rx_table) b now NT.UNKNOWN_RSSI else r.(rx_table)) /\
  r1.(rx_rejected) = (if rejected keys b then MI.u64 (r.(rx_rejected) + 1) else r.(rx_rejected)).
Proof.
  cbv zeta. unfold rejected, accepted.
  destruct (receive_cases r b) as [[Hf E1]|[(Hf & Hc & E1)|[(Hf & Hc & Ha & E1)|(Hf & Hc & Ha & E1)]]];
    rewrite Hf; cbn [andb negb]; [|rewrite Hc|rewrite Hc, Ha|rewrite Hc, Ha]; cbn [andb orb negb].
  1-3: by rewrite E1.
  pose proof (try_pin_grows r.(rx_keys) b.(sv_id) b.(sv_sender_pubkey) b.(sv_id)) as G.
  pose proof (try_pin_verdict r.(rx_keys) b.(sv_id) b.(sv_sender_pubkey)) as V.
  destruct (Auth.try_pin _ _ _) as [keys ok]. cbn [fst snd] in G, V.
  rewrite decide_True in G by done.
  assert (exists k, Auth.find keys b.(sv_id) = Some k) as [k Hk]
    by (rewrite G; destruct (Auth.find (rx_keys r) (sv_id b)); eauto).
  rewrite (receive_all_grows bs _ b.(sv_id) k) by (rewrite E1; by destruct ok).
  rewrite Hk in V. rewrite <- V, E1. by destruct ok.
Qed.

Lemma receive_all_spec bs r :
  NT.wf f2i_oob r.(rx_table) -> MI.is_u64 r.(rx_rejected) ->
  let r' := receive_all bs r in
  NT.wf f2i_oob r'.(rx_table) /\
  NT.abs r'.(rx_table).(NT.entries_) =
    observe (NT.abs r.(rx_table).(NT.entries_)) (filter (fun b => accepted r'.(rx_keys) b = true) bs) /\
  r'.(rx_rejected) =
    MI.u64 (r.(rx_rejected) + Z.of_nat (length (filter (fun b => rejected r'.(rx_keys) b = true) bs))).
Proof.
  revert r. induction bs as [|b bs IH]; intros r W Hr; cbv zeta.
  { split_and!; [done|done|]. cbn. by rewrite Z.add_0_r, MI.u64_id. }
  unfold receive_all. cbn [fold_left]. fold (receive_all bs (receive self now r b)).
  destruct (receive_verdict b bs r) as [Vt Vr].
  set (r1 := receive self now r b) in *. set (keys := (receive_all bs r1).(rx_keys)) in *.
  destruct (IH r1) as (W' & A & R).
  { rewrite Vt. destruct (accepted keys b); [by apply NT.upsert_spec|done]. }
  { rewrite Vr. destruct (rejected keys b); [apply MI.u64_range|done]. }
  fold keys in A, R. split_and!; [done| |].
  - rewrite A, Vt, filter_cons. destruct (accepted keys b).
    + rewrite decide_True by done. destruct (NT.upsert_spec f2i_oob r.(rx_table) b now NT.UNKNOWN_RSSI W) as (_ & -> & _).
      done.
    + by rewrite decide_False.
  - rewrite R, Vr, filter_cons. destruct (rejected keys b).
    + rewrite decide_True by done. cbn [length]. rewrite NT.u64_add_l. f_equal. lia.
    + by rewrite decide_False.
Qed.
End Acceptance.

(** C34: acceptance of beacons, over any batch received by a node.  The keys held
    afterwards are those held before plus, for every other identifier, the key of
    the first beacon from it that carries a key and whose signature that key
    verifies; no pinned key changes.  The table afterwards is the table before
    updated by exactly the accepted beacons, in order: those not sent under the
    own identity that carry no key (all of them in unsigned mode), or whose
    signature verifies under the key held for their sender.  Every other foreign
    beacon is counted as rejected. *)
Theorem beacon_acceptance `{!Platform} `{!Auth.Crypto} self now bs r h :
  NT.wf f2i_oob r.(rx_table) -> MI.is_u64 r.(rx_rejected) ->
  let r' := fold_left (receive self now) bs r in
  NT.wf f2i_oob r'.(rx_table) /\
  Auth.find r'.(rx_keys) h =
    match Auth.find r.(rx_keys) h with Some k => Some k | None => Auth.first_key (claims self bs) h end /\
  NT.abs r'.(rx_table).(NT.entries_) =
    observe now (NT.abs r.(rx_table).(NT.entries_)) (filter (fun b => accepted self r'.(rx_keys) b = true) bs) /\
  r'.(rx_rejected) =
    MI.u64 (r.(rx_rejected) +
            Z.of_nat (length (filter (fun b => rejected self r'.(rx_keys) b = true) bs))) /\
  (h = self -> NT.abs r'.(rx_table).(NT.entries_) !! h = NT.abs r.(rx_table).(NT.entries_) !! h).
Proof.
  intros W Hr r'. destruct (receive_all_spec self now bs r W Hr) as (W' & A & R).
  unfold receive_all in A, R, W'. fold r' in A, R, W'. split_and!; try done; [apply receive_all_keys|].
  intros ->. rewrite A. generalize (NT.abs r.(rx_table).(NT.entries_)).
  clear A R W'. generalize (rx_keys r'). clear r'. intros keys. unfold observe.
  induction bs as [|b bs IH]; intros m; [done|]. rewrite filter_cons. case_decide as Hb; [|apply IH].
  cbn [fold_left]. rewrite IH. apply lookup_insert_ne. intros Heq. unfold accepted, foreign in Hb.
  rewrite (proj2 (Id.hid_eqb_eq _ _) Heq) in Hb. done.
Qed.

(** What signing makes of a state vector. *)
Lemma sign_beacon_spec `{!Auth.Crypto} `{!Auth.CryptoLaws _} n sv :
  wf_sv sv ->
  let kp := Auth.generate_identity_keypair n in
  let b := sign_beacon kp sv in
  wf_sv b /\ b.(sv_sender_pubkey) = kp.(Auth.pair_public) /\ b.(sv_id) = sv.(sv_id) /\
  b.(sv_position) = sv.(sv_position) /\ authentic b = true.
Proof.
  intros W kp b. split_and!; [|done..|].
  - destruct W. constructor; try done.
    + unfold b, sign_beacon. cbn. unfold kp, Auth.generate_identity_keypair.
      pose proof (Auth.keypair_public n) as K. by destruct (Auth.crypto_keypair n).
    + apply Auth.length_sign_payload.
  - apply Auth.sign_verify.
Qed.

Lemma pubkey_present_spec b :
  wf_key b.(sv_sender_pubkey) -> b.(sv_sender_pubkey) <> zero_key -> pubkey_present b = true.
Proof.
  intros [Hl _] Hz. unfold pubkey_present. destruct (existsb _ _) eqn:E; [done|]. destruct Hz.
  destruct (sv_sender_pubkey b) as [k]. cbn [public_key] in *. change zero_key with (mk_key (replicate PUBLIC_KEY_LEN 0)).
  f_equal. symmetry. apply replicate_as_elem_of. split; [done|]. intros x Hx. destruct (Z.eqb_spec x 0) as [|Hn]; [done|].
  assert (existsb (fun byte => negb (byte =? 0)) k = true) as C; [|congruence].
  apply existsb_exists. exists x. split; [by apply list_elem_of_In|]. by apply negb_true_iff, Z.eqb_neq.
Qed.

(** A signed beacon from end to end.  A beacon signed with a generated key
    pair, encoded and decoded, is received unchanged; a neighbour that holds no key
    or this key for the sender enters it in its table, holds the key from then on
    and rejects nothing; one that holds another key rejects it and keeps both
    its table and the key. *)
Theorem signed_beacon_accepted `{!Platform} `{!Auth.Crypto} `{!Auth.CryptoLaws _} sv n self now r buf :
  auth_enabled = true -> wf_sv sv ->
  (Auth.generate_identity_keypair n).(Auth.pair_public) <> zero_key ->
  sv.(sv_id) <> self -> NT.wf f2i_oob r.(rx_table) ->
  (160 <= length buf)%nat ->
  let kp := Auth.generate_identity_keypair n in
  let '(frame, len) := Wire.encode_beacon (sign_beacon kp sv) buf (length buf) in
  exists b, Wire.decode_beacon frame len = Some b /\
    b.(sv_sender_pubkey) = kp.(Auth.pair_public) /\ b.(sv_position) = sv.(sv_position) /\
    let r' := receive self now r b in
    match Auth.find r.(rx_keys) sv.(sv_id) with
    | Some k =>
        if bool_decide (k = kp.(Auth.pair_public))
        then NT.abs r'.(rx_table).(NT.entries_) =
               <[sv.(sv_id) := NT.entry_of b now NT.UNKNOWN_RSSI]> (NT.abs r.(rx_table).(NT.entries_)) /\
             r'.(rx_keys) = r.(rx_keys) /\ r'.(rx_rejected) = r.(rx_rejected)
        else r' = mk_rx r.(rx_table) r.(rx_keys) (MI.u64 (r.(rx_rejected) + 1))
    | None =>
        NT.abs r'.(rx_table).(NT.entries_) =
          <[sv.(sv_id) := NT.entry_of b now NT.UNKNOWN_RSSI]> (NT.abs r.(rx_table).(NT.entries_)) /\
        Auth.find r'.(rx_keys) sv.(sv_id) = Some kp.(Auth.pair_public) /\ r'.(rx_rejected) = r.(rx_rejected)
    end.
Proof.
  intros Ha Wsv Hz Hs W Hbuf kp. destruct (sign_beacon_spec n sv Wsv) as (Wb & Kb & Ib & Pb & Ab).
  fold kp in Wb, Kb, Ib, Pb, Ab, Hz. set (b := sign_beacon kp sv) in *.
  rewrite Wire.encode_beacon_spec by done. rewrite (proj2 (Nat.ltb_ge _ _)) by done.
  exists b. split; [by apply Wire.decode_beacon_starts; [|apply Wire.starts_write|]|].
  split_and!; [done..|]. cbv zeta.
  destruct (receive_cases self now r b) as [[Hf _]|[(_ & Hc & _)|[(_ & _ & C & _)|(_ & _ & _ & ->)]]].
  - apply negb_false_iff, Id.hid_eqb_eq in Hf. congruence.
  - unfold checked in Hc. rewrite Ha, pubkey_present_spec in Hc by (rewrite ?Kb; done || apply Wb). done.
  - congruence.
  - rewrite Ib, Kb.
    pose proof (try_pin_grows r.(rx_keys) sv.(sv_id) kp.(Auth.pair_public) sv.(sv_id)) as G.
    pose proof (try_pin_verdict r.(rx_keys) sv.(sv_id) kp.(Auth.pair_public)) as V.
    pose proof (try_pin_keeps r.(rx_keys) sv.(sv_id) kp.(Auth.pair_public)) as Kp.
    destruct (NT.upsert_spec f2i_oob r.(rx_table) b now NT.UNKNOWN_RSSI W) as (_ & A & _). rewrite Ib in A.
    destruct (Auth.try_pin _ _ _) as [keys ok]. cbn [fst snd] in *. rewrite G in V.
    destruct (Auth.find r.(rx_keys) sv.(sv_id)) as [k|].
    + rewrite Kp by done. rewrite (bool_decide_ext _ (k = kp.(Auth.pair_public))) in V by naive_solver.
      rewrite V. by destruct (bool_decide _).
    + rewrite decide_True, bool_decide_eq_true_2 in V by done. rewrite V.
      rewrite decide_True in G by done. done.
Qed.

(** ** Routing of messages *)

(** A message no handler claims goes to the buffer; one the discovery handler
    claims changes the discovery state only. *)
Section Routing.
Context {H E U : Type} `{!Platform} {TC : Reg.Toolchain} `{!Auth.Crypto} `{!Net.Transports H E} `{!Disc.Reliable H E}.
Variable user_handler : nat -> Message -> core H E U -> outcome (core H E U * bool).
Implicit Types w : core H E U.

Definition built_in_only (hs : list (option handler)) : Prop := Forall (fun h => h = None \/ h = Some HDiscovery) hs.

(** What a handled message may change: all but the counters of the discovery. *)
Definition quiet w w' : Prop :=
  w'.(registry_) = w.(registry_) /\ w'.(message_handlers_) = w.(message_handlers_).

Definition counted w w' (hellos welcomes : nat) : Prop :=
  (Disc.disc w').(d_state) = (Disc.disc w).(d_state) /\
  (Disc.disc w').(hellos_received_) = MI.u64 ((Disc.disc w).(hellos_received_) + Z.of_nat hellos) /\
  (Disc.disc w').(welcomes_received_) = MI.u64 ((Disc.disc w).(welcomes_received_) + Z.of_nat welcomes).

Definition is_hello (m : Message) : bool := m.(m_type) =? DISCOVERY_HELLO.
Definition is_welcome (m : Message) : bool := m.(m_type) =? DISCOVERY_WELCOME.
Definition b2n (b : bool) : nat := if b then 1%nat else 0%nat.

Lemma offer_spec hs m w :
  built_in_only hs -> Some HDiscovery ∈ hs -> Disc.can_send w ->
  MI.is_u64 (Disc.disc w).(hellos_received_) -> MI.is_u64 (Disc.disc w).(welcomes_received_) ->
  exists w', offer user_handler hs m w = Ok (w', Disc.is_discovery m) /\ quiet w w' /\ Disc.env_ok w'.(env_) /\
    counted w w' (b2n (is_hello m)) (b2n (is_welcome m)).
Proof.
  intros Hb. revert w. induction Hb as [|h hs Hh Hb IH]; intros w Hin Hc Uh Uw; [by apply not_elem_of_nil in Hin|].
  destruct Hh as [->| ->]; cbn [offer].
  { apply IH; [|done..]. by apply elem_of_cons in Hin as [|]. }
  destruct (Disc.handle_total w m Hc) as (w1 & -> & R & Hd & He & S & Ch & Cw). cbn [obind].
  assert (counted w w1 (b2n (is_hello m)) (b2n (is_welcome m))) as C.
  { unfold counted, is_hello, is_welcome. rewrite Ch, Cw. split; [done|].
    split; [destruct (_ =? DISCOVERY_HELLO)|destruct (_ =? DISCOVERY_WELCOME)]; cbn [b2n];
      rewrite ?Z.add_0_r, ?MI.u64_id by done; done. }
  destruct (Disc.is_discovery m) eqn:Em; [by exists w1|].
  destruct (decide (Some HDiscovery ∈ hs)) as [Hi|Hi].
  - unfold Disc.is_discovery in Em. apply orb_false_iff in Em as [E1 E2]. rewrite E1 in Ch. rewrite E2 in Cw.
    destruct (IH w1 Hi) as (w2 & Ew & [Q1 Q2] & Q3 & (K1 & K2 & K3));
      [by split; [rewrite R; apply Hc|]|by rewrite Ch|by rewrite Cw|].
    exists w2. split; [exact Ew|]. split.
    + split; congruence.
    + split; [exact Q3|]. unfold counted. rewrite K1, K2, K3, S, Ch, Cw. done.
  - assert (forall hs' (w0 : core H E U), built_in_only hs' -> Some HDiscovery ∉ hs' ->
              offer user_handler hs' m w0 = Ok (w0, false)) as N.
    { clear. intros hs' w0 Hb Hn. induction Hb as [|h hs' [->| ->] Hb IH]; [done| |].
      - cbn [offer]. apply IH. intros ?. apply Hn. by right.
      - destruct Hn. by left. }
    rewrite N by done. exists w1. split; [done|]. split; [by split|]. split; [exact He|done].
Qed.

Lemma push_message_spec m w cb :
  Reg.get CommBufferComponent w.(registry_) Reg.SELF_ENTITY = Ok cb ->
  exists w', push_message m w = Ok w' /\
    Reg.get CommBufferComponent w'.(registry_) Reg.SELF_ENTITY =
      Ok (mk_cb (BQ.push CB_CAPACITY BQ.DropOldest m cb.(cb_queue)).1) /\
    w'.(message_handlers_) = w.(message_handlers_) /\ w'.(env_) = w.(env_) /\ Disc.disc w' = Disc.disc w /\
    forall (T : Type) (HT : Reg.Component T) (c : T), Reg.ctype_of T <> Reg.TCommBuffer ->
      Reg.get T w.(registry_) Reg.SELF_ENTITY = Ok c -> Reg.get T w'.(registry_) Reg.SELF_ENTITY = Ok c.
Proof.
  intros Hg. unfold push_message. rewrite Hg. cbn [obind].
  destruct (Reg.set_ok w.(registry_) cb (mk_cb (BQ.push CB_CAPACITY BQ.DropOldest m cb.(cb_queue)).1) Hg)
    as (reg & -> & _ & G & F).
  cbn [obind]. by exists (with_registry reg w).
Qed.

Lemma route_spec ms w cb pos :
  built_in_only w.(message_handlers_) -> Some HDiscovery ∈ w.(message_handlers_) ->
  Disc.env_ok w.(env_) -> Reg.get PositionComponent w.(registry_) Reg.SELF_ENTITY = Ok pos ->
  MI.is_u64 (Disc.disc w).(hellos_received_) -> MI.is_u64 (Disc.disc w).(welcomes_received_) ->
  Reg.get CommBufferComponent w.(registry_) Reg.SELF_ENTITY = Ok cb ->
  exists w', route user_handler ms w = Ok w' /\
    Reg.get CommBufferComponent w'.(registry_) Reg.SELF_ENTITY =
      Ok (mk_cb (fold_left (fun q m => (BQ.push CB_CAPACITY BQ.DropOldest m q).1)
                   (filter (fun m => Disc.is_discovery m = false) ms) cb.(cb_queue))) /\
    counted w w' (length (filter (fun m => is_hello m = true) ms)) (length (filter (fun m => is_welcome m = true) ms)) /\
    forall (T : Type) (HT : Reg.Component T) (c : T), Reg.ctype_of T <> Reg.TCommBuffer ->
      Reg.get T w.(registry_) Reg.SELF_ENTITY = Ok c -> Reg.get T w'.(registry_) Reg.SELF_ENTITY = Ok c.
Proof.
  revert w cb. induction ms as [|m ms IH]; intros w cb Hb Hi He Hp Uh Uw Hg.
  { exists w. split; [done|]. destruct cb. split; [done|]. unfold counted. cbn [filter length Z.of_nat].
    by rewrite !Z.add_0_r, !MI.u64_id. }
  cbn [route]. destruct (offer_spec w.(message_handlers_) m w Hb Hi (conj (Disc.sender_ok_position _ _ Hp) He) Uh Uw)
    as (w1 & -> & [R1 Hs1] & He1 & (S1 & Ch1 & Cw1)).
  cbn [obind].
  assert (exists w2 cb2, (if Disc.is_discovery m then Ok w1 else push_message m w1) = Ok w2 /\
    Reg.get CommBufferComponent w2.(registry_) Reg.SELF_ENTITY = Ok cb2 /\
    cb2 = (if Disc.is_discovery m then cb else mk_cb (BQ.push CB_CAPACITY BQ.DropOldest m cb.(cb_queue)).1) /\
    w2.(message_handlers_) = w.(message_handlers_) /\ w2.(env_) = w1.(env_) /\ Disc.disc w2 = Disc.disc w1 /\
    forall (T : Type) (HT : Reg.Component T) (c : T), Reg.ctype_of T <> Reg.TCommBuffer ->
      Reg.get T w.(registry_) Reg.SELF_ENTITY = Ok c -> Reg.get T w2.(registry_) Reg.SELF_ENTITY = Ok c)
    as (w2 & cb2 & -> & G2 & Ecb & Hs2 & V2 & D2 & F2).
  { destruct (Disc.is_discovery m).
    - exists w1, cb. rewrite R1. by split_and!.
    - rewrite <- R1 in Hg. destruct (push_message_spec m w1 cb Hg) as (w2 & -> & G & Hh & V & D & F).
      eexists w2, _. split_and!; try done; [congruence|]. intros T HT c Hne Hc. apply F; [done|]. by rewrite R1. }
  cbn [obind]. destruct (IH w2 cb2) as (w' & -> & G & (S & Ch & Cw) & F); [by rewrite Hs2|by rewrite Hs2|by rewrite V2|by apply F2| | |done|].
  { rewrite D2, Ch1. apply MI.u64_range. }
  { rewrite D2, Cw1. apply MI.u64_range. }
  exists w'. split; [done|]. split_and!.
  - rewrite G, Ecb, filter_cons. by destruct (Disc.is_discovery m).
  - unfold counted. rewrite S, Ch, Cw, D2, Ch1, Cw1, !NT.u64_add_l, !filter_cons. unfold is_hello, is_welcome.
    destruct (m.(m_type) =? DISCOVERY_HELLO), (m.(m_type) =? DISCOVERY_WELCOME); cbn [b2n];
      repeat case_decide; try done; cbn [length]; (split; [done|]); split; f_equal; lia.
  - intros T HT c Hne Hc. apply F; [done|]. by apply F2.
Qed.
End Routing.

(** Routing of received messages when the discovery system's handler is the
    one registered and the transport's sends succeed.  Every HELLO and WELCOME is
    claimed and counted by the discovery system, in either of its states, which it
    keeps; all other messages reach the application's buffer in the order received,
    where the oldest make room: it ends with the latest sixteen of what it held
    and what came.  No other component changes, and the batch never aborts. *)
Theorem messages_routed {H E U} `{!Platform} {TC : Reg.Toolchain} `{!Auth.Crypto} `{!Net.Transports H E}
    `{!Disc.Reliable H E} (user_handler : nat -> Message -> core H E U -> outcome (core H E U * bool))
    (w : core H E U) ms cb pos :
  built_in_only w.(message_handlers_) -> Some HDiscovery ∈ w.(message_handlers_) ->
  Disc.env_ok w.(env_) -> Reg.get PositionComponent w.(registry_) Reg.SELF_ENTITY = Ok pos ->
  MI.is_u64 (Disc.disc w).(hellos_received_) -> MI.is_u64 (Disc.disc w).(welcomes_received_) ->
  Reg.get CommBufferComponent w.(registry_) Reg.SELF_ENTITY = Ok cb -> BQ.wf CB_CAPACITY cb.(cb_queue) ->
  exists w' cb', route user_handler ms w = Ok w' /\
    Reg.get CommBufferComponent w'.(registry_) Reg.SELF_ENTITY = Ok cb' /\ BQ.wf CB_CAPACITY cb'.(cb_queue) /\
    (let all := BQ.contents default_message CB_CAPACITY cb.(cb_queue) ++
                filter (fun m => Disc.is_discovery m = false) ms in
     BQ.contents default_message CB_CAPACITY cb'.(cb_queue) = drop (length all - CB_CAPACITY) all) /\
    counted w w' (length (filter (fun m => is_hello m = true) ms)) (length (filter (fun m => is_welcome m = true) ms)) /\
    forall (T : Type) (HT : Reg.Component T) (c : T), Reg.ctype_of T <> Reg.TCommBuffer ->
      Reg.get T w.(registry_) Reg.SELF_ENTITY = Ok c -> Reg.get T w'.(registry_) Reg.SELF_ENTITY = Ok c.
Proof.
  intros Hb Hi He Hp Uh Uw Hg Wq. destruct (route_spec user_handler ms w cb pos Hb Hi He Hp Uh Uw Hg) as (w' & Er & G & C & F).
  destruct (BQ.push_all_latest default_message CB_CAPACITY
    (filter (fun m => Disc.is_discovery m = false) ms) cb.(cb_queue) ltac:(unfold CB_CAPACITY; lia) Wq) as [W' L].
  exists w', (mk_cb (fold_left (fun q m => (BQ.push CB_CAPACITY BQ.DropOldest m q).1)
    (filter (fun m => Disc.is_discovery m = false) ms) cb.(cb_queue))).
  split; [exact Er|]. split; [exact G|]. split; [exact W'|]. split; [exact L|]. split; [exact C|exact F].
Qed.

(** ** Examples *)

#[local] Existing Instance Net.wire_transports.
#[local] Existing Instance Auth.toy_laws.
#[local] Existing Instance Disc.wire_reliable.

(** An authentic beacon, one with another key under the same name, and one whose
    signature was altered. *)
Definition beacon_by (n : nat) : StateVector :=
  @sign_beacon Auth.toy_crypto (@Auth.generate_identity_keypair Auth.toy_crypto n) Wire.sample_sv.
Definition sample_batch : list StateVector :=
  [beacon_by 0; beacon_by 1; set_auth (Auth.sample_key 0) (replicate 64 5) (beacon_by 0)].
Definition fresh_rx : rx := mk_rx NT.empty_table ∅ 0.

Lemma beacon_acceptance_witness :
  let r' := fold_left (@receive (sample_platform true) Auth.toy_crypto Id.nil_hid 0) sample_batch fresh_rx in
  Auth.find r'.(rx_keys) Wire.sample_hid = Some (Auth.sample_key 0) /\ r'.(rx_rejected) = 2.
Proof.
  cbv zeta.
  destruct (@beacon_acceptance (sample_platform true) Auth.toy_crypto Id.nil_hid 0 sample_batch fresh_rx Wire.sample_hid
    (NT.empty_table_wf _)) as (_ & Hk & _ & Hr & _).
  - unfold MI.is_u64. cbn. lia.
  - split; [rewrite Hk; vm_compute; reflexivity|]. rewrite Hr. vm_compute. reflexivity.
Defined.

Lemma signed_beacon_accepted_witness :
  exists frame len b,
    Wire.encode_beacon (beacon_by 0) (replicate 256 0) 256 = (frame, len) /\ Wire.decode_beacon frame len = Some b /\
    Auth.find (@receive (sample_platform true) Auth.toy_crypto Id.nil_hid 0 fresh_rx b).(rx_keys) Wire.sample_hid =
      Some (Auth.sample_key 0).
Proof.
  pose proof (@signed_beacon_accepted (sample_platform true) Auth.toy_crypto Auth.toy_laws Wire.sample_sv 0 Id.nil_hid 0
    fresh_rx (replicate 256 0) eq_refl Wire.sample_sv_wf ltac:(discriminate) ltac:(discriminate)
    (NT.empty_table_wf _) ltac:(cbn; lia)) as W.
  cbv zeta in W. change (length (replicate 256 0)) with 256%nat in W.
  change (@sign_beacon Auth.toy_crypto (@Auth.generate_identity_keypair Auth.toy_crypto 0) Wire.sample_sv)
    with (beacon_by 0) in W.
  destruct (Wire.encode_beacon (beacon_by 0) (replicate 256 0) 256) as [frame len].
  destruct W as (b & Db & _ & _ & _ & Hk & _). exists frame, len, b. split; [reflexivity|]. split; [exact Db|exact Hk].
Defined.

(** A node whose buffer receives one of three messages. *)
Definition sample_router : core unit Net.wire unit :=
  with_message_handlers [None; Some HDiscovery]
    (with_registry
       (let r := (@Reg.register_builtin_component Reg.gcc (Disc.node 0 Active).(registry_) CommBufferComponent _).1.1 in
        let r := (@Reg.register_builtin_component Reg.gcc r PositionComponent _).1.1 in
        match (let! r := @Reg.emplace Reg.gcc CommBufferComponent _ r Reg.SELF_ENTITY default_cb in
               @Reg.emplace Reg.gcc PositionComponent _ r Reg.SELF_ENTITY default_pos)
        with Ok r => r | _ => r end)
       (Disc.node 0 Active)).
Definition sample_inbox : list Message :=
  [@Disc.announcement unit Net.wire unit (sample_platform true) (Disc.node 1 Active) DISCOVERY_HELLO BROADCAST_ID;
   Wire.sample_message;
   @Disc.announcement unit Net.wire unit (sample_platform true) (Disc.node 1 Active) DISCOVERY_WELCOME BROADCAST_ID].

Lemma messages_routed_witness :
  exists w' cb', @route unit Net.wire unit (sample_platform true) Reg.gcc _ (fun _ _ w => Ok (w, false))
      sample_inbox sample_router = Ok w' /\
    @Reg.get Reg.gcc CommBufferComponent _ w'.(registry_) Reg.SELF_ENTITY = Ok cb' /\
    BQ.contents default_message CB_CAPACITY cb'.(cb_queue) = [Wire.sample_message] /\
    (Disc.disc w').(hellos_received_) = 1 /\ (Disc.disc w').(welcomes_received_) = 1.
Proof.
  destruct (@messages_routed unit Net.wire unit (sample_platform true) Reg.gcc Auth.toy_crypto _ _
    (fun _ _ w => Ok (w, false)) sample_router sample_inbox default_cb default_pos)
    as (w' & cb' & Er & G & _ & L & (_ & Ch & Cw) & _).
  - exact (Forall_cons_2 _ _ _ (or_introl eq_refl) (Forall_cons_2 _ _ _ (or_intror eq_refl) (Forall_nil_2 _))).
  - by right; left.
  - exact I.
  - vm_compute. reflexivity.
  - unfold MI.is_u64. cbn. lia.
  - unfold MI.is_u64. cbn. lia.
  - vm_compute. reflexivity.
  - apply BQ.empty_wf. unfold CB_CAPACITY. lia.
  - exists w', cb'. split; [exact Er|]. split; [exact G|]. split; [rewrite L; vm_compute; reflexivity|].
    split; [rewrite Ch|rewrite Cw]; vm_compute; reflexivity.
Defined.

End Bcn.
