(* ===== verification/World.v ===== *)
(** The world: construction, system registration, initialisation, tick, run loop
    and state dump ([include/mith/core/world.h], [src/core/world.cpp]), over the
    scheduler and all built-in systems.

    [system] is the closed set of the built-in [System] classes plus the
    application's own; its instance of [SystemOps] is the virtual dispatch.  The
    scheduler is the sequential one: SchedulerParallel shows the parallel tick to
    give the same result. *)

From S2P Require Import Prelude MachineInt Float32 Identity BoundedQueue Components Trace JsonWriter.
From S2P Require Import Scheduler NeighbourTable Registry PeerKeys Transport FaultMonitor TaskAlloc.
From S2P Require Import ClockSync PartitionMerge Flocking Actions WorldState Discovery Beacon.
Local Open Scope Z_scope.

Module World.
Import Comp WS.

Inductive system :=
| SBeacon | SDiscovery | SFaultMonitor | STaskAlloc | SFlocking | SKinematics | SClockSync
| SPartitionMerge | SValidator | SMove | STransmit | SHover | SUser (n : nat).
#[global] Instance system_eq_dec : EqDecision system.
Proof. solve_decision. Defined.

(** What the application constructs and hands to [register_system]. *)
Inductive construction :=
| CBeacon | CDiscovery (p : discovery_params) | CFaultMonitor (p : FM.Params) | CTaskAlloc (p : TA.Params)
| CFlocking (p : Flock.Params) | CKinematics | CClockSync (p : CS.Params) | CPartitionMerge (p : PM.Params)
| CValidator | CMove | CTransmit | CHover | CUser (n : nat).

Definition handle (c : construction) : system :=
  match c with
  | CBeacon => SBeacon | CDiscovery _ => SDiscovery | CFaultMonitor _ => SFaultMonitor
  | CTaskAlloc _ => STaskAlloc | CFlocking _ => SFlocking | CKinematics => SKinematics
  | CClockSync _ => SClockSync | CPartitionMerge _ => SPartitionMerge | CValidator => SValidator
  | CMove => SMove | CTransmit => STransmit | CHover => SHover | CUser n => SUser n
  end.

(** The slots before any system is constructed. *)
Definition unconstructed {H} : systems H :=
  mk_systems (mk_beacon None None 0 0 0 0)
    (mk_disc None Id.nil_hid default_dparams Bootstrapping 0 0 0 0 0 0 0)
    (FM.default_params, FM.new_state) (TA.default_params, TA.new_state) Flock.default_params
    (CS.default_params, CS.new_state) (PM.default_params, PM.new_state) 0 (None, 0) 0.

Section World.
Context {H E U : Type} `{!Platform} `{!Reg.Toolchain} `{!Auth.Crypto} `{!Net.Transports H E}.
Implicit Types w : core H E U.

(** The application's systems and handlers. *)
Variable user_handler : nat -> Message -> core H E U -> outcome (core H E U * bool).
Variable user_describe : nat -> Sched.SystemDescriptor.
Variable user_tick : nat -> Sched.SwarmContext -> Z -> core H E U -> outcome (core H E U).

(** ** The systems *)

Definition describe_system (s : system) : Sched.SystemDescriptor :=
  match s with
  | SBeacon => Bcn.describe
  | SDiscovery => Disc.describe
  | SFaultMonitor => FM.describe
  | STaskAlloc => TA.describe
  | SFlocking => Flock.describe
  | SKinematics => Flock.describe_kinematics
  | SClockSync => CS.describe
  | SPartitionMerge => PM.describe
  | SValidator => Act.describe_validator
  | SMove => Act.describe_move
  | STransmit => Act.describe_transmit
  | SHover => Act.describe_hover
  | SUser n => user_describe n
  end.

(** A system's tick on the world it was constructed with. *)
Definition tick_system (s : system) (ctx : Sched.SwarmContext) (dt : Z) w : outcome (core H E U) :=
  let sys := w.(sys_) in
  let reg := w.(registry_) in
  let nt := w.(neighbour_table_) in
  match s with
  | SBeacon => Bcn.tick user_handler ctx dt w
  | SDiscovery => Disc.tick dt w
  | SFaultMonitor =>
      let '(p, st) := sys.(s_fault) in
      let! (st, reg) := FM.tick p st w.(fault_count_) reg in
      Ok (with_sys (set_s_fault (p, st) sys) (with_registry reg w))
  | STaskAlloc =>
      let '(p, st) := sys.(s_alloc) in
      let! (st, reg) := TA.tick p st (is_merging w) nt reg dt in
      Ok (with_sys (set_s_alloc (p, st) sys) (with_registry reg w))
  | SFlocking => let! reg := Flock.tick f2i_oob sys.(s_flock) nt reg dt in Ok (with_registry reg w)
  | SKinematics => let! reg := Flock.tick_kinematics reg dt in Ok (with_registry reg w)
  | SClockSync =>
      let '(p, st) := sys.(s_clock) in
      let '(st, off) := CS.tick p st nt w.(context_).(Sched.elapsed_time_s) w.(clock_offset_s_) in
      Ok (with_sys (set_s_clock (p, st) sys) (with_clock_offset_s off w))
  | SPartitionMerge =>
      let '(p, st) := sys.(s_merge) in
      let '(st, window) := PM.tick p st nt w.(merge_window_remaining_s_) in
      Ok (with_sys (set_s_merge (p, st) sys) (with_merge_window_remaining_s window w))
  | SValidator =>
      let! (reg, ev) := Act.tick_validator (match w.(trace_) with Some _ => true | None => false end) ctx reg in
      Ok (emit ev (with_registry reg w))
  | SMove =>
      let! (n, reg) := Act.tick_move sys.(s_move) reg in
      Ok (with_sys (set_s_move n sys) (with_registry reg w))
  | STransmit =>
      let '(h, n) := sys.(s_transmit) in
      let! (n, env) := Act.tick_transmit h n (synced_time_s w) reg w.(env_) in
      Ok (with_sys (set_s_transmit (h, n) sys) (with_env env w))
  | SHover =>
      let! n := Act.tick_hover sys.(s_hover) reg in Ok (with_sys (set_s_hover n sys) w)
  | SUser n => user_tick n ctx dt w
  end.

#[global] Instance system_ops : Sched.SystemOps system (core H E U) :=
  {| Sched.describe := describe_system; Sched.sys_tick := tick_system |}.

(** The effect of a constructor on the world it is given. *)
Definition construct (c : construction) w : core H E U :=
  let sys := w.(sys_) in
  match c with
  | CBeacon => Bcn.new_beacon w
  | CDiscovery p => Disc.new_discovery p w
  | CFaultMonitor p => with_sys (set_s_fault (p, FM.new_state) sys) w
  | CTaskAlloc p => with_sys (set_s_alloc (p, TA.new_state) sys) w
  | CFlocking p => with_sys (set_s_flock p sys) w
  | CClockSync p => with_sys (set_s_clock (p, CS.new_state) sys) w
  | CPartitionMerge p => with_sys (set_s_merge (p, PM.new_state) sys) w
  | CMove => with_sys (set_s_move 0 sys) w
  | CTransmit => with_sys (set_s_transmit (message_transport w, 0) sys) w
  | CHover => with_sys (set_s_hover 0 sys) w
  | CKinematics | CValidator | CUser _ => w
  end.

(** The effect of a constructor whose object is destroyed again, because its name
    is taken: a discovery system has registered a handler that captured it. *)
Definition discard (c : construction) w : core H E U :=
  match c with
  | CDiscovery _ => register_message_handler (Some HDangling) w
  | _ => w
  end.

(** ** The world *)

Record world := mk_world { core_ : core H E U; scheduler_ : @Sched.scheduler system }.

Definition map_core (f : core H E U -> core H E U) (wd : world) : world := mk_world (f wd.(core_)) wd.(scheduler_).

(** [env], [user], [entropy] and [draws] are what the process brings along. *)
Definition new_core (config : WorldConfig) (transport beacon message : option H) (env : E) (user : U)
    (entropy draws : nat) : core H E U :=
  mk_core config (Reg.new_registry config.(registration_policy)) (Sched.mk_ctx config.(cfg_swarm_id) 0 0 0)
    transport beacon message NT.empty_table 0 0 0 None [] ∅ None 0 0 None false unconstructed entropy draws env user.

(* @src src/core/world.cpp:25-30 World::World *)
Definition new_world (config : WorldConfig) (env : E) (user : U) (entropy draws : nat) : world :=
  mk_world (new_core config None None None env user entropy draws)
    (Sched.new_scheduler config.(scheduler_mode) config.(thread_pool_size)).
(* @src src/core/world.cpp:32-38 World::World *)
Definition new_world_unified (config : WorldConfig) (transport : option H) (env : E) (user : U)
    (entropy draws : nat) : world :=
  mk_world (new_core config transport None None env user entropy draws)
    (Sched.new_scheduler config.(scheduler_mode) config.(thread_pool_size)).
(* @src src/core/world.cpp:40-49 World::World *)
Definition new_world_split (config : WorldConfig) (beacon message : option H) (env : E) (user : U)
    (entropy draws : nat) : world :=
  mk_world (new_core config None beacon message env user entropy draws)
    (Sched.new_scheduler config.(scheduler_mode) config.(thread_pool_size)).

(** [None] is the null pointer. *)
(* @src src/core/world.cpp:200-202 World::register_system *)
Definition register_system (c : option construction) (wd : world) : outcome (world * Sched.SchedulerStatus) :=
  let! (sch, st) := Sched.register_system wd.(scheduler_) (handle <$> c) in
  let w := match c, st with
           | Some c, Sched.StOk => construct c wd.(core_)
           | Some c, _ => discard c wd.(core_)
           | None, _ => wd.(core_)
           end in
  Ok (mk_world w sch, st).

(* @src include/mith/core/world.h:173-176 World::register_component *)
Definition register_component (ty : Reg.ctype) (wd : world) : world * Reg.RegistrationStatus :=
  let '(reg, st, ev) := Reg.register_impl wd.(core_).(registry_) ty Reg.User in
  (map_core (fun w => emit ev (with_registry reg w)) wd, st).

(** [Some] is a sink that has recorded some events, [None] no sink. *)
(* @src src/core/world.cpp:204-208 World::set_trace_sink *)
Definition set_trace_sink (sink : option (list Tr.TraceEvent)) (wd : world) : world :=
  let on := match sink with Some _ => true | None => false end in
  mk_world (with_trace sink (with_registry (Reg.set_trace_sink wd.(core_).(registry_) on) wd.(core_)))
    (Sched.set_trace_sink wd.(scheduler_) on).

(** ** Initialisation *)

(** The privileged registrations, in the order of the code; statuses are ignored. *)
(* @src src/core/world.cpp:61-70 World::init *)
Definition register_builtins w : core H E U :=
  fold_left (fun w ty => let '(reg, _, ev) := Reg.register_impl w.(registry_) ty Reg.Built_In in
                         emit ev (with_registry reg w)) Reg.builtin_types w.

(* @src src/core/world.cpp:76-88 World::init *)
Definition emplace_defaults (id : Id.HierarchicalID) (reg : Reg.t) : outcome Reg.t :=
  let self := Reg.SELF_ENTITY in
  let! reg := Reg.emplace reg self (mk_identity id) in
  let! reg := Reg.emplace reg self default_pos in
  let! reg := Reg.emplace reg self default_vel in
  let! reg := Reg.emplace reg self default_orient in
  let! reg := Reg.emplace reg self default_health in
  let! reg := Reg.emplace reg self default_role in
  let! reg := Reg.emplace reg self default_state in
  let! reg := Reg.emplace reg self default_mask in
  let! reg := Reg.emplace reg self default_aq in
  Reg.emplace reg self default_cb.

(* @src src/core/world.cpp:53-104 World::init *)
Definition init (wd : world) : outcome world :=
  let w := wd.(core_) in
  if w.(initialized_) then Aborted "init(): called twice"
  else
    let w := register_builtins w in
    let '(id, w) := fresh_hid w in
    let! reg := emplace_defaults id w.(registry_) in
    let w := with_registry (Reg.lock reg) w in
    let sch := (Sched.build_graph hardware_concurrency wd.(scheduler_)).1 in
    let w := if auth_enabled
             then let '(kp, w) := fresh_keypair w in with_current_keypair (Some kp) w
             else w in
    Ok (mk_world (with_initialized true w) sch).

(** ** The tick *)

(* @src src/core/world.cpp:112-114 World::tick *)
Definition advance_context w : core H E U :=
  let ctx := w.(context_) in
  let dt := F32.div F32.one w.(config_).(tick_rate_hz) in
  with_context (Sched.mk_ctx ctx.(Sched.ctx_swarm_id) (F32.add ctx.(Sched.elapsed_time_s) dt) dt
                  (MI.u64 (ctx.(Sched.tick_count) + 1))) w.

(* @src src/core/world.cpp:118-121 World::tick *)
Definition decay_window w : core H E U :=
  if F32.gtb w.(merge_window_remaining_s_) F32.zero then
    let m := F32.sub w.(merge_window_remaining_s_) w.(context_).(Sched.delta_time_s) in
    with_merge_window_remaining_s (if F32.ltb m F32.zero then F32.zero else m) w
  else w.

(* @src src/core/world.cpp:126-131 World::tick *)
Definition rotate_periodic w : outcome (core H E U) :=
  let period := w.(config_).(identity_rotation_period_s) in
  if bool_decide (w.(config_).(identity_rotation_policy) = PERIODIC) && F32.gtb period F32.zero &&
     F32.geb (F32.sub w.(context_).(Sched.elapsed_time_s) w.(last_rotation_time_s_)) period
  then rotate_identity w else Ok w.

(** The tick of a world whose scheduler is in [Sequential] mode; for [Parallel] mode see
    [WorldParallel].  [clk] gives the times the
    scheduler measures around each system, [tid] is the calling thread. *)
(* @src src/core/world.cpp:106-132 World::tick (Sequential mode) *)
Definition tick (clk : nat -> Z * Z) (tid : Z) (wd : world) : outcome world :=
  if negb wd.(core_).(initialized_) then Aborted "tick(): init() not called"
  else
    let w := decay_window (advance_context wd.(core_)) in
    let ctx := w.(context_) in
    let! (sch, w, ev) := Sched.tick_sequential clk tid wd.(scheduler_) ctx ctx.(Sched.delta_time_s) w in
    let! w := rotate_periodic (emit ev w) in
    Ok (mk_world w sch).

(** The loop: [stop] gives what the flag reads before each turn, [fuel] bounds the
    turns; pacing by the clock is left out. *)
(* @src src/core/world.cpp:143-148 World::run *)
Fixpoint run_loop (fuel : nat) (clk : nat -> nat -> Z * Z) (tid : Z) (stop : nat -> bool) (k : nat)
    (wd : world) : option (outcome world) :=
  match fuel with
  | O => None
  | S fuel =>
      if stop k then Some (Ok wd)
      else match tick (clk k) tid wd with
           | Ok wd => run_loop fuel clk tid stop (S k) wd
           | Aborted m => Some (Aborted m)
           | Undefined m => Some (Undefined m)
           end
  end.

(* @src src/core/world.cpp:134-149 World::run *)
Definition run (fuel : nat) (clk : nat -> nat -> Z * Z) (tid : Z) (stop : nat -> bool) (wd : world)
    : option (outcome world) :=
  if negb wd.(core_).(initialized_) then Some (Aborted "run(): init() not called")
  else run_loop fuel clk tid stop 0 wd.
End World.

End World.
