(* ===== verification/WorldSafety.v ===== *)
(** Correctness of the world: initialisation, absence of aborts over whole runs,
    and the run loop.

    [sound] is the invariant of an initialised world: all built-in components
    present, a well-formed action queue and neighbour table, no handler of a
    destroyed system.  Every built-in system keeps it and none aborts. *)

From S2P Require Import Prelude MachineInt Float32 Identity BoundedQueue Components Trace JsonWriter.
From S2P Require Import Scheduler NeighbourTable Registry PeerKeys Transport FaultMonitor TaskAlloc.
From S2P Require Import ClockSync PartitionMerge Flocking Actions WorldState Discovery Beacon World.
Local Open Scope Z_scope.

Module Safe.
Import Comp WS World.

(** ** Complete registries *)

Section Complete.
Context `{TC : !Reg.Toolchain}.

Record complete (r : Reg.t) : Prop := {
  cp_wf : Reg.wf r;
  cp_present : forall (T : Type) (HT : Reg.Component T), Reg.ctype_of T ∈ Reg.builtin_types ->
    exists c : T, Reg.get T r Reg.SELF_ENTITY = Ok c;
  cp_queue : forall aq, Reg.get ActionQueueComponent r Reg.SELF_ENTITY = Ok aq -> Act.wf_aq aq;
}.

(** Two views of one component type are present together. *)
Lemma get_same_type {T U : Type} {HT : Reg.Component T} {HU : Reg.Component U} r (c : T) :
  Reg.get T r Reg.SELF_ENTITY = Ok c -> Reg.wf r -> Reg.ctype_of U = Reg.ctype_of T ->
  exists u : U, Reg.get U r Reg.SELF_ENTITY = Ok u.
Proof.
  intros Hg W Ht. destruct (Reg.get_ok_store r c Hg) as (s & v & E & Hs & Hv & _).
  destruct (W _ _ E) as [_ Wv]. destruct (Reg.prj_type (T := U) v) as [u Hu].
  { rewrite (Wv v Hv). congruence. }
  exists u. unfold Reg.get. cbn [negb Z.eqb Reg.SELF_ENTITY Pos.eqb]. rewrite Ht, E.
  rewrite (decide_True _ _ Hs). by rewrite Hv, Hu.
Qed.

(** Writing a built-in component succeeds and keeps the registry complete. *)
Lemma complete_set {T : Type} {HT : Reg.Component T} r (c : T) :
  complete r -> Reg.ctype_of T ∈ Reg.builtin_types -> Reg.ctype_of T <> Reg.TActionQueue ->
  exists r', Reg.set r Reg.SELF_ENTITY c = Ok r' /\ complete r'.
Proof.
  intros [W P Q] Hb Hq. destruct (P T HT Hb) as [c0 Hc].
  destruct (Reg.set_ok r c0 c Hc) as (r' & E & S & G & F). exists r'. split; [done|].
  assert (Reg.wf r') as W' by exact (Reg.step_wf _ _ S W). constructor; [done| |].
  - intros U HU Hu. destruct (decide (Reg.ctype_of U = Reg.ctype_of T)) as [He|He].
    + by apply (get_same_type r' c).
    + destruct (P U HU Hu) as [u Eu]. exists u. by apply F.
  - intros aq Ha. destruct (P ActionQueueComponent _) as [aq0 Ea]; [cbn; set_solver|].
    pose proof (F ActionQueueComponent _ aq0 ltac:(done) Ea) as Ea'. rewrite Ha in Ea'. injection Ea' as ->. by apply Q.
Qed.

Lemma complete_get {T : Type} {HT : Reg.Component T} r :
  complete r -> Reg.ctype_of T ∈ Reg.builtin_types -> exists c : T, Reg.get T r Reg.SELF_ENTITY = Ok c.
Proof. intros C. apply C. Qed.

(** The message buffer and the action validator's write of the queue. *)
Lemma complete_frame r r' aq :
  complete r -> Reg.wf r' -> Reg.get ActionQueueComponent r' Reg.SELF_ENTITY = Ok aq -> Act.wf_aq aq ->
  (forall (U : Type) (HU : Reg.Component U) (u : U), Reg.ctype_of U <> Reg.TActionQueue ->
     Reg.get U r Reg.SELF_ENTITY = Ok u -> Reg.get U r' Reg.SELF_ENTITY = Ok u) ->
  complete r'.
Proof.
  intros [W P Q] W' Ga Wa F. constructor; [done| |].
  - intros U HU Hu. destruct (decide (Reg.ctype_of U = Reg.TActionQueue)) as [He|He].
    + by apply (get_same_type r' aq).
    + destruct (P U HU Hu) as [u Eu]. exists u. by apply F.
  - intros aq' Ha. congruence.
Qed.
End Complete.

(** Read or write the next built-in component. *)
Ltac read_component C :=
  match goal with
  | |- context [@Reg.get ?TC ?T ?HT ?r Reg.SELF_ENTITY] =>
      let c := fresh "c" in let E := fresh "Eg" in
      destruct (@complete_get TC T HT r C) as [c E]; [cbn; set_solver|]; rewrite E; cbn [obind]
  end.
Ltac write_component C :=
  match goal with
  | |- context [@Reg.set ?TC ?T ?HT ?r Reg.SELF_ENTITY ?v] =>
      let r' := fresh "r" in let E := fresh "Es" in let C' := fresh "C" in
      destruct (@complete_set TC T HT r v C) as (r' & E & C'); [cbn; set_solver|done|]; rewrite E; cbn [obind]
  end.

Section Systems.
Context `{TC : !Reg.Toolchain}.
Implicit Types r : Reg.t.

Lemma fault_ok p s n r : complete r -> exists s' r', FM.tick p s n r = Ok (s', r') /\ complete r'.
Proof.
  intros C. unfold FM.tick. do 3 read_component C. destruct (FM.tick_values _ _ _ _ _ _) as [[[s' h] m] b].
  write_component C. write_component C0. write_component C1. by do 2 eexists.
Qed.

Lemma alloc_ok p s merging nt r dt :
  complete r -> exists s' r', TA.tick p s merging nt r dt = Ok (s', r') /\ complete r'.
Proof.
  intros C. unfold TA.tick. read_component C. destruct (TA.count_roles _ _) as [counts total].
  destruct (TA.scan _ _ _) as [[best m]|]; [|by do 2 eexists]. destruct (_ && _); [|by do 2 eexists].
  write_component C. by do 2 eexists.
Qed.

Lemma flock_ok oob p nt r dt : complete r -> exists r', Flock.tick oob p nt r dt = Ok r' /\ complete r'.
Proof.
  intros C. unfold Flock.tick. destruct (NT.entries_ nt); [by eexists|]. do 2 read_component C.
  destruct (Flock.new_velocity _ _ _ _ _ _); [|by eexists]. write_component C. by eexists.
Qed.

Lemma kinematics_ok r dt : complete r -> exists r', Flock.tick_kinematics r dt = Ok r' /\ complete r'.
Proof. intros C. unfold Flock.tick_kinematics. do 2 read_component C. write_component C. by eexists. Qed.

Lemma validator_ok sink ctx r :
  complete r -> exists r' ev, Act.tick_validator sink ctx r = Ok (r', ev) /\ complete r'.
Proof.
  intros C. destruct (@complete_get _ ActionQueueComponent _ r C) as [aq Ea]; [cbn; set_solver|].
  destruct (@complete_get _ PermissionMaskComponent _ r C) as [m Em]; [cbn; set_solver|].
  destruct (Act.tick_validator_spec sink ctx r aq m Ea (cp_queue r C aq Ea) Em) as (r' & aq' & ev & Et & Ea' & D & F).
  exists r', ev. split; [done|]. apply (complete_frame r r' aq'); [done| |done|apply D|done].
  revert Et. unfold Act.tick_validator. rewrite Ea, Em. cbn [obind]. destruct (Act.drain _ _ _ _ _) as [[aq1 ev1]|]; [|done].
  destruct (Reg.set_ok r aq aq1 Ea) as (r1 & -> & S & _). cbn [obind]. intros [= <- _].
  exact (Reg.step_wf _ _ S (cp_wf r C)).
Qed.

Lemma move_ok n r : complete r -> exists n' r', Act.tick_move n r = Ok (n', r') /\ complete r'.
Proof.
  intros C. unfold Act.tick_move. do 2 read_component C. destruct (fold_left _ _ _) as [v n'].
  write_component C. by do 2 eexists.
Qed.

Lemma hover_ok n r : complete r -> exists n', Act.tick_hover n r = Ok n'.
Proof. intros C. unfold Act.tick_hover. read_component C. by eexists. Qed.

(** An entity with all its components can send. *)
Lemma complete_sender {H E} `{!Net.Transports H E} `{!Disc.Reliable H E} r : complete r -> Disc.sender_ok (E := E) r.
Proof.
  intros C. destruct (@complete_get _ PositionComponent _ r C) as [p Ep]; [cbn; set_solver|].
  exact (Disc.sender_ok_position r p Ep).
Qed.

Lemma transmit_loop_ok {H E} `{!Net.Transports H E} `{!Disc.Reliable H E} (h : H) r id t l n (env : E) :
  Disc.sender_ok r -> Disc.env_ok env ->
  exists n' env', Act.transmit_loop h r id t l n env = Ok (n', env') /\ Disc.env_ok env'.
Proof.
  intros Hs. revert n env. induction l as [|a l IH]; intros n env He; [by do 2 eexists|]. cbn [Act.transmit_loop].
  destruct (negb _); [by apply IH|].
  destruct (Disc.send_message_ok h r (Act.message_of id t a) env Hs He) as (env' & b & -> & He'). cbn [obind]. by apply IH.
Qed.

Lemma transmit_ok {H E} `{!Net.Transports H E} `{!Disc.Reliable H E} (h : option H) n t r (env : E) :
  complete r -> Disc.env_ok env ->
  exists n' env', Act.tick_transmit h n t r env = Ok (n', env') /\ Disc.env_ok env'.
Proof.
  intros C He. unfold Act.tick_transmit. read_component C. destruct h as [h|]; [|by do 2 eexists].
  destruct (negb _); [by do 2 eexists|]. read_component C. apply transmit_loop_ok; [by apply complete_sender|done].
Qed.
End Systems.

(** ** Sound worlds *)

Section Sound.
Context {H E U : Type} `{!Platform} {TC : Reg.Toolchain} `{!Auth.Crypto} `{!Net.Transports H E} `{!Disc.Reliable H E}.
Implicit Types w : core H E U.

(** The configuration and the context of the tick. *)
Variable cc : WorldConfig * Sched.SwarmContext.

Record sound w : Prop := {
  snd_init : w.(initialized_) = true;
  snd_registry : complete w.(registry_);
  snd_table : NT.wf f2i_oob w.(neighbour_table_);
  snd_rejected : MI.is_u64 (Bcn.bcn w).(rejected_beacons_);
  snd_handlers : Some HDangling ∉ w.(message_handlers_);
  snd_context : (w.(config_), w.(context_)) = cc;
  snd_env : Disc.env_ok w.(env_);
}.

Lemma sound_frame w w' : Disc.frame w w' -> Disc.env_ok w'.(env_) -> sound w -> sound w'.
Proof.
  intros (Fr & Fh & Fn & Fi & Fb & Fc) He [Si Sr Sn Sj Sh Sc _]. unfold Bcn.bcn in *.
  constructor; unfold Bcn.bcn; by rewrite ?Fr, ?Fh, ?Fn, ?Fi, ?Fb, ?Fc.
Qed.

Lemma sound_registry w w' reg :
  sound w -> complete reg -> Disc.frame (with_registry reg w) w' -> Disc.env_ok w'.(env_) -> sound w'.
Proof.
  intros [Si Sr Sn Sj Sh Sc Se] C F He. apply (sound_frame _ _ F He). by constructor.
Qed.

Lemma sound_can_send w : sound w -> Disc.can_send w.
Proof. intros S. split; [apply complete_sender, (snd_registry w S)|apply (snd_env w S)]. Qed.

(** The application's code: it does not abort on a sound world and keeps it so. *)
Variable user_handler : nat -> Message -> core H E U -> outcome (core H E U * bool).
Variable user_describe : nat -> Sched.SystemDescriptor.
Variable user_tick : nat -> Sched.SwarmContext -> Z -> core H E U -> outcome (core H E U).
Definition user_handlers_sound : Prop := forall n m w, sound w ->
  exists w' b, user_handler n m w = Ok (w', b) /\ sound w'.
Definition user_ticks_sound : Prop := forall n ctx dt w, sound w ->
  exists w', user_tick n ctx dt w = Ok w' /\ sound w'.
Hypothesis handlers_ok : user_handlers_sound.
Hypothesis ticks_ok : user_ticks_sound.

Lemma offer_ok hs m w :
  sound w -> Some HDangling ∉ hs -> exists w' b, Bcn.offer user_handler hs m w = Ok (w', b) /\ sound w'.
Proof.
  revert w. induction hs as [|h hs IH]; intros w S Hn; [by do 2 eexists|].
  apply not_elem_of_cons in Hn as [Hh Hn]. cbn [Bcn.offer]. destruct h as [[| |n]|]; [| | |by apply IH].
  - destruct (Disc.handle_frame w m (sound_can_send w S)) as (w1 & -> & F & He). cbn [obind].
    pose proof (sound_frame w w1 F He S) as S1.
    destruct (Disc.is_discovery m); [by do 2 eexists|by apply IH].
  - done.
  - destruct (handlers_ok n m w S) as (w1 & b & -> & S1). cbn [obind]. destruct b; [by do 2 eexists|by apply IH].
Qed.

Lemma push_ok m w : sound w -> exists w', Bcn.push_message m w = Ok w' /\ sound w'.
Proof.
  intros S. pose proof (snd_registry w S) as C. unfold Bcn.push_message. read_component C.
  write_component C. eexists. split; [done|]. apply (sound_registry w _ r); [done..|apply (snd_env w S)].
Qed.

Lemma route_ok ms w : sound w -> exists w', Bcn.route user_handler ms w = Ok w' /\ sound w'.
Proof.
  revert w. induction ms as [|m ms IH]; intros w S; [by eexists|]. cbn [Bcn.route].
  destruct (offer_ok w.(message_handlers_) m w S (snd_handlers w S)) as (w1 & b & -> & S1). cbn [obind].
  destruct b; [by apply IH|]. destruct (push_ok m w1 S1) as (w2 & -> & S2). by apply IH.
Qed.

Lemma drain_messages_ok w : sound w -> exists w', Bcn.drain_messages user_handler w = Ok w' /\ sound w'.
Proof.
  intros S. unfold Bcn.drain_messages. destruct (b_message_transport _) as [h|]; [|by eexists].
  destruct (negb _); [by eexists|]. pose proof (Disc.poll_messages_ok h (env_ w) (snd_env w S)) as He.
  destruct (Net.poll_messages h (env_ w)) as [env ms].
  set (w1 := with_env env w). assert (sound w1) as S1 by exact (sound_frame w w1 ltac:(done) He S).
  pose proof (snd_registry w1 S1) as C. read_component C. by apply route_ok.
Qed.

Lemma drain_beacons_ok self now w : sound w -> sound (Bcn.drain_beacons self now w).
Proof.
  intros S. unfold Bcn.drain_beacons. destruct (b_beacon_transport _) as [h|]; [|done].
  destruct (negb _); [done|]. pose proof (Disc.poll_beacons_ok h (env_ w) (snd_env w S)) as He.
  destruct (Net.poll_beacons h (env_ w)) as [env bs].
  set (r0 := Bcn.mk_rx _ _ _). destruct S as [Si Sr Sn Sj Sh Sc Se].
  destruct (Bcn.receive_all_spec self now bs r0 Sn Sj) as (Wr & _ & Er). unfold Bcn.receive_all in *.
  constructor; try done. unfold Bcn.bcn.
  cbn [Bcn.with_bcn with_sys sys_ set_s_beacon s_beacon Bcn.set_rejected rejected_beacons_].
  rewrite Er. apply MI.u64_range.
Qed.

Lemma emit_beacon_ok sv dt w : sound w -> exists w', Bcn.emit_beacon sv dt w = Ok w' /\ sound w'.
Proof.
  intros S. pose proof S as [Si Sr Sn Sj Sh Sc Se]. unfold Bcn.emit_beacon.
  set (w1 := Bcn.with_bcn _ w). assert (sound w1) as S1 by by constructor.
  destruct (_ && _); [|by eexists]. destruct (b_beacon_transport _) as [h|]; [|by eexists].
  destruct (negb _); [by eexists|].
  set (sv' := if auth_enabled then _ else _).
  destruct (Disc.send_beacon_ok h w1.(registry_) sv' w1.(env_) (proj1 (sound_can_send w S)) Se) as (env & b & -> & He).
  cbn [obind].
  eexists. split; [done|]. by constructor.
Qed.

Lemma own_state_ok ctx w : sound w -> exists sv, Bcn.own_state ctx w = Ok sv.
Proof.
  intros S. pose proof (snd_registry w S) as C. unfold Bcn.own_state. do 6 read_component C. by eexists.
Qed.

Lemma beacon_tick_ok ctx dt w : sound w -> exists w', Bcn.tick user_handler ctx dt w = Ok w' /\ sound w'.
Proof.
  intros S. unfold Bcn.tick. set (w1 := with_neighbour_table _ w).
  assert (sound w1) as S1.
  { destruct S as [Si Sr Sn Sj Sh Sc Se]. constructor; try done. by apply NT.age_out_spec. }
  assert (exists w', (let! sv := Bcn.own_state ctx w1 in
     let! w2 := Bcn.emit_beacon sv dt w1 in
     Bcn.drain_messages user_handler (Bcn.drain_beacons sv.(sv_id) ctx.(Sched.elapsed_time_s) w2)) = Ok w' /\ sound w')
    as (w' & Ew & S').
  { destruct (own_state_ok ctx w1 S1) as [sv ->]. cbn [obind].
    destruct (emit_beacon_ok sv dt w1 S1) as (w2 & -> & S2). cbn [obind]. by apply drain_messages_ok, drain_beacons_ok. }
  destruct (b_beacon_transport (Bcn.bcn w1)), (b_message_transport (Bcn.bcn w1)); by eexists.
Qed.

(** Every system's tick. *)
Lemma tick_system_ok s ctx dt w :
  sound w -> exists w', tick_system user_handler user_tick s ctx dt w = Ok w' /\ sound w'.
Proof.
  intros S. pose proof (snd_registry w S) as C. pose proof (snd_env w S) as He. destruct s; cbn [tick_system].
  - by apply beacon_tick_ok.
  - destruct (complete_get (T := IdentityComponent) _ C) as [i Ei]; [cbn; set_solver|].
    destruct (Disc.tick_frame w dt i (sound_can_send w S) Ei) as (w' & -> & F & He'). exists w'. split; [done|].
    exact (sound_frame w w' F He' S).
  - destruct (s_fault (sys_ w)) as [p st]. destruct (fault_ok p st w.(fault_count_) _ C) as (st' & r' & -> & C').
    cbn [obind]. eexists. split; [done|]. by apply (sound_registry w _ r').
  - destruct (s_alloc (sys_ w)) as [p st].
    destruct (alloc_ok p st (is_merging w) w.(neighbour_table_) _ dt C) as (st' & r' & -> & C').
    cbn [obind]. eexists. split; [done|]. by apply (sound_registry w _ r').
  - destruct (flock_ok f2i_oob (s_flock (sys_ w)) w.(neighbour_table_) _ dt C) as (r' & -> & C').
    cbn [obind]. eexists. split; [done|]. by apply (sound_registry w _ r').
  - destruct (kinematics_ok _ dt C) as (r' & -> & C'). cbn [obind]. eexists. split; [done|].
    by apply (sound_registry w _ r').
  - destruct (s_clock (sys_ w)) as [p st]. destruct (CS.tick _ _ _ _ _) as [st' off].
    eexists. split; [done|]. by apply (sound_frame w).
  - destruct (s_merge (sys_ w)) as [p st]. destruct (PM.tick _ _ _ _) as [st' off].
    eexists. split; [done|]. by apply (sound_frame w).
  - destruct (validator_ok (match trace_ w with Some _ => true | None => false end) ctx _ C) as (r' & ev & -> & C').
    cbn [obind]. eexists. split; [done|]. by apply (sound_registry w _ r').
  - destruct (move_ok (s_move (sys_ w)) _ C) as (n' & r' & -> & C'). cbn [obind]. eexists. split; [done|].
    by apply (sound_registry w _ r').
  - destruct (s_transmit (sys_ w)) as [h n]. destruct (transmit_ok h n (synced_time_s w) _ w.(env_) C He) as (n' & env' & -> & He').
    cbn [obind]. eexists. split; [done|]. by apply (sound_frame w).
  - destruct (hover_ok (s_hover (sys_ w)) _ C) as (n' & ->). cbn [obind]. eexists. split; [done|].
    by apply (sound_frame w).
  - by apply ticks_ok.
Qed.

#[local] Hint Extern 0 (Sched.SystemOps _ _) =>
  exact (system_ops user_handler user_describe user_tick) : typeclass_instances.

Lemma tick_all_ok l ctx dt w : sound w -> exists w', Sched.tick_all l ctx dt w = Ok w' /\ sound w'.
Proof.
  revert w. induction l as [|s l IH]; intros w S; [by eexists|]. cbn [Sched.tick_all].
  destruct (tick_system_ok s ctx dt w S) as (w1 & E1 & S1). cbn [Sched.sys_tick system_ops]. rewrite E1.
  cbn [obind]. by apply IH.
Qed.
End Sound.

(** ** Initialisation of the registry *)

Section Init.
Context `{TC : !Reg.Toolchain}.

(** Distinct built-in types have distinct identifiers under this compiler. *)
Definition distinct_ids : Prop := NoDup (Reg.component_id <$> Reg.builtin_types).

Lemma emplace_registered {T : Type} {HT : Reg.Component T} r (c : T) :
  Reg.registered r (Reg.ctype_of T) ->
  exists r', Reg.emplace r Reg.SELF_ENTITY c = Ok r' /\ Reg.step r r' /\ r'.(Reg.policy_) = r.(Reg.policy_) /\
    Reg.get T r' Reg.SELF_ENTITY = Ok c /\
    forall (U : Type) (HU : Reg.Component U) (u : U), Reg.ctype_of U <> Reg.ctype_of T ->
      Reg.get U r Reg.SELF_ENTITY = Ok u -> Reg.get U r' Reg.SELF_ENTITY = Ok u.
Proof.
  intros (s & E & Ht).
  assert (exists r', Reg.emplace r Reg.SELF_ENTITY c = Ok r' /\
    r' = Reg.mk_reg (<[Reg.component_id (Reg.ctype_of T) := Reg.mk_store s.(Reg.s_tag) s.(Reg.s_origin) (Some (Reg.inj c))]>
           r.(Reg.stores_)) r.(Reg.policy_) r.(Reg.locked_) r.(Reg.sink_)) as (r' & Ee & Er).
  { unfold Reg.emplace. cbn [negb Z.eqb Reg.SELF_ENTITY Pos.eqb]. rewrite E. rewrite (decide_True _ _ Ht). by eexists. }
  exists r'. split; [done|]. split; [exact (Reg.step_emplace r T HT c _ Ee)|]. rewrite Er. split; [done|]. split.
  - unfold Reg.get. cbn [negb Z.eqb Reg.SELF_ENTITY Pos.eqb Reg.stores_]. rewrite lookup_insert_eq.
    cbn [Reg.s_tag Reg.s_value]. rewrite (decide_True _ _ Ht), Reg.prj_inj. done.
  - intros U HU u Hne GU. destruct (@Reg.get_ok_store _ U HU r u GU) as (s' & w' & E' & Ht' & _).
    revert GU. unfold Reg.get. cbn [negb Z.eqb Reg.SELF_ENTITY Pos.eqb Reg.stores_].
    rewrite lookup_insert_ne; [done|]. intros C. rewrite C in E. congruence.
Qed.

(** Emplace the next default on a registry that has all built-in types. *)
Ltac emplace_next A :=
  match goal with
  | |- context [@Reg.emplace ?TC ?T ?HT ?r Reg.SELF_ENTITY ?v] =>
      let r' := fresh "r" in let E := fresh "Ee" in let S := fresh "S" in let P := fresh "P" in
      let G := fresh "G" in let F := fresh "F" in let A' := fresh "A" in
      destruct (@emplace_registered T HT r v) as (r' & E & S & P & G & F); [apply A; cbn; set_solver|];
      assert (forall ty, ty ∈ Reg.builtin_types -> Reg.registered r' ty) as A'
        by (intros ty Hty; exact (Reg.step_registered _ _ _ S (A ty Hty)));
      rewrite E; cbn [obind]; clear E A; rename A' into A
  end.
Ltac chase :=
  repeat first [assumption | match goal with
    F : (forall U HU u, _ -> Reg.get U ?r _ = Ok u -> Reg.get U ?r' _ = Ok u) |- Reg.get _ ?r' _ = Ok _ =>
      apply F; [discriminate|] end].

Lemma emplace_defaults_ok id r :
  Reg.wf r -> (forall ty, ty ∈ Reg.builtin_types -> Reg.registered r ty) ->
  exists r', emplace_defaults id r = Ok r' /\ complete r' /\ rtc Reg.step r r' /\
    Reg.get IdentityComponent r' Reg.SELF_ENTITY = Ok (mk_identity id) /\
    Reg.get HealthComponent r' Reg.SELF_ENTITY = Ok default_health /\
    Reg.get PositionComponent r' Reg.SELF_ENTITY = Ok default_pos /\
    Reg.get PermissionMaskComponent r' Reg.SELF_ENTITY = Ok default_mask /\
    Reg.get ActionQueueComponent r' Reg.SELF_ENTITY = Ok default_aq /\
    Reg.get CommBufferComponent r' Reg.SELF_ENTITY = Ok default_cb.
Proof.
  intros W A. unfold emplace_defaults. do 9 emplace_next A.
  destruct (emplace_registered r8 default_cb) as (r9 & Ee & S8 & P8 & G8 & F8); [apply A; cbn; set_solver|].
  rewrite Ee. exists r9.
  assert (rtc Reg.step r r9) as R by (do 10 (eapply rtc_l; [eassumption|]); apply rtc_refl).
  assert (Reg.wf r9) as W9 by (clear -W R; induction R; eauto using Reg.step_wf).
  assert (Reg.get IdentityComponent r9 Reg.SELF_ENTITY = Ok (mk_identity id)) as Y1 by chase.
  assert (Reg.get PositionComponent r9 Reg.SELF_ENTITY = Ok default_pos) as Y2 by chase.
  assert (Reg.get VelocityComponent r9 Reg.SELF_ENTITY = Ok default_vel) as Y3 by chase.
  assert (Reg.get OrientationComponent r9 Reg.SELF_ENTITY = Ok default_orient) as Y4 by chase.
  assert (Reg.get HealthComponent r9 Reg.SELF_ENTITY = Ok default_health) as Y5 by chase.
  assert (Reg.get RoleComponent r9 Reg.SELF_ENTITY = Ok default_role) as Y6 by chase.
  assert (Reg.get BehaviourStateComponent r9 Reg.SELF_ENTITY = Ok default_state) as Y7 by chase.
  assert (Reg.get PermissionMaskComponent r9 Reg.SELF_ENTITY = Ok default_mask) as Y8 by chase.
  assert (Reg.get ActionQueueComponent r9 Reg.SELF_ENTITY = Ok default_aq) as Y9 by chase.
  split_and!; try done. constructor; [done| |].
  - intros T HT Hty. unfold Reg.builtin_types in Hty.
    repeat (apply elem_of_cons in Hty as [Hty|Hty];
      [match goal with Y : Reg.get _ r9 _ = Ok _ |- _ => exact (get_same_type r9 _ Y W9 Hty) end|]).
    by apply not_elem_of_nil in Hty.
  - intros aq Ha. rewrite Y9 in Ha. injection Ha as <-. constructor.
    + apply BQ.empty_wf. unfold AQ_CAPACITY. lia.
    + reflexivity.
    + cbn. unfold AQ_CAPACITY. lia.
    + unfold MI.is_u32. cbn. lia.
Qed.
End Init.

(** ** Whole runs *)

Section Life.
Context {H E U : Type} `{!Platform} {TC : Reg.Toolchain} `{!Auth.Crypto} `{!Net.Transports H E} `{!Disc.Reliable H E}.
Implicit Types w : core H E U.
Variable user_handler : nat -> Message -> core H E U -> outcome (core H E U * bool).
Variable user_describe : nat -> Sched.SystemDescriptor.
Variable user_tick : nat -> Sched.SwarmContext -> Z -> core H E U -> outcome (core H E U).

(** What is asked of the application, at every configuration and context. *)
Definition user_code_sound : Prop := forall cc,
  user_handlers_sound cc user_handler /\ user_ticks_sound cc user_tick.
Hypothesis user_ok : user_code_sound.

#[local] Hint Extern 0 (Sched.SystemOps _ _) =>
  exact (system_ops user_handler user_describe user_tick) : typeclass_instances.

Record sched_ready (sch : @Sched.scheduler system) : Prop := {
  sr_wf : Sched.sched_wf sch;
  sr_built : sch.(Sched.built_) = true;
}.

Lemma timings_after_names systems clk tid order tms :
  Sched.tm_name <$> Sched.timings_after (S := system) systems clk tid order tms = Sched.tm_name <$> tms.
Proof.
  unfold Sched.timings_after. revert tms. induction order as [|i order IH]; intros tms; [done|]. cbn [foldl].
  rewrite IH. unfold Sched.set_timing. apply list_eq. intros j. rewrite !list_lookup_fmap.
  destruct (decide (i = j)) as [<-|Hn]; [rewrite list_lookup_alter_eq|by rewrite list_lookup_alter_ne].
  by destruct (tms !! i).
Qed.

Lemma sched_tick_ok cc clk tid sch ctx dt w :
  sched_ready sch -> sound cc w ->
  exists sch' w' ev, Sched.tick_sequential clk tid sch ctx dt w = Ok (sch', w', ev) /\
    sound cc w' /\ sched_ready sch' /\ sch'.(Sched.systems_) = sch.(Sched.systems_).
Proof.
  intros [[Hn Ho Hg Hp Ht] Hb] S. unfold Sched.tick_sequential. rewrite Hb. cbn [negb].
  rewrite Sched.dispatch_loop_spec by (rewrite (Ho Hb); intros i; apply Sched.order_lt).
  destruct (user_ok cc) as [Uh Ut].
  destruct (tick_all_ok cc user_handler user_describe user_tick Uh Ut
    (omap (fun i => sch.(Sched.systems_) !! i) sch.(Sched.order_)) ctx dt w S) as (w' & Ew & S').
  rewrite Ew. cbn [obind]. do 3 eexists. split; [done|]. split; [done|]. split; [|done].
  constructor; [|done]. constructor; cbn [Sched.systems_ Sched.order_ Sched.built_ Sched.mode_
    Sched.dependents_ Sched.in_degree_initial_ Sched.pool_ Sched.last_timings_]; auto.
  intros _. etransitivity; [apply timings_after_names|by apply Ht].
Qed.

Lemma rotate_ok cc w : sound cc w -> exists w', rotate_identity w = Ok w' /\ sound cc w'.
Proof.
  intros S. pose proof (snd_registry cc w S) as C. unfold rotate_identity. rewrite (snd_init cc w S). cbn [negb].
  read_component C. rewrite (surjective_pairing (fresh_hid w)).
  set (w1 := if auth_enabled then _ else _).
  assert (Disc.frame w w1) as F1.
  { unfold w1, issue_certificate. destruct auth_enabled; [|done]. cbn. by destruct (current_keypair_ w). }
  assert (complete w1.(registry_)) as C1 by (destruct F1 as (-> & _); exact C).
  assert (Disc.env_ok w1.(env_)) as E1.
  { unfold w1, issue_certificate. pose proof (snd_env cc w S) as Es. destruct auth_enabled; [|done]. cbn.
    by destruct (current_keypair_ w). }
  write_component C1. eexists. split; [done|].
  apply (sound_registry cc w1 _ r); [exact (sound_frame cc w w1 F1 E1 S)|done|done|exact E1].
Qed.

(** The end of a world's tick: the scheduler's event, and the rotation. *)
Lemma end_of_tick_ok cc ev w : sound cc w -> exists w', rotate_periodic (emit ev w) = Ok w' /\ sound cc w'.
Proof.
  intros S. assert (sound cc (emit ev w)) as S1 by (apply (sound_frame _ w); [done|exact (snd_env _ _ S)|done]).
  unfold rotate_periodic. destruct (_ && _ && _); [by apply rotate_ok|by eexists].
Qed.

(** The context of the next tick. *)
Definition next_context (cc : WorldConfig * Sched.SwarmContext) : WorldConfig * Sched.SwarmContext :=
  let dt := F32.div F32.one cc.1.(tick_rate_hz) in
  (cc.1, Sched.mk_ctx cc.2.(Sched.ctx_swarm_id) (F32.add cc.2.(Sched.elapsed_time_s) dt) dt
           (MI.u64 (cc.2.(Sched.tick_count) + 1))).

Record world_ok (cc : WorldConfig * Sched.SwarmContext) (wd : @world H E U) : Prop := {
  wo_core : sound cc wd.(core_);
  wo_sched : sched_ready wd.(scheduler_);
}.

(** The state from which the systems are ticked. *)
Lemma start_of_tick_ok cc w : sound cc w -> sound (next_context cc) (decay_window (advance_context w)).
Proof.
  intros S. assert (sound (next_context cc) (advance_context w)) as S0.
  { destruct S as [Si Sr Sn Sj Sh Sc Se]. constructor; try done. unfold next_context. rewrite <- Sc. done. }
  unfold decay_window. destruct (F32.gtb _ _); [|done].
  apply (sound_frame _ (advance_context w)); [done|exact (snd_env _ _ S)|done].
Qed.

Lemma tick_ok cc clk tid wd :
  world_ok cc wd ->
  exists wd', tick user_handler user_describe user_tick clk tid wd = Ok wd' /\ world_ok (next_context cc) wd' /\
    wd'.(scheduler_).(Sched.systems_) = wd.(scheduler_).(Sched.systems_).
Proof.
  intros [S R]. unfold tick. rewrite (snd_init _ _ S). cbn [negb].
  set (w1 := decay_window _). pose proof (start_of_tick_ok cc _ S) as S1. fold w1 in S1.
  destruct (sched_tick_ok _ clk tid wd.(scheduler_) (context_ w1) (Sched.delta_time_s (context_ w1)) w1 R S1)
    as (sch' & w2 & ev & -> & S2 & R2 & Es). cbn [obind].
  destruct (end_of_tick_ok _ ev w2 S2) as (w3 & -> & S3). cbn [obind]. by eexists.
Qed.

Lemma run_loop_ok k : forall cc wd fuel clk tid stop j,
  world_ok cc wd -> (forall i, (i < k)%nat -> stop (j + i)%nat = false) -> stop (j + k)%nat = true -> (k < fuel)%nat ->
  exists wd', run_loop user_handler user_describe user_tick fuel clk tid stop j wd = Some (Ok wd') /\
    world_ok (Nat.iter k next_context cc) wd' /\
    wd'.(scheduler_).(Sched.systems_) = wd.(scheduler_).(Sched.systems_).
Proof.
  induction k as [|k IH]; intros cc wd fuel clk tid stop j W Hf Ht Hk; (destruct fuel as [|fuel]; [lia|]); cbn [run_loop].
  - rewrite Nat.add_0_r in Ht. rewrite Ht. by eexists.
  - specialize (Hf 0%nat) as Hz. rewrite Nat.add_0_r in Hz. rewrite Hz by lia.
    destruct (tick_ok cc (clk j) tid wd W) as (wd1 & -> & W1 & E1).
    destruct (IH (next_context cc) wd1 fuel clk tid stop (S j) W1) as (wd' & -> & W' & E').
    + intros i Hi. replace (S j + i)%nat with (j + S i)%nat by lia. apply Hf. lia.
    + by replace (S j + k)%nat with (j + S k)%nat by lia.
    + lia.
    + exists wd'. split; [done|]. rewrite Nat.iter_succ_r. split; [done|congruence].
Qed.

Lemma iter_context k cc :
  MI.is_u64 cc.2.(Sched.tick_count) ->
  (Nat.iter k next_context cc).1 = cc.1 /\
  (Nat.iter k next_context cc).2.(Sched.tick_count) = MI.u64 (cc.2.(Sched.tick_count) + Z.of_nat k) /\
  (Nat.iter k next_context cc).2.(Sched.elapsed_time_s) =
    Nat.iter k (fun t => F32.add t (F32.div F32.one cc.1.(tick_rate_hz))) cc.2.(Sched.elapsed_time_s).
Proof.
  intros Hc. induction k as [|k (I1 & I2 & I3)]; [cbn; by rewrite Z.add_0_r, MI.u64_id|].
  cbn [Nat.iter nat_rect]. change (nat_rect _ cc (fun _ => next_context) k) with (Nat.iter k next_context cc).
  unfold next_context at 1 3 5. cbn [fst snd Sched.tick_count Sched.elapsed_time_s]. rewrite I1, I2, I3.
  split_and!; [done| |done]. rewrite NT.u64_add_l. f_equal. lia.
Qed.
End Life.

(** ** From construction to the first tick *)

Section Setup.
Context {H E U : Type} `{!Platform} {TC : Reg.Toolchain} `{!Auth.Crypto} `{!Net.Transports H E} `{!Disc.Reliable H E}.
Implicit Types w : core H E U.
Variable user_handler : nat -> Message -> core H E U -> outcome (core H E U * bool).
Variable user_describe : nat -> Sched.SystemDescriptor.
Variable user_tick : nat -> Sched.SwarmContext -> Z -> core H E U -> outcome (core H E U).
#[local] Hint Extern 0 (Sched.SystemOps _ _) =>
  exact (system_ops user_handler user_describe user_tick) : typeclass_instances.

(** A world that has not been initialised yet. *)
Record fresh (cc : WorldConfig * Sched.SwarmContext) (wd : @world H E U) : Prop := {
  fr_init : wd.(core_).(initialized_) = false;
  fr_wf : Reg.wf wd.(core_).(registry_);
  fr_absent : forall ty, ty ∈ Reg.builtin_types -> wd.(core_).(registry_).(Reg.stores_) !! Reg.component_id ty = None;
  fr_unlocked : wd.(core_).(registry_).(Reg.locked_) = false;
  fr_table : NT.wf f2i_oob wd.(core_).(neighbour_table_);
  fr_rejected : MI.is_u64 (Bcn.bcn wd.(core_)).(rejected_beacons_);
  fr_handlers : Some HDangling ∉ wd.(core_).(message_handlers_);
  fr_context : (wd.(core_).(config_), wd.(core_).(context_)) = cc;
  fr_sched : Sched.sched_wf wd.(scheduler_);
  fr_pool : 0 <= wd.(scheduler_).(Sched.thread_pool_size_);
  fr_policy : wd.(core_).(registry_).(Reg.policy_) = cc.1.(registration_policy);
  fr_env : Disc.env_ok wd.(core_).(env_);
}.

Lemma register_fold tys : forall w,
  Reg.wf w.(registry_) -> w.(registry_).(Reg.locked_) = false -> NoDup (Reg.component_id <$> tys) ->
  (forall ty, ty ∈ tys -> w.(registry_).(Reg.stores_) !! Reg.component_id ty = None) ->
  exists reg tr,
    fold_left (fun w ty => let '(reg, _, ev) := Reg.register_impl w.(registry_) ty Reg.Built_In in
                           emit ev (with_registry reg w)) tys w = with_trace tr (with_registry reg w) /\
    Reg.wf reg /\ reg.(Reg.locked_) = false /\ reg.(Reg.policy_) = w.(registry_).(Reg.policy_) /\
    (forall ty, ty ∈ tys -> Reg.registered reg ty) /\
    (forall ty, Reg.registered w.(registry_) ty -> Reg.registered reg ty).
Proof.
  induction tys as [|ty tys IH]; intros w W L N A.
  { exists w.(registry_), w.(trace_). split; [by destruct w|]. split_and!; try done. intros ty Hty. by apply not_elem_of_nil in Hty. }
  cbn [fold_left]. cbn [fmap list_fmap] in N. apply NoDup_cons in N as [N1 N2].
  assert (exists ev, Reg.register_impl w.(registry_) ty Reg.Built_In =
    (Reg.mk_reg (<[Reg.component_id ty := Reg.mk_store ty Reg.Built_In None]> w.(registry_).(Reg.stores_))
       w.(registry_).(Reg.policy_) w.(registry_).(Reg.locked_) w.(registry_).(Reg.sink_), Reg.RegOk, ev)) as [ev Er].
  { unfold Reg.register_impl. rewrite L. cbn [andb]. rewrite (bool_decide_eq_false_2 (Reg.Built_In = Reg.User)) by done.
    cbn [andb]. rewrite A by (by left). by eexists. }
  set (reg1 := Reg.mk_reg _ _ _ _) in Er. rewrite Er. set (w1 := emit ev (with_registry reg1 w)).
  pose proof (Reg.step_register _ _ _ _ _ _ Er) as S.
  destruct (IH w1) as (reg & tr & -> & Wr & Lr & Pr & Rr & Kr); [exact (Reg.step_wf _ _ S W)|exact L|done| |].
  { intros ty' Hty'. cbn. rewrite lookup_insert_ne; [by apply A; right|]. intros He. apply N1. rewrite He.
    by apply list_elem_of_fmap_2. }
  exists reg, tr. split; [done|]. split_and!; [done|done|exact Pr| |].
  - intros ty' [->|Hty']%elem_of_cons; [|by apply Rr]. apply Kr. exists (Reg.mk_store ty Reg.Built_In None).
    cbn. by rewrite lookup_insert_eq.
  - intros ty' Hty'. apply Kr. exact (Reg.step_registered _ _ _ S Hty').
Qed.

Lemma init_ok cc wd :
  distinct_ids -> fresh cc wd ->
  let id := (fresh_hid wd.(core_)).1 in
  exists wd', init user_handler user_describe user_tick wd = Ok wd' /\
    world_ok user_handler user_describe user_tick cc wd' /\
    identity wd'.(core_) = Ok id /\
    wd'.(core_).(registry_).(Reg.locked_) = true /\
    wd'.(core_).(registry_).(Reg.policy_) = wd.(core_).(registry_).(Reg.policy_) /\
    Reg.get HealthComponent wd'.(core_).(registry_) Reg.SELF_ENTITY = Ok default_health /\
    Reg.get PositionComponent wd'.(core_).(registry_) Reg.SELF_ENTITY = Ok default_pos /\
    Reg.get PermissionMaskComponent wd'.(core_).(registry_) Reg.SELF_ENTITY = Ok default_mask /\
    Reg.get ActionQueueComponent wd'.(core_).(registry_) Reg.SELF_ENTITY = Ok default_aq /\
    Reg.get CommBufferComponent wd'.(core_).(registry_) Reg.SELF_ENTITY = Ok default_cb /\
    (if auth_enabled then ready wd'.(core_) id wd.(core_).(draws_) else True) /\
    wd'.(scheduler_).(Sched.systems_) = wd.(scheduler_).(Sched.systems_).
Proof.
  intros D [Fi Fw Fa Fu Ft Fr Fh Fc Fs Fp Fq Fe] id. unfold init. rewrite Fi. unfold register_builtins.
  destruct (register_fold Reg.builtin_types wd.(core_) Fw Fu D Fa) as (reg & tr & -> & Wr & Lr & Pr & Rr & _).
  set (w1 := with_trace tr _). rewrite (surjective_pairing (fresh_hid w1)).
  change (fresh_hid w1).1 with id.
  destruct (emplace_defaults_ok id reg Wr Rr) as (reg' & Ed & C & Hr & Gi & Gh & Gp & Gm & Ga & Gc).
  change (registry_ (fresh_hid w1).2) with reg. rewrite Ed. cbn [obind].
  destruct (Reg.rtc_policy _ _ Hr) as [Pp _].
  assert (complete (Reg.lock reg')) as C' by (destruct C; by constructor).
  set (w3 := if auth_enabled then _ else _).
  assert (w3.(registry_) = Reg.lock reg' /\ w3.(neighbour_table_) = wd.(core_).(neighbour_table_) /\
          (Bcn.bcn w3).(rejected_beacons_) = (Bcn.bcn wd.(core_)).(rejected_beacons_) /\
          w3.(message_handlers_) = wd.(core_).(message_handlers_) /\ w3.(env_) = wd.(core_).(env_) /\ (w3.(config_), w3.(context_)) = cc /\
          (auth_enabled = true -> w3.(current_keypair_) = Some (Auth.generate_identity_keypair wd.(core_).(draws_))))
    as (R3 & N3 & B3 & H3' & V3 & C3 & K3) by (unfold w3; by destruct auth_enabled).
  destruct (Sched.build_graph_built hardware_concurrency wd.(scheduler_)) as (Hb & _ & Hs).
  eexists. split; [done|]. split.
  { constructor; [|constructor; [by apply Sched.build_wf|exact Hb]]. constructor; cbn [core_]; try done.
    - change (complete w3.(registry_)). by rewrite R3.
    - change (NT.wf f2i_oob w3.(neighbour_table_)). by rewrite N3.
    - change (MI.is_u64 (Bcn.bcn w3).(rejected_beacons_)). by rewrite B3.
    - change (Some HDangling ∉ w3.(message_handlers_)). by rewrite H3'.
    - change (Disc.env_ok w3.(env_)). by rewrite V3. }
  cbn [core_ scheduler_]. unfold identity. change (registry_ (with_initialized true w3)) with (registry_ w3). rewrite R3.
  pose proof (Reg.step_lock reg') as Sl.
  assert (forall (T : Type) (HT : Reg.Component T), Reg.get T (Reg.lock reg') Reg.SELF_ENTITY = Reg.get T reg' Reg.SELF_ENTITY)
    as L by done.
  rewrite !L, Gi. split_and!; try done.
  - cbn [Reg.lock Reg.policy_]. by rewrite Pp.
  - destruct auth_enabled eqn:Ea; [|done]. constructor; [done| |intros _; by apply K3].
    change (registry_ (with_initialized true w3)) with (registry_ w3). by rewrite R3, L.
  - exact (proj1 Hs).
Qed.

(** *** Calls before [init] *)

Inductive call :=
| RegisterSystem (c : construction)
| RegisterComponent (n : nat)
| SetSink (sink : option (list Tr.TraceEvent)).

Definition exec_call (c : call) (wd : @world H E U) : outcome (@world H E U) :=
  match c with
  | RegisterSystem c => let! (wd, _) := register_system user_handler user_describe user_tick (Some c) wd in Ok wd
  | RegisterComponent n => Ok (register_component (Reg.TUser n) wd).1
  | SetSink sink => Ok (set_trace_sink sink wd)
  end.

Fixpoint exec_calls (cs : list call) (wd : @world H E U) : outcome (@world H E U) :=
  match cs with
  | [] => Ok wd
  | c :: cs => let! wd := exec_call c wd in exec_calls cs wd
  end.

(** The systems registered by a list of calls, with their names. *)
Definition constructed (cs : list call) : list system :=
  omap (fun c => match c with RegisterSystem c => Some (handle c) | _ => None end) cs.
Definition system_name (s : system) : list Z := Sched.d_name (describe_system user_describe s).

(** Distinct names, and application types whose identifiers are no built-in's. *)
Record good_calls (cs : list call) : Prop := {
  gc_names : NoDup (system_name <$> constructed cs);
  gc_types : forall n, RegisterComponent n ∈ cs ->
    Reg.component_id (Reg.TUser n) ∉ Reg.component_id <$> Reg.builtin_types;
}.

Lemma construct_fresh cc c wd sch :
  fresh cc wd -> Sched.sched_wf sch -> 0 <= sch.(Sched.thread_pool_size_) ->
  fresh cc (mk_world (construct c wd.(core_)) sch).
Proof.
  intros [Fi Fw Fa Fu Ft Fr Fh Fc Fs Fp Fq Fe] Ws Wp.
  destruct c; constructor; try done.
  cbn. intros [Hi|Hi%list_elem_of_singleton]%elem_of_app; done.
Qed.

Lemma register_component_fresh cc n wd :
  fresh cc wd -> Reg.component_id (Reg.TUser n) ∉ Reg.component_id <$> Reg.builtin_types ->
  fresh cc (register_component (Reg.TUser n) wd).1 /\
  (register_component (Reg.TUser n) wd).1.(scheduler_) = wd.(scheduler_).
Proof.
  intros F Hn. unfold register_component.
  destruct (Reg.register_impl (registry_ (core_ wd)) (Reg.TUser n) Reg.User) as [[reg st] ev] eqn:Er. split; [|done].
  pose proof (Reg.step_register _ _ _ _ _ _ Er) as S. destruct F as [Fi Fw Fa Fu Ft Fr Fh Fc Fs Fp Fq Fe].
  destruct (Reg.register_cases wd.(core_).(registry_) (Reg.TUser n) Reg.User) as [(st' & E' & _)|(Hz & _ & _ & E')];
    rewrite Er in E'; injection E' as -> _ _; [by constructor|]. constructor; try done; [exact (Reg.step_wf _ _ S Fw)|].
  intros ty Hty. cbn. rewrite lookup_insert_ne; [by apply Fa|]. intros He. apply Hn. rewrite He.
  by apply list_elem_of_fmap_2.
Qed.

Lemma register_system_fresh cc c wd :
  fresh cc wd -> system_name (handle c) ∉ system_name <$> wd.(scheduler_).(Sched.systems_) ->
  exists wd', register_system user_handler user_describe user_tick (Some c) wd = Ok (wd', Sched.StOk) /\ fresh cc wd' /\
    wd'.(scheduler_).(Sched.systems_) = wd.(scheduler_).(Sched.systems_) ++ [handle c].
Proof.
  intros F Hn. unfold register_system. cbn [fmap option_fmap option_map].
  destruct (Sched.register_system wd.(scheduler_) (Some (handle c))) as [[sch st]|m|m] eqn:Er.
  2,3: unfold Sched.register_system in Er; by destruct (existsb _ _).
  pose proof (Sched.register_wf _ _ _ _ (fr_sched cc wd F) Er) as Ws. revert Er. unfold Sched.register_system.
  destruct (existsb _ _) eqn:Ex.
  { apply existsb_exists in Ex as (s & Hs%list_elem_of_In & Hq%bool_decide_eq_true). destruct Hn.
    apply list_elem_of_fmap. by exists s. }
  intros [= <- <-]. cbn [obind]. eexists. split; [done|]. split; [|done].
  apply construct_fresh; [done|done|]. apply (fr_pool cc wd F).
Qed.

Lemma exec_calls_fresh cc cs : forall wd,
  fresh cc wd -> NoDup (system_name <$> wd.(scheduler_).(Sched.systems_) ++ constructed cs) ->
  (forall n, RegisterComponent n ∈ cs -> Reg.component_id (Reg.TUser n) ∉ Reg.component_id <$> Reg.builtin_types) ->
  exists wd', exec_calls cs wd = Ok wd' /\ fresh cc wd' /\
    wd'.(scheduler_).(Sched.systems_) = wd.(scheduler_).(Sched.systems_) ++ constructed cs.
Proof.
  induction cs as [|c cs IH]; intros wd F N T.
  { exists wd. by rewrite app_nil_r. }
  assert (exists wd1, exec_call c wd = Ok wd1 /\ fresh cc wd1 /\
    wd1.(scheduler_).(Sched.systems_) ++ constructed cs = wd.(scheduler_).(Sched.systems_) ++ constructed (c :: cs))
    as (wd1 & E1 & F1 & S1).
  { destruct c as [c|n|sink]; cbn [exec_call].
    - destruct (register_system_fresh cc c wd F) as (wd1 & -> & F1 & S1).
      + cbn [constructed omap list_omap] in N. rewrite fmap_app in N. apply NoDup_app in N as (_ & N & _).
        intros Hi. apply (N _ Hi). cbn. by left.
      + exists wd1. split; [done|]. split; [done|]. rewrite S1, <- app_assoc. done.
    - destruct (register_component_fresh cc n wd F) as [F1 S1]; [apply T; by left|]. eexists. split; [done|].
      split; [done|]. by rewrite S1.
    - eexists. split; [done|]. split; [|done]. destruct F as [Fi Fw Fa Fu Ft Fr Fh Fc Fs Fp Fq Fe]. constructor; try done.
      destruct Fs. by constructor. }
  cbn [exec_calls]. rewrite E1. cbn [obind]. destruct (IH wd1 F1) as (wd' & -> & F' & S').
  - by rewrite S1.
  - intros n Hn. apply T. by right.
  - exists wd'. split; [done|]. split; [done|]. by rewrite S', S1.
Qed.

Lemma new_fresh config t b m (env : E) (user : U) entropy draws :
  0 <= config.(thread_pool_size) -> Disc.env_ok env ->
  fresh (config, Sched.mk_ctx config.(cfg_swarm_id) 0 0 0)
    (mk_world (new_core config t b m env user entropy draws)
       (Sched.new_scheduler config.(scheduler_mode) config.(thread_pool_size))).
Proof.
  intros Hp He. constructor; try done.
  - apply NT.empty_table_wf.
  - cbn. by apply not_elem_of_nil.
  - constructor; try done. constructor.
Qed.
End Setup.

(** Initialisation, from construction through any calls that register
    differently named systems and application component types (whose identifiers
    are no built-in's): [init] succeeds; the self entity then carries a fresh
    version-4 identity of the configured swarm and the defaults, the registry is
    locked, the scheduler has exactly the registered systems; a second [init]
    aborts; under [LockAfterInit] every further component registration is refused
    and changes nothing; and once one more system is accepted, the next tick
    aborts. *)
Theorem init_establishes {H E U} `{!Platform} {TC : Reg.Toolchain} `{!Auth.Crypto} `{!Net.Transports H E}
    `{!Disc.Reliable H E} user_handler user_describe user_tick config (t b m : option H) (env : E) (user : U)
    entropy draws cs wd0 :
  distinct_ids -> 0 <= config.(thread_pool_size) -> Disc.env_ok env -> MI.is_u16 config.(cfg_swarm_id) ->
  wd0 ∈ [new_world config env user entropy draws; new_world_unified config t env user entropy draws;
         new_world_split config b m env user entropy draws] ->
  good_calls user_describe cs ->
  exists wd wd' id, exec_calls user_handler user_describe user_tick cs wd0 = Ok wd /\
    init user_handler user_describe user_tick wd = Ok wd' /\
    identity wd'.(core_) = Ok id /\ Id.wf_hid id /\ id.(Id.swarm_id) = config.(cfg_swarm_id) /\
    Id.version id.(Id.unit_id) = 4 /\ is_broadcast id = false /\
    (forall (T : Type) (HT : Reg.Component T), Reg.ctype_of T ∈ Reg.builtin_types ->
       exists c : T, Reg.get T wd'.(core_).(registry_) Reg.SELF_ENTITY = Ok c) /\
    Reg.get HealthComponent wd'.(core_).(registry_) Reg.SELF_ENTITY = Ok default_health /\
    Reg.get PositionComponent wd'.(core_).(registry_) Reg.SELF_ENTITY = Ok default_pos /\
    Reg.get PermissionMaskComponent wd'.(core_).(registry_) Reg.SELF_ENTITY = Ok default_mask /\
    wd'.(core_).(registry_).(Reg.locked_) = true /\
    wd'.(scheduler_).(Sched.systems_) = constructed cs /\
    (exists msg, init user_handler user_describe user_tick wd' = Aborted msg) /\
    (config.(registration_policy) = Reg.LockAfterInit -> forall ty,
       (register_component ty wd').2 = Reg.PolicyLocked /\
       (register_component ty wd').1.(core_).(registry_) = wd'.(core_).(registry_)) /\
    (forall c, system_name user_describe (handle c) ∉ system_name user_describe <$> constructed cs ->
       exists wd2, register_system user_handler user_describe user_tick (Some c) wd' = Ok (wd2, Sched.StOk) /\
       forall clk tid, exists msg, tick user_handler user_describe user_tick clk tid wd2 = Aborted msg).
Proof.
  intros D Hp He Hs Hw [Gn Gt].
  set (cc := (config, Sched.mk_ctx config.(cfg_swarm_id) 0 0 0)).
  assert (fresh user_handler user_describe user_tick cc wd0 /\ wd0.(scheduler_).(Sched.systems_) = []) as (F0 & S0).
  { repeat (apply elem_of_cons in Hw as [->|Hw]; [split; [by apply new_fresh|done]|]). by apply not_elem_of_nil in Hw. }
  destruct (exec_calls_fresh user_handler user_describe user_tick cc cs wd0 F0) as (wd & Ec & F & Sc);
    [by rewrite S0|done|]. rewrite S0 in Sc. cbn [app] in Sc.
  destruct (init_ok user_handler user_describe user_tick cc wd D F)
    as (wd' & Ei & [W R] & Gi & Lk & Pk & Gh & Gp & Gm & _ & _ & _ & Ss).
  pose proof (fr_context _ _ _ _ _ F) as Fc. pose proof (fr_policy _ _ _ _ _ F) as Fq.
  assert (config_ wd.(core_) = config) as Ec' by (by injection Fc).
  destruct (fresh_hid_spec wd.(core_)) as (I1 & I2 & I3 & I4); [by rewrite Ec'|].
  exists wd, wd', (fresh_hid wd.(core_)).1. rewrite Ec' in I2. rewrite Ss, Sc.
  split_and!; try done.
  - apply (snd_registry cc _ W).
  - eexists. unfold init. by rewrite (snd_init cc _ W).
  - intros Hq ty. unfold register_component, Reg.register_impl. rewrite Lk, Pk, Fq. cbn [fst cc].
    rewrite Hq, bool_decide_eq_true_2 by done. done.
  - intros c Hn. unfold register_system, Sched.register_system. cbn [fmap option_fmap option_map]. rewrite Ss, Sc.
    destruct (existsb _ _) eqn:Ex.
    { apply existsb_exists in Ex as (s & Hi%list_elem_of_In & Hq%bool_decide_eq_true). destruct Hn.
      apply list_elem_of_fmap. by exists s. }
    cbn [obind]. eexists. split; [done|]. intros clk tid. unfold tick. cbn [core_ scheduler_].
    assert (initialized_ (construct c (core_ wd')) = true) as -> by (destruct c; exact (snd_init cc _ W)).
    cbn [negb]. unfold Sched.tick_sequential. cbn [Sched.built_ negb obind]. by eexists.
Qed.

(** C1: the runtime does not abort.  Take any configuration with the sequential
    scheduler, and transports in an environment in which sends succeed; register any differently named systems and application component
    types, initialise, and run: whatever arrives on the transports and however long
    the run, [init] succeeds and the loop returns after exactly as many ticks as the
    stop flag reads false, without an abort, an access to a missing component or a
    call through a destroyed system.  It ends in a world whose invariant holds,
    whose tick count is the number of ticks modulo 2^64, whose clock is the sum of
    the tick periods in single precision, and whose systems are those registered.
    The application's own systems and handlers are assumed to keep the invariant. *)
Theorem runtime_never_aborts {H E U} `{!Platform} {TC : Reg.Toolchain} `{!Auth.Crypto} `{!Net.Transports H E}
    `{!Disc.Reliable H E} user_handler user_describe user_tick config (t b m : option H) (env : E) (user : U)
    entropy draws cs wd0 k fuel clk tid stop :
  distinct_ids -> 0 <= config.(thread_pool_size) -> Disc.env_ok env -> config.(scheduler_mode) = Sched.Sequential ->
  user_code_sound user_handler user_tick ->
  wd0 ∈ [new_world config env user entropy draws; new_world_unified config t env user entropy draws;
         new_world_split config b m env user entropy draws] ->
  good_calls user_describe cs ->
  (forall i, (i < k)%nat -> stop i = false) -> stop k = true -> (k < fuel)%nat ->
  exists wd1 wd2 wd3 cc, exec_calls user_handler user_describe user_tick cs wd0 = Ok wd1 /\
    init user_handler user_describe user_tick wd1 = Ok wd2 /\
    run user_handler user_describe user_tick fuel clk tid stop wd2 = Some (Ok wd3) /\
    sound cc wd3.(core_) /\
    wd3.(core_).(context_).(Sched.tick_count) = MI.u64 (Z.of_nat k) /\
    wd3.(core_).(context_).(Sched.elapsed_time_s) =
      Nat.iter k (fun t => F32.add t (F32.div F32.one config.(tick_rate_hz))) 0 /\
    wd3.(scheduler_).(Sched.systems_) = constructed cs.
Proof.
  intros D Hp He _ Hu Hw [Gn Gt] Hf Ht Hk.
  set (cc := (config, Sched.mk_ctx config.(cfg_swarm_id) 0 0 0)).
  assert (fresh user_handler user_describe user_tick cc wd0 /\ wd0.(scheduler_).(Sched.systems_) = []) as (F0 & S0).
  { repeat (apply elem_of_cons in Hw as [->|Hw]; [split; [by apply new_fresh|done]|]). by apply not_elem_of_nil in Hw. }
  destruct (exec_calls_fresh user_handler user_describe user_tick cc cs wd0 F0) as (wd & Ec & F & Sc);
    [by rewrite S0|done|]. rewrite S0 in Sc. cbn [app] in Sc.
  destruct (init_ok user_handler user_describe user_tick cc wd D F) as (wd2 & Ei & W & _ & _ & _ & _ & _ & _ & _ & _ & _ & Ss).
  destruct (run_loop_ok user_handler user_describe user_tick Hu k cc wd2 fuel clk tid stop 0 W Hf Ht Hk)
    as (wd3 & Er & [W3 _] & Es).
  destruct (iter_context k cc) as (_ & I2 & I3); [unfold MI.is_u64; cbn; lia|].
  exists wd, wd2, wd3, (Nat.iter k next_context cc). split; [done|]. split; [done|].
  pose proof (snd_context _ _ W3) as C3. split_and!.
  - unfold run. by rewrite (snd_init cc _ (wo_core _ _ _ _ _ W)).
  - done.
  - apply (f_equal snd) in C3. cbn in C3. rewrite C3, I2. done.
  - apply (f_equal snd) in C3. cbn in C3. rewrite C3, I3. done.
  - by rewrite Es, Ss, Sc.
Qed.

(** A discovery system that is refused because its name is taken leaves a handler
    behind that refers to the destroyed object; the next message that no earlier
    handler claims calls it. *)
Lemma refused_discovery_dangles {H E U} `{!Platform} {TC : Reg.Toolchain} `{!Auth.Crypto} `{!Net.Transports H E}
    `{!Disc.Reliable H E}
    user_handler user_describe user_tick (wd : @world H E U) p m :
  Disc.can_send wd.(core_) -> Disc.is_discovery m = false -> Bcn.built_in_only wd.(core_).(message_handlers_) ->
  system_name user_describe SDiscovery ∈ system_name user_describe <$> wd.(scheduler_).(Sched.systems_) ->
  exists wd', register_system user_handler user_describe user_tick (Some (CDiscovery p)) wd = Ok (wd', Sched.DuplicateName) /\
    exists why, Bcn.offer user_handler wd'.(core_).(message_handlers_) m wd'.(core_) = Undefined why.
Proof.
  intros Hc Hm Hh Hn. unfold register_system, Sched.register_system. cbn [fmap option_fmap option_map handle].
  destruct (existsb _ _) eqn:Ex.
  - cbn [obind]. eexists. split; [done|]. cbn [core_ discard register_message_handler with_message_handlers message_handlers_].
    eexists. assert (Disc.can_send (register_message_handler (Some HDangling) (core_ wd))) as Cw by exact Hc.
    revert Cw. generalize (register_message_handler (Some HDangling) (core_ wd)) as w.
    induction Hh as [|h hs [->| ->] Hh IH]; intros w Cw; [reflexivity|exact (IH w Cw)|]. cbn [app Bcn.offer].
    destruct (Disc.handle_frame w m Cw) as (w' & -> & (Fr & _) & He). rewrite Hm. cbn [obind].
    apply (IH w'). split; [rewrite Fr; apply Cw|exact He].
  - apply not_true_iff_false in Ex. destruct Ex. apply existsb_exists.
    apply list_elem_of_fmap in Hn as (s & Es & Hs). exists s. split; [by apply list_elem_of_In|].
    apply bool_decide_eq_true. exact (eq_sym Es).
Qed.

(** ** Examples *)

#[local] Existing Instance Net.wire_transports.
#[local] Existing Instance Disc.wire_reliable.

(** An application without code of its own, in signed mode. *)
Definition no_handler (n : nat) (m : Message) (w : core unit Net.wire unit) : outcome (core unit Net.wire unit * bool) :=
  Ok (w, false).
Definition no_system (n : nat) : Sched.SystemDescriptor := Sched.mk_desc [Z.of_nat n] [] [] [] [].
Definition idle (n : nat) (ctx : Sched.SwarmContext) (dt : Z) (w : core unit Net.wire unit) : outcome (core unit Net.wire unit) :=
  Ok w.

Lemma idle_sound : @user_code_sound unit Net.wire unit (sample_platform true) Reg.gcc _ _ no_handler idle.
Proof.
  intros cc. split.
  - intros n m w S. by exists w, false.
  - intros n ctx dt w S. by exists w.
Qed.

Definition sample_setup : list call :=
  [RegisterComponent 0; RegisterSystem CBeacon; RegisterSystem (CDiscovery default_dparams); SetSink (Some []);
   RegisterSystem (CFaultMonitor FM.default_params); RegisterSystem (CTaskAlloc TA.default_params);
   RegisterSystem (CFlocking Flock.default_params); RegisterSystem CKinematics;
   RegisterSystem (CClockSync CS.default_params); RegisterSystem (CPartitionMerge PM.default_params);
   RegisterSystem CValidator; RegisterSystem CMove; RegisterSystem CTransmit; RegisterSystem CHover].

Lemma sample_setup_good : @good_calls Reg.gcc no_system sample_setup.
Proof.
  constructor.
  - apply (bool_decide_unpack _). vm_compute. exact I.
  - intros n Hn. unfold sample_setup in Hn.
    assert (n = 0%nat) as -> by (repeat (apply elem_of_cons in Hn as [Hn|Hn]; [congruence|]); by apply not_elem_of_nil in Hn).
    apply (bool_decide_unpack _). vm_compute. exact I.
Qed.

Lemma init_establishes_witness :
  exists wd wd', @exec_calls unit Net.wire unit (sample_platform true) Reg.gcc Auth.toy_crypto _ no_handler no_system idle
      sample_setup (new_world_unified default_config (Some tt) Net.empty_wire tt 0 0) = Ok wd /\
    @init unit Net.wire unit (sample_platform true) Reg.gcc Auth.toy_crypto _ no_handler no_system idle wd = Ok wd' /\
    @Reg.get Reg.gcc HealthComponent _ wd'.(core_).(registry_) Reg.SELF_ENTITY = Ok default_health.
Proof.
  destruct (@init_establishes unit Net.wire unit (sample_platform true) Reg.gcc Auth.toy_crypto _ _ no_handler no_system idle
    default_config (Some tt) None None Net.empty_wire tt 0 0 sample_setup
    (new_world_unified default_config (Some tt) Net.empty_wire tt 0 0))
    as (wd & wd' & id & Ec & Ei & _ & _ & _ & _ & _ & _ & Gh & _).
  - exact Reg.gcc_builtin_ids.
  - cbn. lia.
  - exact I.
  - unfold MI.is_u16. cbn. lia.
  - right. left.
  - exact sample_setup_good.
  - exists wd, wd'. split; [exact Ec|]. split; [exact Ei|exact Gh].
Defined.

Lemma runtime_never_aborts_witness :
  exists wd1 wd2 wd3, @exec_calls unit Net.wire unit (sample_platform true) Reg.gcc Auth.toy_crypto _ no_handler no_system idle
      sample_setup (new_world_unified default_config (Some tt) Net.empty_wire tt 0 0) = Ok wd1 /\
    @init unit Net.wire unit (sample_platform true) Reg.gcc Auth.toy_crypto _ no_handler no_system idle wd1 = Ok wd2 /\
    @run unit Net.wire unit (sample_platform true) Reg.gcc Auth.toy_crypto _ no_handler no_system idle
      100 (fun _ _ => (0, 0)) 7 (fun i => (50 <=? i)%nat) wd2 = Some (Ok wd3) /\
    wd3.(core_).(context_).(Sched.tick_count) = 50.
Proof.
  destruct (@runtime_never_aborts unit Net.wire unit (sample_platform true) Reg.gcc Auth.toy_crypto _ _ no_handler no_system
    idle default_config (Some tt) None None Net.empty_wire tt 0 0 sample_setup
    (new_world_unified default_config (Some tt) Net.empty_wire tt 0 0) 50 100 (fun _ _ => (0, 0)) 7 (fun i => (50 <=? i)%nat))
    as (wd1 & wd2 & wd3 & cc & Ec & Ei & Er & _ & Ht & _).
  - exact Reg.gcc_builtin_ids.
  - cbn. lia.
  - exact I.
  - reflexivity.
  - exact idle_sound.
  - right. left.
  - exact sample_setup_good.
  - intros i Hi. apply Nat.leb_gt. exact Hi.
  - reflexivity.
  - lia.
  - exists wd1, wd2, wd3. split; [exact Ec|]. split; [exact Ei|]. split; [exact Er|exact Ht].
Defined.
End Safe.
