(* ===== verification/WorldFootprint.v ===== *)
(** What the ticks of the built-in systems read and write, and what follows for
    their order: the sets the systems declare ([describe]) against the footprints of
    their code.

    The state of a world is divided into locations.  [local reads writes f] says that
    [f] depends on the locations in [reads] only and changes those in [writes] only; it is
    proved for every system.  Ticks with disjoint footprints commute, so that the
    scheduler's hazards order everything that matters but the pairs in
    [undeclared]. *)

From S2P Require Import Prelude MachineInt Float32 Identity BoundedQueue Components Trace JsonWriter.
From S2P Require Import Scheduler NeighbourTable Registry PeerKeys Transport FaultMonitor TaskAlloc.
From S2P Require Import ClockSync PartitionMerge Flocking Actions WorldState Discovery Beacon World WorldSafety.
Local Open Scope Z_scope.

Module Foot.
Import Comp WS World Safe.

(** ** Registries *)

Section Registries.
Context `{TC : !Reg.Toolchain}.
Implicit Types (r : Reg.t) (L : list Reg.ctype).

(** The stores of the types in [L] are the same; only those may differ. *)
Definition rsame L r1 r2 : Prop :=
  forall ty, ty ∈ L -> r1.(Reg.stores_) !! Reg.component_id ty = r2.(Reg.stores_) !! Reg.component_id ty.
Definition rkept L r r' : Prop :=
  (forall id, (forall ty, ty ∈ L -> Reg.component_id ty <> id) -> r.(Reg.stores_) !! id = r'.(Reg.stores_) !! id) /\
  r.(Reg.policy_) = r'.(Reg.policy_) /\ r.(Reg.locked_) = r'.(Reg.locked_) /\ r.(Reg.sink_) = r'.(Reg.sink_).

Lemma rkept_refl L r : rkept L r r.
Proof. by split_and!. Qed.
Lemma rkept_trans L r1 r2 r3 : rkept L r1 r2 -> rkept L r2 r3 -> rkept L r1 r3.
Proof.
  intros (A & ? & ? & ?) (B & ? & ? & ?). split_and!; [|congruence..].
  intros id Hid. by rewrite (A id Hid), (B id Hid).
Qed.
Lemma rkept_mono L L' r r' : L ⊆ L' -> rkept L r r' -> rkept L' r r'.
Proof. intros HL (A & B). split; [|done]. intros id Hid. apply A. auto. Qed.

Lemma get_same {T : Type} {HT : Reg.Component T} L r1 r2 :
  rsame L r1 r2 -> Reg.ctype_of T ∈ L -> Reg.get T r1 Reg.SELF_ENTITY = Reg.get T r2 Reg.SELF_ENTITY.
Proof. intros S HL. unfold Reg.get. by rewrite (S _ HL). Qed.

(** What a computation on two such registries gives. *)
Definition rstep L L' r1 r2 r1' r2' : Prop := rsame L r1' r2' /\ rkept L' r1 r1' /\ rkept L' r2 r2'.

Lemma rstep_refl L L' r1 r2 : rsame L r1 r2 -> rstep L L' r1 r2 r1 r2.
Proof. intros S. split_and!; [done|apply rkept_refl..]. Qed.
Lemma rstep_trans L L' r1 r2 r1' r2' s1 s2 :
  rstep L L' r1 r2 r1' r2' -> rstep L L' r1' r2' s1 s2 -> rstep L L' r1 r2 s1 s2.
Proof. intros (_ & A & B) (S & A' & B'). split_and!; [done|by eapply rkept_trans..]. Qed.

Lemma set_local {T : Type} {HT : Reg.Component T} L L' r1 r2 (c : T) :
  rsame L r1 r2 -> Reg.ctype_of T ∈ L -> Reg.ctype_of T ∈ L' ->
  out_rel (rstep L L' r1 r2) (Reg.set r1 Reg.SELF_ENTITY c) (Reg.set r2 Reg.SELF_ENTITY c).
Proof.
  intros S HL HL'. unfold Reg.set. rewrite (get_same (T := T) L r1 r2 S HL).
  destruct (Reg.get T r2 Reg.SELF_ENTITY) as [c0| |]; cbn [obind]; [|done..].
  unfold Reg.emplace. cbn [negb Z.eqb Reg.SELF_ENTITY Pos.eqb]. rewrite (S _ HL).
  destruct (Reg.stores_ r2 !! _) as [s|]; [|done]. destruct (decide _); [|done].
  assert (forall r, rkept L' r (Reg.mk_reg (<[Reg.component_id (Reg.ctype_of T) :=
    Reg.mk_store (Reg.s_tag s) (Reg.s_origin s) (Some (Reg.inj c))]> r.(Reg.stores_)) r.(Reg.policy_) r.(Reg.locked_)
    r.(Reg.sink_))) as K.
  { intros r. split; [|done]. intros id Hid. cbn [Reg.stores_]. by rewrite lookup_insert_ne by auto. }
  split; [|by split]. intros ty Hty. cbn [Reg.stores_].
  destruct (decide (Reg.component_id (Reg.ctype_of T) = Reg.component_id ty)) as [<-|Hne];
    [by rewrite !lookup_insert_eq|by rewrite !lookup_insert_ne, (S _ Hty) by done].
Qed.

(** A step of the code on two registries that agree: read the same component, or
    write the same value. *)
Ltac read_same :=
  match goal with
  | S : rsame ?L ?r1 ?r2 |- out_rel _ (obind (Reg.get ?T ?r1 _) _) (obind (Reg.get ?T ?r2 _) _) =>
      rewrite (get_same (T := T) L r1 r2 S) by set_solver;
      destruct (Reg.get T r2 Reg.SELF_ENTITY); cbn [obind]; [|done..]
  end.
Ltac write_same L' :=
  match goal with
  | S : rsame ?L ?r1 ?r2 |- out_rel _ (obind (Reg.set ?r1 _ ?c) _) (obind (Reg.set ?r2 _ ?c) _) =>
      let s1 := fresh "s1" in let s2 := fresh "s2" in let St := fresh "St" in
      eapply out_rel_bind; [apply (set_local L L' r1 r2 c S); set_solver|]; intros s1 s2 St;
      pose proof (proj1 St)
  end.

(** A computation on the registry that yields another one, or a value with it. *)
Definition rlocal L L' (f : Reg.t -> outcome Reg.t) : Prop :=
  forall r1 r2, rsame L r1 r2 -> out_rel (rstep L L' r1 r2) (f r1) (f r2).
Definition rlocal2 {A : Type} L L' (f : Reg.t -> outcome (A * Reg.t)) : Prop :=
  forall r1 r2, rsame L r1 r2 -> out_rel (fun a b => a.1 = b.1 /\ rstep L L' r1 r2 a.2 b.2) (f r1) (f r2).

Lemma fault_local p s n :
  let L := [Reg.THealth; Reg.TPermissionMask; Reg.TBehaviourState] in rlocal2 L L (FM.tick p s n).
Proof.
  intros L r1 r2 S. unfold FM.tick. do 3 read_same.
  destruct (FM.tick_values _ _ _ _ _ _) as [[[s' h] m] b]. do 3 write_same L.
  split; [done|]. by repeat (eapply rstep_trans; [eassumption|]).
Qed.

Lemma alloc_local p s merging nt dt : rlocal2 [Reg.TRole] [Reg.TRole] (fun r => TA.tick p s merging nt r dt).
Proof.
  intros r1 r2 S. unfold TA.tick. read_same. destruct (TA.count_roles _ _) as [counts total].
  destruct (TA.scan _ _ _) as [[best m]|]; [|split; [done|by apply rstep_refl]].
  destruct (_ && _); [|split; [done|by apply rstep_refl]]. by write_same [Reg.TRole].
Qed.

Lemma flock_local oob p nt dt :
  rlocal [Reg.TPosition; Reg.TVelocity] [Reg.TVelocity] (fun r => Flock.tick oob p nt r dt).
Proof.
  intros r1 r2 S. unfold Flock.tick. destruct (NT.entries_ nt); [by apply rstep_refl|]. do 2 read_same.
  destruct (Flock.new_velocity _ _ _ _ _ _) as [v|]; [|by apply rstep_refl]. apply set_local; [done|set_solver..].
Qed.

Lemma kinematics_local dt :
  rlocal [Reg.TPosition; Reg.TVelocity] [Reg.TPosition] (fun r => Flock.tick_kinematics r dt).
Proof. intros r1 r2 S. unfold Flock.tick_kinematics. do 2 read_same. apply set_local; [done|set_solver..]. Qed.

Lemma validator_local sink ctx r1 r2 :
  let L := [Reg.TPermissionMask; Reg.TActionQueue] in
  rsame L r1 r2 ->
  out_rel (fun a b => a.2 = b.2 /\ rstep L [Reg.TActionQueue] r1 r2 a.1 b.1)
    (Act.tick_validator sink ctx r1) (Act.tick_validator sink ctx r2).
Proof.
  intros L S. unfold Act.tick_validator. do 2 read_same. destruct (Act.drain _ _ _ _ _) as [[aq ev]|]; [|done].
  by write_same [Reg.TActionQueue].
Qed.

Lemma move_local n : rlocal2 [Reg.TActionQueue; Reg.TVelocity] [Reg.TVelocity] (Act.tick_move n).
Proof.
  intros r1 r2 S. unfold Act.tick_move. do 2 read_same. destruct (fold_left _ _ _) as [v n'].
  by write_same [Reg.TVelocity].
Qed.

Lemma hover_local n r1 r2 : rsame [Reg.TActionQueue] r1 r2 -> Act.tick_hover n r1 = Act.tick_hover n r2.
Proof. intros S. unfold Act.tick_hover. by rewrite (get_same (T := ActionQueueComponent) _ _ _ S) by set_solver. Qed.

(** Sending and transmitting only read. *)
Section Sending.
Context {H E : Type} `{!Net.Transports H E} {Sd : Net.Sends H E}.

(** The position, for a transport whose sends read it. *)
Definition place : list Reg.ctype := if Net.sends_read_position (Sends := Sd) then [Reg.TPosition] else [].

Lemma send_message_same L (h : H) r1 r2 m (e : E) :
  rsame L r1 r2 -> place ⊆ L -> Net.send_message h r1 m e = Net.send_message h r2 m e.
Proof.
  intros S HL. apply Net.send_message_reads. intros Hp. apply (get_same (T := PositionComponent) L _ _ S), HL.
  unfold place. rewrite Hp. set_solver.
Qed.
Lemma send_beacon_same L (h : H) r1 r2 sv (e : E) :
  rsame L r1 r2 -> place ⊆ L -> Net.send_beacon h r1 sv e = Net.send_beacon h r2 sv e.
Proof.
  intros S HL. apply Net.send_beacon_reads. intros Hp. apply (get_same (T := PositionComponent) L _ _ S), HL.
  unfold place. rewrite Hp. set_solver.
Qed.

Lemma transmit_loop_same L (h : H) r1 r2 id t l n (e : E) :
  rsame L r1 r2 -> place ⊆ L -> Act.transmit_loop h r1 id t l n e = Act.transmit_loop h r2 id t l n e.
Proof.
  intros S HL. revert n e. induction l as [|a l IH]; intros n e; [done|]. cbn [Act.transmit_loop].
  destruct (negb _); [apply IH|]. rewrite (send_message_same L h r1 r2 _ e S HL).
  destruct (Net.send_message _ _ _ _) as [[e' b]| |]; cbn [obind]; [apply IH|done..].
Qed.

Lemma transmit_same (h : option H) n t r1 r2 (e : E) :
  rsame (Reg.TActionQueue :: Reg.TIdentity :: place) r1 r2 ->
  Act.tick_transmit h n t r1 e = Act.tick_transmit h n t r2 e.
Proof.
  intros S. unfold Act.tick_transmit. rewrite (get_same (T := ActionQueueComponent) _ _ _ S) by set_solver.
  rewrite (get_same (T := IdentityComponent) _ _ _ S) by set_solver.
  destruct (Reg.get ActionQueueComponent r2 Reg.SELF_ENTITY); cbn [obind]; [|done..].
  destruct h as [h|]; [|done]. destruct (negb _); [done|].
  destruct (Reg.get IdentityComponent r2 Reg.SELF_ENTITY); cbn [obind]; [|done..].
  apply (transmit_loop_same _ h r1 r2 _ _ _ _ _ S). set_solver.
Qed.
End Sending.
End Registries.

(** ** Locations *)

(** The private data of the systems, and the locations of a world; [LRest] is what
    no tick of a built-in system changes. *)
Inductive slot :=
| KBeacon | KDiscovery | KFault | KAlloc | KFlock | KClock | KMerge | KMove | KTransmit | KHover.
Inductive loc :=
| LStore (ty : Reg.ctype) | LTable | LEnv | LKeys | LTrace | LClock | LWindow | LFaults | LUser | LRest
| LSlot (k : slot).
#[global] Instance slot_eq_dec : EqDecision slot.
Proof. solve_decision. Defined.
#[global] Instance loc_eq_dec : EqDecision loc.
Proof. solve_decision. Defined.

Section Locations.
Context {H E U : Type} {TC : Reg.Toolchain}.
Implicit Types (w : core H E U) (l : loc) (R W : list loc).

(** The fields of the world outside its registry that make up [LRest]. *)
Definition rest_of w :=
  (w.(config_), w.(context_), (w.(transport_), w.(beacon_only_), w.(message_only_)), (w.(rotation_count_),
   w.(last_rotation_time_s_), w.(last_cert_)), w.(message_handlers_), w.(current_keypair_), w.(initialized_),
   (w.(entropy_), w.(draws_))).

Definition slot_same (k : slot) (s1 s2 : systems H) : Prop :=
  match k with
  | KBeacon => s1.(s_beacon) = s2.(s_beacon)
  | KDiscovery => s1.(s_discovery) = s2.(s_discovery)
  | KFault => s1.(s_fault) = s2.(s_fault)
  | KAlloc => s1.(s_alloc) = s2.(s_alloc)
  | KFlock => s1.(s_flock) = s2.(s_flock)
  | KClock => s1.(s_clock) = s2.(s_clock)
  | KMerge => s1.(s_merge) = s2.(s_merge)
  | KMove => s1.(s_move) = s2.(s_move)
  | KTransmit => s1.(s_transmit) = s2.(s_transmit)
  | KHover => s1.(s_hover) = s2.(s_hover)
  end.

(** Two worlds agree at a location.  The stores of the built-in types are locations
    of their own; the other stores belong to the rest. *)
Definition agree l w1 w2 : Prop :=
  let r1 := w1.(registry_) in
  let r2 := w2.(registry_) in
  match l with
  | LStore ty => ty ∈ Reg.builtin_types -> r1.(Reg.stores_) !! Reg.component_id ty = r2.(Reg.stores_) !! Reg.component_id ty
  | LTable => w1.(neighbour_table_) = w2.(neighbour_table_)
  | LEnv => w1.(env_) = w2.(env_)
  | LKeys => w1.(peer_keys_) = w2.(peer_keys_)
  | LTrace => w1.(trace_) = w2.(trace_)
  | LClock => w1.(clock_offset_s_) = w2.(clock_offset_s_)
  | LWindow => w1.(merge_window_remaining_s_) = w2.(merge_window_remaining_s_)
  | LFaults => w1.(fault_count_) = w2.(fault_count_)
  | LUser => w1.(user_) = w2.(user_)
  | LSlot k => slot_same k w1.(sys_) w2.(sys_)
  | LRest => rest_of w1 = rest_of w2 /\ rkept Reg.builtin_types r1 r2
  end.

Lemma rkept_sym L r r' : rkept L r r' -> rkept L r' r.
Proof. intros (A & ? & ? & ?). split_and!; [|done..]. intros id Hid. by rewrite (A id Hid). Qed.

#[global] Instance agree_equivalence l : Equivalence (agree l).
Proof.
  split.
  - intros w. destruct l as [| | | | | | | | | |[]]; done.
  - intros w1 w2. destruct l as [| | | | | | | | | |[]]; cbn; try congruence; [intros A ?; symmetry; auto|].
    intros [A B]. split; [done|by apply rkept_sym].
  - intros w1 w2 w3. destruct l as [| | | | | | | | | |[]]; cbn; try congruence; [intros A B Hb; by rewrite (A Hb), (B Hb)|].
    intros [A B] [A' B']. split; [congruence|by eapply rkept_trans].
Qed.

(** Worlds that agree everywhere are equal. *)
Lemma agree_all w1 w2 : (forall l, agree l w1 w2) -> w1 = w2.
Proof.
  intros A. destruct (A LRest) as [B (C & Ep & El & Es)].
  assert (w1.(registry_) = w2.(registry_)) as Er.
  { assert (Reg.stores_ w1.(registry_) = Reg.stores_ w2.(registry_)) as Em.
    { apply map_eq. intros id. destruct (decide (id ∈ Reg.component_id <$> Reg.builtin_types)) as [Hi|Hi].
      - apply list_elem_of_fmap_1 in Hi as (ty & -> & Hty). by apply (A (LStore ty)).
      - apply C. intros ty Hty <-. apply Hi. by apply list_elem_of_fmap_2. }
    destruct (registry_ w1), (registry_ w2). cbn in *. congruence. }
  assert (w1.(sys_) = w2.(sys_)) as Ey.
  { pose proof (fun k => A (LSlot k)) as K. cbn in K. destruct (sys_ w1), (sys_ w2). f_equal;
    [exact (K KBeacon)|exact (K KDiscovery)|exact (K KFault)|exact (K KAlloc)|exact (K KFlock)|exact (K KClock)
    |exact (K KMerge)|exact (K KMove)|exact (K KTransmit)|exact (K KHover)]. }
  clear C Ep El Es. unfold rest_of in B. destruct w1, w2. cbn in Er, Ey. injection B as ? ? ? ? ? ? ? ? ? ? ? ? ?.
  f_equal; first [assumption|exact (A LTable)|exact (A LEnv)|exact (A LKeys)|exact (A LTrace)|exact (A LClock)
    |exact (A LWindow)|exact (A LFaults)|exact (A LUser)].
Qed.

(** ** Local computations *)

Definition same R w1 w2 : Prop := forall l, l ∈ R -> agree l w1 w2.
Definition kept W w w' : Prop := forall l, l ∉ W -> agree l w w'.

(** Two runs side by side, from worlds that agree on [R]. *)
Record step2 R W w1 w2 w1' w2' : Prop := {
  s2_same : same R w1' w2';
  s2_left : kept W w1 w1';
  s2_right : kept W w2 w2';
}.
Definition local R W (f : core H E U -> outcome (core H E U)) : Prop :=
  forall w1 w2, same R w1 w2 -> out_rel (step2 R W w1 w2) (f w1) (f w2).

Lemma step2_refl R W w1 w2 : same R w1 w2 -> step2 R W w1 w2 w1 w2.
Proof. intros S. split; [done|intros l _; reflexivity..]. Qed.
Lemma step2_trans R W w1 w2 w1' w2' v1 v2 :
  step2 R W w1 w2 w1' w2' -> step2 R W w1' w2' v1 v2 -> step2 R W w1 w2 v1 v2.
Proof.
  intros [_ A B] [S A' B']. split; [done|..]; intros l Hl; etransitivity;
    [by apply A|by apply A'|by apply B|by apply B'].
Qed.

(** Computations with disjoint footprints commute. *)
Lemma local_commute R1 W1 R2 W2 f g w wf wg :
  local R1 W1 f -> local R2 W2 g -> W1 ⊆ R1 -> W2 ⊆ R2 ->
  (forall l, l ∈ W1 -> l ∉ R2) -> (forall l, l ∈ W2 -> l ∉ R1) ->
  f w = Ok wf -> g w = Ok wg -> exists v, g wf = Ok v /\ f wg = Ok v.
Proof.
  intros F G I1 I2 D1 D2 Ef Eg.
  assert (kept W1 w wf) as Kf.
  { pose proof (F w w (fun l _ => reflexivity w)) as O. rewrite Ef in O. apply O. }
  assert (kept W2 w wg) as Kg.
  { pose proof (G w w (fun l _ => reflexivity w)) as O. rewrite Eg in O. apply O. }
  assert (same R2 w wf) as Sf by (intros l Hl; apply Kf; intros Hw; by apply (D1 l Hw)).
  assert (same R1 w wg) as Sg by (intros l Hl; apply Kg; intros Hw; by apply (D2 l Hw)).
  pose proof (G w wf Sf) as OG. pose proof (F w wg Sg) as OF. rewrite Eg in OG. rewrite Ef in OF.
  destruct (g wf) as [x| |]; [|done..]. destruct (f wg) as [y| |]; [|done..].
  destruct OG as [SG _ KG], OF as [SF _ KF]. exists x. split; [done|]. f_equal. symmetry. apply agree_all. intros l.
  destruct (decide (l ∈ W1)) as [H1'|H1'].
  { assert (l ∉ W2) as H2' by (intros H2'; apply (D1 l H1'), I2, H2').
    etransitivity; [symmetry; apply (KG l H2')|apply (SF l (I1 l H1'))]. }
  destruct (decide (l ∈ W2)) as [H2'|H2'].
  { etransitivity; [symmetry; apply (SG l (I2 l H2'))|apply (KF l H1')]. }
  etransitivity; [symmetry; apply (KG l H2')|]. etransitivity; [symmetry; apply (Kf l H1')|].
  etransitivity; [apply (Kg l H2')|apply (KF l H1')].
Qed.
End Locations.

Lemma NoDup_fmap_inj {A B} (f : A -> B) l x y : NoDup (f <$> l) -> x ∈ l -> y ∈ l -> f x = f y -> x = y.
Proof.
  intros D [i Ei]%list_elem_of_lookup [j Ej]%list_elem_of_lookup He.
  assert (i = j) as ->; [|congruence].
  apply (NoDup_lookup _ i j (f x) D); rewrite list_lookup_fmap; [by rewrite Ei|by rewrite Ej, He].
Qed.

(** Decidable facts on concrete lists. *)
Ltac by_computation := apply (bool_decide_unpack _); vm_compute; exact I.

(** Close [kept] and [same] after the update of one field. *)
Ltac kept_field :=
  let l := fresh "l" in let Hl := fresh "Hl" in
  intros l Hl; destruct l as [| | | | | | | | | |[]];
  first [reflexivity | intros _; reflexivity | split; [reflexivity|apply rkept_refl] | exfalso; apply Hl; set_solver].
Ltac same_field S :=
  let l := fresh "l" in let Hl := fresh "Hl" in let A := fresh "A" in
  intros l Hl; pose proof (S l Hl) as A; destruct l as [| | | | | | | | | |[]]; first [exact A | reflexivity | cbn in A |- *; by rewrite A].
Ltac field_step S := split; [same_field S|kept_field|kept_field].
(** The fields that two worlds which agree on a list of locations share. *)
Ltac use_loc S l :=
  let E := fresh "E" in pose proof (S l ltac:(set_solver)) as E; cbn [agree slot_same] in E; rewrite ?E.

Section Systems.
Context {H E U : Type} `{!Platform} {TC : Reg.Toolchain} `{!Auth.Crypto} `{!Net.Transports H E} {Sd : Net.Sends H E}.
Implicit Types (w : core H E U) (R W : list loc) (L : list Reg.ctype).

Definition stores L : list loc := LStore <$> L.

Lemma same_stores L R w1 w2 :
  same R w1 w2 -> stores L ⊆ R -> L ⊆ Reg.builtin_types -> rsame L w1.(registry_) w2.(registry_).
Proof. intros S HL Hb ty Hty. apply (S (LStore ty)); [|by apply Hb]. apply HL. by apply list_elem_of_fmap_2. Qed.

(** A step of the registries is one of the worlds. *)
Lemma registry_step2 L L' R W w1 w2 r1 r2 :
  distinct_ids -> same R w1 w2 -> L' ⊆ L -> L ⊆ Reg.builtin_types -> stores L' ⊆ W ->
  rstep L L' w1.(registry_) w2.(registry_) r1 r2 ->
  step2 R W w1 w2 (with_registry r1 w1) (with_registry r2 w2).
Proof.
  intros D S HL Hb HW (Sr & K1 & K2).
  assert (forall ty ty', ty' ∈ L' -> ty ∈ Reg.builtin_types -> Reg.component_id ty' = Reg.component_id ty -> ty' = ty) as I.
  { intros ty ty' H1' H2' He. apply (NoDup_fmap_inj Reg.component_id Reg.builtin_types); auto. }
  assert (forall w r, rkept L' w.(registry_) r -> kept W w (with_registry r w)) as K.
  { intros w r (Kr & Kp) l Hl. destruct l as [ty| | | | | | | | | |[]]; try reflexivity.
    - intros Hty. apply Kr. intros ty' Hty' He. apply Hl, HW, list_elem_of_fmap. exists ty. split; [done|].
      by rewrite <- (I ty ty').
    - split; [reflexivity|]. apply (rkept_mono L'); [by transitivity L|by split]. }
  split; [|by apply K..]. intros l Hl. pose proof (S l Hl) as A.
  destruct l as [ty| | | | | | | | | |[]]; try exact A; cbn [agree registry_ with_registry].
  - intros Hty. destruct (decide (ty ∈ L)) as [Hin|Hn]; [by apply Sr|].
    assert (forall ty', ty' ∈ L' -> Reg.component_id ty' <> Reg.component_id ty) as Hne.
    { intros ty' Hty' He. apply Hn, HL. by rewrite <- (I ty ty'). }
    by rewrite <- (proj1 K1 _ Hne), <- (proj1 K2 _ Hne), (A Hty).
  - destruct A as [A B]. split; [exact A|]. apply (rkept_trans _ _ w1.(registry_)).
    + apply rkept_sym, (rkept_mono L'); [by transitivity L|done].
    + apply (rkept_trans _ _ w2.(registry_)); [done|]. apply (rkept_mono L'); [by transitivity L|done].
Qed.

(** ** The footprints of the built-in systems *)

(** What each system's tick may read or write, and what it may write. *)
Definition reads_of (s : system) : list loc :=
  match s with
  | SBeacon =>
      [LRest; LTable; LEnv; LKeys; LClock; LUser; LSlot KBeacon; LSlot KDiscovery] ++
      stores [Reg.TIdentity; Reg.TPosition; Reg.TVelocity; Reg.THealth; Reg.TRole; Reg.TBehaviourState; Reg.TCommBuffer]
  | SDiscovery => [LRest; LTable; LEnv; LSlot KDiscovery] ++ stores (Reg.TIdentity :: place)
  | SFaultMonitor => [LFaults; LSlot KFault] ++ stores [Reg.THealth; Reg.TPermissionMask; Reg.TBehaviourState]
  | STaskAlloc => [LTable; LWindow; LSlot KAlloc] ++ stores [Reg.TRole]
  | SFlocking => [LTable; LSlot KFlock] ++ stores [Reg.TPosition; Reg.TVelocity]
  | SKinematics => stores [Reg.TPosition; Reg.TVelocity]
  | SClockSync => [LRest; LTable; LClock; LSlot KClock]
  | SPartitionMerge => [LTable; LWindow; LSlot KMerge]
  | SValidator => [LTrace] ++ stores [Reg.TPermissionMask; Reg.TActionQueue]
  | SMove => [LSlot KMove] ++ stores [Reg.TActionQueue; Reg.TVelocity]
  | STransmit => [LRest; LEnv; LClock; LSlot KTransmit] ++ stores (Reg.TActionQueue :: Reg.TIdentity :: place)
  | SHover => [LSlot KHover] ++ stores [Reg.TActionQueue]
  | SUser _ => []
  end.
Definition writes_of (s : system) : list loc :=
  match s with
  | SBeacon => [LTable; LEnv; LKeys; LUser; LSlot KBeacon; LSlot KDiscovery] ++ stores [Reg.TCommBuffer]
  | SDiscovery => [LEnv; LSlot KDiscovery]
  | SFaultMonitor => [LSlot KFault] ++ stores [Reg.THealth; Reg.TPermissionMask; Reg.TBehaviourState]
  | STaskAlloc => [LSlot KAlloc] ++ stores [Reg.TRole]
  | SFlocking => stores [Reg.TVelocity]
  | SKinematics => stores [Reg.TPosition]
  | SClockSync => [LClock; LSlot KClock]
  | SPartitionMerge => [LWindow; LSlot KMerge]
  | SValidator => [LTrace] ++ stores [Reg.TActionQueue]
  | SMove => [LSlot KMove] ++ stores [Reg.TVelocity]
  | STransmit => [LEnv; LSlot KTransmit]
  | SHover => [LSlot KHover]
  | SUser _ => []
  end.
Definition built_in (s : system) : bool := match s with SUser _ => false | _ => true end.

(** The application's handlers touch the application's state only. *)
Definition private_handlers (user_handler : nat -> Message -> core H E U -> outcome (core H E U * bool)) : Prop :=
  forall n m, exists f g, forall w, user_handler n m w = Ok (with_user (f w.(user_)) w, g w.(user_)).

Variable user_handler : nat -> Message -> core H E U -> outcome (core H E U * bool).
Variable user_tick : nat -> Sched.SwarmContext -> Z -> core H E U -> outcome (core H E U).
Hypothesis handlers_private : private_handlers user_handler.
Hypothesis D : distinct_ids.

Abbreviation ticks s := (tick_system user_handler user_tick s).
Abbreviation tick_local s := (forall ctx dt, local (reads_of s) (writes_of s) (ticks s ctx dt)).

(** The registry's agreement on the types a system uses. *)
Ltac stores_of S L := apply (same_stores L _ _ _ S); [set_solver|cbn; set_solver].
(** The end of a tick that writes the registry, and then at most its own slot. *)
Ltac registry_end S L r1 r2 :=
  let X := fresh "X" in let S' := fresh "S'" in
  match goal with |- out_rel (step2 ?R ?W ?w1 ?w2) _ _ =>
    assert (step2 R W w1 w2 (with_registry r1 w1) (with_registry r2 w2)) as X
      by (eapply (registry_step2 L); [exact D|exact S| | | |eassumption]; [set_solver|cbn; set_solver|set_solver]);
    first [exact X | eapply step2_trans; [exact X|]; destruct X as [S' _ _]; cbn [out_rel]; field_step S']
  end.

Lemma fault_tick : tick_local SFaultMonitor.
Proof.
  intros ctx dt w1 w2 S. cbn [tick_system]. use_loc S (LSlot KFault). use_loc S LFaults.
  destruct (s_fault (sys_ w2)) as [p st]. set (L := [Reg.THealth; Reg.TPermissionMask; Reg.TBehaviourState]).
  eapply out_rel_bind; [apply fault_local; stores_of S L|].
  intros [a1 r1] [a2 r2] [Ea St]. cbn [fst snd] in *. subst a2. registry_end S L r1 r2.
Qed.

Lemma alloc_tick : tick_local STaskAlloc.
Proof.
  intros ctx dt w1 w2 S. cbn [tick_system]. use_loc S (LSlot KAlloc). use_loc S LTable. unfold is_merging. use_loc S LWindow.
  destruct (s_alloc (sys_ w2)) as [p st].
  eapply out_rel_bind; [apply alloc_local; stores_of S [Reg.TRole]|].
  intros [a1 r1] [a2 r2] [Ea St]. cbn [fst snd] in *. subst a2. registry_end S [Reg.TRole] r1 r2.
Qed.

Lemma flock_tick : tick_local SFlocking.
Proof.
  intros ctx dt w1 w2 S. cbn [tick_system]. use_loc S (LSlot KFlock). use_loc S LTable.
  eapply out_rel_bind; [apply flock_local; stores_of S [Reg.TPosition; Reg.TVelocity]|].
  intros r1 r2 St. registry_end S [Reg.TPosition; Reg.TVelocity] r1 r2.
Qed.

Lemma kinematics_tick : tick_local SKinematics.
Proof.
  intros ctx dt w1 w2 S. cbn [tick_system].
  eapply out_rel_bind; [apply kinematics_local; stores_of S [Reg.TPosition; Reg.TVelocity]|].
  intros r1 r2 St. registry_end S [Reg.TPosition; Reg.TVelocity] r1 r2.
Qed.

Lemma validator_tick : tick_local SValidator.
Proof.
  intros ctx dt w1 w2 S. cbn [tick_system]. use_loc S LTrace. set (L := [Reg.TPermissionMask; Reg.TActionQueue]).
  eapply out_rel_bind; [apply validator_local; stores_of S L|].
  intros [r1 ev] [r2 ev2] [Ea St]. cbn [fst snd] in *. subst ev2. unfold emit. registry_end S L r1 r2.
Qed.

Lemma move_tick : tick_local SMove.
Proof.
  intros ctx dt w1 w2 S. cbn [tick_system]. use_loc S (LSlot KMove).
  eapply out_rel_bind; [apply move_local; stores_of S [Reg.TActionQueue; Reg.TVelocity]|].
  intros [a1 r1] [a2 r2] [Ea St]. cbn [fst snd] in *. subst a2. registry_end S [Reg.TActionQueue; Reg.TVelocity] r1 r2.
Qed.

Lemma clock_tick : tick_local SClockSync.
Proof.
  intros ctx dt w1 w2 S. cbn [tick_system]. use_loc S (LSlot KClock). use_loc S LTable. use_loc S LClock.
  destruct (S LRest ltac:(set_solver)) as [Er _]. unfold rest_of in Er.
  assert (context_ w1 = context_ w2) as -> by congruence.
  destruct (s_clock (sys_ w2)) as [p st]. destruct (CS.tick _ _ _ _ _) as [st' off]. cbn [out_rel]. field_step S.
Qed.

Lemma merge_tick : tick_local SPartitionMerge.
Proof.
  intros ctx dt w1 w2 S. cbn [tick_system]. use_loc S (LSlot KMerge). use_loc S LTable. use_loc S LWindow.
  destruct (s_merge (sys_ w2)) as [p st]. destruct (PM.tick _ _ _ _) as [st' off]. cbn [out_rel]. field_step S.
Qed.

Lemma hover_tick : tick_local SHover.
Proof.
  intros ctx dt w1 w2 S. cbn [tick_system]. use_loc S (LSlot KHover).
  rewrite (hover_local _ w1.(registry_) w2.(registry_)) by stores_of S [Reg.TActionQueue].
  destruct (Act.tick_hover _ _) as [n| |]; cbn [obind out_rel]; [|done..]. field_step S.
Qed.

Lemma transmit_tick : tick_local STransmit.
Proof.
  intros ctx dt w1 w2 S. cbn [tick_system]. use_loc S (LSlot KTransmit). use_loc S LEnv. unfold synced_time_s. use_loc S LClock.
  destruct (S LRest ltac:(set_solver)) as [Er _]. unfold rest_of in Er.
  assert (context_ w1 = context_ w2) as -> by congruence.
  destruct (s_transmit (sys_ w2)) as [h n]. rewrite (transmit_same h n _ w1.(registry_) w2.(registry_)).
  2:{ apply (same_stores _ _ _ _ S); [set_solver|]. unfold place. destruct Net.sends_read_position; cbn; set_solver. }
  destruct (Act.tick_transmit _ _ _ _ _) as [[n' env]| |]; cbn [obind out_rel]; [|done..]. field_step S.
Qed.

(** *** Discovery and beacons *)

Lemma local_bind R W f g : local R W f -> local R W g -> local R W (fun w => let! w := f w in g w).
Proof.
  intros F G w1 w2 S. eapply out_rel_bind; [by apply F|]. intros v1 v2 X.
  apply (out_rel_mono (step2 R W v1 v2)); [intros a b Y; exact (step2_trans _ _ _ _ _ _ _ _ X Y)|]. apply G, X.
Qed.

Section Discovery.
Variables R W : list loc.
Hypothesis reads : [LRest; LEnv; LSlot KDiscovery] ++ stores place ⊆ R.
Hypothesis writes : [LEnv; LSlot KDiscovery] ⊆ W.

Lemma disc_same w1 w2 : same R w1 w2 -> Disc.disc w1 = Disc.disc w2.
Proof. intros S. exact (S (LSlot KDiscovery) ltac:(set_solver)). Qed.

Lemma announcement_same w1 w2 ty to : same R w1 w2 -> Disc.announcement w1 ty to = Disc.announcement w2 ty to.
Proof.
  intros S. destruct (S LRest ltac:(set_solver)) as [Er _]. unfold rest_of in Er. unfold Disc.announcement.
  rewrite (disc_same w1 w2 S). assert (current_keypair_ w1 = current_keypair_ w2) as -> by congruence. done.
Qed.

Lemma announce_same w1 w2 h ty to :
  same R w1 w2 ->
  Net.send_message h w1.(registry_) (Disc.announcement w1 ty to) w1.(env_) =
  Net.send_message h w2.(registry_) (Disc.announcement w2 ty to) w2.(env_).
Proof.
  intros S. rewrite (announcement_same w1 w2 ty to S). use_loc S LEnv. apply (send_message_same place); [|done].
  apply (same_stores _ _ _ _ S); [set_solver|]. unfold place. destruct Net.sends_read_position; cbn; set_solver.
Qed.

Lemma send_hello_local : local (U := U) R W Disc.send_hello.
Proof.
  intros w1 w2 S. unfold Disc.send_hello. rewrite (disc_same w1 w2 S).
  destruct (_ && _); [|by apply step2_refl]. destruct (d_message_transport _) as [h|]; [|by apply step2_refl].
  destruct (negb _); [by apply step2_refl|]. rewrite (announce_same w1 w2 h _ _ S).
  destruct (Net.send_message _ _ _ _) as [[e b]| |]; cbn [obind out_rel]; [|done..]. field_step S.
Qed.

Lemma handle_local m :
  LKeys ∈ R -> LKeys ∈ W -> forall w1 w2, same R w1 w2 ->
  out_rel (fun a b => a.2 = b.2 /\ step2 R W w1 w2 a.1 b.1) (Disc.handle_message_ m w1) (Disc.handle_message_ m w2).
Proof.
  intros HR HW.
  assert (forall d w1 w2, same R w1 w2 ->
    step2 R W w1 w2 (Disc.pin_advertised m (Disc.with_disc d w1)) (Disc.pin_advertised m (Disc.with_disc d w2))) as P.
  { intros d w1 w2 S. use_loc S LKeys. unfold Disc.pin_advertised. destruct auth_enabled; [|field_step S].
    destruct (Disc.extract_pubkey_from_payload m); field_step S. }
  intros w1 w2 S. unfold Disc.handle_message_. rewrite (disc_same w1 w2 S).
  destruct (_ =? _).
  - set (d := Disc.set_received _ _ _). pose proof (P d w1 w2 S) as X. set (v1 := Disc.pin_advertised _ _) in *.
    set (v2 := Disc.pin_advertised m (Disc.with_disc d w2)) in *. clearbody v1 v2. pose proof (s2_same _ _ _ _ _ _ X) as S'.
    rewrite (disc_same v1 v2 S'). destruct (d_message_transport _) as [h|]; [|by split].
    destruct (negb _); [by split|]. rewrite (announce_same v1 v2 h _ _ S').
    destruct (Net.send_message _ _ _ _) as [[e b]| |]; cbn [obind out_rel]; [|done..]. split; [done|].
    eapply step2_trans; [exact X|]. cbn [fst]. field_step S'.
  - destruct (_ =? _); [split; [done|by apply P]|split; [done|by apply step2_refl]].
Qed.
End Discovery.

Lemma discovery_tick : tick_local SDiscovery.
Proof.
  intros ctx dt w1 w2 S. cbn [tick_system]. unfold Disc.tick.
  set (R := reads_of SDiscovery) in *. set (W := writes_of SDiscovery).
  assert ([LRest; LEnv; LSlot KDiscovery] ++ stores place ⊆ R) as HR by (cbn; set_solver).
  assert ([LEnv; LSlot KDiscovery] ⊆ W) as HW by (cbn; set_solver).
  eapply out_rel_bind with (P := step2 R W w1 w2).
  - rewrite (disc_same R W HR HW w1 w2 S). destruct (S LRest ltac:(set_solver)) as [Er _]. unfold rest_of in Er.
    assert (initialized_ w1 = initialized_ w2) as -> by congruence.
    destruct (_ && _); [|by apply step2_refl]. unfold identity.
    assert (rsame [Reg.TIdentity] w1.(registry_) w2.(registry_)) as Hi.
    { apply (same_stores _ _ _ _ S); [|cbn; set_solver]. intros l Hl. apply list_elem_of_singleton in Hl as ->.
      do 4 apply list_elem_of_further. left. }
    rewrite (get_same (T := IdentityComponent) _ _ _ Hi) by by left.
    destruct (Reg.get _ _ _) as [i| |]; cbn [obind out_rel]; [|done..]. field_step S.
  - intros v1 v2 X. pose proof (s2_same _ _ _ _ _ _ X) as S'. rewrite (disc_same R W HR HW v1 v2 S').
    destruct (d_state _); [|done].
    set (d := Disc.set_times _ _ _). assert (step2 R W v1 v2 (Disc.with_disc d v1) (Disc.with_disc d v2)) as Y by field_step S'.
    apply (out_rel_mono (step2 R W (Disc.with_disc d v1) (Disc.with_disc d v2)));
      [intros a b Z; eapply step2_trans; [exact X|eapply step2_trans; [exact Y|exact Z]]|].
    pose proof (s2_same _ _ _ _ _ _ Y) as S2. revert S2. generalize (Disc.with_disc d v1) (Disc.with_disc d v2). intros u1 u2 S2.
    eapply out_rel_bind; [by apply (send_hello_local R W HR HW)|]. intros t1 t2 T. eapply step2_trans; [exact T|].
    pose proof (s2_same _ _ _ _ _ _ T) as S3. unfold Disc.promote. rewrite (disc_same R W HR HW t1 t2 S3). use_loc S3 LTable.
    field_step S3.
Qed.

Section BeaconTick.
Abbreviation R := (reads_of SBeacon).
Abbreviation W := (writes_of SBeacon).
Definition beacon_types : list Reg.ctype :=
  [Reg.TIdentity; Reg.TPosition; Reg.TVelocity; Reg.THealth; Reg.TRole; Reg.TBehaviourState; Reg.TCommBuffer].
Implicit Types m : Message.

Lemma beacon_reads l : l ∈ [LRest; LTable; LEnv; LKeys; LClock; LUser; LSlot KBeacon; LSlot KDiscovery] -> l ∈ R.
Proof. cbn. set_solver. Qed.
Lemma beacon_stores w1 w2 : same R w1 w2 -> rsame beacon_types w1.(registry_) w2.(registry_).
Proof. intros S. apply (same_stores _ _ _ _ S); cbn; set_solver. Qed.
Lemma place_beacon : place ⊆ beacon_types.
Proof. unfold place, beacon_types. destruct Net.sends_read_position; set_solver. Qed.
Lemma discovery_reads : [LRest; LEnv; LSlot KDiscovery] ++ stores place ⊆ R.
Proof. unfold place. destruct Net.sends_read_position; by_computation. Qed.
Lemma discovery_writes : [LEnv; LSlot KDiscovery] ⊆ W.
Proof. by_computation. Qed.
Lemma bcn_same w1 w2 : same R w1 w2 -> Bcn.bcn w1 = Bcn.bcn w2.
Proof. intros S. apply (S (LSlot KBeacon)), beacon_reads. set_solver. Qed.
Lemma rest_same w1 w2 : same R w1 w2 -> rest_of w1 = rest_of w2.
Proof. intros S. apply (S LRest), beacon_reads. set_solver. Qed.

Lemma own_state_same ctx w1 w2 : same R w1 w2 -> Bcn.own_state ctx w1 = Bcn.own_state ctx w2.
Proof.
  intros S. pose proof (rest_same w1 w2 S) as Er. unfold rest_of in Er. pose proof (beacon_stores w1 w2 S) as Rs.
  unfold Bcn.own_state, synced_time_s. assert (context_ w1 = context_ w2) as -> by congruence.
  assert (clock_offset_s_ w1 = clock_offset_s_ w2) as -> by (apply (S LClock), beacon_reads; set_solver).
  repeat match goal with |- context [Reg.get ?T w1.(registry_) _] =>
    rewrite (get_same (T := T) _ _ _ Rs) by (unfold beacon_types; set_solver) end.
  done.
Qed.

Lemma emit_local sv dt : local (H := H) (E := E) (U := U) R W (Bcn.emit_beacon sv dt).
Proof.
  intros w1 w2 S. unfold Bcn.emit_beacon. rewrite (bcn_same w1 w2 S). set (b := Bcn.bcn w2).
  assert (forall t, step2 R W w1 w2 (Bcn.with_bcn t w1) (Bcn.with_bcn t w2)) as B by (intros t; field_step S).
  destruct (_ && _); [|apply B]. destruct (b_beacon_transport b) as [h|]; [|apply B]. destruct (negb _); [apply B|].
  set (w1' := Bcn.with_bcn _ w1). set (w2' := Bcn.with_bcn (Bcn.set_since _ b) w2).
  assert (same R w1' w2') as S' by exact (s2_same _ _ _ _ _ _ (B _)).
  assert (current_keypair_ w1' = current_keypair_ w2') as ->.
  { pose proof (rest_same _ _ S') as Er. unfold rest_of in Er. congruence. }
  assert (env_ w1' = env_ w2') as -> by (apply (S' LEnv), beacon_reads; set_solver).
  rewrite (send_beacon_same beacon_types h w1'.(registry_) w2'.(registry_)) by (apply beacon_stores || apply place_beacon; done).
  destruct (Net.send_beacon _ _ _ _) as [[e x]| |]; cbn [obind out_rel]; [|done..].
  eapply step2_trans; [apply B|]. fold w1' w2'. field_step S'.
Qed.

Lemma drain_beacons_local self now w1 w2 :
  same R w1 w2 -> step2 R W w1 w2 (Bcn.drain_beacons self now w1) (Bcn.drain_beacons self now w2).
Proof.
  intros S. unfold Bcn.drain_beacons. rewrite (bcn_same w1 w2 S).
  assert (env_ w1 = env_ w2) as -> by (apply (S LEnv), beacon_reads; set_solver).
  assert (neighbour_table_ w1 = neighbour_table_ w2) as -> by (apply (S LTable), beacon_reads; set_solver).
  assert (peer_keys_ w1 = peer_keys_ w2) as -> by (apply (S LKeys), beacon_reads; set_solver).
  destruct (b_beacon_transport _) as [h|]; [|by apply step2_refl]. destruct (negb _); [by apply step2_refl|].
  destruct (Net.poll_beacons _ _) as [env bs]. set (r := fold_left _ bs _). field_step S.
Qed.

Lemma push_local m : local (H := H) (E := E) (U := U) R W (Bcn.push_message m).
Proof.
  intros w1 w2 S. unfold Bcn.push_message. pose proof (beacon_stores w1 w2 S) as Rs.
  rewrite (get_same (T := CommBufferComponent) _ _ _ Rs) by (unfold beacon_types; set_solver).
  destruct (Reg.get _ _ _) as [cb| |]; cbn [obind]; [|done..].
  eapply out_rel_bind.
  { apply (set_local beacon_types [Reg.TCommBuffer] _ _ _ Rs); [unfold beacon_types; set_solver|cbn; set_solver]. }
  intros r1 r2 St. cbn [out_rel]. apply (registry_step2 beacon_types [Reg.TCommBuffer]); try done; unfold beacon_types; cbn; set_solver.
Qed.

(** A computation with an answer, on two worlds that agree. *)
Abbreviation answers w1 w2 := (out_rel (fun a b : core H E U * bool => a.2 = b.2 /\ step2 R W w1 w2 a.1 b.1)).

Lemma offer_local hs m w1 w2 :
  same R w1 w2 -> answers w1 w2 (Bcn.offer user_handler hs m w1) (Bcn.offer user_handler hs m w2).
Proof.
  revert w1 w2. induction hs as [|h hs IH]; intros w1 w2 S; [split; [done|by apply step2_refl]|].
  cbn [Bcn.offer]. destruct h as [h|]; [|by apply IH].
  apply out_rel_bind with (P := fun a b : core H E U * bool => a.2 = b.2 /\ step2 R W w1 w2 a.1 b.1).
  - destruct h as [| |n]; [|done|].
    + apply (handle_local R W discovery_reads discovery_writes); [by_computation..|done].
    + destruct (handlers_private n m) as (f & g & Hf). rewrite !Hf.
      assert (user_ w1 = user_ w2) as -> by (apply (S LUser), beacon_reads; set_solver). split; [done|]. cbn [fst]. field_step S.
  - intros [v1 b1] [v2 b2] [Hb X]. cbn [fst snd] in Hb, X. subst b2. destruct b1; [by split|].
    apply (out_rel_mono (fun a b : core H E U * bool => a.2 = b.2 /\ step2 R W v1 v2 a.1 b.1)).
    { intros a b [Ha Y]. split; [done|by eapply step2_trans]. }
    apply IH, X.
Qed.

Lemma route_local ms : local (H := H) (E := E) (U := U) R W (Bcn.route user_handler ms).
Proof.
  induction ms as [|m ms IH]; intros w1 w2 S; [by apply step2_refl|]. cbn [Bcn.route].
  pose proof (rest_same w1 w2 S) as Er. unfold rest_of in Er.
  assert (message_handlers_ w1 = message_handlers_ w2) as -> by congruence.
  eapply out_rel_bind; [by apply offer_local|]. intros [v1 b1] [v2 b2] [Hb X]. cbn [fst snd] in Hb, X. subst b2.
  apply (out_rel_mono (step2 R W v1 v2)); [intros a b Y; by eapply step2_trans|].
  apply (local_bind R W (fun w => if b1 then Ok w else Bcn.push_message m w)); [|exact IH|exact (s2_same _ _ _ _ _ _ X)].
  destruct b1; [intros u1 u2 T; by apply step2_refl|apply push_local].
Qed.

Lemma drain_messages_local : local (H := H) (E := E) (U := U) R W (Bcn.drain_messages user_handler).
Proof.
  intros w1 w2 S. unfold Bcn.drain_messages. rewrite (bcn_same w1 w2 S).
  assert (env_ w1 = env_ w2) as -> by (apply (S LEnv), beacon_reads; set_solver).
  destruct (b_message_transport _) as [h|]; [|by apply step2_refl]. destruct (negb _); [by apply step2_refl|].
  destruct (Net.poll_messages _ _) as [env ms].
  assert (step2 R W w1 w2 (with_env env w1) (with_env env w2)) as X by field_step S.
  pose proof (beacon_stores _ _ (s2_same _ _ _ _ _ _ X)) as Rs.
  rewrite (get_same (T := CommBufferComponent) _ _ _ Rs) by (unfold beacon_types; set_solver).
  destruct (Reg.get _ _ _) as [cb| |]; cbn [obind]; [|done..].
  apply (out_rel_mono (step2 R W (with_env env w1) (with_env env w2))); [intros a b Y; by eapply step2_trans|].
  apply route_local, X.
Qed.
End BeaconTick.

Lemma beacon_tick : tick_local SBeacon.
Proof.
  intros ctx dt w1 w2 S. cbn [tick_system]. unfold Bcn.tick. rewrite (bcn_same w1 w2 S).
  assert (neighbour_table_ w1 = neighbour_table_ w2) as -> by (apply (S LTable), beacon_reads; set_solver).
  set (nt := NT.age_out _ _ _ _).
  assert (step2 (reads_of SBeacon) (writes_of SBeacon) w1 w2 (with_neighbour_table nt w1) (with_neighbour_table nt w2)) as X
    by field_step S.
  revert X. generalize (with_neighbour_table nt w1) (with_neighbour_table nt w2). intros v1 v2 X.
  pose proof (s2_same _ _ _ _ _ _ X) as S'. rewrite (bcn_same v1 v2 S'), (own_state_same ctx v1 v2 S').
  assert (forall o, out_rel (step2 (reads_of SBeacon) (writes_of SBeacon) w1 w2)
    (let! sv := o in let! w := Bcn.emit_beacon sv dt v1 in
     Bcn.drain_messages user_handler (Bcn.drain_beacons sv.(sv_id) ctx.(Sched.elapsed_time_s) w))
    (let! sv := o in let! w := Bcn.emit_beacon sv dt v2 in
     Bcn.drain_messages user_handler (Bcn.drain_beacons sv.(sv_id) ctx.(Sched.elapsed_time_s) w))) as G.
  { intros [sv| |]; cbn [obind]; [|done..].
    apply (out_rel_mono (step2 (reads_of SBeacon) (writes_of SBeacon) v1 v2)); [intros a b Y; by eapply step2_trans|].
    apply (local_bind _ _ (Bcn.emit_beacon sv dt)); [apply emit_local| |exact S'].
    intros u1 u2 T. pose proof (drain_beacons_local sv.(sv_id) ctx.(Sched.elapsed_time_s) u1 u2 T) as Y.
    eapply out_rel_mono; [|exact (drain_messages_local _ _ (s2_same _ _ _ _ _ _ Y))].
    intros a b Z. by eapply step2_trans. }
  destruct (b_beacon_transport (Bcn.bcn v2)), (b_message_transport (Bcn.bcn v2)); [apply G..|exact X].
Qed.

(** Every built-in system keeps to its footprint. *)
Lemma ticks_local s : built_in s = true -> tick_local s.
Proof.
  destruct s; intros Hs; try done; auto using beacon_tick, discovery_tick, fault_tick, alloc_tick, flock_tick,
    kinematics_tick, clock_tick, merge_tick, validator_tick, move_tick, transmit_tick, hover_tick.
Qed.

(** ** Footprints and declarations *)

(** The built-in systems, and what they declare, by component type. *)
Definition built_ins : list system :=
  [SBeacon; SDiscovery; SFaultMonitor; STaskAlloc; SFlocking; SKinematics; SClockSync; SPartitionMerge; SValidator;
   SMove; STransmit; SHover].
Record declaration := mk_decl {
  reads_types : list Reg.ctype;
  writes_types : list Reg.ctype;
  reads_res : list Z;
  writes_res : list Z;
}.
Definition declared (s : system) : declaration :=
  match s with
  | SBeacon =>
      mk_decl [Reg.TIdentity; Reg.TPosition; Reg.TVelocity; Reg.THealth; Reg.TRole; Reg.TBehaviourState] [Reg.TCommBuffer]
        [Sched.TransportRx] [Sched.NeighbourTableR; Sched.TransportTx]
  | SDiscovery => mk_decl [] [] [Sched.NeighbourTableR] [Sched.TransportTx]
  | SFaultMonitor => mk_decl [Reg.THealth] [Reg.THealth; Reg.TPermissionMask; Reg.TBehaviourState] [] []
  | STaskAlloc => mk_decl [Reg.TRole; Reg.TBehaviourState] [Reg.TRole] [Sched.NeighbourTableR] []
  | SFlocking => mk_decl [Reg.TPosition; Reg.TVelocity] [Reg.TVelocity] [Sched.NeighbourTableR] []
  | SKinematics => mk_decl [Reg.TVelocity] [Reg.TPosition] [] []
  | SClockSync | SPartitionMerge => mk_decl [] [] [Sched.NeighbourTableR] []
  | SValidator => mk_decl [Reg.TPermissionMask] [Reg.TActionQueue] [] []
  | SMove => mk_decl [Reg.TActionQueue] [Reg.TVelocity] [] []
  | STransmit => mk_decl [Reg.TActionQueue] [] [] [Sched.TransportTx]
  | SHover => mk_decl [Reg.TActionQueue] [] [] []
  | SUser _ => mk_decl [] [] [] []
  end.

Variable user_describe : nat -> Sched.SystemDescriptor.
Abbreviation describe s := (describe_system user_describe s).

Lemma describe_declared s : built_in s = true ->
  (describe s).(Sched.reads_components) = Reg.component_id <$> reads_types (declared s) /\
  (describe s).(Sched.writes_components) = Reg.component_id <$> writes_types (declared s) /\
  (describe s).(Sched.reads_resources) = reads_res (declared s) /\
  (describe s).(Sched.writes_resources) = writes_res (declared s).
Proof. by destruct s. Qed.

(** Whether two lists share an element. *)
Definition meet {A} `{!EqDecision A} (l k : list A) : bool := existsb (fun x => bool_decide (x ∈ k)) l.
Lemma meet_spec {A} `{!EqDecision A} (l k : list A) : meet l k = true <-> exists x, x ∈ l /\ x ∈ k.
Proof.
  unfold meet. rewrite existsb_exists. split.
  - intros (x & Hx%list_elem_of_In & Hk%bool_decide_eq_true). eauto.
  - intros (x & Hx%list_elem_of_In & Hk). exists x. by rewrite bool_decide_true.
Qed.

Definition hazard_declared (a b : declaration) : bool :=
  meet a.(writes_types) b.(reads_types) || meet a.(reads_types) b.(writes_types) || meet a.(writes_types) b.(writes_types) ||
  meet a.(writes_res) b.(reads_res) || meet a.(reads_res) b.(writes_res) || meet a.(writes_res) b.(writes_res).

Lemma declared_hazard a b :
  built_in a = true -> built_in b = true ->
  hazard_declared (declared a) (declared b) = true -> Sched.have_hazard (describe a) (describe b) = true.
Proof.
  intros Ha Hb Hh. apply Sched.have_hazard_spec.
  destruct (describe_declared a Ha) as (A1 & A2 & A3 & A4), (describe_declared b Hb) as (B1 & B2 & B3 & B4).
  unfold Sched.touches, Sched.writes. unfold hazard_declared in Hh. rewrite !orb_true_iff, !meet_spec in Hh.
  destruct Hh as [[[[[(x & Hx & Hy)|(x & Hx & Hy)]|(x & Hx & Hy)]|(x & Hx & Hy)]|(x & Hx & Hy)]|(x & Hx & Hy)].
  1-3: exists false, (Reg.component_id x); rewrite A1, A2, B1, B2; repeat split; eauto using list_elem_of_fmap_2.
  all: exists true, x; rewrite A3, A4, B3, B4; auto.
Qed.

(** One of the two writes what the other reads or writes. *)
Definition clash (a b : system) : bool := meet (writes_of a) (reads_of b) || meet (writes_of b) (reads_of a).

(** The pairs whose footprints meet although their declarations do not: the clock
    offset and the merge window are no resources, and a transport that reads the
    sender's position does so behind the back of the systems that send. *)
Definition undeclared : list (system * system) :=
  [(SClockSync, STransmit); (SPartitionMerge, STaskAlloc)] ++
  (if Net.sends_read_position (Sends := Sd) then [(SKinematics, STransmit); (SKinematics, SDiscovery)] else []).

Lemma built_in_listed s : built_in s = true -> s ∈ built_ins.
Proof. destruct s; intros Hs; try done; by_computation. Qed.

Lemma clash_covered a b :
  built_in a = true -> built_in b = true -> clash a b = true ->
  a = b \/ hazard_declared (declared a) (declared b) = true \/ (a, b) ∈ undeclared \/ (b, a) ∈ undeclared.
Proof.
  intros Ha%built_in_listed Hb%built_in_listed Hc.
  assert (forallb (fun a => forallb (fun b => implb (clash a b)
    (bool_decide (a = b) || hazard_declared (declared a) (declared b) || bool_decide ((a, b) ∈ undeclared) ||
     bool_decide ((b, a) ∈ undeclared))) built_ins) built_ins = true) as F.
  { unfold clash, reads_of, place, undeclared. destruct Net.sends_read_position; vm_compute; reflexivity. }
  rewrite forallb_forall in F. specialize (F a (proj1 (list_elem_of_In _ _) Ha)).
  rewrite forallb_forall in F. specialize (F b (proj1 (list_elem_of_In _ _) Hb)). rewrite Hc in F. cbn [implb] in F.
  rewrite !orb_true_iff, !bool_decide_eq_true in F. tauto.
Qed.

(** Without a clash the order does not matter. *)
Lemma no_clash_commute a b ctx dt w wa wb :
  built_in a = true -> built_in b = true -> clash a b = false ->
  ticks a ctx dt w = Ok wa -> ticks b ctx dt w = Ok wb ->
  exists v, ticks b ctx dt wa = Ok v /\ ticks a ctx dt wb = Ok v.
Proof.
  intros Ha Hb Hc Ea Eb. apply orb_false_iff in Hc as [C1 C2].
  assert (forall s, writes_of s ⊆ reads_of s) as I.
  { intros s. destruct s; cbn; set_solver. }
  apply (local_commute (reads_of a) (writes_of a) (reads_of b) (writes_of b) _ _ w wa wb); auto using ticks_local.
  - intros l Hl Hr. assert (meet (writes_of a) (reads_of b) = true) by (apply meet_spec; eauto). congruence.
  - intros l Hl Hr. assert (meet (writes_of b) (reads_of a) = true) by (apply meet_spec; eauto). congruence.
Qed.
End Systems.
End Foot.
