(* ===== verification/WorldParallel.v ===== *)
(** The world's tick with the scheduler in [Parallel] mode ([World::tick] over
    [SystemScheduler::tick_parallel_]), as a relation: the systems run as some
    interleaving of the caller and the workers has them.

    A system's tick is one step here, so that what is shown covers every order and
    overlap of the dispatches, also those of the seeding race; it does not cover
    data races inside two ticks whose declared sets miss a conflict. *)

From S2P Require Import Prelude MachineInt Float32 Identity BoundedQueue Components Trace JsonWriter.
From S2P Require Import Scheduler SchedulerParallel NeighbourTable Registry PeerKeys Transport FaultMonitor TaskAlloc.
From S2P Require Import ClockSync PartitionMerge Flocking Actions WorldState Discovery Beacon World WorldSafety.
Local Open Scope Z_scope.

Module WPar.
Import Comp WS World Safe.

Section ParallelTick.
Context {H E U : Type} `{!Platform} {TC : Reg.Toolchain} `{!Auth.Crypto} `{!Net.Transports H E}.
Variable user_handler : nat -> Message -> core H E U -> outcome (core H E U * bool).
Variable user_describe : nat -> Sched.SystemDescriptor.
Variable user_tick : nat -> Sched.SwarmContext -> Z -> core H E U -> outcome (core H E U).
#[local] Hint Extern 0 (Sched.SystemOps _ _) =>
  exact (system_ops user_handler user_describe user_tick) : typeclass_instances.

(** The state the systems start from. *)
Definition tick_begins (wd : @world H E U) : core H E U := decay_window (advance_context wd.(core_)).

(** The states of the scheduler's tick of [wd]. *)
Definition in_tick (wd : @world H E U) (s : @Par.pstate (core H E U)) : Prop :=
  let w := tick_begins wd in
  exists p, wd.(scheduler_).(Sched.pool_) = Some p /\
    rtc (Par.tick_step w.(context_) w.(context_).(Sched.delta_time_s) wd.(scheduler_))
      (Par.init_state wd.(scheduler_).(Sched.in_degree_initial_) p w) s.

(** Each worker records the times of the systems it ran, and its thread. *)
(* @src src/core/scheduler.cpp:259-264 SystemScheduler::tick_parallel_ (timings) *)
Definition timed (clk : nat -> Z * Z) (tid : nat -> Z) (done : list nat) (sch : @Sched.scheduler system)
    : @Sched.scheduler system :=
  Sched.mk_sched sch.(Sched.mode_) sch.(Sched.thread_pool_size_) sch.(Sched.systems_) sch.(Sched.order_)
    sch.(Sched.dependents_) sch.(Sched.in_degree_initial_) sch.(Sched.pool_)
    (foldl (fun tms i => Sched.set_timing tms i (clk i) (tid i)) sch.(Sched.last_timings_) done)
    sch.(Sched.built_) sch.(Sched.sink_).

(** A tick that returns. *)
(* @src src/core/world.cpp:106-132 World::tick (Parallel mode) *)
Inductive tick_parallel (wd : @world H E U) : @world H E U -> Prop :=
| tick_returns clk tid s w :
    wd.(core_).(initialized_) = true -> wd.(scheduler_).(Sched.built_) = true ->
    in_tick wd s -> s.(Par.main) = Par.Returned ->
    let ctx := (tick_begins wd).(context_) in
    rotate_periodic (emit (Sched.emit_tick_event_ wd.(scheduler_) ctx ctx.(Sched.delta_time_s)) s.(Par.mem)) = Ok w ->
    tick_parallel wd (mk_world w (timed clk tid s.(Par.finished) wd.(scheduler_))).
End ParallelTick.

(** A step of the scheduler's tick leaves the memory alone or ticks one system. *)
Lemma pstep_mem {M} N deps run (s s' : @Par.pstate M) :
  Par.pstep N deps run s s' -> s'.(Par.mem) = s.(Par.mem) \/ exists i, s'.(Par.mem) = run i s.(Par.mem).
Proof.
  intros [[|w] Hc]; cbn [Par.step] in Hc.
  - left. unfold Par.step_main in Hc. destruct (Par.main s); try done.
    + destruct (_ <? _)%nat; [|by injection Hc as <-]. injection Hc as <-. by destruct (_ =? 0).
    + by injection Hc as <-.
  - unfold Par.step_worker in Hc. destruct (Par.workers s !! w) as [[|i|i [|dep rest]|]|]; try done.
    + destruct (Par.queue s); [done|]. injection Hc as <-. by left.
    + injection Hc as <-. right. by exists i.
    + injection Hc as <-. by left.
    + injection Hc as <-. left. by destruct (_ =? 1).
    + injection Hc as <-. left. by destruct (Par.main s).
Qed.

Section Safety.
Context {H E U : Type} `{!Platform} {TC : Reg.Toolchain} `{!Auth.Crypto} `{!Net.Transports H E} `{!Disc.Reliable H E}.
Variable user_handler : nat -> Message -> core H E U -> outcome (core H E U * bool).
Variable user_describe : nat -> Sched.SystemDescriptor.
Variable user_tick : nat -> Sched.SwarmContext -> Z -> core H E U -> outcome (core H E U).
Hypothesis user_ok : user_code_sound user_handler user_tick.
Abbreviation ok := (world_ok user_handler user_describe user_tick).

Lemma tick_begins_sound cc wd : ok cc wd -> sound (next_context cc) (tick_begins wd).
Proof.
  intros [S _]. by apply start_of_tick_ok.
Qed.

Lemma tick_steps_sound cc ctx dt sch s0 s :
  rtc (Par.tick_step (SystemOps0 := system_ops user_handler user_describe user_tick) ctx dt sch) s0 s ->
  sound cc s0.(Par.mem) -> sound cc s.(Par.mem).
Proof.
  induction 1 as [|s0 s1 s Hs _ IH]; [done|]. intros S. apply IH.
  apply pstep_mem in Hs as [->|[i ->]]; [done|]. unfold Par.tick_effect.
  destruct (Sched.systems_ _ !! i) as [sys|]; [|done]. destruct (user_ok cc) as [Uh Ut].
  cbn [Sched.sys_tick system_ops].
  destruct (tick_system_ok cc user_handler user_tick Uh Ut sys ctx dt _ S) as (w' & -> & S'). exact S'.
Qed.

Lemma in_tick_sound cc wd s :
  ok cc wd -> in_tick user_handler user_describe user_tick wd s -> sound (next_context cc) s.(Par.mem).
Proof.
  intros W (p & _ & Hr). apply (tick_steps_sound _ _ _ _ _ _ Hr). exact (tick_begins_sound cc wd W).
Qed.

Lemma timed_ready clk tid done sch :
  sched_ready user_handler user_describe user_tick sch ->
  sched_ready user_handler user_describe user_tick (timed clk tid done sch).
Proof.
  intros [[Hn Ho Hg Hp Ht] Hb]. constructor; [|done]. constructor; try done.
  intros _. cbn [timed Sched.last_timings_ Sched.systems_]. rewrite <- (Ht Hb).
  generalize (Sched.last_timings_ sch) as tms. induction done as [|i done IH]; intros tms; [reflexivity|]. cbn [foldl].
  rewrite IH. unfold Sched.set_timing. apply list_eq. intros j. rewrite !list_lookup_fmap.
  destruct (decide (i = j)) as [<-|Hne]; [rewrite list_lookup_alter_eq|by rewrite list_lookup_alter_ne].
  by destruct (tms !! i).
Qed.

(** What a tick may do, from a world whose invariant holds. *)
Lemma tick_parallel_ok cc wd wd' :
  ok cc wd -> tick_parallel user_handler user_describe user_tick wd wd' ->
  ok (next_context cc) wd' /\ wd'.(scheduler_).(Sched.systems_) = wd.(scheduler_).(Sched.systems_) /\
  wd'.(scheduler_).(Sched.mode_) = wd.(scheduler_).(Sched.mode_).
Proof.
  intros W Ht. destruct Ht as [clk tid s w Hi Hb Hs Hm ctx Hr]. pose proof (in_tick_sound cc wd s W Hs) as S.
  split; [|done]. constructor; [|apply timed_ready; by destruct W]. cbn [core_].
  destruct (end_of_tick_ok user_handler user_tick user_ok _ (Sched.emit_tick_event_ wd.(scheduler_) ctx ctx.(Sched.delta_time_s)) _ S) as (w' & Er & S').
  rewrite Er in Hr. by injection Hr as <-.
Qed.

Lemma tick_parallel_returns cc wd s :
  ok cc wd -> in_tick user_handler user_describe user_tick wd s -> s.(Par.main) = Par.Returned ->
  exists wd', tick_parallel user_handler user_describe user_tick wd wd'.
Proof.
  intros W Hs Hm. pose proof (in_tick_sound cc wd s W Hs) as S.
  set (ctx := (tick_begins wd).(context_)).
  destruct (end_of_tick_ok user_handler user_tick user_ok _ (Sched.emit_tick_event_ wd.(scheduler_) ctx ctx.(Sched.delta_time_s)) _ S) as (w & Er & _).
  eexists. apply (tick_returns _ _ _ wd (fun _ => (0, 0)) (fun _ => 0) s w); try done.
  - exact (snd_init _ _ (wo_core _ _ _ _ _ W)).
  - by destruct W as [_ [_ ?]].
Qed.

Lemma ticks_parallel_ok k : forall cc wd wd',
  ok cc wd -> nsteps (tick_parallel user_handler user_describe user_tick) k wd wd' ->
  ok (Nat.iter k next_context cc) wd' /\ wd'.(scheduler_).(Sched.systems_) = wd.(scheduler_).(Sched.systems_) /\
  wd'.(scheduler_).(Sched.mode_) = wd.(scheduler_).(Sched.mode_).
Proof.
  induction k as [|k IH]; intros cc wd wd' W Hn.
  { by inversion Hn; subst. }
  inversion Hn as [|? ? wd1 ? H1' Hn']; subst. destruct (tick_parallel_ok cc wd wd1 W H1') as (W1 & E1 & M1).
  destruct (IH _ _ _ W1 Hn') as (W' & E' & M'). rewrite Nat.iter_succ_r. split; [done|]. split; congruence.
Qed.
End Safety.

(** Set-up and initialisation keep the scheduler's mode. *)
Section Mode.
Context {H E U : Type} `{!Platform} {TC : Reg.Toolchain} `{!Auth.Crypto} `{!Net.Transports H E}.
Variable user_handler : nat -> Message -> core H E U -> outcome (core H E U * bool).
Variable user_describe : nat -> Sched.SystemDescriptor.
Variable user_tick : nat -> Sched.SwarmContext -> Z -> core H E U -> outcome (core H E U).
Implicit Types wd : @world H E U.

Lemma exec_calls_mode cs : forall wd wd',
  exec_calls user_handler user_describe user_tick cs wd = Ok wd' ->
  wd'.(scheduler_).(Sched.mode_) = wd.(scheduler_).(Sched.mode_).
Proof.
  induction cs as [|c cs IH]; intros wd wd'; [by intros [= ->]|]. cbn [exec_calls].
  destruct (exec_call user_handler user_describe user_tick c wd) as [wd1| |] eqn:E1; cbn [obind]; [|done..].
  intros ->%IH. destruct c as [c|n|sink]; cbn [exec_call] in E1.
  - unfold register_system, Sched.register_system in E1. cbn [fmap option_fmap option_map] in E1.
    destruct (existsb _ _); by injection E1 as <-.
  - injection E1 as <-. unfold register_component. by destruct (Reg.register_impl _ _ _) as [[reg st] ev].
  - by injection E1 as <-.
Qed.

Lemma init_mode wd wd' :
  init user_handler user_describe user_tick wd = Ok wd' -> wd'.(scheduler_).(Sched.mode_) = wd.(scheduler_).(Sched.mode_).
Proof.
  unfold init. destruct (initialized_ _); [done|]. destruct (fresh_hid _) as [id w].
  destruct (emplace_defaults _ _) as [reg| |]; cbn [obind]; [|done..]. intros [= <-]. cbn [scheduler_].
  unfold Sched.build_graph. destruct (Sched.built_ _); [done|].
  by destruct (match Sched.mode_ _ with Sched.Sequential => _ | Sched.Parallel => _ end).
Qed.
End Mode.

(** C15: the runtime does not abort with the parallel scheduler either.  Set up and
    initialise a world as in [runtime_never_aborts], in [Parallel] mode, and let it
    make any number of ticks, each with any interleaving of the caller and the
    workers, the racing ones included.  In every state an interleaving reaches, the
    tick of each of the registered systems would succeed and the world's invariant
    holds, so no dispatch aborts or reaches undefined behaviour whatever ran before
    it; when the caller returns, the rest of the world's tick succeeds.  The number
    of ticks is counted, the systems are those registered, and the pool has workers.
    A system's tick counts as one step. *)
Theorem parallel_runtime_never_aborts {H E U} `{!Platform} {TC : Reg.Toolchain} `{!Auth.Crypto} `{!Net.Transports H E}
    `{!Disc.Reliable H E} user_handler user_describe user_tick config (t b m : option H) (env : E) (user : U)
    entropy draws cs wd0 :
  distinct_ids -> 0 <= config.(thread_pool_size) -> Disc.env_ok env -> config.(scheduler_mode) = Sched.Parallel ->
  user_code_sound user_handler user_tick ->
  wd0 ∈ [new_world config env user entropy draws; new_world_unified config t env user entropy draws;
         new_world_split config b m env user entropy draws] ->
  good_calls user_describe cs ->
  exists wd1 wd2, exec_calls user_handler user_describe user_tick cs wd0 = Ok wd1 /\
    init user_handler user_describe user_tick wd1 = Ok wd2 /\
    forall k wd, nsteps (tick_parallel user_handler user_describe user_tick) k wd2 wd ->
      wd.(core_).(context_).(Sched.tick_count) = MI.u64 (Z.of_nat k) /\
      wd.(scheduler_).(Sched.systems_) = constructed cs /\
      (exists p, wd.(scheduler_).(Sched.pool_) = Some p /\ (0 < p)%nat) /\
      forall s, in_tick user_handler user_describe user_tick wd s ->
        (exists cc, sound cc s.(Par.mem)) /\
        (forall sys, sys ∈ wd.(scheduler_).(Sched.systems_) -> forall ctx dt,
           exists w', tick_system user_handler user_tick sys ctx dt s.(Par.mem) = Ok w') /\
        (s.(Par.main) = Par.Returned -> exists wd', tick_parallel user_handler user_describe user_tick wd wd').
Proof.
  intros D Hp He Hmode Hu Hw [Gn Gt].
  set (cc := (config, Sched.mk_ctx config.(cfg_swarm_id) 0 0 0)).
  assert (fresh user_handler user_describe user_tick cc wd0 /\ wd0.(scheduler_).(Sched.systems_) = [] /\
          wd0.(scheduler_).(Sched.mode_) = Sched.Parallel) as (F0 & S0 & M0).
  { repeat (apply elem_of_cons in Hw as [->|Hw]; [split; [by apply new_fresh|done]|]). by apply not_elem_of_nil in Hw. }
  destruct (exec_calls_fresh user_handler user_describe user_tick cc cs wd0 F0) as (wd & Ec & F & Sc);
    [by rewrite S0|done|]. rewrite S0 in Sc. cbn [app] in Sc.
  destruct (init_ok user_handler user_describe user_tick cc wd D F) as (wd2 & Ei & W & _ & _ & _ & _ & _ & _ & _ & _ & _ & Ss).
  assert (wd2.(scheduler_).(Sched.mode_) = Sched.Parallel) as M2
    by (rewrite (init_mode _ _ _ _ _ Ei), (exec_calls_mode _ _ _ _ _ _ Ec); exact M0).
  exists wd, wd2. split; [done|]. split; [done|]. intros k wd3 Hn.
  destruct (ticks_parallel_ok _ _ _ Hu k cc wd2 wd3 W Hn) as (W3 & E3 & M3).
  destruct (iter_context k cc) as (_ & I2 & _); [unfold MI.is_u64; cbn; lia|].
  pose proof (f_equal snd (snd_context _ _ (wo_core _ _ _ _ _ W3))) as C3. cbn in C3.
  split; [by rewrite C3, I2|]. split; [congruence|]. split.
  { destruct W3 as [_ [[_ _ Hg _ _] Hb]]. destruct (Hg Hb) as [_ Hpool]; [congruence|exact Hpool]. }
  intros s Hs. pose proof (in_tick_sound _ _ _ Hu _ wd3 s W3 Hs) as S. split; [by eexists|]. split.
  - intros sys _ ctx dt. destruct (Hu (next_context (Nat.iter k next_context cc))) as [Uh Ut].
    destruct (tick_system_ok _ user_handler user_tick Uh Ut sys ctx dt _ S) as (w' & Ew & _). by exists w'.
  - intros Hm. by apply (tick_parallel_returns _ _ _ Hu _ wd3 s W3 Hs).
Qed.

(** ** Examples *)

#[local] Existing Instance Net.wire_transports.
#[local] Existing Instance Disc.wire_reliable.

Definition parallel_config : WorldConfig :=
  mk_config 1 default_config.(tick_rate_hz) default_config.(beacon_rate_hz) default_config.(WS.neighbour_timeout_s) 2 true
    true true Reg.LockAfterInit Sched.Parallel PERMANENT default_config.(identity_rotation_period_s).

Lemma parallel_runtime_never_aborts_witness :
  exists wd2 s, @init unit Net.wire unit (sample_platform true) Reg.gcc Auth.toy_crypto _ no_handler no_system idle
      (match @exec_calls unit Net.wire unit (sample_platform true) Reg.gcc Auth.toy_crypto _ no_handler no_system idle
         sample_setup (new_world_unified parallel_config (Some tt) Net.empty_wire tt 0 0)
       with Ok wd => wd | _ => new_world_unified parallel_config (Some tt) Net.empty_wire tt 0 0 end) = Ok wd2 /\
    @in_tick unit Net.wire unit (sample_platform true) Reg.gcc Auth.toy_crypto _ no_handler no_system idle wd2 s /\
    forall sys, sys ∈ wd2.(scheduler_).(Sched.systems_) -> exists w',
      @tick_system unit Net.wire unit (sample_platform true) Reg.gcc Auth.toy_crypto _ no_handler idle sys
        (Sched.mk_ctx 1 0 0 0) F32.one s.(Par.mem) = Ok w'.
Proof.
  destruct (@parallel_runtime_never_aborts unit Net.wire unit (sample_platform true) Reg.gcc Auth.toy_crypto _ _ no_handler
    no_system idle parallel_config (Some tt) None None Net.empty_wire tt 0 0 sample_setup
    (new_world_unified parallel_config (Some tt) Net.empty_wire tt 0 0)) as (wd1 & wd2 & Ec & Ei & Hall).
  - exact Reg.gcc_builtin_ids.
  - cbn. lia.
  - exact I.
  - reflexivity.
  - exact idle_sound.
  - right. left.
  - exact sample_setup_good.
  - destruct (Hall 0%nat wd2 (nsteps_O _ _)) as (_ & _ & (p & Hp & _) & Hs).
    set (s := Par.init_state wd2.(scheduler_).(Sched.in_degree_initial_) p (tick_begins wd2)).
    assert (@in_tick unit Net.wire unit (sample_platform true) Reg.gcc Auth.toy_crypto _ no_handler no_system idle wd2 s) as Hi
      by (exists p; split; [exact Hp|apply rtc_refl]).
    exists wd2, s. rewrite Ec. split; [exact Ei|]. split; [exact Hi|]. intros sys Hsys.
    destruct (Hs s Hi) as (_ & Hok & _). exact (Hok sys Hsys _ _).
Defined.
End WPar.
