(* ===== verification/WorldDeterminism.v ===== *)
(** A world with the parallel scheduler computes what the sequential one does.

    [WorldFootprint] shows that built-in systems without a declared hazard commute,
    but for the pairs in [Foot.undeclared]; [SchedulerParallel] that a parallel tick
    is then a sequential one.  Here the two are put together: whole runs of a world
    in [Parallel] mode end in the state of the sequential run, whatever the
    interleavings. *)

From S2P Require Import Prelude MachineInt Float32 Identity BoundedQueue Components Trace JsonWriter.
From S2P Require Import Scheduler SchedulerParallel NeighbourTable Registry PeerKeys Transport FaultMonitor TaskAlloc.
From S2P Require Import ClockSync PartitionMerge Flocking Actions WorldState Discovery Beacon World WorldSafety.
From S2P Require Import WorldFootprint WorldParallel.
Local Open Scope Z_scope.

Module Det.
Import Comp WS World Safe Foot WPar.

Section Commutation.
Context {H E U : Type} `{!Platform} {TC : Reg.Toolchain} `{!Auth.Crypto} `{!Net.Transports H E} `{!Disc.Reliable H E}
  {Sd : Net.Sends H E}.
Variable user_handler : nat -> Message -> core H E U -> outcome (core H E U * bool).
Variable user_describe : nat -> Sched.SystemDescriptor.
Variable user_tick : nat -> Sched.SwarmContext -> Z -> core H E U -> outcome (core H E U).
Hypothesis user_ok : user_code_sound user_handler user_tick.
Hypothesis handlers_private : private_handlers user_handler.
Hypothesis D : distinct_ids.
Abbreviation ticks := (tick_system user_handler user_tick).
Abbreviation describe := (describe_system user_describe).
Abbreviation ok := (world_ok user_handler user_describe user_tick).
#[local] Hint Extern 0 (Sched.SystemOps _ _) =>
  exact (system_ops user_handler user_describe user_tick) : typeclass_instances.

(** Systems whose footprints meet only where they declare it. *)
Definition races_declared (l : list system) : Prop :=
  (forall s, s ∈ l -> built_in s = true) /\ (forall a b, (a, b) ∈ undeclared (Sd := Sd) -> a ∈ l -> b ∈ l -> False).

Lemma declared_commute cc l a b ctx dt w :
  races_declared l -> a ∈ l -> b ∈ l -> sound cc w -> Sched.have_hazard (describe a) (describe b) = false ->
  (let! w := ticks b ctx dt w in ticks a ctx dt w) = (let! w := ticks a ctx dt w in ticks b ctx dt w).
Proof.
  intros [Hb Hu] Ha Hb' S Hh. destruct (user_ok cc) as [Uh Ut].
  destruct (tick_system_ok cc user_handler user_tick Uh Ut a ctx dt w S) as (wa & Ea & _).
  destruct (tick_system_ok cc user_handler user_tick Uh Ut b ctx dt w S) as (wb & Eb & _).
  destruct (clash (Sd := Sd) a b) eqn:Ec.
  - destruct (clash_covered a b) as [->|[Hd|[Hd|Hd]]]; auto; [|by destruct (Hu a b Hd)|by destruct (Hu b a Hd)].
    pose proof (declared_hazard user_describe a b (Hb a Ha) (Hb b Hb') Hd). congruence.
  - destruct (no_clash_commute user_handler user_tick handlers_private D a b ctx dt w wa wb) as (v & E1 & E2); auto.
    rewrite Ea, Eb. cbn [obind]. by rewrite E1, E2.
Qed.

Lemma systems_commute cc ctx dt sch :
  races_declared sch.(Sched.systems_) -> Par.commuting ctx dt sch (sound cc).
Proof.
  intros R. constructor.
  - intros s w _ S. destruct (user_ok cc) as [Uh Ut]. exact (tick_system_ok cc user_handler user_tick Uh Ut s ctx dt w S).
  - intros a b w Ha Hb S. exact (declared_commute cc _ a b ctx dt w R Ha Hb S).
Qed.

(** ** Ticks and runs *)

(** A parallel tick that returns, in an interleaving in which the caller has seeded
    the ready systems before a worker releases a dependent ([Par.tick_start]). *)
Inductive tick_orderly (wd : @world H E U) : @world H E U -> Prop :=
| orderly_returns clk tid p s0 s w :
    let w0 := tick_begins wd in
    let ctx := w0.(context_) in
    wd.(scheduler_).(Sched.pool_) = Some p -> Par.tick_start wd.(scheduler_) p w0 s0 ->
    rtc (Par.tick_step ctx ctx.(Sched.delta_time_s) wd.(scheduler_)) s0 s -> s.(Par.main) = Par.Returned ->
    rotate_periodic (emit (Sched.emit_tick_event_ wd.(scheduler_) ctx ctx.(Sched.delta_time_s)) s.(Par.mem)) = Ok w ->
    tick_orderly wd (mk_world w (timed clk tid s.(Par.finished) wd.(scheduler_))).

(** The world with its scheduler in [Sequential] mode. *)
Definition in_sequential_mode (wd : @world H E U) : @world H E U :=
  let sch := wd.(scheduler_) in
  mk_world wd.(core_) (Sched.mk_sched Sched.Sequential sch.(Sched.thread_pool_size_) sch.(Sched.systems_) sch.(Sched.order_)
    sch.(Sched.dependents_) sch.(Sched.in_degree_initial_) sch.(Sched.pool_) sch.(Sched.last_timings_) sch.(Sched.built_)
    sch.(Sched.sink_)).

(** Two worlds with the same state, whose schedulers hold the same systems in the
    same order. *)
Definition alike (wd wd' : @world H E U) : Prop :=
  wd'.(core_) = wd.(core_) /\ wd'.(scheduler_).(Sched.systems_) = wd.(scheduler_).(Sched.systems_) /\
  wd'.(scheduler_).(Sched.order_) = wd.(scheduler_).(Sched.order_) /\
  wd'.(scheduler_).(Sched.built_) = wd.(scheduler_).(Sched.built_) /\
  wd'.(scheduler_).(Sched.sink_) = wd.(scheduler_).(Sched.sink_).

(** A world in [Parallel] mode whose invariant holds and whose races are declared. *)
Record parallel_ready cc (wd : @world H E U) : Prop := {
  pr_ok : ok cc wd;
  pr_mode : wd.(scheduler_).(Sched.mode_) = Sched.Parallel;
  pr_races : races_declared wd.(scheduler_).(Sched.systems_);
}.

Lemma ready_pool cc wd : parallel_ready cc wd -> exists p, wd.(scheduler_).(Sched.pool_) = Some p /\ (0 < p)%nat.
Proof. intros [[_ [Hs Hb]] Hm _]. exact (proj2 (Sched.sw_graph _ Hs Hb Hm)). Qed.

Lemma orderly_is_parallel cc wd wd' :
  parallel_ready cc wd -> tick_orderly wd wd' -> tick_parallel user_handler user_describe user_tick wd wd'.
Proof.
  intros [[S [Hs Hb]] Hm _] Ht. destruct Ht as [clk tid p s0 s w w0 ctx Hp Hs0 Hr Hret Hrot].
  apply (tick_returns _ _ _ wd clk tid s w); [exact (snd_init _ _ S)|exact Hb| |exact Hret|exact Hrot].
  exists p. split; [exact Hp|]. destruct Hs0 as [->|[-> _]]; [|exact Hr].
  etransitivity; [|exact Hr].
  exact (Par.seeded_reachable _ _ _ _ p w0 (Par.g_len _ _ _ _ _ (Par.sched_graph _ Hs Hb Hm))).
Qed.

Lemma orderly_ready cc wd wd' :
  parallel_ready cc wd -> tick_orderly wd wd' -> parallel_ready (next_context cc) wd'.
Proof.
  intros R Ht. destruct (tick_parallel_ok _ _ _ user_ok cc wd wd' (pr_ok _ _ R) (orderly_is_parallel cc wd wd' R Ht))
    as (W & Es & Em). destruct R as [_ Hm Hr]. constructor; [done|congruence|by rewrite Es].
Qed.

(** The sequential tick simulates it. *)
Lemma orderly_is_sequential cc wd wd' wq clk tid :
  parallel_ready cc wd -> alike wd wq -> tick_orderly wd wd' ->
  exists wq', tick user_handler user_describe user_tick clk tid wq = Ok wq' /\ alike wd' wq'.
Proof.
  intros [W Hm Hr] (Ec & Es & Eo & Eb & Ek) Ht. pose proof W as [S [Hs Hb]].
  destruct Ht as [clk' tid' p s0 s w w0 ctx Hp Hs0 Hstep Hret Hrot].
  destruct (proj2 (Sched.sw_graph _ Hs Hb Hm)) as (p' & Hp' & Hpos). assert (p' = p) as -> by congruence.
  destruct (Par.returned_is_sequential ctx ctx.(Sched.delta_time_s) wd.(scheduler_) (sound (next_context cc))
    (systems_commute (next_context cc) _ _ _ Hr) p w0 s0 s Hs Hb Hm Hpos
    (tick_begins_sound user_handler user_describe user_tick cc wd W) Hs0 Hstep Hret) as [_ Et].
  unfold tick. rewrite Ec, (snd_init _ _ S). cbn [negb]. change (decay_window (advance_context wd.(core_))) with w0.
  fold ctx. unfold Sched.tick_sequential. rewrite Eb, Hb. cbn [negb].
  rewrite Sched.dispatch_loop_spec by (rewrite Es, Eo, (Sched.sw_order _ Hs Hb); intros i; apply Sched.order_lt).
  rewrite Es, Eo, Et. cbn [obind].
  assert (Sched.emit_tick_event_ wq.(scheduler_) ctx ctx.(Sched.delta_time_s) =
          Sched.emit_tick_event_ wd.(scheduler_) ctx ctx.(Sched.delta_time_s)) as ->
    by (unfold Sched.emit_tick_event_; by rewrite Ek, Es).
  rewrite Hrot. cbn [obind]. eexists. split; [done|]. by split_and!.
Qed.

(** An orderly tick exists. *)
Lemma orderly_exists cc wd : parallel_ready cc wd -> exists wd', tick_orderly wd wd'.
Proof.
  intros R. destruct (ready_pool cc wd R) as (p & Hp & Hpos). destruct R as [W Hm Hr]. pose proof W as [S [Hs Hb]].
  set (w0 := tick_begins wd). set (ctx := w0.(context_)).
  set (s0 := Par.seeded_state (length wd.(scheduler_).(Sched.systems_)) wd.(scheduler_).(Sched.in_degree_initial_) p w0).
  assert (Par.tick_start wd.(scheduler_) p w0 s0) as Hs0 by by left.
  destruct (Par.tick_can_return ctx ctx.(Sched.delta_time_s) wd.(scheduler_) p w0 s0 Hs Hb Hm Hpos Hs0) as (s & Hst & Hret).
  assert (in_tick user_handler user_describe user_tick wd s) as Hi.
  { exists p. split; [exact Hp|]. etransitivity; [|exact Hst].
    exact (Par.seeded_reachable _ _ _ _ p w0 (Par.g_len _ _ _ _ _ (Par.sched_graph _ Hs Hb Hm))). }
  pose proof (in_tick_sound _ _ _ user_ok cc wd s W Hi) as Sm.
  destruct (end_of_tick_ok user_handler user_tick user_ok _
    (Sched.emit_tick_event_ wd.(scheduler_) ctx ctx.(Sched.delta_time_s)) _ Sm) as (w & Er & _).
  eexists. exact (orderly_returns wd (fun _ => (0, 0)) (fun _ => 0) p s0 s w Hp Hs0 Hst Hret Er).
Qed.

Lemma orderly_runs k : forall cc wd wq wd' fuel clk tid j,
  parallel_ready cc wd -> alike wd wq -> nsteps tick_orderly k wd wd' -> (k < fuel)%nat ->
  exists wq', run_loop user_handler user_describe user_tick fuel clk tid (fun i => (j + k <=? i)%nat) j wq = Some (Ok wq') /\
    alike wd' wq'.
Proof.
  induction k as [|k IH]; intros cc wd wq wd' fuel clk tid j R A Hn Hf;
    (destruct fuel as [|fuel]; [lia|]); cbn [run_loop].
  - inversion Hn; subst. rewrite (proj2 (Nat.leb_le _ _)) by lia. by exists wq.
  - inversion Hn as [|? ? wd1 ? H1' Hn']; subst. rewrite (proj2 (Nat.leb_gt _ _)) by lia.
    destruct (orderly_is_sequential cc wd wd1 wq (clk j) tid R A H1') as (wq1 & -> & A1).
    replace (j + S k)%nat with (S j + k)%nat by lia.
    exact (IH _ wd1 wq1 wd' fuel clk tid (S j) (orderly_ready cc wd wd1 R H1') A1 Hn' ltac:(lia)).
Qed.

Lemma orderly_runs_exist k : forall cc wd, parallel_ready cc wd -> exists wd', nsteps tick_orderly k wd wd'.
Proof.
  induction k as [|k IH]; intros cc wd R; [exists wd; constructor|].
  destruct (orderly_exists cc wd R) as (wd1 & H1'). destruct (IH _ wd1 (orderly_ready cc wd wd1 R H1')) as (wd' & Hn).
  exists wd'. by eapply nsteps_l.
Qed.
End Commutation.

(** The tick of one system after another's. *)
Definition in_turn {H E U} `{!Platform} `{!Reg.Toolchain} `{!Auth.Crypto} `{!Net.Transports H E} user_handler user_tick
    (a b : system) (ctx : Sched.SwarmContext) (dt : Z) (w : core H E U) : outcome (core H E U) :=
  let! w := tick_system user_handler user_tick a ctx dt w in tick_system user_handler user_tick b ctx dt w.

(** C9: the declared sets order everything that matters.  Let [a] and [b] be built-in
    systems whose descriptors have no hazard in common, and not one of the pairs of
    [undeclared].  On every world whose invariant holds their ticks commute: run in
    either order they succeed and leave the same world, all its components, tables,
    keys, clocks, trace and transports included.  The application's handlers are
    assumed to touch the application's state only. *)
Theorem hazard_free_ticks_commute {H E U} `{!Platform} {TC : Reg.Toolchain} `{!Auth.Crypto} `{!Net.Transports H E}
    `{!Disc.Reliable H E} {Sd : Net.Sends H E} user_handler user_describe user_tick cc a b ctx dt (w : core H E U) :
  distinct_ids -> user_code_sound user_handler user_tick -> private_handlers user_handler ->
  built_in a = true -> built_in b = true ->
  Sched.have_hazard (describe_system user_describe a) (describe_system user_describe b) = false ->
  (a, b) ∉ undeclared (Sd := Sd) -> (b, a) ∉ undeclared (Sd := Sd) -> sound cc w ->
  exists w', in_turn user_handler user_tick a b ctx dt w = Ok w' /\ in_turn user_handler user_tick b a ctx dt w = Ok w'.
Proof.
  unfold in_turn. intros D Hu Hp Ha Hb Hh Hab Hba S. destruct (Hu cc) as [Uh Ut].
  destruct (tick_system_ok cc user_handler user_tick Uh Ut a ctx dt w S) as (wa & Ea & Sa).
  destruct (tick_system_ok cc user_handler user_tick Uh Ut b ctx dt wa Sa) as (w' & Eb & _).
  exists w'. rewrite Ea. cbn [obind]. split; [done|].
  destruct (clash (Sd := Sd) a b) eqn:Ec.
  - destruct (clash_covered a b Ha Hb Ec) as [<-|[Hd|[Hd|Hd]]]; [by rewrite Ea|..|done|done].
    pose proof (declared_hazard user_describe a b Ha Hb Hd). congruence.
  - destruct (tick_system_ok cc user_handler user_tick Uh Ut b ctx dt w S) as (wb & Eb' & _).
    destruct (no_clash_commute user_handler user_tick Hp D a b ctx dt w wa wb Ha Hb Ec Ea Eb') as (v & E1 & E2).
    rewrite Eb'. cbn [obind]. congruence.
Qed.

(** C8: a run with the parallel scheduler computes what the sequential run does.
    Set up and initialise a world in [Parallel] mode with built-in systems, not both
    of a pair in [undeclared].  Ticks in which the caller seeds the ready systems
    first exist for any number of them, and whatever the interleavings of these
    ticks, the run loop of the same world in [Sequential] mode makes the same number
    of ticks without an abort and ends with exactly the same state: parallel runs
    are deterministic.  The application's handlers keep the invariant and touch the
    application's state only. *)
Theorem parallel_run_is_sequential {H E U} `{!Platform} {TC : Reg.Toolchain} `{!Auth.Crypto} `{!Net.Transports H E}
    `{!Disc.Reliable H E} {Sd : Net.Sends H E} user_handler user_describe user_tick config (t b m : option H) (env : E)
    (user : U) entropy draws cs wd0 :
  distinct_ids -> 0 <= config.(thread_pool_size) -> Disc.env_ok env -> config.(scheduler_mode) = Sched.Parallel ->
  user_code_sound user_handler user_tick -> private_handlers user_handler ->
  wd0 ∈ [new_world config env user entropy draws; new_world_unified config t env user entropy draws;
         new_world_split config b m env user entropy draws] ->
  good_calls user_describe cs -> races_declared (Sd := Sd) (constructed cs) ->
  exists wd1 wd2, exec_calls user_handler user_describe user_tick cs wd0 = Ok wd1 /\
    init user_handler user_describe user_tick wd1 = Ok wd2 /\
    forall k, (exists wd, nsteps (tick_orderly user_handler user_describe user_tick) k wd2 wd) /\
      forall wd fuel clk tid, nsteps (tick_orderly user_handler user_describe user_tick) k wd2 wd -> (k < fuel)%nat ->
        exists wq, run user_handler user_describe user_tick fuel clk tid (fun i => (k <=? i)%nat) (in_sequential_mode wd2)
                     = Some (Ok wq) /\
          wq.(core_) = wd.(core_).
Proof.
  intros D Hp He Hmode Hu Hpr Hw [Gn Gt] Hr.
  set (cc := (config, Sched.mk_ctx config.(cfg_swarm_id) 0 0 0)).
  assert (fresh user_handler user_describe user_tick cc wd0 /\ wd0.(scheduler_).(Sched.systems_) = [] /\
          wd0.(scheduler_).(Sched.mode_) = Sched.Parallel) as (F0 & S0 & M0).
  { repeat (apply elem_of_cons in Hw as [->|Hw]; [split; [by apply new_fresh|done]|]). by apply not_elem_of_nil in Hw. }
  destruct (exec_calls_fresh user_handler user_describe user_tick cc cs wd0 F0) as (wd & Ec & F & Sc);
    [by rewrite S0|done|]. rewrite S0 in Sc. cbn [app] in Sc.
  destruct (init_ok user_handler user_describe user_tick cc wd D F) as (wd2 & Ei & W & _ & _ & _ & _ & _ & _ & _ & _ & _ & Ss).
  assert (parallel_ready user_handler user_describe user_tick cc wd2) as R.
  { constructor; [done| |by rewrite Ss, Sc]. by rewrite (init_mode _ _ _ _ _ Ei), (exec_calls_mode _ _ _ _ _ _ Ec). }
  exists wd, wd2. split; [done|]. split; [done|]. intros k.
  split; [by eapply orderly_runs_exist|]. intros wd3 fuel clk tid Hn Hf.
  destruct (orderly_runs _ _ _ Hu Hpr D k cc wd2 (in_sequential_mode wd2) wd3 fuel clk tid 0 R) as (wq & Er & Ew & _);
    [done..|]. exists wq. split; [|done]. unfold run. cbn [in_sequential_mode core_].
  by rewrite (snd_init _ _ (wo_core _ _ _ _ _ W)).
Qed.

(** ** Examples *)

#[local] Existing Instance Net.wire_transports.
#[local] Existing Instance Disc.wire_reliable.
#[local] Existing Instance Net.wire_sends.
#[local] Existing Instance Reg.gcc.
#[local] Existing Instance Auth.toy_crypto.
#[local] Instance unsigned : Platform := sample_platform false.

Lemma no_handler_private : private_handlers no_handler.
Proof. intros n m. exists (fun u => u), (fun _ => false). intros w. by destruct w. Qed.
Lemma idle_code_sound : user_code_sound no_handler idle.
Proof.
  intros cc. split.
  - intros n m w S. by exists w, false.
  - intros n ctx dt w S. by exists w.
Qed.

(** Every built-in system but one of each undeclared pair. *)
Definition declared_setup : list call :=
  RegisterSystem <$> [CBeacon; CDiscovery default_dparams; CFaultMonitor FM.default_params; CTaskAlloc TA.default_params;
    CFlocking Flock.default_params; CKinematics; CClockSync CS.default_params; CValidator; CMove; CHover].
Lemma declared_setup_good : good_calls no_system declared_setup.
Proof.
  constructor; [by_computation|]. intros n Hn. unfold declared_setup in Hn. apply list_elem_of_fmap in Hn as (c & Hc & _). done.
Qed.
Lemma declared_setup_races : races_declared (constructed declared_setup).
Proof.
  split.
  - intros s Hs. apply (proj1 (Forall_forall (fun s => built_in s = true) (constructed declared_setup))); [by_computation|done].
  - intros a b Hab Ha Hb. cbn in Hab. repeat (apply elem_of_cons in Hab as [[= -> ->]|Hab]); [| |by apply not_elem_of_nil in Hab].
    + revert Hb. by_computation.
    + revert Ha. by_computation.
Qed.

Lemma parallel_run_is_sequential_witness :
  exists wd2 wd wq, nsteps (tick_orderly no_handler no_system idle) 3 wd2 wd /\
    run no_handler no_system idle 9 (fun _ _ => (0, 0)) 7 (fun i => (3 <=? i)%nat) (in_sequential_mode wd2) = Some (Ok wq) /\
    wq.(core_) = wd.(core_).
Proof.
  destruct (parallel_run_is_sequential no_handler no_system idle parallel_config (Some tt) None None Net.empty_wire tt 0 0
    declared_setup (new_world_unified parallel_config (Some tt) Net.empty_wire tt 0 0)) as (wd1 & wd2 & Ec & Ei & Hall).
  - exact Reg.gcc_builtin_ids.
  - cbn. lia.
  - exact I.
  - reflexivity.
  - exact idle_code_sound.
  - exact no_handler_private.
  - right. left.
  - exact declared_setup_good.
  - exact declared_setup_races.
  - destruct (Hall 3%nat) as [[wd Hn] Hs]. destruct (Hs wd 9%nat (fun _ _ => (0, 0)) 7 Hn) as (wq & Er & Ew); [lia|].
    exists wd2, wd, wq. split; [exact Hn|]. split; [exact Er|exact Ew].
Defined.

(** An initialised world, after some calls of the application on it. *)
Definition after_init (cs : list call) (env : Net.wire) (between : core unit Net.wire unit -> core unit Net.wire unit)
    : @world unit Net.wire unit :=
  let wd := new_world_unified parallel_config (Some tt) env tt 0 0 in
  match exec_calls no_handler no_system idle cs wd with
  | Ok wd => match init no_handler no_system idle wd with Ok wd => map_core between wd | _ => wd end
  | _ => wd
  end.

Lemma hazard_free_ticks_commute_witness :
  let w := (after_init declared_setup Net.empty_wire id).(core_) in
  let ctx := Sched.mk_ctx 1 0 0 0 in
  exists w', in_turn no_handler idle SValidator SBeacon ctx F32.one w = Ok w' /\
             in_turn no_handler idle SBeacon SValidator ctx F32.one w = Ok w'.
Proof.
  intros w ctx.
  destruct (exec_calls_fresh no_handler no_system idle (parallel_config, Sched.mk_ctx 1 0 0 0) declared_setup
    (new_world_unified parallel_config (Some tt) Net.empty_wire tt 0 0)) as (wd1 & E1 & F1 & _).
  { apply (new_fresh no_handler no_system idle parallel_config (Some tt) None None); [cbn; lia|exact I]. }
  { exact (gc_names _ _ declared_setup_good). }
  { exact (gc_types _ _ declared_setup_good). }
  destruct (init_ok no_handler no_system idle _ wd1 Reg.gcc_builtin_ids F1) as (wd2 & E2 & W & _).
  assert (w = wd2.(core_)) as ->.
  { unfold w, after_init. rewrite E1, E2. by destruct wd2. }
  destruct (hazard_free_ticks_commute no_handler no_system idle (parallel_config, ctx) SValidator SBeacon
    ctx F32.one wd2.(core_)) as (w' & E & E').
  - exact Reg.gcc_builtin_ids.
  - exact idle_code_sound.
  - exact no_handler_private.
  - reflexivity.
  - reflexivity.
  - vm_compute. reflexivity.
  - by_computation.
  - by_computation.
  - exact (wo_core _ _ _ _ _ W).
  - exists w'. split; [exact E|exact E'].
Defined.

(** A parallel tick that follows a list of choices. *)
Definition follow_tick (cs : list Par.choice) (wd : @world unit Net.wire unit) : option Par.pstate :=
  let w := tick_begins wd in
  let n := length wd.(scheduler_).(Sched.systems_) in
  Par.follow n wd.(scheduler_).(Sched.dependents_)
    (Par.tick_effect (SystemOps0 := system_ops no_handler no_system idle) w.(context_) w.(context_).(Sched.delta_time_s)
       wd.(scheduler_).(Sched.systems_)) cs
    (Par.seeded_state n wd.(scheduler_).(Sched.in_degree_initial_) 2 w).

Lemma follow_orderly cs wd s :
  wd.(scheduler_).(Sched.pool_) = Some 2%nat -> follow_tick cs wd = Some s -> s.(Par.main) = Par.Returned ->
  s.(Par.mem).(config_) = parallel_config ->
  exists wd', tick_orderly no_handler no_system idle wd wd' /\ wd'.(core_).(env_) = s.(Par.mem).(env_) /\
    wd'.(core_).(registry_) = s.(Par.mem).(registry_).
Proof.
  intros Hp Hf Hr Hc. eexists. split.
  - eapply (orderly_returns _ _ _ wd (fun _ => (0, 0)) (fun _ => 0) 2 _ s _ Hp); [by left| |exact Hr|].
    + exact (Par.follow_reachable _ _ _ _ _ _ Hf).
    + unfold rotate_periodic. cbn [emit with_trace config_]. rewrite Hc. reflexivity.
  - done.
Qed.

(** A peer's beacon, with a clock ahead by 40 seconds. *)
Definition peer (n : nat) : StateVector :=
  mk_sv (Disc.node_id n) default_pos default_vel default_health default_role default_state 0 (F32.of_Z 40)
    zero_key zero_signature.

(** The workers take turns: the second one holds the last system while the first
    runs the one before. *)
Definition turns (w : nat) (n : nat) : list Par.choice := replicate n (Par.Worker w).

(** The application has queued a TRANSMIT action; a peer's beacon has arrived. *)
Definition transmit_queued (w : core unit Net.wire unit) : core unit Net.wire unit :=
  match Reg.get ActionQueueComponent w.(registry_) Reg.SELF_ENTITY with
  | Ok aq =>
      let q := (BQ.push AQ_CAPACITY BQ.DropNewest (Act.action TRANSMIT) aq.(aq_queue)).1 in
      match Reg.set w.(registry_) Reg.SELF_ENTITY
              (mk_aq q aq.(permission_rejections_total) aq.(last_rejection_tick) aq.(validated) aq.(validated_count)) with
      | Ok reg => with_registry reg w
      | _ => w
      end
  | _ => w
  end.
Definition clock_race : @world unit Net.wire unit :=
  after_init (RegisterSystem <$> [CValidator; CBeacon; CClockSync CS.default_params; CTransmit])
    (Net.mk_wire [] [] [peer 1] []) transmit_queued.
(** The first worker runs all but the last two systems, of which each worker takes
    one; the first or the second worker is faster. *)
Definition first_faster (n : nat) : list Par.choice :=
  turns 0 (S n) ++ turns 1 1 ++ turns 0 1 ++ turns 1 1 ++ turns 0 1 ++ turns 1 1 ++ [Par.Main].
Definition second_faster (n : nat) : list Par.choice :=
  turns 0 (S n) ++ turns 1 1 ++ turns 1 1 ++ turns 0 1 ++ turns 0 1 ++ turns 1 1 ++ [Par.Main].

(** Two peers' beacons have arrived; the allocator wants everyone in role 1. *)
Definition merge_race : @world unit Net.wire unit :=
  after_init (RegisterSystem <$> [CBeacon; CPartitionMerge PM.default_params;
      CTaskAlloc (TA.mk_params (<[1%nat := F32.one]> TA.default_params.(TA.desired_ratios))
                    TA.default_params.(TA.thresholds) F32.one F32.one)])
    (Net.mk_wire [] [] [peer 1; peer 2] []) id.

(** What tells the runs apart: the time stamps of the messages sent; the role. *)
Definition timestamps (e : Net.wire) : list Z := m_timestamp_s <$> e.(Net.sent_messages).
Definition role_of (r : Reg.t) : option Z :=
  match Reg.get RoleComponent r Reg.SELF_ENTITY with Ok c => Some c.(role) | _ => None end.

(** C38: two pairs of built-in systems race although nothing is declared.  The clock
    synchronisation and the transmit handler share the clock offset, the partition
    merge and the task allocator the merge window; their descriptors have no hazard
    in common.  In a world in [Parallel] mode in which a peer's beacon and a
    TRANSMIT action wait, two interleavings of the same tick stamp the message with
    different times; and when two peers arrive at once, one interleaving switches
    the node's role and the other does not. *)
Theorem undeclared_races :
  Sched.have_hazard (describe_system no_system SClockSync) (describe_system no_system STransmit) = false /\
  Sched.have_hazard (describe_system no_system SPartitionMerge) (describe_system no_system STaskAlloc) = false /\
  (exists a b, tick_orderly no_handler no_system idle clock_race a /\ tick_orderly no_handler no_system idle clock_race b /\
     timestamps a.(core_).(env_) = [1065772646] /\ timestamps b.(core_).(env_) = [1028443341]) /\
  (exists a b, tick_orderly no_handler no_system idle merge_race a /\ tick_orderly no_handler no_system idle merge_race b /\
     role_of a.(core_).(registry_) = Some 1 /\ role_of b.(core_).(registry_) = Some 0).
Proof.
  assert (forall (T : Type) (obs : @world unit Net.wire unit -> T) cs wd v,
    wd.(scheduler_).(Sched.pool_) = Some 2%nat ->
    match follow_tick cs wd with
    | Some s => s.(Par.main) = Par.Returned /\ s.(Par.mem).(config_) = parallel_config /\
        forall wd' : @world unit Net.wire unit, wd'.(core_).(env_) = s.(Par.mem).(env_) ->
          wd'.(core_).(registry_) = s.(Par.mem).(registry_) -> obs wd' = v
    | None => False
    end -> exists wd', tick_orderly no_handler no_system idle wd wd' /\ obs wd' = v) as F.
  { intros T obs cs wd v Hp Hs. destruct (follow_tick cs wd) as [s|] eqn:E; [|done]. destruct Hs as (Hr & Hc & Ho).
    destruct (follow_orderly cs wd s Hp E Hr Hc) as (wd' & Ht & He & Hg). exists wd'. split; [exact Ht|by apply Ho]. }
  split; [vm_compute; reflexivity|]. split; [vm_compute; reflexivity|]. split.
  - destruct (F _ (fun wd => timestamps wd.(core_).(env_)) (first_faster 9) clock_race [1065772646]) as (a & Ta & Oa);
      [vm_compute; reflexivity|vm_compute; split_and!; [reflexivity..|by intros wd' -> _]|].
    destruct (F _ (fun wd => timestamps wd.(core_).(env_)) (second_faster 9) clock_race [1028443341]) as (b & Tb & Ob);
      [vm_compute; reflexivity|vm_compute; split_and!; [reflexivity..|by intros wd' -> _]|].
    exists a, b. by split_and!.
  - destruct (F _ (fun wd => role_of wd.(core_).(registry_)) (first_faster 5) merge_race (Some 1)) as (a & Ta & Oa);
      [vm_compute; reflexivity|vm_compute; split_and!; [reflexivity..|by intros wd' _ ->]|].
    destruct (F _ (fun wd => role_of wd.(core_).(registry_)) (second_faster 5) merge_race (Some 0)) as (b & Tb & Ob);
      [vm_compute; reflexivity|vm_compute; split_and!; [reflexivity..|by intros wd' _ ->]|].
    exists a, b. by split_and!.
Qed.
End Det.
