(* ===== verification/WorldDump.v ===== *)
(** The state dump of the world ([World::dump_state] in [src/core/world.cpp]): the
    calls it makes on the JSON writer, and that its text reads back as the state. *)

From S2P Require Import Prelude MachineInt Float32 Identity BoundedQueue Components Trace JsonWriter.
From S2P Require Import Scheduler NeighbourTable Registry PeerKeys Transport Actions WorldState World.
Local Open Scope Z_scope.

Module Dump.
Import Comp WS World.

Section Dump.
(** [snprintf "%.17g"] of a finite double. *)
Variable print_g17 : Z -> list Z.
Abbreviation write_f64 := (JW.write_f64 print_g17).

(** A three-dimensional value under a key; the lines are repeated in the source
    for the position, the velocity and each neighbour. *)
(* @src src/core/world.cpp:288-294 World::dump_state *)
Definition dump_vector (k x y z : list Z) (vx vy vz : Z) (w : JW.t) : JW.t :=
  let w := JW.begin_object (JW.key w k) in
  let w := write_f64 (JW.key w x) (F32.to_f64 vx) in
  let w := write_f64 (JW.key w y) (F32.to_f64 vy) in
  let w := write_f64 (JW.key w z) (F32.to_f64 vz) in
  JW.end_object w.
Definition dump_position (p : PositionComponent) (w : JW.t) : JW.t :=
  dump_vector (codes "position") (codes "x") (codes "y") (codes "z") p.(x) p.(y) p.(z) w.

(* @src src/core/world.cpp:281-319 World::dump_state *)
Definition dump_self `{!Reg.Toolchain} (reg : Reg.t) (w : JW.t) : outcome JW.t :=
  let w := JW.begin_object (JW.key w (codes "self")) in
  let! i := Reg.get IdentityComponent reg Reg.SELF_ENTITY in
  let w := JW.write_string (JW.key w (codes "id")) (Id.to_string i.(ic_id)) in
  let! pos := Reg.get PositionComponent reg Reg.SELF_ENTITY in
  let w := dump_position pos w in
  let! vel := Reg.get VelocityComponent reg Reg.SELF_ENTITY in
  let w := dump_vector (codes "velocity") (codes "vx") (codes "vy") (codes "vz") vel.(vx) vel.(vy) vel.(vz) w in
  let! h := Reg.get HealthComponent reg Reg.SELF_ENTITY in
  let w := JW.write_u64 (JW.key w (codes "health")) h.(value) in
  let! r := Reg.get RoleComponent reg Reg.SELF_ENTITY in
  let w := JW.write_u64 (JW.key w (codes "role")) r.(role) in
  let! s := Reg.get BehaviourStateComponent reg Reg.SELF_ENTITY in
  let w := JW.write_u64 (JW.key w (codes "state")) s.(state) in
  let! aq := Reg.get ActionQueueComponent reg Reg.SELF_ENTITY in
  let w := JW.write_u64 (JW.key w (codes "action_queue_size")) (Z.of_nat (BQ.size aq.(aq_queue))) in
  let w := JW.write_u64 (JW.key w (codes "action_queue_dropped")) (BQ.dropped_count aq.(aq_queue)) in
  let w := JW.write_u64 (JW.key w (codes "permission_rejections")) aq.(permission_rejections_total) in
  let! cb := Reg.get CommBufferComponent reg Reg.SELF_ENTITY in
  let w := JW.write_u64 (JW.key w (codes "comm_buffer_size")) (Z.of_nat (BQ.size cb.(cb_queue))) in
  let w := JW.write_u64 (JW.key w (codes "comm_buffer_dropped")) (BQ.dropped_count cb.(cb_queue)) in
  Ok (JW.end_object w).

(* @src src/core/world.cpp:326-337 World::dump_state *)
Definition dump_neighbour (w : JW.t) (n : NT.Entry) : JW.t :=
  let w := JW.begin_object w in
  let w := JW.write_string (JW.key w (codes "id")) (Id.to_string n.(NT.hid)) in
  let w := write_f64 (JW.key w (codes "last_seen_s")) (F32.to_f64 n.(NT.last_seen_s)) in
  let w := dump_position n.(NT.position) w in
  JW.end_object w.

(** Start and duration are doubles already. *)
(* @src src/core/world.cpp:346-353 World::dump_state *)
Definition dump_timing (w : JW.t) (t : Sched.SystemTiming) : JW.t :=
  let w := JW.begin_object w in
  let w := JW.write_string (JW.key w (codes "name")) t.(Sched.tm_name) in
  let w := write_f64 (JW.key w (codes "start_us")) t.(Sched.start_us) in
  let w := write_f64 (JW.key w (codes "duration_us")) t.(Sched.duration_us) in
  let w := JW.write_u64 (JW.key w (codes "thread_id")) t.(Sched.thread_id) in
  JW.end_object w.

(* @src src/core/world.cpp:271-359 World::dump_state *)
Definition dump_state {H E U} `{!Reg.Toolchain} (wd : @world H E U) : outcome (list Z) :=
  let c := wd.(core_) in
  let w := JW.begin_object JW.new_writer in
  let w := JW.write_u64 (JW.key w (codes "swarm_id")) c.(config_).(cfg_swarm_id) in
  let w := JW.write_u64 (JW.key w (codes "tick")) c.(context_).(Sched.tick_count) in
  let w := write_f64 (JW.key w (codes "elapsed_time_s")) (F32.to_f64 c.(context_).(Sched.elapsed_time_s)) in
  let w := JW.write_bool (JW.key w (codes "initialized")) c.(initialized_) in
  let! w := if c.(initialized_) then dump_self c.(registry_) w else Ok w in
  let nt := c.(neighbour_table_) in
  let w := JW.write_u64 (JW.key w (codes "neighbour_count")) (Z.of_nat (NT.count nt)) in
  let w := JW.write_u64 (JW.key w (codes "neighbour_observations")) nt.(NT.total_observations_) in
  let w := JW.write_u64 (JW.key w (codes "neighbour_evictions")) nt.(NT.total_evictions_) in
  let w := JW.begin_array (JW.key w (codes "neighbours")) in
  let w := JW.end_array (fold_left dump_neighbour nt.(NT.entries_) w) in
  let sch := wd.(scheduler_) in
  let w := JW.begin_object (JW.key w (codes "scheduler")) in
  let w := JW.write_u64 (JW.key w (codes "system_count")) (Z.of_nat (length sch.(Sched.systems_))) in
  let w := JW.begin_array (JW.key w (codes "last_tick_timings")) in
  let w := JW.end_array (fold_left dump_timing sch.(Sched.last_timings_) w) in
  let w := JW.end_object w in
  let w := JW.end_object w in
  Ok (JW.take w).1.

(** ** The document *)

Definition vector_json (x y z : list Z) (vx vy vz : Z) : JW.json :=
  JW.Obj [(x, JW.F64 (F32.to_f64 vx)); (y, JW.F64 (F32.to_f64 vy)); (z, JW.F64 (F32.to_f64 vz))].
Definition position_json (p : PositionComponent) : JW.json :=
  vector_json (codes "x") (codes "y") (codes "z") p.(x) p.(y) p.(z).

(** The components the document shows. *)
Record self_state := mk_self {
  st_id : Id.HierarchicalID;
  st_pos : PositionComponent;
  st_vel : VelocityComponent;
  st_health : HealthComponent;
  st_role : RoleComponent;
  st_state : BehaviourStateComponent;
  st_queue : ActionQueueComponent;
  st_buffer : CommBufferComponent;
}.

Definition self_json (s : self_state) : JW.json :=
  JW.Obj [(codes "id", JW.Str (Id.to_string s.(st_id)));
          (codes "position", position_json s.(st_pos));
          (codes "velocity", vector_json (codes "vx") (codes "vy") (codes "vz") s.(st_vel).(vx) s.(st_vel).(vy) s.(st_vel).(vz));
          (codes "health", JW.U64 s.(st_health).(value));
          (codes "role", JW.U64 s.(st_role).(role));
          (codes "state", JW.U64 s.(st_state).(state));
          (codes "action_queue_size", JW.U64 (Z.of_nat (BQ.size s.(st_queue).(aq_queue))));
          (codes "action_queue_dropped", JW.U64 (BQ.dropped_count s.(st_queue).(aq_queue)));
          (codes "permission_rejections", JW.U64 s.(st_queue).(permission_rejections_total));
          (codes "comm_buffer_size", JW.U64 (Z.of_nat (BQ.size s.(st_buffer).(cb_queue))));
          (codes "comm_buffer_dropped", JW.U64 (BQ.dropped_count s.(st_buffer).(cb_queue)))].

Definition neighbour_json (n : NT.Entry) : JW.json :=
  JW.Obj [(codes "id", JW.Str (Id.to_string n.(NT.hid)));
          (codes "last_seen_s", JW.F64 (F32.to_f64 n.(NT.last_seen_s)));
          (codes "position", position_json n.(NT.position))].

Definition timing_json (t : Sched.SystemTiming) : JW.json :=
  JW.Obj [(codes "name", JW.Str t.(Sched.tm_name)); (codes "start_us", JW.F64 t.(Sched.start_us));
          (codes "duration_us", JW.F64 t.(Sched.duration_us)); (codes "thread_id", JW.U64 t.(Sched.thread_id))].

Definition state_json {H E U} (wd : @world H E U) (self : option self_state) : JW.json :=
  let c := wd.(core_) in
  let nt := c.(neighbour_table_) in
  JW.Obj ([(codes "swarm_id", JW.U64 c.(config_).(cfg_swarm_id));
           (codes "tick", JW.U64 c.(context_).(Sched.tick_count));
           (codes "elapsed_time_s", JW.F64 (F32.to_f64 c.(context_).(Sched.elapsed_time_s)));
           (codes "initialized", JW.Bool (match self with Some _ => true | None => false end))] ++
          (match self with Some s => [(codes "self", self_json s)] | None => [] end) ++
          [(codes "neighbour_count", JW.U64 (Z.of_nat (NT.count nt)));
           (codes "neighbour_observations", JW.U64 nt.(NT.total_observations_));
           (codes "neighbour_evictions", JW.U64 nt.(NT.total_evictions_));
           (codes "neighbours", JW.Arr (map neighbour_json nt.(NT.entries_)));
           (codes "scheduler",
             JW.Obj [(codes "system_count", JW.U64 (Z.of_nat (length wd.(scheduler_).(Sched.systems_))));
                     (codes "last_tick_timings", JW.Arr (map timing_json wd.(scheduler_).(Sched.last_timings_)))])]).

(** The calls write exactly the document.  One member of an object at a time: *)
Definition member (w : JW.t) (kv : list Z * JW.json) : JW.t := JW.write print_g17 kv.2 (JW.key w kv.1).

Lemma member_u64 w k v : JW.write_u64 (JW.key w k) v = member w (k, JW.U64 v).
Proof. done. Qed.
Lemma member_f64 w k v : write_f64 (JW.key w k) v = member w (k, JW.F64 v).
Proof. done. Qed.
Lemma member_str w k v : JW.write_string (JW.key w k) v = member w (k, JW.Str v).
Proof. done. Qed.
Lemma member_bool w k v : JW.write_bool (JW.key w k) v = member w (k, JW.Bool v).
Proof. done. Qed.
Lemma write_obj l w : JW.write print_g17 (JW.Obj l) w = JW.end_object (fold_left member l (JW.begin_object w)).
Proof. done. Qed.
Lemma member_obj w k l : JW.end_object (fold_left member l (JW.begin_object (JW.key w k))) = member w (k, JW.Obj l).
Proof. done. Qed.
Lemma member_arr w k l :
  JW.end_array (fold_left (fun w j => JW.write print_g17 j w) l (JW.begin_array (JW.key w k))) = member w (k, JW.Arr l).
Proof. done. Qed.
Lemma fold_members w kv l : fold_left member l (member w kv) = fold_left member (kv :: l) w.
Proof. done. Qed.

(** Turn the calls into members, innermost first, then fold them into a list. *)
Ltac members := rewrite ?member_u64, ?member_f64, ?member_str, ?member_bool.
Ltac unfold_members :=
  repeat match goal with |- context [fold_left member (?kv :: ?l) ?w] => rewrite <- (fold_members w kv l) end;
  repeat match goal with |- context [fold_left member [] ?w] => change (fold_left member [] w) with w end.

Lemma dump_vector_spec k x y z a b c w :
  dump_vector k x y z a b c w = member w (k, vector_json x y z a b c).
Proof.
  unfold dump_vector, vector_json. members. rewrite <- member_obj. unfold_members. reflexivity.
Qed.

Lemma dump_neighbour_spec w n : dump_neighbour w n = JW.write print_g17 (neighbour_json n) w.
Proof.
  unfold dump_neighbour, neighbour_json, dump_position. rewrite dump_vector_spec. members.
  rewrite write_obj. unfold_members. reflexivity.
Qed.

Lemma dump_timing_spec w t : dump_timing w t = JW.write print_g17 (timing_json t) w.
Proof. unfold dump_timing, timing_json. members. rewrite write_obj. unfold_members. reflexivity. Qed.

Lemma fold_write {A} (f : JW.t -> A -> JW.t) (g : A -> JW.json) l w :
  (forall w a, f w a = JW.write print_g17 (g a) w) ->
  fold_left f l w = fold_left (fun w j => JW.write print_g17 j w) (map g l) w.
Proof. intros Hf. revert w. induction l as [|a l IH]; intros w; [done|]. cbn [fold_left map]. by rewrite Hf, IH. Qed.

(** The components read from the registry. *)
Definition holds `{!Reg.Toolchain} (reg : Reg.t) (s : self_state) : Prop :=
  Reg.get IdentityComponent reg Reg.SELF_ENTITY = Ok (mk_identity s.(st_id)) /\
  Reg.get PositionComponent reg Reg.SELF_ENTITY = Ok s.(st_pos) /\
  Reg.get VelocityComponent reg Reg.SELF_ENTITY = Ok s.(st_vel) /\
  Reg.get HealthComponent reg Reg.SELF_ENTITY = Ok s.(st_health) /\
  Reg.get RoleComponent reg Reg.SELF_ENTITY = Ok s.(st_role) /\
  Reg.get BehaviourStateComponent reg Reg.SELF_ENTITY = Ok s.(st_state) /\
  Reg.get ActionQueueComponent reg Reg.SELF_ENTITY = Ok s.(st_queue) /\
  Reg.get CommBufferComponent reg Reg.SELF_ENTITY = Ok s.(st_buffer).

Lemma dump_self_spec `{!Reg.Toolchain} reg s w :
  holds reg s -> dump_self reg w = Ok (member w (codes "self", self_json s)).
Proof.
  intros (G1 & G2 & G3 & G4 & G5 & G6 & G7 & G8). unfold dump_self.
  rewrite G1, G2, G3, G4, G5, G6, G7, G8. cbn [obind ic_id]. unfold dump_position. rewrite !dump_vector_spec.
  members. unfold self_json, position_json. rewrite <- member_obj. unfold_members. reflexivity.
Qed.

Lemma dump_state_spec {H E U} `{!Reg.Toolchain} (wd : @world H E U) self :
  match self with
  | Some s => wd.(core_).(initialized_) = true /\ holds wd.(core_).(registry_) s
  | None => wd.(core_).(initialized_) = false
  end ->
  dump_state wd = Ok (JW.write print_g17 (state_json wd self) JW.new_writer).(JW.buf_).
Proof.
  intros Hs. unfold dump_state.
  destruct self as [s|]; [destruct Hs as [-> Hs]; rewrite (dump_self_spec _ s) by done|rewrite Hs]; cbn [obind];
    rewrite (fold_write dump_neighbour neighbour_json) by apply dump_neighbour_spec;
    rewrite (fold_write dump_timing timing_json) by apply dump_timing_spec;
    members; rewrite ?member_arr; members; unfold state_json; rewrite write_obj; cbn [app]; unfold_members;
    rewrite <- ?member_obj; unfold_members; reflexivity.
Qed.
End Dump.

(** ** Reading it back *)

Lemma is_bytes_insert (l : list Z) i v : MI.is_bytes l -> MI.is_u8 v -> MI.is_bytes (<[i:=v]> l).
Proof. intros Hl Hv. by apply Forall_insert. Qed.

Lemma hex_char_u8 n : 0 <= n < 16 -> MI.is_u8 (Id.hex_char n).
Proof. intros Hn. unfold Id.hex_char, MI.is_u8. destruct (Z.ltb_spec n 10); lia. Qed.

Lemma nibble_lo n : 0 <= Z.land n 15 < 16.
Proof. change 15 with (Z.ones 4). rewrite Z.land_ones by lia. apply Z.mod_pos_bound. lia. Qed.

Lemma nibble_hi b : MI.is_u8 b -> 0 <= Z.shiftr b 4 < 16.
Proof.
  unfold MI.is_u8. intros Hb. rewrite Z.shiftr_div_pow2 by lia. change (2 ^ 4) with 16.
  split; [apply Z.div_pos; lia|apply Z.div_lt_upper_bound; lia].
Qed.

Lemma to_string_bytes h : Id.wf_hid h -> MI.is_bytes (Id.to_string h).
Proof.
  intros [_ [_ Hb]]. unfold Id.to_string. apply MI.is_bytes_app. split.
  - repeat (apply Forall_cons; split; [apply hex_char_u8, nibble_lo|]).
    apply Forall_cons. split; [unfold MI.is_u8, Id.colon; lia|by apply Forall_nil].
  - unfold Id.uuid_to_string.
    assert (forall l s, MI.is_bytes s -> Forall (fun ib : nat * Z => MI.is_u8 ib.2) l ->
      MI.is_bytes (fold_left (fun s ib => Id.write_byte s ib.1 ib.2) l s)) as F1.
    { induction l as [|[i b] l IH]; intros s Hs Hl; [done|]. apply Forall_cons in Hl as [H1 H2]. cbn [fold_left].
      apply IH; [|done]. unfold Id.write_byte. cbn [fst snd] in *.
      apply is_bytes_insert; [apply is_bytes_insert; [done|]|]; apply hex_char_u8; [by apply nibble_hi|apply nibble_lo]. }
    assert (forall l s, MI.is_bytes s -> MI.is_bytes (fold_left (fun s i => <[i := Id.hyphen]> s) l s)) as F2.
    { induction l as [|i l IH]; intros s Hs; [done|]. cbn [fold_left]. apply IH, is_bytes_insert; [done|].
      unfold MI.is_u8, Id.hyphen. lia. }
    apply F2, F1; [apply MI.is_bytes_replicate_0|]. apply Forall_forall. intros [i b] Hi%list_elem_of_In%in_combine_r.
    cbn. unfold MI.is_bytes in Hb. rewrite Forall_forall in Hb. by apply Hb, list_elem_of_In.
Qed.

(** Values in the range of their C++ types. *)
Record wf_self (s : self_state) : Prop := {
  ws_id : Id.wf_hid s.(st_id);
  ws_health : MI.is_u8 s.(st_health).(value);
  ws_role : MI.is_u32 s.(st_role).(role);
  ws_state : MI.is_u32 s.(st_state).(state);
  ws_queue : BQ.wf AQ_CAPACITY s.(st_queue).(aq_queue);
  ws_rejections : MI.is_u32 s.(st_queue).(permission_rejections_total);
  ws_buffer : BQ.wf CB_CAPACITY s.(st_buffer).(cb_queue);
}.
Record in_range {H E U} (wd : @world H E U) (self : option self_state) : Prop := {
  ir_swarm : MI.is_u16 wd.(core_).(config_).(cfg_swarm_id);
  ir_tick : MI.is_u64 wd.(core_).(context_).(Sched.tick_count);
  ir_observations : MI.is_u64 wd.(core_).(neighbour_table_).(NT.total_observations_);
  ir_evictions : MI.is_u64 wd.(core_).(neighbour_table_).(NT.total_evictions_);
  ir_entries : Z.of_nat (length wd.(core_).(neighbour_table_).(NT.entries_)) < 2 ^ 64;
  ir_systems : Z.of_nat (length wd.(scheduler_).(Sched.systems_)) < 2 ^ 64;
  ir_ids : Forall (fun n => Id.wf_hid n.(NT.hid)) wd.(core_).(neighbour_table_).(NT.entries_);
  ir_timings : Forall (fun t => MI.is_bytes t.(Sched.tm_name) /\ MI.is_u64 t.(Sched.thread_id))
                 wd.(scheduler_).(Sched.last_timings_);
  ir_self : match self with Some s => wf_self s | None => True end;
}.

Lemma wf_obj_list l :
  Forall (fun kv => MI.is_bytes kv.1 /\ JW.wf_json kv.2) l -> JW.wf_json (JW.Obj l).
Proof. induction 1 as [|kv l [H1 H2] _ IH]; [done|]. cbn. by split_and!. Qed.

Lemma wf_arr_list l : Forall JW.wf_json l -> JW.wf_json (JW.Arr l).
Proof. induction 1 as [|j l Hj _ IH]; [done|]. cbn. by split_and!. Qed.

(** Every key of the document is a literal. *)
Ltac keys :=
  apply wf_obj_list;
  repeat (apply Forall_cons; split; [split; [by apply MI.bytesb_spec|]|]); try apply Forall_nil_2.

Lemma vector_wf x y z a b c :
  MI.bytesb x && MI.bytesb y && MI.bytesb z = true -> JW.wf_json (vector_json x y z a b c).
Proof. intros Hk. zbool. cbn. split_and!; by try apply MI.bytesb_spec. Qed.

Lemma u64_of_u32 n : MI.is_u32 n -> MI.is_u64 n.
Proof. unfold MI.is_u32, MI.is_u64. lia. Qed.
Lemma u64_of_size {T} N (q : BQ.t T) : Z.of_nat N < 2 ^ 64 -> BQ.wf N q -> MI.is_u64 (Z.of_nat (BQ.size q)).
Proof. intros HN W. pose proof (BQ.wf_size N q W) as Hs. unfold BQ.size, MI.is_u64 in *. lia. Qed.

Lemma self_wf s : wf_self s -> JW.wf_json (self_json s).
Proof.
  intros [Wi Wh Wr Ws Wq Wj Wb]. unfold self_json. keys; try done.
  - by apply to_string_bytes.
  - refine (vector_wf _ _ _ _ _ _ _); reflexivity.
  - refine (vector_wf _ _ _ _ _ _ _); reflexivity.
  - cbn. unfold MI.is_u8, MI.is_u64 in *. lia.
  - by apply u64_of_u32.
  - by apply u64_of_u32.
  - apply (u64_of_size AQ_CAPACITY); [unfold AQ_CAPACITY; lia|exact Wq].
  - apply u64_of_u32, (BQ.wf_u32 _ _ Wq).
  - by apply u64_of_u32.
  - apply (u64_of_size CB_CAPACITY); [unfold CB_CAPACITY; lia|exact Wb].
  - apply u64_of_u32, (BQ.wf_u32 _ _ Wb).
Qed.

Lemma neighbour_wf n : Id.wf_hid n.(NT.hid) -> JW.wf_json (neighbour_json n).
Proof.
  intros W. unfold neighbour_json. keys; [by apply to_string_bytes|done|refine (vector_wf _ _ _ _ _ _ _); reflexivity].
Qed.

Lemma timing_wf t : MI.is_bytes t.(Sched.tm_name) /\ MI.is_u64 t.(Sched.thread_id) -> JW.wf_json (timing_json t).
Proof. intros [W1 W2]. unfold timing_json. keys; done. Qed.

Lemma state_wf {H E U} (wd : @world H E U) self : in_range wd self -> JW.wf_json (state_json wd self).
Proof.
  intros [Rs Rt Ro Re Rn Ry Ri Rm Rf]. unfold state_json. apply wf_obj_list, Forall_app. split; [|apply Forall_app; split].
  - repeat (apply Forall_cons; split; [split; [by apply MI.bytesb_spec|]|]); try apply Forall_nil_2; try done.
    cbn. unfold MI.is_u16, MI.is_u64 in *. lia.
  - destruct self as [s|]; [|apply Forall_nil_2].
    apply Forall_cons. split; [|apply Forall_nil_2]. split; [by apply MI.bytesb_spec|by apply self_wf].
  - repeat (apply Forall_cons; split; [split; [by apply MI.bytesb_spec|]|]); try apply Forall_nil_2; try done.
    + cbn. unfold NT.count, MI.is_u64. lia.
    + apply wf_arr_list, Forall_map. eapply Forall_impl; [exact Ri|]. intros n. apply neighbour_wf.
    + keys; [cbn; unfold MI.is_u64; lia|]. apply wf_arr_list, Forall_map. eapply Forall_impl; [exact Rm|].
      intros t. apply timing_wf.
Qed.

(** A reader's queries. *)
Definition member_of (k : list Z) (v : JW.value) : option JW.value :=
  match v with
  | JW.VObj l => snd <$> List.find (fun kv => bool_decide (kv.1 = k)) l
  | _ => None
  end.
Definition id_of (v : JW.value) : option Id.HierarchicalID :=
  match member_of (codes "id") v with Some (JW.VStr s) => Id.from_string s | _ => None end.
Definition neighbour_ids (v : JW.value) : option (list Id.HierarchicalID) :=
  match member_of (codes "neighbours") v with Some (JW.VArr l) => mapM id_of l | _ => None end.
Definition own_id (v : JW.value) : option Id.HierarchicalID := member_of (codes "self") v ≫= id_of.

Lemma neighbours_read print l :
  Forall (fun n => Id.wf_hid n.(NT.hid)) l ->
  mapM id_of (map (JW.denote print) (map neighbour_json l)) = Some (NT.hid <$> l).
Proof.
  intros Hl. rewrite List.map_map. induction Hl as [|n l Hn Hl IH]; [done|]. cbn [map mapM fmap list_fmap].
  change (id_of (JW.denote print (neighbour_json n))) with (Id.from_string (Id.to_string n.(NT.hid))).
  rewrite (Id.parse_print _ Hn). cbn [mbind option_bind]. by rewrite IH.
Qed.

(** C33: the state dump.  For a world whose values are in the range of their types,
    initialised or not, [dump_state] returns one line of printable text that a JSON
    reader accepts, and what it reads is the state: the identifiers of the
    neighbours, read as identifiers, are those of the table in its order; the own
    identifier is there exactly when the world is initialised and is the identity;
    the tick count and the count of observations are the world's. *)
Theorem dump_reads_back {H E U} `{!Reg.Toolchain} (print_g17 : Z -> list Z) (wd : @world H E U) self :
  (forall d, JW.isfinite d = true -> JW.number_like (print_g17 d)) ->
  in_range wd self ->
  match self with
  | Some s => wd.(core_).(initialized_) = true /\ holds wd.(core_).(registry_) s
  | None => wd.(core_).(initialized_) = false
  end ->
  exists text v, dump_state print_g17 wd = Ok text /\ JW.parse_json text = Some v /\
    Forall (fun c => 32 <= c) text /\
    neighbour_ids v = Some (NT.hid <$> wd.(core_).(neighbour_table_).(NT.entries_)) /\
    own_id v = st_id <$> self /\
    (exists tok, member_of (codes "tick") v = Some (JW.VNum tok) /\
       JW.int_value tok = wd.(core_).(context_).(Sched.tick_count)) /\
    exists tok, member_of (codes "neighbour_observations") v = Some (JW.VNum tok) /\
       JW.int_value tok = wd.(core_).(neighbour_table_).(NT.total_observations_).
Proof.
  intros Hg R Hs. pose proof (state_wf wd self R) as W.
  eexists _, (JW.denote print_g17 (state_json wd self)). split; [by apply dump_state_spec|].
  rewrite JW.write_new. split; [by apply JW.parse_json_render|]. split; [by apply JW.render_printable|].
  assert (neighbour_ids (JW.denote print_g17 (state_json wd self)) =
    mapM id_of (map (JW.denote print_g17) (map neighbour_json wd.(core_).(neighbour_table_).(NT.entries_)))) as ->
    by by destruct self.
  split; [apply neighbours_read, R|]. split.
  - destruct self as [s|]; [|done]. change (Id.from_string (Id.to_string s.(st_id)) = Some s.(st_id)).
    apply Id.parse_print, (ws_id s), (ir_self wd _ R).
  - split.
    + exists (JW.print_u64 wd.(core_).(context_).(Sched.tick_count)). split; [by destruct self|].
      apply JW.print_u64_value, R.
    + exists (JW.print_u64 wd.(core_).(neighbour_table_).(NT.total_observations_)). split; [by destruct self|].
      apply JW.print_u64_value, R.
Qed.

(** ** Example *)

#[local] Existing Instance Net.wire_transports.

(** A world with the default components that has heard one neighbour. *)
Definition sample_id : Id.HierarchicalID := Id.mk_hid 1 (Id.mk_uuid (replicate 16 17)).
Definition heard_id : Id.HierarchicalID := Id.mk_hid 3 (Id.mk_uuid (replicate 16 171)).
Definition sample_components : Reg.t := Eval vm_compute in
  let r := fold_left (fun r ty => (@Reg.register_impl Reg.gcc r ty Reg.Built_In).1.1) Reg.builtin_types
             (Reg.new_registry Reg.LockAfterInit) in
  match @emplace_defaults Reg.gcc sample_id r with Ok r => r | _ => r end.
Definition sample_world : @world unit Net.wire unit :=
  map_core (fun w => with_initialized true (with_registry sample_components (with_neighbour_table
      (NT.mk_nt [NT.mk_entry heard_id default_pos default_vel default_health default_role default_state 0 0 0] 1 0 0 ∅) w)))
    (new_world default_config Net.empty_wire tt 0 0).
Definition sample_self : self_state :=
  mk_self sample_id default_pos default_vel default_health default_role default_state default_aq default_cb.

Lemma sample_in_range : in_range sample_world (Some sample_self).
Proof.
  assert (forall h, (0 <=? h.(Id.swarm_id)) && (h.(Id.swarm_id) <? 65536) &&
    (length h.(Id.unit_id).(Id.bytes_) =? 16)%nat && MI.bytesb h.(Id.unit_id).(Id.bytes_) = true -> Id.wf_hid h) as Wh.
  { intros h Hh. apply andb_true_iff in Hh as [Hh Hb]. apply andb_true_iff in Hh as [Hh Hl]. apply Nat.eqb_eq in Hl.
    zbool. repeat split; [unfold MI.is_u16; lia|unfold MI.is_u16; lia|done|by apply MI.bytesb_spec]. }
  constructor.
  - apply (MI.u16_range 1).
  - apply (MI.u64_range 0).
  - apply (MI.u64_range 1).
  - apply (MI.u64_range 0).
  - assert (length sample_world.(core_).(neighbour_table_).(NT.entries_) = 1%nat) as -> by reflexivity. lia.
  - assert (length sample_world.(scheduler_).(Sched.systems_) = 0%nat) as -> by reflexivity. lia.
  - apply Forall_cons. split; [|apply Forall_nil_2]. apply Wh. reflexivity.
  - assert (sample_world.(scheduler_).(Sched.last_timings_) = []) as -> by reflexivity. apply Forall_nil_2.
  - constructor.
    + apply Wh. vm_compute. reflexivity.
    + apply (MI.u8_range 100).
    + apply (MI.u32_range 0).
    + apply (MI.u32_range 0).
    + apply (BQ.empty_wf default_action AQ_CAPACITY). unfold AQ_CAPACITY. lia.
    + apply (MI.u32_range 0).
    + apply (BQ.empty_wf default_message CB_CAPACITY). unfold CB_CAPACITY. lia.
Qed.

Lemma dump_reads_back_witness :
  exists text v, @dump_state (fun _ => [49]) unit Net.wire unit Reg.gcc sample_world = Ok text /\
    JW.parse_json text = Some v /\
    neighbour_ids v = Some [heard_id] /\ own_id v = Some sample_id.
Proof.
  destruct (@dump_reads_back unit Net.wire unit Reg.gcc (fun _ => [49]) sample_world (Some sample_self))
    as (text & v & Ed & Ep & _ & En & Eo & _).
  - intros d _. split; [discriminate|]. constructor; [reflexivity|constructor].
  - exact sample_in_range.
  - split; [reflexivity|]. unfold holds. repeat split; vm_compute; reflexivity.
  - exists text, v. split; [exact Ed|]. split; [exact Ep|]. split; [exact En|exact Eo].
Defined.
End Dump.
