(* ===== verification/Sim.v ===== *)
(** The simulation ([include/mith/sim/sim_bus.h], [src/sim/sim_bus.cpp],
    [include/mith/sim/sim_clock.h], [src/sim/sim_clock.cpp]): the in-process bus that
    carries beacons and messages between worlds, as an instance of the transport
    interface, and the clock that ticks the worlds in turn.

    The bus refers to the worlds it serves.  Its state here holds, for each
    participant, the registry of its world as it is now ([None] before the world is
    wired); the sender's own registry comes with each call, since it sends from
    inside its tick. *)

From S2P Require Import Prelude MachineInt Float32 Identity BoundedQueue Components Trace JsonWriter.
From S2P Require Import Scheduler NeighbourTable Registry PeerKeys Transport FaultMonitor TaskAlloc.
From S2P Require Import ClockSync PartitionMerge Flocking Actions WorldState Discovery Beacon World.
Local Open Scope Z_scope.

Module Sim.
Import Comp WS World.

(* @src include/mith/sim/sim_bus.h:45-50 SimBusConfig *)
Record SimBusConfig := mk_bus_config {
  bus_tick_rate_hz : Z;
  comm_range_m : Z;
  packet_loss_pct : Z;
  latency_ms : Z;
}.
(** [20.0f] and [50.0f]. *)
Definition default_bus_config : SimBusConfig := mk_bus_config (F32.of_Z 20) (F32.of_Z 50) F32.zero F32.zero.

(* @src include/mith/sim/sim_bus.h:97-102 SimBus::Participant *)
Record Participant := mk_part {
  p_world : option Reg.t;
  inbound_beacons : list StateVector;
  inbound_messages : list Message;
}.
Definition put_beacon (sv : StateVector) (p : Participant) : Participant :=
  mk_part p.(p_world) (p.(inbound_beacons) ++ [sv]) p.(inbound_messages).
Definition put_message (m : Message) (p : Participant) : Participant :=
  mk_part p.(p_world) p.(inbound_beacons) (p.(inbound_messages) ++ [m]).

(* @src include/mith/sim/sim_bus.h:123-127 SimBus *)
Record bus := mk_bus {
  bus_config : SimBusConfig;
  participants_ : list Participant;
  grid_ : gmap NT.CellKey (list nat);
  grid_cell_size_m_ : Z;
}.
Definition with_participants (ps : list Participant) (b : bus) : bus :=
  mk_bus b.(bus_config) ps b.(grid_) b.(grid_cell_size_m_).

(** The clock knows its worlds by their index. *)
(* @src include/mith/sim/sim_clock.h:51-54 SimClock *)
Record SimClock := mk_clock {
  clk_delta_time_s : Z;
  clk_elapsed_time_s : Z;
  clk_tick_count : Z;
  clk_worlds : list nat;
}.
(* @src src/sim/sim_clock.cpp:9-10 SimClock::SimClock *)
Definition new_clock (delta_time_s : Z) : SimClock := mk_clock delta_time_s F32.zero 0 [].
(* @src src/sim/sim_clock.cpp:12-17 SimClock::register_world *)
Definition clk_register_world (w : nat) (c : SimClock) : SimClock :=
  if existsb (Nat.eqb w) c.(clk_worlds) then c
  else mk_clock c.(clk_delta_time_s) c.(clk_elapsed_time_s) c.(clk_tick_count) (c.(clk_worlds) ++ [w]).
(* @src src/sim/sim_clock.cpp:19-21 SimClock::unregister_all *)
Definition clk_unregister_all (c : SimClock) : SimClock :=
  mk_clock c.(clk_delta_time_s) c.(clk_elapsed_time_s) c.(clk_tick_count) [].

(* @src src/sim/sim_bus.cpp:40-42 SimBus::SimBus *)
Definition new_bus (config : SimBusConfig) : bus * SimClock :=
  (mk_bus config [] ∅ F32.zero, new_clock (F32.div F32.one config.(bus_tick_rate_hz))).

Section Bus.
Context `{!Platform} `{!Reg.Toolchain}.

(* @src src/sim/sim_bus.cpp:90-98 SimBus::cell_for_ *)
Definition cell_for_ (cell_size : Z) (p : PositionComponent) : NT.CellKey :=
  if F32.leb cell_size F32.zero then (0, 0, 0)
  else
    let inv := F32.div F32.one cell_size in
    (F32.floor_i32 f2i_oob (F32.mul p.(x) inv), F32.floor_i32 f2i_oob (F32.mul p.(y) inv),
     F32.floor_i32 f2i_oob (F32.mul p.(z) inv)).

(** [pos_fn()]: the position of a world. *)
Definition pos_fn (reg : Reg.t) : outcome PositionComponent := Reg.get PositionComponent reg Reg.SELF_ENTITY.

(* @src src/sim/sim_bus.cpp:106-110 SimBus::rebuild_grid_ *)
Fixpoint index_participants (cell_size : Z) (i : nat) (ps : list Participant) (g : gmap NT.CellKey (list nat))
    : outcome (gmap NT.CellKey (list nat)) :=
  match ps with
  | [] => Ok g
  | p :: ps =>
      match p.(p_world) with
      | None => index_participants cell_size (S i) ps g
      | Some reg =>
          let! pos := pos_fn reg in
          index_participants cell_size (S i) ps (NT.grid_push g (cell_for_ cell_size pos) i)
      end
  end.

(* @src src/sim/sim_bus.cpp:100-111 SimBus::rebuild_grid_ *)
Definition rebuild_grid_ (b : bus) : outcome bus :=
  let cell := b.(bus_config).(comm_range_m) in
  if F32.leb cell F32.zero then Ok (mk_bus b.(bus_config) b.(participants_) ∅ cell)
  else let! g := index_participants cell 0 b.(participants_) ∅ in
       Ok (mk_bus b.(bus_config) b.(participants_) g cell).

(** [ex*ex + ey*ey + ez*ez <= range_sq]. *)
Definition within (range_sq : Z) (from_pos to_pos : PositionComponent) : bool :=
  let ex := F32.sub to_pos.(x) from_pos.(x) in
  let ey := F32.sub to_pos.(y) from_pos.(y) in
  let ez := F32.sub to_pos.(z) from_pos.(z) in
  F32.leb (F32.add (F32.add (F32.mul ex ex) (F32.mul ey ey)) (F32.mul ez ez)) range_sq.

(** The body of the innermost loop, for one candidate. *)
(* @src src/sim/sim_bus.cpp:140-148 SimBus::deliver_beacon_ *)
Definition offer_to (put : Participant -> Participant) (from : nat) (range_sq : Z) (from_pos : PositionComponent)
    (ps : list Participant) (to : nat) : outcome (list Participant) :=
  if (to =? from)%nat then Ok ps
  else
    match ps !! to with
    | None => Undefined "participants_[to] out of range"
    | Some p =>
        match p.(p_world) with
        | None => Ok ps
        | Some reg =>
            let! to_pos := pos_fn reg in
            Ok (if within range_sq from_pos to_pos then alter put to ps else ps)
        end
    end.

Fixpoint offer_all (put : Participant -> Participant) (from : nat) (range_sq : Z) (from_pos : PositionComponent)
    (tos : list nat) (ps : list Participant) : outcome (list Participant) :=
  match tos with
  | [] => Ok ps
  | to :: tos =>
      let! ps := offer_to put from range_sq from_pos ps to in
      offer_all put from range_sq from_pos tos ps
  end.

(** The candidates, in the order the loops visit them. *)
(* @src src/sim/sim_bus.cpp:128-139 SimBus::deliver_beacon_ *)
Definition candidates (b : bus) (from_pos : PositionComponent) : list nat :=
  if F32.gtb b.(grid_cell_size_m_) F32.zero && negb (bool_decide (b.(grid_) = ∅)) then
    key ← NT.cell_range (cell_for_ b.(grid_cell_size_m_) from_pos) 1;
    default [] (b.(grid_) !! key)
  else seq 0 (length b.(participants_)).

(** [reg] is the registry of the sending world. *)
(* @src src/sim/sim_bus.cpp:118-171 SimBus::deliver_beacon_ *)
Definition deliver_beacon_ (from : nat) (reg : Reg.t) (sv : StateVector) (b : bus) : outcome bus :=
  match b.(participants_) !! from with
  | None => Ok b
  | Some p =>
      match p.(p_world) with
      | None => Ok b
      | Some _ =>
          let! from_pos := pos_fn reg in
          let range := b.(bus_config).(comm_range_m) in
          let! ps := offer_all (put_beacon sv) from (F32.mul range range) from_pos (candidates b from_pos)
                       b.(participants_) in
          Ok (with_participants ps b)
      end
  end.

(** The search for the recipient of a directed message. *)
(* @src src/sim/sim_bus.cpp:222-229 SimBus::deliver_message_ *)
Fixpoint deliver_directed (from : nat) (msg : Message) (to : nat) (ps : list Participant)
    : outcome (list Participant) :=
  match ps with
  | [] => Ok []
  | p :: ps =>
      let rest := let! ps := deliver_directed from msg (S to) ps in Ok (p :: ps) in
      if (to =? from)%nat then rest
      else
        match p.(p_world) with
        | None => rest
        | Some reg =>
            let! i := Reg.get IdentityComponent reg Reg.SELF_ENTITY in
            if Id.hid_eqb i.(ic_id) msg.(m_recipient) then Ok (put_message msg p :: ps) else rest
        end
  end.

(* @src src/sim/sim_bus.cpp:173-231 SimBus::deliver_message_ *)
Definition deliver_message_ (from : nat) (reg : Reg.t) (msg : Message) (b : bus) : outcome bus :=
  match b.(participants_) !! from with
  | None => Ok b
  | Some p =>
      if is_broadcast msg.(m_recipient) then
        match p.(p_world) with
        | None => Ok b
        | Some _ =>
            let! from_pos := pos_fn reg in
            let range := b.(bus_config).(comm_range_m) in
            let! ps := offer_all (put_message msg) from (F32.mul range range) from_pos (candidates b from_pos)
                         b.(participants_) in
            Ok (with_participants ps b)
        end
      else let! ps := deliver_directed from msg 0 b.(participants_) in Ok (with_participants ps b)
  end.

(* @src src/sim/sim_bus.cpp:233-238 SimBus::drain_inbox_beacons_ *)
Definition drain_inbox_beacons_ (idx : nat) (b : bus) : bus * list StateVector :=
  match b.(participants_) !! idx with
  | None => (b, [])
  | Some p =>
      (with_participants (<[idx := mk_part p.(p_world) [] p.(inbound_messages)]> b.(participants_)) b,
       p.(inbound_beacons))
  end.
(* @src src/sim/sim_bus.cpp:240-245 SimBus::drain_inbox_messages_ *)
Definition drain_inbox_messages_ (idx : nat) (b : bus) : bus * list Message :=
  match b.(participants_) !! idx with
  | None => (b, [])
  | Some p =>
      (with_participants (<[idx := mk_part p.(p_world) p.(inbound_beacons) []]> b.(participants_)) b,
       p.(inbound_messages))
  end.

(** A transport is the index of its participant. *)
(* @src src/sim/sim_bus.cpp:14-34 SimTransport *)
Definition sim_transport : Net.Transports nat bus := {|
  Net.supports_beacons _ := true;
  Net.supports_messages _ := true;
  Net.send_beacon from reg sv b := let! b := deliver_beacon_ from reg sv b in Ok (b, true);
  Net.send_message from reg msg b := let! b := deliver_message_ from reg msg b in Ok (b, true);
  Net.poll_beacons idx b := drain_inbox_beacons_ idx b;
  Net.poll_messages idx b := drain_inbox_messages_ idx b;
|}.

(** A send looks up the sender's position, and nothing else of its registry. *)
Definition sim_sends : @Net.Sends nat bus sim_transport _.
Proof.
  refine (@Net.Build_Sends nat bus sim_transport _ true _ _); intros i r r' v b Hp; specialize (Hp eq_refl);
    cbn [Net.send_beacon Net.send_message sim_transport]; unfold deliver_beacon_, deliver_message_, pos_fn; by rewrite Hp.
Defined.
End Bus.

(** ** Worlds on a bus *)

Section Worlds.
Context {U : Type} `{!Platform} `{!Reg.Toolchain} `{!Auth.Crypto}.
#[local] Existing Instance sim_transport.
Variable user_handler : nat -> Message -> core nat bus U -> outcome (core nat bus U * bool).
Variable user_describe : nat -> Sched.SystemDescriptor.
Variable user_tick : nat -> Sched.SwarmContext -> Z -> core nat bus U -> outcome (core nat bus U).

Record sim := mk_sim { sim_bus : bus; sim_clock : SimClock; sim_worlds : list (@world nat bus U) }.

(** The bus with the registries of the worlds as they are now. *)
Definition view (s : sim) : bus :=
  with_participants
    (imap (fun i p => match s.(sim_worlds) !! i with
                      | Some wd => mk_part (Some wd.(core_).(registry_)) p.(inbound_beacons) p.(inbound_messages)
                      | None => p
                      end) s.(sim_bus).(participants_)) s.(sim_bus).

(* @src src/sim/sim_bus.cpp:44-50 SimBus::make_world_config *)
Definition make_world_config (b : bus) (swarm_id : Z) : WorldConfig :=
  mk_config swarm_id b.(bus_config).(bus_tick_rate_hz) default_config.(beacon_rate_hz)
    default_config.(WS.neighbour_timeout_s) default_config.(thread_pool_size) default_config.(enable_flocking)
    default_config.(enable_task_alloc) default_config.(enable_fault_monitor) default_config.(registration_policy)
    Sched.Sequential default_config.(identity_rotation_policy) default_config.(identity_rotation_period_s).

(* @src src/sim/sim_bus.cpp:52-81 SimBus::create_world *)
Definition create_world (swarm_id : Z) (user : U) (entropy draws : nat) (s : sim) : sim :=
  let idx := length s.(sim_bus).(participants_) in
  let b := with_participants ((view s).(participants_) ++ [mk_part None [] []]) s.(sim_bus) in
  let wd := new_world_unified (make_world_config b swarm_id) (Some idx) b user entropy draws in
  let b := with_participants (alter (fun p => mk_part (Some wd.(core_).(registry_)) p.(inbound_beacons)
                                              p.(inbound_messages)) idx b.(participants_)) b in
  mk_sim b (clk_register_world idx s.(sim_clock)) (s.(sim_worlds) ++ [wd]).

(** One world's tick, on the shared bus. *)
Definition tick_world (clk : nat -> Z * Z) (tid : Z) (i : nat) (s : sim) : outcome sim :=
  match s.(sim_worlds) !! i with
  | None => Undefined "a registered world was destroyed"
  | Some wd =>
      let! wd := tick user_handler user_describe user_tick clk tid (map_core (with_env (view s)) wd) in
      Ok (mk_sim wd.(core_).(env_) s.(sim_clock) (<[i := wd]> s.(sim_worlds)))
  end.

Fixpoint tick_worlds (clk : nat -> Z * Z) (tid : Z) (ws : list nat) (s : sim) : outcome sim :=
  match ws with
  | [] => Ok s
  | i :: ws => let! s := tick_world clk tid i s in tick_worlds clk tid ws s
  end.

(* @src src/sim/sim_clock.cpp:23-31 SimClock::advance *)
Definition clock_step (clk : nat -> Z * Z) (tid : Z) (s : sim) : outcome sim :=
  let! s := tick_worlds clk tid s.(sim_clock).(clk_worlds) s in
  let c := s.(sim_clock) in
  Ok (mk_sim s.(sim_bus)
        (mk_clock c.(clk_delta_time_s) (F32.add c.(clk_elapsed_time_s) c.(clk_delta_time_s))
           (MI.u64 (c.(clk_tick_count) + 1)) c.(clk_worlds)) s.(sim_worlds)).

(* @src src/sim/sim_bus.cpp:83-88 SimBus::advance *)
Fixpoint advance (clk : nat -> Z * Z) (tid : Z) (ticks : nat) (s : sim) : outcome sim :=
  match ticks with
  | O => Ok s
  | S ticks =>
      let! b := rebuild_grid_ (view s) in
      let! s := clock_step clk tid (mk_sim b s.(sim_clock) s.(sim_worlds)) in
      advance clk tid ticks s
  end.
End Worlds.

(** ** Delivery *)

Section Delivery.
Context `{!Platform} {TC : Reg.Toolchain}.

(** A grid built from the positions [ps]: each participant is in the bucket of its
    cell, once. *)
Definition indexed (cell : Z) (ps : list PositionComponent) (g : gmap NT.CellKey (list nat)) : Prop :=
  (forall k i, i ∈ default [] (g !! k) <-> exists p, ps !! i = Some p /\ cell_for_ cell p = k) /\
  (forall k l, g !! k = Some l -> NoDup l /\ l <> []).

(** The world of every participant, with its position and identity. *)
Definition located (ps : list Participant) (pos : list PositionComponent) (ids : list Id.HierarchicalID) : Prop :=
  length pos = length ps /\ length ids = length ps /\
  forall i p, ps !! i = Some p -> exists reg q id, p.(p_world) = Some reg /\ pos !! i = Some q /\ ids !! i = Some id /\
    pos_fn reg = Ok q /\ Reg.get IdentityComponent reg Reg.SELF_ENTITY = Ok (mk_identity id).

Lemma indexed_push cell ps q g :
  indexed cell ps g -> indexed cell (ps ++ [q]) (NT.grid_push g (cell_for_ cell q) (length ps)).
Proof.
  intros [Hm Hb]. split.
  - intros k j. rewrite NT.grid_push_elem, Hm. split.
    + intros [(p & Hp & C)|[-> <-]]; [exists p; split; [by apply lookup_app_l_Some|done]|].
      exists q. split; [|done]. by rewrite lookup_app_r, Nat.sub_diag by lia.
    + intros (p & Hp & C). apply lookup_app_Some in Hp as [Hp|[Hl Hp]]; [left; eauto|].
      right. apply list_lookup_singleton_Some in Hp as [? <-]. split; [lia|done].
  - apply NT.grid_push_buckets; [done|]. rewrite Hm. intros (p & Hp & _). apply lookup_lt_Some in Hp. lia.
Qed.

Lemma index_participants_ok cell : forall ps pos pre g,
  Forall2 (fun p q => exists reg, p.(p_world) = Some reg /\ pos_fn reg = Ok q) ps pos ->
  indexed cell pre g ->
  exists g', index_participants cell (length pre) ps g = Ok g' /\ indexed cell (pre ++ pos) g'.
Proof.
  intros ps pos pre g HF. revert pre g. induction HF as [|p q ps pos (reg & Hw & Hq) _ IH]; intros pre g Hi.
  { exists g. by rewrite app_nil_r. }
  cbn [index_participants]. rewrite Hw, Hq. cbn [obind].
  destruct (IH (pre ++ [q]) _ (indexed_push cell pre q g Hi)) as (g' & E & I).
  rewrite length_app, Nat.add_1_r in E. exists g'. rewrite <- app_assoc in I. done.
Qed.

Lemma located_positions ps pos ids :
  located ps pos ids -> Forall2 (fun p q => exists reg, p.(p_world) = Some reg /\ pos_fn reg = Ok q) ps pos.
Proof.
  intros (Hl & _ & Hp). apply Forall2_same_length_lookup_2; [done|]. intros i p q Hi Hq.
  destruct (Hp i p Hi) as (reg & q' & id & Hw & Hq' & _ & Hf & _). exists reg. split; [done|]. congruence.
Qed.

(** Rebuilding succeeds and indexes the positions of the moment. *)
Lemma bus_rebuild_ok b pos ids :
  located b.(participants_) pos ids ->
  exists b', rebuild_grid_ b = Ok b' /\ b'.(participants_) = b.(participants_) /\ b'.(bus_config) = b.(bus_config) /\
    b'.(grid_cell_size_m_) = b.(bus_config).(comm_range_m) /\
    if F32.leb b.(bus_config).(comm_range_m) F32.zero then b'.(grid_) = ∅
    else indexed b.(bus_config).(comm_range_m) pos b'.(grid_).
Proof.
  intros L. unfold rebuild_grid_. destruct (F32.leb _ _) eqn:E; [by eexists|].
  destruct (index_participants_ok (comm_range_m (bus_config b)) _ pos [] ∅ (located_positions _ _ _ L)) as (g & Eg & I).
  - split; [|intros k l Hk; by rewrite lookup_empty in Hk]. intros k i. rewrite lookup_empty. cbn. split.
    + intros Hi. by apply not_elem_of_nil in Hi.
    + intros (p & Hp & _). done.
  - cbn [length] in Eg. rewrite Eg. cbn [obind]. by eexists.
Qed.

(** Which participants the loops reach from a position, with a grid built from the
    positions [snap]. *)
Definition grid_on (b : bus) : bool :=
  F32.gtb b.(grid_cell_size_m_) F32.zero && negb (bool_decide (b.(grid_) = ∅)).
Definition reach (b : bus) (snap : list PositionComponent) (from_pos : PositionComponent) (j : nat) : bool :=
  if grid_on b then
    match snap !! j with
    | Some q => NT.near_cell (cell_for_ b.(grid_cell_size_m_) from_pos) 1 (cell_for_ b.(grid_cell_size_m_) q)
    | None => false
    end
  else true.

Definition grid_from (b : bus) (snap : list PositionComponent) : Prop :=
  (length snap <= length b.(participants_))%nat /\
  (grid_on b = true -> indexed b.(grid_cell_size_m_) snap b.(grid_)).

Lemma candidates_ok b snap q :
  grid_from b snap ->
  NoDup (candidates b q) /\
  forall j, j ∈ candidates b q <-> (j < length b.(participants_))%nat /\ reach b snap q j = true.
Proof.
  intros [Hl Hi]. unfold candidates, reach. fold (grid_on b). destruct (grid_on b) eqn:Eg.
  - destruct (Hi eq_refl) as [Hm Hb]. split.
    + apply NoDup_bind; [| |apply NT.cell_range_NoDup].
      * intros k1 k2 i _ _ (p & Hp & <-)%Hm (p' & Hp' & <-)%Hm. congruence.
      * intros k _. destruct (grid_ b !! k) eqn:E; cbn; [by destruct (Hb _ _ E)|constructor].
    + intros j. rewrite list_elem_of_bind. split.
      * intros (k & (p & Hp & <-)%Hm & Hk%NT.elem_of_cell_range). rewrite Hp.
        apply lookup_lt_Some in Hp. split; [lia|done].
      * intros [_ Hr]. destruct (snap !! j) as [p|] eqn:Hp; [|done]. exists (cell_for_ (grid_cell_size_m_ b) p).
        split; [apply Hm; eauto|by apply NT.elem_of_cell_range].
  - split; [apply NoDup_seq|]. intros j. rewrite elem_of_seq. split; [|lia]. intros Hj. split; [lia|done].
Qed.

(** The loop over the candidates. *)
Lemma offer_all_ok put from r q pos ids tos : forall ps,
  (forall p, (put p).(p_world) = p.(p_world)) ->
  located ps pos ids -> NoDup tos -> (forall j, j ∈ tos -> (j < length ps)%nat) ->
  exists ps', offer_all put from r q tos ps = Ok ps' /\ length ps' = length ps /\
    forall j p, ps !! j = Some p ->
      ps' !! j = Some (if bool_decide (j ∈ tos) && negb (j =? from)%nat &&
                          match pos !! j with Some qj => within r q qj | None => false end
                       then put p else p).
Proof.
  induction tos as [|to tos IH]; intros ps Hput L N B.
  { exists ps. split; [done|]. split; [done|]. intros j p Hj. rewrite bool_decide_eq_false_2 by apply not_elem_of_nil. done. }
  apply NoDup_cons in N as [N1 N2]. cbn [offer_all].
  assert (exists ps1, offer_to put from r q ps to = Ok ps1 /\ length ps1 = length ps /\ located ps1 pos ids /\
    forall j p, ps !! j = Some p -> ps1 !! j = Some (if bool_decide (j = to) && negb (j =? from)%nat &&
                          match pos !! j with Some qj => within r q qj | None => false end then put p else p))
    as (ps1 & -> & L1 & Loc1 & S1).
  { unfold offer_to. destruct (Nat.eqb_spec to from) as [->|Hne].
    { exists ps. split_and!; try done. intros j p Hj. destruct (Nat.eqb_spec j from); [by rewrite andb_false_r|].
      by rewrite bool_decide_eq_false_2 by done. }
    destruct (lookup_lt_is_Some_2 ps to (B to ltac:(by left))) as [p0 E0]. rewrite E0.
    destruct L as (Lp & Li & Lw). destruct (Lw to p0 E0) as (reg & qt & id & Hw & Hq & Hi & Hf & _).
    rewrite Hw, Hf. cbn [obind]. destruct (within r q qt) eqn:W.
    - eexists. split; [done|]. rewrite length_alter. split; [done|]. split.
      + split; [by rewrite length_alter|]. split; [by rewrite length_alter|]. intros j p Hj.
        destruct (decide (to = j)) as [<-|Hn].
        * rewrite list_lookup_alter_eq, E0 in Hj. injection Hj as <-. rewrite Hput. apply Lw, E0.
        * rewrite list_lookup_alter_ne in Hj by done. by apply Lw.
      + intros j p Hj. destruct (decide (j = to)) as [->|Hn].
        * rewrite list_lookup_alter_eq, E0. rewrite E0 in Hj. injection Hj as ->.
          rewrite bool_decide_eq_true_2, Hq, W by done. by rewrite (proj2 (Nat.eqb_neq to from) Hne).
        * rewrite list_lookup_alter_ne by done. by rewrite bool_decide_eq_false_2.
    - exists ps. split_and!; try done. intros j p Hj. case_bool_decide as Hjt; [|done]. subst j. by rewrite Hq, W, andb_false_r. }
  cbn [obind]. destruct (IH ps1 Hput Loc1 N2) as (ps' & -> & L' & S').
  { intros j Hj. rewrite L1. apply B. by right. }
  exists ps'. split; [done|]. split; [congruence|]. intros j p Hj. rewrite (S' _ _ (S1 _ _ Hj)).
  destruct (decide (j = to)) as [->|Hn].
  - rewrite (bool_decide_eq_true_2 (to = to)), (bool_decide_eq_false_2 (to ∈ tos)), (bool_decide_eq_true_2 (to ∈ to :: tos))
      by (done || by left). done.
  - rewrite (bool_decide_eq_false_2 (j = to)) by done.
    rewrite (bool_decide_ext (j ∈ to :: tos) (j ∈ tos)) by (rewrite elem_of_cons; naive_solver). done.
Qed.

(** The recipient of a directed message: the first other participant that has the
    identity. *)
Fixpoint target (ids : list Id.HierarchicalID) (k from : nat) (recipient : Id.HierarchicalID) : option nat :=
  match ids with
  | [] => None
  | id :: ids => if negb (k =? from)%nat && Id.hid_eqb id recipient then Some k else target ids (S k) from recipient
  end.

Lemma target_ge ids k from r j : target ids k from r = Some j -> (k <= j)%nat.
Proof.
  revert k. induction ids as [|id ids IH]; intros k; [done|]. cbn. destruct (_ && _); [intros [= ->]; lia|].
  intros Hj%IH. lia.
Qed.

Lemma deliver_directed_ok from msg ids : forall ps k,
  Forall2 (fun p id => exists reg, p.(p_world) = Some reg /\
             Reg.get IdentityComponent reg Reg.SELF_ENTITY = Ok (mk_identity id)) ps ids ->
  exists ps', deliver_directed from msg k ps = Ok ps' /\ length ps' = length ps /\
    forall j p, ps !! j = Some p ->
      ps' !! j = Some (if bool_decide (target ids k from msg.(m_recipient) = Some (k + j)%nat) then put_message msg p else p).
Proof.
  intros ps k HF. revert k. induction HF as [|p id ps ids (reg & Hw & Hg) HF IH]; intros k; [by exists []|].
  cbn [deliver_directed target]. destruct (IH (S k)) as (ps' & Ed & Ld & Hst). rewrite Ed. cbn [obind].
  assert (target ids (S k) from (m_recipient msg) <> Some (k + 0)%nat) as Hk
    by (intros Hj%target_ge; lia).
  assert (forall j p0, (p :: ps) !! j = Some p0 ->
    (p :: ps') !! j = Some (if bool_decide (target ids (S k) from (m_recipient msg) = Some (k + j)%nat)
                            then put_message msg p0 else p0)) as Rest.
  { intros [|j] p0 Hj; cbn in Hj |- *.
    - injection Hj as ->. by rewrite bool_decide_eq_false_2.
    - replace (k + S j)%nat with (S k + j)%nat by lia. by apply Hst. }
  destruct (Nat.eqb_spec k from) as [->|Hn]; cbn [negb andb].
  - exists (p :: ps'). split; [done|]. split; [cbn; by rewrite Ld|exact Rest].
  - rewrite Hw, Hg. cbn [obind ic_id]. destruct (Id.hid_eqb id (m_recipient msg)).
    + exists (put_message msg p :: ps). split; [done|]. split; [done|]. intros [|j] p0 Hj; cbn in Hj |- *.
      * injection Hj as ->. by rewrite bool_decide_eq_true_2 by (f_equal; lia).
      * rewrite bool_decide_eq_false_2; [done|]. intros [= Hc]. lia.
    + exists (p :: ps'). split; [done|]. split; [cbn; by rewrite Ld|exact Rest].
Qed.

(** *** Histories of sends and polls *)

Inductive bus_op :=
| SendBeacon (from : nat) (sv : StateVector)
| SendMessage (from : nat) (m : Message)
| PollBeacons (to : nat)
| PollMessages (to : nat).

(** What a poll hands out. *)
Definition answer : Type := list StateVector * list Message.

(** The worlds do not move during the history; a sender passes its registry. *)
Definition registry_of (b : bus) (i : nat) : Reg.t :=
  match b.(participants_) !! i with
  | Some p => default (Reg.new_registry Reg.Open) p.(p_world)
  | None => Reg.new_registry Reg.Open
  end.

Definition exec (b : bus) (o : bus_op) : outcome (bus * answer) :=
  match o with
  | SendBeacon i sv =>
      let! (b, _) := Net.send_beacon (Transports := sim_transport) i (registry_of b i) sv b in Ok (b, ([], []))
  | SendMessage i m =>
      let! (b, _) := Net.send_message (Transports := sim_transport) i (registry_of b i) m b in Ok (b, ([], []))
  | PollBeacons j => let '(b, l) := Net.poll_beacons (Transports := sim_transport) j b in Ok (b, (l, []))
  | PollMessages j => let '(b, l) := Net.poll_messages (Transports := sim_transport) j b in Ok (b, ([], l))
  end.

Fixpoint run (b : bus) (os : list bus_op) : outcome (bus * list (bus_op * answer)) :=
  match os with
  | [] => Ok (b, [])
  | o :: os =>
      let! (b, a) := exec b o in
      let! (b, l) := run b os in
      Ok (b, (o, a) :: l)
  end.

(** What participant [j] was handed during the history. *)
Definition polled_beacons (j : nat) (l : list (bus_op * answer)) : list StateVector :=
  oa ← l; match oa.1 with PollBeacons i => if (i =? j)%nat then oa.2.1 else [] | _ => [] end.
Definition polled_messages (j : nat) (l : list (bus_op * answer)) : list Message :=
  oa ← l; match oa.1 with PollMessages i => if (i =? j)%nat then oa.2.2 else [] | _ => [] end.

(** Whether [j] receives what [i] broadcasts. *)
Definition hears (b : bus) (snap pos : list PositionComponent) (i j : nat) : bool :=
  negb (j =? i)%nat &&
  match pos !! i, pos !! j with
  | Some qi, Some qj =>
      reach b snap qi j && within (F32.mul b.(bus_config).(comm_range_m) b.(bus_config).(comm_range_m)) qi qj
  | _, _ => false
  end.
Definition beacons_to (b : bus) snap pos (j : nat) (os : list bus_op) : list StateVector :=
  o ← os; match o with SendBeacon i sv => if hears b snap pos i j then [sv] else [] | _ => [] end.
Definition messages_to (b : bus) snap pos ids (j : nat) (os : list bus_op) : list Message :=
  o ← os;
  match o with
  | SendMessage i m =>
      if (if is_broadcast m.(m_recipient) then hears b snap pos i j
          else (i <? length pos)%nat && bool_decide (target ids 0 i m.(m_recipient) = Some j))
      then [m] else []
  | _ => []
  end.

(** One operation: inboxes change as the history's functions say, nothing else. *)
Definition inbox_step (b b' : bus) snap pos ids (o : bus_op) (a : answer) : Prop :=
  forall j p, b.(participants_) !! j = Some p -> exists p', b'.(participants_) !! j = Some p' /\ p'.(p_world) = p.(p_world) /\
    polled_beacons j [(o, a)] ++ p'.(inbound_beacons) = p.(inbound_beacons) ++ beacons_to b snap pos j [o] /\
    polled_messages j [(o, a)] ++ p'.(inbound_messages) = p.(inbound_messages) ++ messages_to b snap pos ids j [o].
Definition same_bus (b b' : bus) : Prop :=
  b'.(bus_config) = b.(bus_config) /\ b'.(grid_) = b.(grid_) /\ b'.(grid_cell_size_m_) = b.(grid_cell_size_m_) /\
  length b'.(participants_) = length b.(participants_).

Lemma located_same ps ps' pos ids :
  length ps' = length ps ->
  (forall j p, ps !! j = Some p -> exists p', ps' !! j = Some p' /\ p'.(p_world) = p.(p_world)) ->
  located ps pos ids -> located ps' pos ids.
Proof.
  intros L W (L1 & L2 & Hl). split; [congruence|]. split; [congruence|]. intros i p' Hp'.
  destruct (lookup_lt_is_Some_2 ps i) as [p Hp]; [rewrite <- L; by eapply lookup_lt_Some|].
  destruct (W i p Hp) as (p1 & E1 & E2). rewrite Hp' in E1. injection E1 as <-. rewrite E2. by apply Hl.
Qed.

(** A broadcast reaches exactly those that hear it. *)
Lemma broadcast_ok put b snap pos ids i p :
  (forall p, (put p).(p_world) = p.(p_world)) ->
  located b.(participants_) pos ids -> grid_from b snap -> b.(participants_) !! i = Some p ->
  exists q ps', pos_fn (registry_of b i) = Ok q /\
    offer_all put i (F32.mul b.(bus_config).(comm_range_m) b.(bus_config).(comm_range_m)) q (candidates b q)
      b.(participants_) = Ok ps' /\ length ps' = length b.(participants_) /\
    forall j p, b.(participants_) !! j = Some p -> ps' !! j = Some (if hears b snap pos i j then put p else p).
Proof.
  intros Hput L G Hi. pose proof L as (_ & _ & Hl). destruct (Hl i p Hi) as (reg & q & id & Hw & Hq & _ & Hf & _).
  destruct (candidates_ok b snap q G) as [N C].
  destruct (offer_all_ok put i (F32.mul b.(bus_config).(comm_range_m) b.(bus_config).(comm_range_m)) q pos ids
    (candidates b q) b.(participants_) Hput L N) as (ps' & E & Le & S); [intros j Hj; by apply C|].
  exists q, ps'. split; [unfold registry_of; by rewrite Hi, Hw|]. split; [done|]. split; [done|]. intros j pj Hj.
  rewrite (S j pj Hj). unfold hears. rewrite Hq. destruct (Hl j pj Hj) as (_ & qj & _ & _ & Hqj & _). rewrite Hqj.
  assert (bool_decide (j ∈ candidates b q) = reach b snap q j) as ->.
  { apply eq_true_iff_eq. rewrite bool_decide_eq_true, C. split; [by intros []|]. intros Hr. split; [|done].
    by eapply lookup_lt_Some. }
  f_equal. destruct (reach b snap q j), (j =? i)%nat; cbn [negb andb]; reflexivity.
Qed.

Lemma exec_ok b snap pos ids o :
  located b.(participants_) pos ids -> grid_from b snap ->
  exists b' a, exec b o = Ok (b', a) /\ same_bus b b' /\ inbox_step b b' snap pos ids o a.
Proof.
  intros L G. pose proof L as (Lp & Li & Hl).
  destruct o as [i sv|i m|i|i]; cbn [exec Net.send_beacon Net.send_message Net.poll_beacons Net.poll_messages sim_transport].
  - unfold deliver_beacon_. destruct (b.(participants_) !! i) as [p|] eqn:Hi.
    + destruct (Hl i p Hi) as (reg & _ & _ & Hw & _). rewrite Hw.
      destruct (broadcast_ok (put_beacon sv) b snap pos ids i p ltac:(done) L G Hi) as (q & ps' & -> & E & Le & S).
      cbn [obind]. rewrite E. cbn [obind]. do 2 eexists. split; [done|]. split; [by split_and!|].
      intros j pj Hj. eexists. split; [exact (S j pj Hj)|]. cbn. rewrite !app_nil_r.
      by destruct (hears b snap pos i j); cbn; rewrite ?app_nil_r.
    + cbn [obind]. do 2 eexists. split; [done|]. split; [by split_and!|]. intros j pj Hj. exists pj.
      assert (hears b snap pos i j = false) as Hh.
      { unfold hears. rewrite (lookup_ge_None_2 pos i); [by rewrite andb_false_r|]. rewrite Lp. by apply lookup_ge_None. }
      cbn. by rewrite Hh, !app_nil_r.
  - unfold deliver_message_. destruct (b.(participants_) !! i) as [p|] eqn:Hi.
    + destruct (is_broadcast (m_recipient m)) eqn:Eb.
      * destruct (Hl i p Hi) as (reg & _ & _ & Hw & _). rewrite Hw.
        destruct (broadcast_ok (put_message m) b snap pos ids i p ltac:(done) L G Hi) as (q & ps' & -> & E & Le & S).
        cbn [obind]. rewrite E. cbn [obind]. do 2 eexists. split; [done|]. split; [by split_and!|].
        intros j pj Hj. eexists. split; [exact (S j pj Hj)|]. cbn. rewrite Eb, !app_nil_r.
        by destruct (hears b snap pos i j); cbn; rewrite ?app_nil_r.
      * destruct (deliver_directed_ok i m ids b.(participants_) 0) as (ps' & E & Le & S).
        { apply Forall2_same_length_lookup_2; [done|]. intros k pk idk Hk Hid.
          destruct (Hl k pk Hk) as (reg & _ & id & Hw & _ & Hid' & _ & Hg). exists reg. split; [done|]. congruence. }
        rewrite E. cbn [obind]. do 2 eexists. split; [done|]. split; [by split_and!|].
        intros j pj Hj. eexists. split; [exact (S j pj Hj)|]. cbn -[Nat.ltb]. rewrite Eb, !app_nil_r.
        assert ((i <? length pos)%nat = true) as -> by (apply Nat.ltb_lt; rewrite Lp; by eapply lookup_lt_Some).
        cbn [andb Nat.add]. by case_bool_decide; cbn; rewrite ?app_nil_r.
    + cbn [obind]. do 2 eexists. split; [done|]. split; [by split_and!|]. intros j pj Hj. exists pj.
      assert (length pos <= i)%nat as Hge by (rewrite Lp; by apply lookup_ge_None).
      cbn -[Nat.ltb]. unfold hears. rewrite (lookup_ge_None_2 pos i), (proj2 (Nat.ltb_ge _ _)), andb_false_r by done.
      by destruct (is_broadcast (m_recipient m)); cbn; rewrite !app_nil_r.
  - unfold drain_inbox_beacons_. destruct (b.(participants_) !! i) as [p|] eqn:Hi; do 2 eexists; (split; [done|]).
    + split; [split_and!; cbn [participants_ with_participants]; rewrite ?length_insert; done|]. intros j pj Hj. cbn [participants_ with_participants].
      destruct (decide (i = j)) as [<-|Hn].
      * rewrite list_lookup_insert_eq by (by eapply lookup_lt_Some). eexists. split; [done|].
        rewrite Hi in Hj. injection Hj as <-. cbn. by rewrite Nat.eqb_refl, !app_nil_r.
      * rewrite list_lookup_insert_ne by done. exists pj. cbn. rewrite (proj2 (Nat.eqb_neq i j) Hn). cbn. by rewrite !app_nil_r.
    + split; [by split_and!|]. intros j pj Hj. exists pj. cbn.
      destruct (Nat.eqb_spec i j) as [->|]; [congruence|]. cbn. by rewrite !app_nil_r.
  - unfold drain_inbox_messages_. destruct (b.(participants_) !! i) as [p|] eqn:Hi; do 2 eexists; (split; [done|]).
    + split; [split_and!; cbn [participants_ with_participants]; rewrite ?length_insert; done|]. intros j pj Hj. cbn [participants_ with_participants].
      destruct (decide (i = j)) as [<-|Hn].
      * rewrite list_lookup_insert_eq by (by eapply lookup_lt_Some). eexists. split; [done|].
        rewrite Hi in Hj. injection Hj as <-. cbn. by rewrite Nat.eqb_refl, !app_nil_r.
      * rewrite list_lookup_insert_ne by done. exists pj. cbn. rewrite (proj2 (Nat.eqb_neq i j) Hn). cbn. by rewrite !app_nil_r.
    + split; [by split_and!|]. intros j pj Hj. exists pj. cbn.
      destruct (Nat.eqb_spec i j) as [->|]; [congruence|]. cbn. by rewrite !app_nil_r.
Qed.

(** The functions of the history depend on the bus only through what no operation
    changes. *)
Lemma hears_same b b' snap pos i j : same_bus b b' -> hears b' snap pos i j = hears b snap pos i j.
Proof. intros (Hc & Hg & Hs & _). unfold hears, reach, grid_on. by rewrite Hc, Hg, Hs. Qed.

Lemma to_same b b' snap pos ids j os :
  same_bus b b' ->
  beacons_to b' snap pos j os = beacons_to b snap pos j os /\
  messages_to b' snap pos ids j os = messages_to b snap pos ids j os.
Proof.
  intros Hs. split; apply list_bind_ext; try done; intros [i sv|i m|i|i]; try done; by rewrite (hears_same b b' snap pos i j Hs).
Qed.

Lemma grid_same b b' snap : same_bus b b' -> grid_from b snap -> grid_from b' snap.
Proof. intros (Hc & Hg & Hs & Hl) [G1 G2]. unfold grid_from, grid_on. by rewrite Hg, Hs, Hl. Qed.

Lemma run_ok snap pos ids : forall os b,
  located b.(participants_) pos ids -> grid_from b snap ->
  exists b' log, run b os = Ok (b', log) /\
    forall j p, b.(participants_) !! j = Some p -> exists p', b'.(participants_) !! j = Some p' /\
      polled_beacons j log ++ p'.(inbound_beacons) = p.(inbound_beacons) ++ beacons_to b snap pos j os /\
      polled_messages j log ++ p'.(inbound_messages) = p.(inbound_messages) ++ messages_to b snap pos ids j os.
Proof.
  induction os as [|o os IH]; intros b L G.
  { exists b, []. split; [done|]. intros j p Hj. exists p. split; [done|]. cbn. by rewrite !app_nil_r. }
  destruct (exec_ok b snap pos ids o L G) as (b1 & a & E & Hs & St).
  destruct (IH b1) as (b' & log & R & Hall).
  { apply (located_same b.(participants_)); [by apply Hs| |done]. intros j p Hj.
    destruct (St j p Hj) as (p' & ? & ? & _). eauto. }
  { by apply (grid_same b). }
  exists b', ((o, a) :: log). split; [cbn [run]; rewrite E; cbn [obind]; by rewrite R|]. intros j p Hj.
  destruct (St j p Hj) as (p1 & Hj1 & _ & B1 & M1). destruct (Hall j p1 Hj1) as (p' & Hj' & B2 & M2).
  destruct (to_same b b1 snap pos ids j os Hs) as [Eb Em]. rewrite Eb in B2. rewrite Em in M2.
  exists p'. split; [done|].
  change ((o, a) :: log) with ([(o, a)] ++ log). change (o :: os) with ([o] ++ os).
  unfold polled_beacons, polled_messages, beacons_to, messages_to in *. rewrite !bind_app, <- !app_assoc.
  by rewrite B2, M2, !app_assoc, B1, M1.
Qed.

(** C39: The simulation bus delivers each broadcast exactly once to each other
    participant in range, each directed message to the one participant that has the
    identity, and hands them out in the order of sending.  After [rebuild_grid_], in
    any sequence of sends and polls by worlds that do not move meanwhile, what a
    participant was handed, followed by what is still in its inbox, is what was in
    its inbox, followed by what was sent to it: nothing is lost, duplicated or
    reordered.  Who hears a broadcast is told by the cells of the grid and by the
    distance computed in floats; no operation fails. *)
Theorem bus_exactly_once (b : bus) (pos : list PositionComponent) (ids : list Id.HierarchicalID) (os : list bus_op)
    (Hl : located b.(participants_) pos ids) :
  exists b0 b' log, rebuild_grid_ b = Ok b0 /\ run b0 os = Ok (b', log) /\
    forall j p, b.(participants_) !! j = Some p -> exists p', b'.(participants_) !! j = Some p' /\
      polled_beacons j log ++ p'.(inbound_beacons) = p.(inbound_beacons) ++ beacons_to b0 pos pos j os /\
      polled_messages j log ++ p'.(inbound_messages) = p.(inbound_messages) ++ messages_to b0 pos pos ids j os.
Proof.
  destruct (bus_rebuild_ok b pos ids Hl) as (b0 & E & Ep & Ec & Es & Hg).
  destruct (run_ok pos pos ids os b0) as (b' & log & R & Hall).
  { by rewrite Ep. }
  { split; [rewrite Ep; destruct Hl; lia|]. unfold grid_on. rewrite Es. intros [Hgt Hne]%andb_true_iff.
    destruct (F32.leb (comm_range_m (bus_config b)) F32.zero); [|exact Hg]. rewrite Hg, bool_decide_eq_true_2 in Hne by reflexivity. discriminate Hne. }
  exists b0, b', log. rewrite Ep in Hall. split; [exact E|]. split; [exact R|exact Hall].
Qed.
End Delivery.

(** ** Examples *)

(** Three worlds at 0, 30 and 200 metres on a bus with a range of 50. *)
Definition place_id (n : Z) : Id.HierarchicalID := Id.mk_hid 1 (Id.mk_uuid (replicate 16 n)).
Definition placed (n at_x : Z) : Reg.t :=
  let r := (@Reg.register_builtin_component Reg.gcc (Reg.new_registry Reg.Open) IdentityComponent _).1.1 in
  let r := (@Reg.register_builtin_component Reg.gcc r PositionComponent _).1.1 in
  match @Reg.emplace Reg.gcc IdentityComponent _ r Reg.SELF_ENTITY (mk_identity (place_id n)) with
  | Ok r =>
      match @Reg.emplace Reg.gcc PositionComponent _ r Reg.SELF_ENTITY (mk_pos (F32.of_Z at_x) F32.zero F32.zero) with
      | Ok r => r
      | _ => r
      end
  | _ => r
  end.
Definition sample_participants : list Participant := Eval vm_compute in
  [mk_part (Some (placed 1 0)) [] []; mk_part (Some (placed 2 30)) [] []; mk_part (Some (placed 3 200)) [] []].
Definition sample_bus : bus := mk_bus default_bus_config sample_participants ∅ F32.zero.
Definition sample_positions : list PositionComponent := Eval vm_compute in
  (fun n => mk_pos (F32.of_Z n) F32.zero F32.zero) <$> [0; 30; 200].
Definition sample_ids : list Id.HierarchicalID := Eval vm_compute in place_id <$> [1; 2; 3].
Definition sample_history : list bus_op :=
  [SendBeacon 0 default_sv; SendMessage 0 (mk_message (place_id 1) BROADCAST_ID TASK_BID 0 0 (replicate 128 0));
   PollBeacons 1; SendMessage 1 (mk_message (place_id 2) (place_id 3) TASK_BID 7 0 (replicate 128 0)); SendBeacon 2 default_sv].

Lemma sample_located : @located Reg.gcc sample_bus.(participants_) sample_positions sample_ids.
Proof.
  split; [done|]. split; [done|]. intros [|[|[|i]]] p Hp; [| | |done].
  all: injection Hp as <-; do 3 eexists; split_and!; try reflexivity; vm_compute; reflexivity.
Qed.

Lemma bus_exactly_once_witness :
  exists b0 b' log p1 p2,
    @rebuild_grid_ (sample_platform false) Reg.gcc sample_bus = Ok b0 /\
    @run (sample_platform false) Reg.gcc b0 sample_history = Ok (b', log) /\
    b'.(participants_) !! 1%nat = Some p1 /\ b'.(participants_) !! 2%nat = Some p2 /\
    polled_beacons 1 log ++ p1.(inbound_beacons) = [default_sv] /\
    polled_messages 1 log ++ p1.(inbound_messages) = [mk_message (place_id 1) BROADCAST_ID TASK_BID 0 0 (replicate 128 0)] /\
    polled_messages 2 log ++ p2.(inbound_messages) = [mk_message (place_id 2) (place_id 3) TASK_BID 7 0 (replicate 128 0)].
Proof.
  destruct (@bus_exactly_once (sample_platform false) Reg.gcc sample_bus sample_positions sample_ids sample_history
    sample_located) as (b0 & b' & log & E0 & E & Hall).
  destruct (Hall 1%nat _ eq_refl) as (p1 & L1 & B1 & M1). destruct (Hall 2%nat _ eq_refl) as (p2 & L2 & B2 & M2).
  exists b0, b', log, p1, p2. split; [exact E0|]. split; [exact E|]. split; [exact L1|]. split; [exact L2|].
  assert (b0 = match @rebuild_grid_ (sample_platform false) Reg.gcc sample_bus with Ok b => b | _ => sample_bus end) as Eb
    by (rewrite E0; reflexivity).
  split; [|split].
  - rewrite B1, Eb. vm_compute. reflexivity.
  - rewrite M1, Eb. vm_compute. reflexivity.
  - rewrite M2, Eb. vm_compute. reflexivity.
Defined.
End Sim.
