(* ===== verification/SimSafety.v ===== *)
(** A simulation does not abort: worlds created on one bus, set up and initialised by
    the application, run for any number of ticks of the clock.

    The bus is a reliable transport as long as every wired world has its position and
    its identity and the grid names only participants ([bus_ok]); the worlds keep the
    first, each tick of a world keeps the second. *)

From S2P Require Import Prelude MachineInt Float32 Identity BoundedQueue Components Trace JsonWriter.
From S2P Require Import Scheduler NeighbourTable Registry PeerKeys Transport FaultMonitor TaskAlloc.
From S2P Require Import ClockSync PartitionMerge Flocking Actions WorldState Discovery Beacon World WorldSafety Sim.
Local Open Scope Z_scope.

Module SimSafe.
Import Comp WS World Safe Sim.

(** ** The bus is a reliable transport *)

Section BusOk.
Context `{!Platform} {TC : Reg.Toolchain}.

Definition readable (reg : Reg.t) : Prop :=
  (exists q, pos_fn reg = Ok q) /\ (exists i, Reg.get IdentityComponent reg Reg.SELF_ENTITY = Ok i).
Definition readable_part (p : Participant) : Prop := forall reg, p.(p_world) = Some reg -> readable reg.
Definition grid_in (n : nat) (g : gmap NT.CellKey (list nat)) : Prop :=
  forall k i, i ∈ default [] (g !! k) -> (i < n)%nat.

Record bus_ok (n : nat) (b : bus) : Prop := {
  bo_length : length b.(participants_) = n;
  bo_readable : Forall readable_part b.(participants_);
  bo_grid : grid_in n b.(grid_);
}.

(** Only inboxes differ. *)
Definition same_parts (ps ps' : list Participant) : Prop := p_world <$> ps' = p_world <$> ps.

Lemma same_parts_length ps ps' : same_parts ps ps' -> length ps' = length ps.
Proof. intros Hs%(f_equal length). by rewrite !length_fmap in Hs. Qed.

Lemma same_parts_readable ps ps' : same_parts ps ps' -> Forall readable_part ps -> Forall readable_part ps'.
Proof.
  intros Hs Hr. rewrite Forall_lookup in *. intros i p Hp reg Hw.
  assert ((p_world <$> ps') !! i = Some (Some reg)) as Hl by (by rewrite list_lookup_fmap, Hp, <- Hw).
  rewrite Hs, list_lookup_fmap in Hl. apply fmap_Some in Hl as (q & Hq & Eq). by apply (Hr i q Hq).
Qed.

Lemma same_parts_bus n b ps : bus_ok n b -> same_parts b.(participants_) ps -> bus_ok n (with_participants ps b).
Proof.
  intros [Hl Hr Hg] Hs. constructor; [by rewrite <- Hl; apply same_parts_length| |done].
  by apply (same_parts_readable _ _ Hs).
Qed.

Lemma same_parts_alter f to ps : (forall p, (f p).(p_world) = p.(p_world)) -> same_parts ps (alter f to ps).
Proof.
  intros Hf. unfold same_parts. apply list_eq. intros j. rewrite !list_lookup_fmap.
  destruct (decide (to = j)) as [<-|Hn]; [rewrite list_lookup_alter_eq|by rewrite list_lookup_alter_ne].
  destruct (ps !! to); cbn; by rewrite ?Hf.
Qed.

Lemma offer_all_safe put from r q tos : forall ps,
  (forall p, (put p).(p_world) = p.(p_world)) -> Forall readable_part ps ->
  (forall j, j ∈ tos -> (j < length ps)%nat) ->
  exists ps', offer_all put from r q tos ps = Ok ps' /\ same_parts ps ps'.
Proof.
  induction tos as [|to tos IH]; intros ps Hput Hr B; [by exists ps|]. cbn [offer_all].
  assert (exists ps1, offer_to put from r q ps to = Ok ps1 /\ same_parts ps ps1) as (ps1 & -> & S1).
  { unfold offer_to. destruct (to =? from)%nat; [by exists ps|].
    destruct (lookup_lt_is_Some_2 ps to (B to ltac:(by left))) as [p E]. rewrite E.
    destruct (p_world p) as [reg|] eqn:Ew; [|by exists ps]. rewrite Forall_lookup in Hr.
    destruct (Hr to p E reg Ew) as [[qt ->] _]. cbn [obind].
    destruct (within r q qt); eexists; split; try done. by apply same_parts_alter. }
  cbn [obind]. destruct (IH ps1 Hput) as (ps' & -> & S').
  - by apply (same_parts_readable _ _ S1).
  - intros j Hj. rewrite (same_parts_length _ _ S1). apply B. by right.
  - exists ps'. split; [done|]. by unfold same_parts in *; congruence.
Qed.

Lemma candidates_in n b q j : bus_ok n b -> j ∈ candidates b q -> (j < length b.(participants_))%nat.
Proof.
  intros [Hl Hr Hg]. unfold candidates. destruct (_ && _).
  - intros (k & Hj & _)%list_elem_of_bind. rewrite Hl. by apply (Hg k).
  - rewrite elem_of_seq. lia.
Qed.

Lemma deliver_beacon_safe n from reg sv b :
  (exists q, pos_fn reg = Ok q) -> bus_ok n b -> exists b', deliver_beacon_ from reg sv b = Ok b' /\ bus_ok n b'.
Proof.
  intros [q Hq] Hb. unfold deliver_beacon_. destruct (participants_ b !! from) as [p|]; [|by exists b].
  destruct (p_world p); [|by exists b]. rewrite Hq. cbn [obind].
  destruct (offer_all_safe (put_beacon sv) from (F32.mul b.(bus_config).(comm_range_m) b.(bus_config).(comm_range_m)) q
    (candidates b q) b.(participants_)) as (ps & -> & Hs); [done|apply Hb|intros j Hj; by apply (candidates_in n b q)|].
  eexists. split; [done|]. by apply same_parts_bus.
Qed.

Lemma deliver_directed_safe from msg : forall ps k,
  Forall readable_part ps -> exists ps', deliver_directed from msg k ps = Ok ps' /\ same_parts ps ps'.
Proof.
  induction ps as [|p ps IH]; intros k Hr; [by exists []|]. apply Forall_cons in Hr as [Hp Hr]. cbn [deliver_directed].
  destruct (IH (S k) Hr) as (ps' & -> & Hs). cbn [obind].
  assert (same_parts (p :: ps) (p :: ps')) as Hk by (unfold same_parts in *; cbn; by rewrite Hs).
  destruct (k =? from)%nat; [by eexists|]. destruct (p_world p) as [reg|] eqn:Ew; [|by eexists].
  destruct (Hp reg Ew) as [_ [i ->]]. cbn [obind]. destruct (Id.hid_eqb _ _); by eexists.
Qed.

Lemma deliver_message_safe n from reg msg b :
  (exists q, pos_fn reg = Ok q) -> bus_ok n b -> exists b', deliver_message_ from reg msg b = Ok b' /\ bus_ok n b'.
Proof.
  intros [q Hq] Hb. unfold deliver_message_. destruct (participants_ b !! from) as [p|]; [|by exists b].
  destruct (is_broadcast (m_recipient msg)).
  - destruct (p_world p); [|by exists b]. rewrite Hq. cbn [obind].
    destruct (offer_all_safe (put_message msg) from (F32.mul b.(bus_config).(comm_range_m) b.(bus_config).(comm_range_m)) q
      (candidates b q) b.(participants_)) as (ps & -> & Hs); [done|apply Hb|intros j Hj; by apply (candidates_in n b q)|].
    eexists. split; [done|]. by apply same_parts_bus.
  - destruct (deliver_directed_safe from msg b.(participants_) 0) as (ps & -> & Hs); [apply Hb|].
    eexists. split; [done|]. by apply same_parts_bus.
Qed.

(** Rebuilding the grid of a good bus with every world wired. *)
Lemma index_participants_safe cell n : forall ps k g,
  Forall readable_part ps -> (k + length ps <= n)%nat -> grid_in n g ->
  exists g', index_participants cell k ps g = Ok g' /\ grid_in n g'.
Proof.
  induction ps as [|p ps IH]; intros k g Hr Hk Hg; [by exists g|]. apply Forall_cons in Hr as [Hp Hr].
  cbn [length] in Hk. cbn [index_participants]. destruct (p_world p) as [reg|] eqn:Ew; [|apply IH; [done|lia|done]].
  destruct (Hp reg Ew) as [[q ->] _]. cbn [obind]. apply IH; [done|lia|].
  intros key i Hi. apply NT.grid_push_elem in Hi as [Hi|[-> _]]; [by eapply Hg|lia].
Qed.

Lemma rebuild_safe n b : bus_ok n b -> exists b', rebuild_grid_ b = Ok b' /\ bus_ok n b' /\
  b'.(participants_) = b.(participants_).
Proof.
  intros [Hl Hr Hg]. assert (grid_in n ∅) as H0.
  { intros k i Hi. rewrite lookup_empty in Hi. by apply not_elem_of_nil in Hi. }
  unfold rebuild_grid_. destruct (F32.leb _ _); [by eexists|].
  destruct (index_participants_safe (comm_range_m (bus_config b)) n b.(participants_) 0 ∅) as (g & -> & Hg'); [done|lia|done|].
  cbn [obind]. by eexists.
Qed.

Lemma same_parts_insert i p p' (ps : list Participant) :
  ps !! i = Some p -> p'.(p_world) = p.(p_world) -> same_parts ps (<[i := p']> ps).
Proof.
  intros Hi Hw. unfold same_parts. rewrite list_fmap_insert, Hw. apply list_insert_id. by rewrite list_lookup_fmap, Hi.
Qed.
End BusOk.

Section Reliability.
Context `{!Platform} {TC : Reg.Toolchain}.

(** Among [n] participants. *)
Definition sim_reliable (n : nat) : @Disc.Reliable nat bus sim_transport TC.
Proof.
  refine (@Disc.Build_Reliable nat bus sim_transport TC (fun r => exists q, pos_fn r = Ok q) (bus_ok n) _ _ _ _ _).
  - intros r p Hp. by exists p.
  - intros h r m b Hr Hb. destruct (deliver_message_safe n h r m b Hr Hb) as (b' & E & Hb').
    exists b', true. cbn [Net.send_message sim_transport]. by rewrite E.
  - intros h r sv b Hr Hb. destruct (deliver_beacon_safe n h r sv b Hr Hb) as (b' & E & Hb').
    exists b', true. cbn [Net.send_beacon sim_transport]. by rewrite E.
  - intros h b Hb. cbn [Net.poll_beacons sim_transport]. unfold drain_inbox_beacons_.
    destruct (participants_ b !! h) as [p|] eqn:Ep; [|done]. apply same_parts_bus; [done|]. by apply (same_parts_insert h p).
  - intros h b Hb. cbn [Net.poll_messages sim_transport]. unfold drain_inbox_messages_.
    destruct (participants_ b !! h) as [p|] eqn:Ep; [|done]. apply same_parts_bus; [done|]. by apply (same_parts_insert h p).
Defined.
End Reliability.

(** ** Simulations *)

Section Simulation.
Context {U : Type} {PF : Platform} {TC : Reg.Toolchain} {CR : Auth.Crypto}.
#[local] Existing Instance sim_transport.
Variable user_handler : nat -> Message -> core nat bus U -> outcome (core nat bus U * bool).
Variable user_describe : nat -> Sched.SystemDescriptor.
Variable user_tick : nat -> Sched.SwarmContext -> Z -> core nat bus U -> outcome (core nat bus U).

(** A world of the application: what it is created with, and the calls made before
    it is initialised. *)
Record member := mk_member {
  mb_swarm : Z;
  mb_user : U;
  mb_entropy : nat;
  mb_draws : nat;
  mb_calls : list call;
}.

Definition add_member (m : member) (s : sim) : outcome sim :=
  let s := create_world m.(mb_swarm) m.(mb_user) m.(mb_entropy) m.(mb_draws) s in
  match last s.(sim_worlds) with
  | None => Undefined "no world"
  | Some wd =>
      let! wd := exec_calls user_handler user_describe user_tick m.(mb_calls) wd in
      let! wd := init user_handler user_describe user_tick wd in
      Ok (mk_sim s.(sim_bus) s.(sim_clock) (<[(length s.(sim_worlds) - 1)%nat := wd]> s.(sim_worlds)))
  end.

Fixpoint populate (ms : list member) (s : sim) : outcome sim :=
  match ms with
  | [] => Ok s
  | m :: ms => let! s := add_member m s in populate ms s
  end.

Definition empty_sim (config : SimBusConfig) : @sim U :=
  let '(b, c) := new_bus config in mk_sim b c [].

(** What is asked of the application's code, however many worlds there are. *)
Definition sim_user_code_sound : Prop :=
  forall n, @user_code_sound nat bus U PF TC sim_transport (sim_reliable n) user_handler user_tick.
Hypothesis user_ok : sim_user_code_sound.

(** A world that is sound on some good bus is sound on every good bus. *)
Notation ok_among n := (@world_ok nat bus U PF TC CR sim_transport (sim_reliable n) user_handler user_describe user_tick).
Definition fit (cc : WorldConfig * Sched.SwarmContext) (wd : @world nat bus U) : Prop :=
  exists n e, ok_among n cc (map_core (with_env e) wd).

Lemma fit_env cc wd n e : fit cc wd -> bus_ok n e -> ok_among n cc (map_core (with_env e) wd).
Proof.
  intros (n0 & e0 & [[Si Sr Sn Sj Sh Sc _] R]) He. constructor; [|exact R]. by constructor.
Qed.

Lemma fit_ok cc wd n : ok_among n cc wd -> fit cc wd.
Proof. intros W. exists n, wd.(core_).(env_). destruct wd as [w sch], w. exact W. Qed.

Lemma fit_readable cc wd : fit cc wd -> readable wd.(core_).(registry_).
Proof.
  intros (n & e & [S _]). pose proof (snd_registry _ _ S) as C. split.
  - apply (complete_get (T := PositionComponent) _ C). cbn. set_solver.
  - apply (complete_get (T := IdentityComponent) _ C). cbn. set_solver.
Qed.

Record sim_ok (ccs : list (WorldConfig * Sched.SwarmContext)) (s : sim) : Prop := {
  so_parts : length s.(sim_bus).(participants_) = length s.(sim_worlds);
  so_clock : s.(sim_clock).(clk_worlds) = seq 0 (length s.(sim_worlds));
  so_worlds : Forall2 fit ccs s.(sim_worlds);
  so_grid : grid_in (length s.(sim_worlds)) s.(sim_bus).(grid_);
}.

Lemma empty_ok config : sim_ok [] (empty_sim config).
Proof.
  constructor; try done; try apply Forall2_nil_2. intros j i Hi. cbn in Hi. rewrite lookup_empty in Hi. by apply not_elem_of_nil in Hi.
Qed.

Lemma view_ok ccs s : sim_ok ccs s -> bus_ok (length s.(sim_worlds)) (view s).
Proof.
  intros [Hp Hc Hw Hg]. constructor; [by cbn; rewrite length_imap| |exact Hg].
  apply Forall_lookup. intros i p Hi reg Hr. cbn [view with_participants participants_] in Hi.
  rewrite list_lookup_imap in Hi. apply fmap_Some in Hi as (p0 & Hi & ->).
  destruct (lookup_lt_is_Some_2 s.(sim_worlds) i) as [wd Ew]; [rewrite <- Hp; by eapply lookup_lt_Some|].
  rewrite Ew in Hr. injection Hr as <-. destruct (Forall2_lookup_r _ _ _ _ _ Hw Ew) as (cc & _ & F). by eapply fit_readable.
Qed.

(** *** One world's tick, and one round *)

Definition systems_of (s : @sim U) : list (list system) := (fun wd => wd.(scheduler_).(Sched.systems_)) <$> s.(sim_worlds).

(** What no tick of a world in good order changes. *)
Definition stable {A : Type} (f : @world nat bus U -> A) : Prop :=
  forall n cc clk tid wd wd', ok_among n cc wd -> tick user_handler user_describe user_tick clk tid wd = Ok wd' -> f wd' = f wd.
Definition env_blind {A : Type} (f : @world nat bus U -> A) : Prop := forall e wd, f (map_core (with_env e) wd) = f wd.
Definition unchanged (s s' : @sim U) : Prop := forall (A : Type) (f : @world nat bus U -> A),
  stable f -> env_blind f -> f <$> s'.(sim_worlds) = f <$> s.(sim_worlds).

Lemma systems_stable : stable (fun wd => wd.(scheduler_).(Sched.systems_)).
Proof.
  intros n cc clk tid wd wd' W E.
  destruct (tick_ok user_handler user_describe user_tick (user_ok n) cc clk tid wd W) as (w2 & E2 & _ & Es). congruence.
Qed.
Lemma systems_unchanged s s' : unchanged s s' -> systems_of s' = systems_of s.
Proof. intros Hu. apply (Hu _ _ systems_stable). done. Qed.

Lemma tick_world_ok clk tid i ccs s :
  sim_ok ccs s -> (i < length s.(sim_worlds))%nat ->
  exists s', tick_world user_handler user_describe user_tick clk tid i s = Ok s' /\
    sim_ok (alter next_context i ccs) s' /\ s'.(sim_clock) = s.(sim_clock) /\ unchanged s s'.
Proof.
  intros Hs Hi. pose proof (view_ok ccs s Hs) as Hv. destruct Hs as [Hp Hc Hw Hg]. unfold tick_world.
  destruct (lookup_lt_is_Some_2 _ _ Hi) as [wd Ew]. rewrite Ew.
  destruct (Forall2_lookup_r _ _ _ _ _ Hw Ew) as (cc & Ecc & F).
  pose proof (fit_env cc wd _ _ F Hv) as W.
  destruct (tick_ok user_handler user_describe user_tick (user_ok _) cc clk tid _ W) as (wd' & Et & W' & Es).
  rewrite Et. cbn [obind]. eexists. split; [done|]. split; [|split; [done|]].
  - destruct W' as [S' R']. pose proof (snd_env _ _ S') as [Bl Br Bg].
    constructor; cbn [sim_bus sim_worlds sim_clock]; rewrite ?length_insert; try done.
    apply Forall2_lookup. intros j. destruct (decide (i = j)) as [<-|Hn].
    + rewrite list_lookup_alter_eq, list_lookup_insert_eq, Ecc by done. constructor. eapply fit_ok. by constructor.
    + rewrite list_lookup_alter_ne, list_lookup_insert_ne by done. by apply Forall2_lookup.
  - intros A f Sf Bf. cbn [sim_worlds]. rewrite list_fmap_insert, (Sf _ _ _ _ _ _ W Et), Bf. apply list_insert_id.
    by rewrite list_lookup_fmap, Ew.
Qed.

Lemma unchanged_refl s : unchanged s s.
Proof. by intros A f _ _. Qed.
Lemma unchanged_trans s1 s2 s3 : unchanged s1 s2 -> unchanged s2 s3 -> unchanged s1 s3.
Proof. intros H12 H23 A f Sf Bf. by rewrite (H23 A f Sf Bf), (H12 A f Sf Bf). Qed.
Lemma unchanged_length s s' : unchanged s s' -> length s'.(sim_worlds) = length s.(sim_worlds).
Proof. intros E%systems_unchanged%(f_equal length). unfold systems_of in E. by rewrite !length_fmap in E. Qed.

Lemma tick_worlds_ok clk tid ws : forall ccs s,
  sim_ok ccs s -> (forall i, i ∈ ws -> (i < length s.(sim_worlds))%nat) ->
  exists s', tick_worlds user_handler user_describe user_tick clk tid ws s = Ok s' /\
    sim_ok (foldl (fun c i => alter next_context i c) ccs ws) s' /\ s'.(sim_clock) = s.(sim_clock) /\
    unchanged s s'.
Proof.
  induction ws as [|i ws IH]; intros ccs s Hs Hi; [exists s; by split_and!|]. cbn [tick_worlds foldl].
  destruct (tick_world_ok clk tid i ccs s Hs (Hi i ltac:(by left))) as (s1 & -> & H1 & C1 & Y1). cbn [obind].
  destruct (IH _ s1 H1) as (s' & -> & H' & C' & Y').
  - intros j Hj. rewrite (unchanged_length _ _ Y1). apply Hi. by right.
  - exists s'. split; [done|]. split; [done|]. split; [congruence|by eapply unchanged_trans].
Qed.

Lemma foldl_alter {A} (f : A -> A) ws : forall (l : list A) j, NoDup ws ->
  foldl (fun c i => alter f i c) l ws !! j = if decide (j ∈ ws) then f <$> l !! j else l !! j.
Proof.
  induction ws as [|i ws IH]; intros l j N; [by rewrite decide_False by apply not_elem_of_nil|].
  apply NoDup_cons in N as [N1 N2]. cbn [foldl]. rewrite IH by done. destruct (decide (i = j)) as [<-|Hn].
  - rewrite list_lookup_alter_eq, (decide_False (P := i ∈ ws)), decide_True by (done || by left). done.
  - rewrite list_lookup_alter_ne by done. destruct (decide (j ∈ ws)).
    + by rewrite decide_True by (by right).
    + rewrite decide_False by (by intros [|]%elem_of_cons). done.
Qed.

Lemma round_all ccs (n : nat) : length ccs = n ->
  foldl (fun c i => alter next_context i c) ccs (seq 0 n) = next_context <$> ccs.
Proof.
  intros Hn. apply list_eq. intros j. rewrite foldl_alter by apply NoDup_seq. rewrite list_lookup_fmap.
  destruct (decide (j ∈ seq 0 n)) as [Hj|Hj]; [done|]. rewrite elem_of_seq in Hj.
  by rewrite (lookup_ge_None_2 ccs j) by lia.
Qed.

(** *** Whole runs *)

Lemma iter_lookup k (l : list (WorldConfig * Sched.SwarmContext)) i cc :
  l !! i = Some cc -> (Nat.iter k (fmap next_context) l : list _) !! i = Some (Nat.iter k next_context cc).
Proof.
  intros Hl. induction k as [|k IH]; [exact Hl|]. cbn [Nat.iter nat_rect].
  change (nat_rect _ l (fun _ => fmap next_context) k) with (Nat.iter k (fmap next_context) l).
  rewrite list_lookup_fmap, IH. done.
Qed.

Definition clock_after (k : nat) (c : SimClock) : Prop :=
  c.(clk_tick_count) = MI.u64 (Z.of_nat k) /\
  c.(clk_elapsed_time_s) = Nat.iter k (fun t => F32.add t c.(clk_delta_time_s)) F32.zero.

Lemma advance_ok clk tid ticks : forall k ccs s,
  sim_ok ccs s -> clock_after k s.(sim_clock) ->
  exists s', advance user_handler user_describe user_tick clk tid ticks s = Ok s' /\
    sim_ok (Nat.iter ticks (fmap next_context) ccs) s' /\ clock_after (ticks + k) s'.(sim_clock) /\
    s'.(sim_clock).(clk_delta_time_s) = s.(sim_clock).(clk_delta_time_s) /\ unchanged s s'.
Proof.
  induction ticks as [|ticks IH]; intros k ccs s Hs Hk; [exists s; by split_and!|]. cbn [advance].
  destruct (rebuild_safe _ _ (view_ok ccs s Hs)) as (b & -> & [Bl Br Bg] & Bp). cbn [obind].
  set (s1 := mk_sim b s.(sim_clock) s.(sim_worlds)).
  assert (sim_ok ccs s1) as H1 by (destruct Hs; by constructor).
  unfold clock_step. change (clk_worlds (sim_clock s1)) with (clk_worlds (sim_clock s)). rewrite (so_clock _ _ Hs).
  destruct (tick_worlds_ok clk tid (seq 0 (length s.(sim_worlds))) ccs s1 H1) as (s2 & -> & H2 & C2 & Y2).
  { intros i Hi. by apply elem_of_seq in Hi as [_ Hi]. }
  cbn [obind]. rewrite round_all in H2 by (by rewrite (Forall2_length _ _ _ (so_worlds _ _ Hs))).
  set (s3 := mk_sim _ _ _).
  assert (sim_ok (next_context <$> ccs) s3) as H3 by (destruct H2; by constructor).
  destruct (IH (S k) (next_context <$> ccs) s3 H3) as (s' & -> & H' & K' & D' & Y').
  - destruct Hk as [K1 K2]. split; cbn [s3 sim_clock clk_tick_count clk_elapsed_time_s clk_delta_time_s]; rewrite C2; cbn [s1 sim_clock].
    + rewrite K1, NT.u64_add_l. f_equal. lia.
    + by rewrite K2.
  - exists s'. split; [done|]. rewrite Nat.iter_succ_r. split; [done|]. split; [by replace (S ticks + k)%nat with (ticks + S k)%nat by lia|].
    split; [by rewrite D'; cbn; rewrite C2|]. by apply (unchanged_trans s s3).
Qed.

Hypothesis types_distinct : distinct_ids.

Definition start_context (config : SimBusConfig) (m : member) : WorldConfig * Sched.SwarmContext :=
  (make_world_config (mk_bus config [] ∅ F32.zero) m.(mb_swarm), Sched.mk_ctx m.(mb_swarm) 0 0 0).

Lemma add_member_ok config m ccs s :
  good_calls user_describe m.(mb_calls) -> sim_ok ccs s -> s.(sim_bus).(bus_config) = config ->
  exists s', add_member m s = Ok s' /\ sim_ok (ccs ++ [start_context config m]) s' /\
    s'.(sim_bus).(bus_config) = config /\
    s'.(sim_clock).(clk_tick_count) = s.(sim_clock).(clk_tick_count) /\
    s'.(sim_clock).(clk_elapsed_time_s) = s.(sim_clock).(clk_elapsed_time_s) /\
    s'.(sim_clock).(clk_delta_time_s) = s.(sim_clock).(clk_delta_time_s) /\
    exists wd id, s'.(sim_worlds) = s.(sim_worlds) ++ [wd] /\ wd.(scheduler_).(Sched.systems_) = constructed m.(mb_calls) /\
      identity wd.(core_) = Ok id /\ (MI.is_u16 m.(mb_swarm) -> Id.wf_hid id).
Proof.
  intros [Gn Gt] Hs Hcfg. pose proof (view_ok ccs s Hs) as [Vl Vr Vg]. destruct Hs as [Hp Hc Hw Hg].
  unfold add_member, create_world. cbn [sim_worlds sim_bus sim_clock].
  set (b := with_participants _ _). set (wd0 := new_world_unified _ _ _ _ _ _). rewrite last_snoc.
  assert (bus_ok (S (length s.(sim_worlds))) b) as Bb.
  { constructor; cbn [b with_participants participants_ grid_].
    - rewrite length_app, Vl. cbn. lia.
    - apply Forall_app. split; [exact Vr|]. constructor; [by intros reg|constructor].
    - intros k i Hi. apply Hg in Hi. lia. }
  pose proof (@new_fresh nat bus U PF TC CR sim_transport (sim_reliable (S (length s.(sim_worlds)))) user_handler user_describe
    user_tick (make_world_config b m.(mb_swarm)) (Some (length s.(sim_bus).(participants_))) None None b m.(mb_user)
    m.(mb_entropy) m.(mb_draws) ltac:(cbn; lia) Bb) as F0. fold wd0 in F0.
  destruct (exec_calls_fresh user_handler user_describe user_tick _ m.(mb_calls) wd0 F0) as (wd1 & -> & F1 & S1); [done|exact Gt|].
  cbn [obind]. destruct (init_ok user_handler user_describe user_tick _ wd1 types_distinct F1)
    as (wd2 & -> & W2 & I2 & _ & _ & _ & _ & _ & _ & _ & _ & Ss). cbn [obind]. rewrite S1 in Ss. cbn [app] in Ss.
  eexists. split; [done|]. cbn [sim_clock sim_bus sim_worlds]. rewrite length_app, Nat.add_sub.
  rewrite insert_app_r_alt, Nat.sub_diag by lia. cbn [list_insert].
  assert (existsb (Nat.eqb (length s.(sim_bus).(participants_))) s.(sim_clock).(clk_worlds) = false) as Ex.
  { apply not_true_iff_false. intros (j & Hj & Ej%Nat.eqb_eq)%existsb_exists. rewrite Hc in Hj.
    apply list_elem_of_In, elem_of_seq in Hj. lia. }
  unfold clk_register_world. rewrite Ex.
  split; [|split; [exact Hcfg|split; [done|split; [done|split; [done|]]]]].
  - constructor; cbn [sim_bus sim_worlds sim_clock clk_worlds with_participants participants_ grid_].
    + rewrite length_alter. cbn [b with_participants participants_]. rewrite !length_app, Vl. done.
    + rewrite Hc, Hp, length_app, seq_app. done.
    + apply Forall2_app; [done|]. constructor; [|constructor]. eapply fit_ok.
      replace (start_context config m) with (make_world_config b m.(mb_swarm), Sched.mk_ctx m.(mb_swarm) 0 0 0); [exact W2|].
      unfold start_context, make_world_config, b. cbn. by rewrite Hcfg.
    + intros k i Hi. apply Hg in Hi. rewrite length_app. cbn. lia.
  - eexists wd2, _. split; [done|]. split; [exact Ss|]. split; [exact I2|]. intros Hm. apply fresh_hid_spec.
    pose proof (f_equal (fun c : WorldConfig * Sched.SwarmContext => c.1.(cfg_swarm_id)) (fr_context _ _ _ _ _ F1)) as Es.
    cbn in Es. by rewrite Es.
Qed.

Lemma populate_ok config ms : forall ccs s,
  Forall (fun m => good_calls user_describe m.(mb_calls)) ms -> sim_ok ccs s -> s.(sim_bus).(bus_config) = config ->
  exists s', populate ms s = Ok s' /\ sim_ok (ccs ++ (start_context config <$> ms)) s' /\
    s'.(sim_clock).(clk_tick_count) = s.(sim_clock).(clk_tick_count) /\
    s'.(sim_clock).(clk_elapsed_time_s) = s.(sim_clock).(clk_elapsed_time_s) /\
    s'.(sim_clock).(clk_delta_time_s) = s.(sim_clock).(clk_delta_time_s) /\
    systems_of s' = systems_of s ++ ((fun m => constructed m.(mb_calls)) <$> ms).
Proof.
  induction ms as [|m ms IH]; intros ccs s Hm Hs Hcfg.
  { exists s. cbn [fmap list_fmap]. rewrite !app_nil_r. by split_and!. }
  apply Forall_cons in Hm as [Hm Hms]. cbn [populate fmap list_fmap].
  destruct (add_member_ok config m ccs s Hm Hs Hcfg) as (s1 & -> & H1 & B1 & T1 & E1 & D1 & wd & _ & Y1 & Ys & _). cbn [obind].
  destruct (IH _ s1 Hms H1 B1) as (s' & -> & H' & T' & E' & D' & Y'). exists s'. split; [done|].
  rewrite <- app_assoc in H'. split; [exact H'|]. split_and!; try congruence.
  rewrite Y'. unfold systems_of. rewrite Y1, fmap_app, <- app_assoc. cbn. by rewrite Ys.
Qed.

(** C2: a simulation does not abort.  Create any number of worlds on a bus, register
    differently named systems and application component types in each, initialise
    them, and advance the clock by any number of ticks: every step returns, whatever
    the worlds send to each other and wherever they move.  Afterwards every world and
    the clock have made that number of ticks and agree on the elapsed time, each
    world's invariant holds and its systems are those registered.  The application's
    own systems and handlers are assumed to keep the invariant. *)
Theorem simulation_never_aborts (config : SimBusConfig) (ms : list member) (clk : nat -> Z * Z) (tid : Z) (k : nat) :
  Forall (fun m => good_calls user_describe m.(mb_calls)) ms ->
  exists s0 s, populate ms (empty_sim config) = Ok s0 /\
    advance user_handler user_describe user_tick clk tid k s0 = Ok s /\
    length s.(sim_worlds) = length ms /\
    s.(sim_clock).(clk_tick_count) = MI.u64 (Z.of_nat k) /\
    forall i wd, s.(sim_worlds) !! i = Some wd -> exists m cc, ms !! i = Some m /\ fit cc wd /\
      wd.(core_).(context_).(Sched.tick_count) = MI.u64 (Z.of_nat k) /\
      wd.(core_).(context_).(Sched.elapsed_time_s) = s.(sim_clock).(clk_elapsed_time_s) /\
      wd.(scheduler_).(Sched.systems_) = constructed m.(mb_calls).
Proof.
  intros Hm. destruct (populate_ok config ms [] (empty_sim config) Hm (empty_ok config) eq_refl) as (s0 & E0 & S0 & T0 & L0 & D0 & Y0).
  destruct (advance_ok clk tid k 0 _ s0 S0) as (s & Ea & S1 & [K1 K2] & D1 & Y1).
  { split; [rewrite T0; done|rewrite L0; done]. }
  rewrite Nat.add_0_r in K1, K2. exists s0, s. split; [done|]. split; [done|].
  assert (systems_of s = (fun m => constructed m.(mb_calls)) <$> ms) as Y by (rewrite (systems_unchanged _ _ Y1), Y0; done).
  split; [pose proof (f_equal length Y) as L; unfold systems_of in L; by rewrite !length_fmap in L|]. split; [done|].
  intros i wd Hi. destruct (Forall2_lookup_r _ _ _ _ _ (so_worlds _ _ S1) Hi) as (cc & Hcc & F).
  pose proof (f_equal (fun l => l !! i) Y) as Yi. unfold systems_of in Yi. cbn in Yi. rewrite !list_lookup_fmap, Hi in Yi.
  symmetry in Yi. apply fmap_Some in Yi as (m & Em & Es). exists m, cc. split; [done|]. split; [done|].
  cbn [app] in Hcc. assert (cc = Nat.iter k next_context (start_context config m)) as ->.
  { rewrite (iter_lookup k _ i (start_context config m)) in Hcc; [by injection Hcc as <-|]. by rewrite list_lookup_fmap, Em. }
  destruct (iter_context k (start_context config m)) as (_ & I2 & I3); [unfold MI.is_u64; cbn; lia|].
  destruct F as (n & e & [S _]). pose proof (f_equal snd (snd_context _ _ S)) as Cx. cbn [map_core core_ with_env context_ snd] in Cx.
  rewrite Cx, I2, I3, K2, D1, D0, Es. done.
Qed.
End Simulation.

(** ** Examples *)

(** Two worlds with every built-in system, and no code of the application. *)
Definition quiet_handler (n : nat) (m : Message) (w : core nat bus unit) : outcome (core nat bus unit * bool) := Ok (w, false).
Definition quiet_tick (n : nat) (ctx : Sched.SwarmContext) (dt : Z) (w : core nat bus unit) : outcome (core nat bus unit) :=
  Ok w.
Definition sample_members : list (@member unit) := [mk_member 1 tt 0 0 sample_setup; mk_member 1 tt 7 7 sample_setup].

Lemma simulation_never_aborts_witness :
  exists s0 s,
    @populate unit (sample_platform true) Reg.gcc Auth.toy_crypto quiet_handler no_system quiet_tick sample_members
      (empty_sim default_bus_config) = Ok s0 /\
    @advance unit (sample_platform true) Reg.gcc Auth.toy_crypto quiet_handler no_system quiet_tick (fun _ => (0, 0)) 7 100 s0
      = Ok s /\
    length s.(sim_worlds) = 2%nat /\ s.(sim_clock).(clk_tick_count) = 100.
Proof.
  destruct (@simulation_never_aborts unit (sample_platform true) Reg.gcc Auth.toy_crypto quiet_handler no_system quiet_tick)
    with (config := default_bus_config) (ms := sample_members) (clk := fun _ : nat => (0, 0)) (tid := 7) (k := 100%nat)
    as (s0 & s & E0 & E & L & K & _).
  - intros n cc. split.
    + intros i m w S. by exists w, false.
    + intros i ctx dt w S. by exists w.
  - exact Reg.gcc_builtin_ids.
  - unfold sample_members. apply Forall_cons_2; [exact sample_setup_good|]. apply Forall_cons_2; [exact sample_setup_good|].
    apply Forall_nil_2.
  - exists s0, s. split; [exact E0|]. split; [exact E|]. split; [exact L|exact K].
Defined.
End SimSafe.
