(* ===== verification/Demos.v ===== *)
(** The flocking demonstrations ([examples/flocking_demo], [examples/flocking_demo_3d])
    as programs over the simulation: what each prints, and that it does return.

    The two mains have the same text but for the parameters in [demo].  What the
    random engine and the distributions of the standard library deliver is the
    parameter [uniform lo hi n], the [n]-th number drawn, from a distribution on
    [lo, hi]; nothing is asked of it. *)

From S2P Require Import Prelude MachineInt Float32 Identity BoundedQueue Components Trace JsonWriter.
From S2P Require Import Scheduler NeighbourTable Registry PeerKeys Transport FaultMonitor TaskAlloc.
From S2P Require Import ClockSync PartitionMerge Flocking Actions WorldState Discovery Beacon World WorldSafety.
From S2P Require Import WorldFootprint WorldDump Sim SimSafety.
Local Open Scope Z_scope.

Module Demo.
Import Comp WS World Safe Sim SimSafe.

Record demo := mk_demo {
  comm_range : Z;
  N_ROBOTS : nat;
  N_TICKS : nat;
  flock_p : Flock.Params;
  place : (Z -> Z -> nat -> Z) -> nat -> PositionComponent -> VelocityComponent -> PositionComponent * VelocityComponent;
  coordinates : PositionComponent -> list (list Z * Z);
}.

(** A loose 5x2 grid with jitter: [-0.5f, 0.5f]; velocities in [-1.0f, 1.0f]. *)
(* @src examples/flocking_demo/main.cpp:60-67 main *)
Definition place_grid (uniform : Z -> Z -> nat -> Z) (i : nat) (pos : PositionComponent) (vel : VelocityComponent) :
    PositionComponent * VelocityComponent :=
  let jitter := uniform (F32.neg 1056964608) 1056964608 in
  let vinit := uniform (F32.neg F32.one) F32.one in
  let five := F32.of_Z 5 in
  (mk_pos (F32.add (F32.mul (F32.of_Z (Z.of_nat i mod 5)) five) (jitter (4 * i)%nat))
          (F32.add (F32.mul (F32.of_Z (Z.of_nat i / 5)) five) (jitter (4 * i + 1)%nat)) pos.(z),
   mk_vel (vinit (4 * i + 2)%nat) (vinit (4 * i + 3)%nat) vel.(vz)).

(** Two-metre separation; weights 2.0f, 0.8f, 0.6f; 5 m/s. *)
(* @src examples/flocking_demo/main.cpp:28-49 main *)
Definition flocking_demo : demo :=
  mk_demo (F32.of_Z 30) 10 200
    (Flock.mk_params (F32.of_Z 2) (F32.of_Z 2) 1061997773 1058642330 (F32.of_Z 5) Flock.default_params.(Flock.vision_radius_m))
    place_grid (fun p => [(codes "x", p.(x)); (codes "y", p.(y))]).

(** Scattered in a cube of 16 m; velocities in [-1.5f, 1.5f]. *)
(* @src examples/flocking_demo_3d/main.cpp:60-70 main *)
Definition place_cube (uniform : Z -> Z -> nat -> Z) (i : nat) (pos : PositionComponent) (vel : VelocityComponent) :
    PositionComponent * VelocityComponent :=
  let pos_jitter := uniform (F32.neg (F32.of_Z 8)) (F32.of_Z 8) in
  let vinit := uniform (F32.neg 1069547520) 1069547520 in
  (mk_pos (pos_jitter (6 * i)%nat) (pos_jitter (6 * i + 1)%nat) (pos_jitter (6 * i + 2)%nat),
   mk_vel (vinit (6 * i + 3)%nat) (vinit (6 * i + 4)%nat) (vinit (6 * i + 5)%nat)).

(** Separation 2.5f; weights 2.0f, 0.7f, 0.8f; 4 m/s. *)
(* @src examples/flocking_demo_3d/main.cpp:29-49 main *)
Definition flocking_demo_3d : demo :=
  mk_demo (F32.of_Z 40) 20 400
    (Flock.mk_params 1075838976 (F32.of_Z 2) 1060320051 1061997773 (F32.of_Z 4) Flock.default_params.(Flock.vision_radius_m))
    place_cube (fun p => [(codes "x", p.(x)); (codes "y", p.(y)); (codes "z", p.(z))]).

(** The literals are the quotients of decimals, rounded. *)
Example demo_literals :
  (F32.div (F32.of_Z 8) (F32.of_Z 10), F32.div (F32.of_Z 6) (F32.of_Z 10), F32.div (F32.of_Z 7) (F32.of_Z 10),
   F32.div (F32.of_Z 25) (F32.of_Z 10), F32.div (F32.of_Z 15) (F32.of_Z 10), F32.div (F32.of_Z 5) (F32.of_Z 10)) =
  (1061997773, 1058642330, 1060320051, 1075838976, 1069547520, 1056964608).
Proof. vm_compute. reflexivity. Qed.

Section Programs.
Context {PF : Platform} {TC : Reg.Toolchain} {CR : Auth.Crypto}.
#[local] Existing Instance sim_transport.
Abbreviation app := (core nat bus unit).

(** No code of the application runs inside the worlds. *)
Definition silent_handler (n : nat) (m : Message) (w : app) : outcome (app * bool) := Ok (w, false).
Definition unused_system (n : nat) : Sched.SystemDescriptor := Sched.mk_desc [Z.of_nat n] [] [] [] [].
Definition unused_tick (n : nat) (ctx : Sched.SwarmContext) (dt : Z) (w : app) : outcome app := Ok w.

Variable print_g17 : Z -> list Z.
Variable uniform : Z -> Z -> nat -> Z.
(** The random bytes at hand when each world is created. *)
Variable seeds : nat -> nat * nat.
Variable clk : nat -> Z * Z.
Variable tid : Z.
Variable d : demo.

(* @src examples/flocking_demo/main.cpp:54-56 main *)
Definition robot_calls (flock_p : Flock.Params) : list call :=
  [RegisterSystem CBeacon; RegisterSystem (CFlocking flock_p); RegisterSystem CKinematics].
Definition robot (flock_p : Flock.Params) (i : nat) : @member unit :=
  mk_member 1 tt (seeds i).1 (seeds i).2 (robot_calls flock_p).

(** The writes through the references to the position and the velocity. *)
(* @src examples/flocking_demo_3d/main.cpp:62-70 main *)
Definition put_robot (place : PositionComponent -> VelocityComponent -> PositionComponent * VelocityComponent) (w : app) :
    outcome app :=
  let! p := Reg.get PositionComponent w.(registry_) Reg.SELF_ENTITY in
  let! v := Reg.get VelocityComponent w.(registry_) Reg.SELF_ENTITY in
  let '(p, v) := place p v in
  let! reg := Reg.set w.(registry_) Reg.SELF_ENTITY p in
  let! reg := Reg.set reg Reg.SELF_ENTITY v in
  Ok (with_registry reg w).

(** A new world of the bus, initialised, and then adjusted by the program. *)
(* @src examples/flocking_demo/main.cpp:52-69 main *)
Definition add_robot (flock_p : Flock.Params) (adjust : nat -> app -> outcome app) (i : nat) (s : @sim unit) : outcome (@sim unit) :=
  let! s := add_member silent_handler unused_system unused_tick (robot flock_p i) s in
  match last s.(sim_worlds) with
  | None => Undefined "no world"
  | Some wd =>
      let! w := adjust i wd.(core_) in
      Ok (mk_sim s.(sim_bus) s.(sim_clock) (<[(length s.(sim_worlds) - 1)%nat := mk_world w wd.(scheduler_)]> s.(sim_worlds)))
  end.

Fixpoint add_robots (flock_p : Flock.Params) (adjust : nat -> app -> outcome app) (todo : list nat) (s : @sim unit) :
    outcome (@sim unit) :=
  match todo with
  | [] => Ok s
  | i :: todo => let! s := add_robot flock_p adjust i s in add_robots flock_p adjust todo s
  end.

(* @src examples/flocking_demo_3d/main.cpp:29-73 main *)
Definition set_up : outcome (@sim unit) :=
  add_robots d.(flock_p) (fun i => put_robot (d.(place) uniform i)) (seq 0 d.(N_ROBOTS))
    (empty_sim (mk_bus_config (F32.of_Z 20) d.(comm_range) F32.zero F32.zero)).

(* @src examples/flocking_demo/main.cpp:80-88 main *)
Definition print_robot (w : JW.t) (wd : @world nat bus unit) : outcome JW.t :=
  let! pos := Reg.get PositionComponent wd.(core_).(registry_) Reg.SELF_ENTITY in
  let w := JW.begin_object w in
  let! id := identity wd.(core_) in
  let w := JW.write_string (JW.key w (codes "id")) (Id.to_string id) in
  let w := fold_left (fun w c => JW.write_f64 print_g17 (JW.key w c.1) (F32.to_f64 c.2)) (d.(coordinates) pos) w in
  Ok (JW.end_object w).

Fixpoint print_robots (w : JW.t) (wds : list (@world nat bus unit)) : outcome JW.t :=
  match wds with
  | [] => Ok w
  | wd :: wds => let! w := print_robot w wd in print_robots w wds
  end.

(** One line of the output. *)
(* @src examples/flocking_demo/main.cpp:74-94 main *)
Definition print_frame (tick : nat) (wds : list (@world nat bus unit)) : outcome (list Z) :=
  let w := JW.begin_object JW.new_writer in
  let w := JW.write_u64 (JW.key w (codes "tick")) (Z.of_nat tick) in
  let w := JW.begin_array (JW.key w (codes "robots")) in
  let! w := print_robots w wds in
  Ok (JW.newline (JW.end_object (JW.end_array w))).(JW.buf_).

(** The loop from [tick], with [rest] ticks to go: the lines it prints. *)
(* @src examples/flocking_demo_3d/main.cpp:75-100 main *)
Fixpoint frames (rest : nat) (tick : nat) (s : @sim unit) : outcome (list (list Z)) :=
  let! line := print_frame tick s.(sim_worlds) in
  match rest with
  | O => Ok [line]
  | S rest =>
      let! s := advance silent_handler unused_system unused_tick clk tid 1 s in
      let! lines := frames rest (S tick) s in
      Ok (line :: lines)
  end.

(** The program: its output, by line. *)
(* @src examples/flocking_demo/main.cpp:25-100 main *)
Definition main : outcome (list (list Z)) :=
  let! s := set_up in frames d.(N_TICKS) 0 s.
End Programs.

(** ** Identities *)

(** A world of built-in systems that does not rotate its identity periodically keeps
    it: no system writes it. *)
Section Identities.
Context {H E U : Type} {PF : Platform} {TC : Reg.Toolchain} {CR : Auth.Crypto} {NT : Net.Transports H E}.
Context {RL : Disc.Reliable H E} {SD : Net.Sends H E}.
Variable user_handler : nat -> Message -> core H E U -> outcome (core H E U * bool).
Variable user_describe : nat -> Sched.SystemDescriptor.
Variable user_tick : nat -> Sched.SwarmContext -> Z -> core H E U -> outcome (core H E U).
Hypothesis handlers_private : Foot.private_handlers user_handler.
Hypothesis types_distinct : distinct_ids.
Implicit Types w : core H E U.

Definition permanent (wd : @world H E U) : bool :=
  forallb Foot.built_in wd.(scheduler_).(Sched.systems_) &&
  negb (bool_decide (wd.(core_).(config_).(identity_rotation_policy) = PERIODIC)).

Lemma same_identity w w' : Foot.agree (Foot.LStore Reg.TIdentity) w w' -> identity w' = identity w.
Proof.
  intros A. unfold identity, Reg.get. change (Reg.ctype_of IdentityComponent) with Reg.TIdentity.
  rewrite A by Foot.by_computation. reflexivity.
Qed.

Lemma tick_system_identity s ctx dt w w' :
  Foot.built_in s = true -> tick_system user_handler user_tick s ctx dt w = Ok w' ->
  identity w' = identity w /\ w'.(config_) = w.(config_).
Proof.
  intros Hs Et.
  pose proof (Foot.ticks_local user_handler user_tick handlers_private types_distinct s Hs ctx dt w w (fun l _ => reflexivity w)) as O.
  rewrite Et in O. destruct O as [_ K _]. split.
  - apply same_identity, K. destruct s; try discriminate Hs; Foot.by_computation.
  - assert (Foot.agree Foot.LRest w w') as [Er _] by (apply K; destruct s; try discriminate Hs; Foot.by_computation).
    unfold Foot.rest_of in Er. congruence.
Qed.

#[local] Hint Extern 0 (Sched.SystemOps _ _) =>
  exact (system_ops user_handler user_describe user_tick) : typeclass_instances.

Lemma tick_all_identity l ctx dt : forall w w',
  Forall (fun s => Foot.built_in s = true) l -> Sched.tick_all l ctx dt w = Ok w' ->
  identity w' = identity w /\ w'.(config_) = w.(config_).
Proof.
  induction l as [|s l IH]; intros w w' Hl Et; [by injection Et as <-|]. apply Forall_cons in Hl as [Hs Hl].
  cbn [Sched.tick_all] in Et. change (Sched.sys_tick s ctx dt w) with (tick_system user_handler user_tick s ctx dt w) in Et.
  destruct (tick_system user_handler user_tick s ctx dt w) as [w1| |] eqn:E1; [|discriminate Et..]. cbn [obind] in Et.
  destruct (IH _ _ Hl Et) as [-> ->]. by apply (tick_system_identity s ctx dt).
Qed.

Lemma tick_identity cc clk tid wd wd' :
  world_ok user_handler user_describe user_tick cc wd -> permanent wd = true ->
  tick user_handler user_describe user_tick clk tid wd = Ok wd' -> identity wd'.(core_) = identity wd.(core_).
Proof.
  intros [S [[_ Ho _ _ _] Hb]] [Hl Hp]%andb_true_iff Et. unfold tick in Et. rewrite (snd_init _ _ S) in Et. cbn [negb] in Et.
  set (w1 := decay_window _) in Et. assert (identity w1 = identity wd.(core_) /\ w1.(config_) = wd.(core_).(config_)) as [I1 C1].
  { unfold w1, decay_window. by destruct (F32.gtb _ _). }
  unfold Sched.tick_sequential in Et. rewrite Hb in Et. cbn [negb] in Et.
  rewrite Sched.dispatch_loop_spec in Et by (rewrite (Ho Hb); intros i; apply Sched.order_lt).
  destruct (Sched.tick_all _ _ _ w1) as [w2| |] eqn:E2; [|discriminate Et..]. cbn [obind] in Et.
  apply tick_all_identity in E2 as [I2 C2].
  - unfold rotate_periodic in Et. change (config_ (emit _ w2)) with (config_ w2) in Et. rewrite C2, C1 in Et.
    apply negb_true_iff in Hp. rewrite Hp in Et. cbn [andb obind] in Et. apply Ok_inj in Et as <-. cbn [core_].
    etransitivity; [|etransitivity; [exact I2|exact I1]]. reflexivity.
  - apply Forall_forall. intros s (i & _ & Ei)%list_elem_of_omap. rewrite forallb_forall in Hl.
    by apply Hl, list_elem_of_In, (list_elem_of_lookup_2 _ i).
Qed.
End Identities.

(** ** A printed frame *)

Section Frames.
Context {PF : Platform} {TC : Reg.Toolchain} {CR : Auth.Crypto}.
Variable print_g17 : Z -> list Z.
Variable d : demo.
Implicit Types (r : Id.HierarchicalID * PositionComponent) (wd : @world nat bus unit).

(** The identity and the position of a robot, and the document of a frame. *)
Definition shows wd r : Prop :=
  identity wd.(core_) = Ok r.1 /\ Reg.get PositionComponent wd.(core_).(registry_) Reg.SELF_ENTITY = Ok r.2.
Definition robot_json r : JW.json :=
  JW.Obj ((codes "id", JW.Str (Id.to_string r.1)) :: ((fun c => (c.1, JW.F64 (F32.to_f64 c.2))) <$> d.(coordinates) r.2)).
Definition frame_json (tick : nat) rs : JW.json :=
  JW.Obj [(codes "tick", JW.U64 (Z.of_nat tick)); (codes "robots", JW.Arr (robot_json <$> rs))].

Lemma print_robot_spec w wd r : shows wd r -> print_robot print_g17 d w wd = Ok (JW.write print_g17 (robot_json r) w).
Proof.
  intros [Hi Hp]. unfold print_robot. rewrite Hp, Hi. cbn [obind]. unfold robot_json. rewrite Dump.write_obj. cbn [fold_left].
  do 2 f_equal. change (JW.write_string (JW.key (JW.begin_object w) (codes "id")) (Id.to_string r.1))
    with (Dump.member print_g17 (JW.begin_object w) (codes "id", JW.Str (Id.to_string r.1))).
  generalize (Dump.member print_g17 (JW.begin_object w) (codes "id", JW.Str (Id.to_string r.1))) as w'.
  induction (d.(coordinates) r.2) as [|c l IH]; intros w'; [reflexivity|]. cbn [fold_left fmap list_fmap]. apply IH.
Qed.

Lemma print_robots_spec wds rs : Forall2 shows wds rs -> forall w,
  print_robots print_g17 d w wds = Ok (fold_left (fun w j => JW.write print_g17 j w) (robot_json <$> rs) w).
Proof.
  induction 1 as [|wd r wds rs Hr _ IH]; intros w; [reflexivity|]. cbn [print_robots]. rewrite (print_robot_spec w wd r Hr).
  cbn [obind fmap list_fmap fold_left]. apply IH.
Qed.

Lemma print_frame_spec tick wds rs :
  Forall2 shows wds rs -> print_frame print_g17 d tick wds = Ok (JW.render print_g17 (frame_json tick rs) ++ [10]).
Proof.
  intros Hs. unfold print_frame. rewrite (print_robots_spec wds rs Hs). cbn [obind]. f_equal.
  rewrite <- (JW.write_new print_g17 (frame_json tick rs)). reflexivity.
Qed.

(** The axes of a demonstration have names, none of them the key of the identifier. *)
Definition axes_named : Prop := forall p,
  NoDup ((coordinates d p).*1) /\ codes "id" ∉ (coordinates d p).*1 /\ Forall MI.is_bytes (coordinates d p).*1.

Lemma frame_wf tick rs :
  axes_named -> Z.of_nat tick < 2 ^ 64 -> Forall (fun r => Id.wf_hid r.1) rs -> JW.wf_json (frame_json tick rs).
Proof.
  intros Ha Ht Hr. unfold frame_json. Dump.keys; [cbn; unfold MI.is_u64; lia|]. apply Dump.wf_arr_list, Forall_fmap.
  eapply Forall_impl; [exact Hr|]. intros r Hi. apply Dump.wf_obj_list. apply Forall_cons. split.
  - split; [by apply MI.bytesb_spec|by apply Dump.to_string_bytes].
  - destruct (Ha r.2) as (_ & _ & Hb). apply Forall_fmap. rewrite Forall_fmap in Hb. eapply Forall_impl; [exact Hb|]. done.
Qed.

(** What a reader finds: the identifiers, and each coordinate under its name. *)
Definition robots_of (v : JW.value) : option (list JW.value) :=
  match Dump.member_of (codes "robots") v with Some (JW.VArr l) => Some l | _ => None end.
Definition at_position (pos : PositionComponent) (v : JW.value) : Prop :=
  Forall (fun c => Dump.member_of c.1 v = Some (JW.denote print_g17 (JW.F64 (F32.to_f64 c.2)))) (d.(coordinates) pos).

Lemma find_axis (l : list (list Z * Z)) c : NoDup l.*1 -> c ∈ l ->
  snd <$> List.find (fun kv => bool_decide (kv.1 = c.1))
    ((fun c => (c.1, JW.denote print_g17 (JW.F64 (F32.to_f64 c.2)))) <$> l) =
  Some (JW.denote print_g17 (JW.F64 (F32.to_f64 c.2))).
Proof.
  induction l as [|a l IH]; intros N Hc; [by apply not_elem_of_nil in Hc|]. cbn [fmap list_fmap List.find fst] in *.
  apply NoDup_cons in N as [N1 N2]. apply elem_of_cons in Hc as [->|Hc]; [by rewrite bool_decide_true|].
  rewrite bool_decide_false; [by apply IH|]. intros He. apply N1. rewrite He. by apply list_elem_of_fmap_2.
Qed.

Lemma robot_read r : axes_named -> Id.wf_hid r.1 ->
  Dump.id_of (JW.denote print_g17 (robot_json r)) = Some r.1 /\ at_position r.2 (JW.denote print_g17 (robot_json r)).
Proof.
  intros Ha Hi. destruct (Ha r.2) as (N & I & _). split.
  - change (Id.from_string (Id.to_string r.1) = Some r.1). by apply Id.parse_print.
  - apply Forall_forall. intros c Hc. unfold robot_json. cbn [JW.denote Dump.member_of map List.find fst].
    rewrite bool_decide_false by (intros He; apply I; rewrite He; by apply list_elem_of_fmap_2).
    etransitivity; [|exact (find_axis _ c N Hc)]. do 2 f_equal. symmetry. etransitivity; [|apply list_fmap_compose]. reflexivity.
Qed.
End Frames.

(** ** The run *)

Section Robots.
Context {PF : Platform} {TC : Reg.Toolchain} {CR : Auth.Crypto}.
#[local] Existing Instance sim_transport.
Abbreviation fits := (fit silent_handler unused_system unused_tick).

Lemma silent_sound : sim_user_code_sound silent_handler unused_tick.
Proof.
  intros n cc. split.
  - intros i m w S. by exists w, false.
  - intros i ctx dt w S. by exists w.
Qed.

Lemma silent_private : Foot.private_handlers silent_handler.
Proof. intros n m. exists id, (fun _ => false). intros w. by destruct w. Qed.

Lemma robot_calls_good p : good_calls unused_system (robot_calls p).
Proof.
  constructor.
  - assert (system_name unused_system <$> constructed (robot_calls p) =
      system_name unused_system <$> [SBeacon; SFlocking; SKinematics]) as -> by reflexivity.
    Foot.by_computation.
  - intros n Hn. unfold robot_calls in Hn. repeat (apply elem_of_cons in Hn as [Hn|Hn]; [discriminate Hn|]).
    by apply not_elem_of_nil in Hn.
Qed.

(** Placing a robot writes its position and its velocity only. *)
Lemma set_keeps_identity {T : Type} {HT : Reg.Component T} (reg : Reg.t) (c : T) :
  complete reg -> Reg.ctype_of T ∈ Reg.builtin_types -> Reg.ctype_of T <> Reg.TActionQueue -> Reg.TIdentity <> Reg.ctype_of T ->
  exists reg', Reg.set reg Reg.SELF_ENTITY c = Ok reg' /\ complete reg' /\
    Reg.get IdentityComponent reg' Reg.SELF_ENTITY = Reg.get IdentityComponent reg Reg.SELF_ENTITY.
Proof.
  intros C Hb Hq Hi. destruct (complete_set reg c C Hb Hq) as (reg' & E & C'). exists reg'. split; [done|]. split; [done|].
  destruct (complete_get (T := T) reg C Hb) as [c0 E0]. destruct (Reg.set_ok reg c0 c E0) as (reg2 & E2 & _ & _ & F).
  rewrite E in E2. apply Ok_inj in E2 as <-.
  destruct (complete_get (T := IdentityComponent) reg C ltac:(Foot.by_computation)) as [u Eu]. rewrite Eu. by apply F.
Qed.

(** What a program may do to a world it has just initialised. *)
Definition adjusts (f : core nat bus unit -> outcome (core nat bus unit)) : Prop := forall cc wd, fits cc wd ->
  exists w, f wd.(core_) = Ok w /\ fits cc (mk_world w wd.(scheduler_)) /\ identity w = identity wd.(core_).

Lemma fit_registry cc wd reg :
  complete reg -> fits cc wd -> fits cc (mk_world (with_registry reg wd.(core_)) wd.(scheduler_)).
Proof. intros C (n & e & [[Si Sr Sn Sj Sh Sc Se] R]). exists n, e. constructor; [|exact R]. by constructor. Qed.

Lemma fit_table cc wd nt :
  NT.wf f2i_oob nt -> fits cc wd -> fits cc (mk_world (with_neighbour_table nt wd.(core_)) wd.(scheduler_)).
Proof. intros C (n & e & [[Si Sr Sn Sj Sh Sc Se] R]). exists n, e. constructor; [|exact R]. by constructor. Qed.

Lemma put_robot_ok place : adjusts (put_robot place).
Proof.
  intros cc wd F. pose proof F as (n & e & W). pose proof (snd_registry _ _ (wo_core _ _ _ _ _ W)) as C.
  cbn [map_core core_ with_env registry_] in C. unfold put_robot. read_component C. read_component C.
  destruct (place _ _) as [p v].
  destruct (set_keeps_identity _ p C) as (reg1 & -> & C1 & I1); [Foot.by_computation|done|done|]. cbn [obind].
  destruct (set_keeps_identity reg1 v C1) as (reg2 & -> & C2 & I2); [Foot.by_computation|done|done|]. cbn [obind].
  eexists. split; [done|]. split; [by apply fit_registry|]. unfold identity. cbn [registry_ with_registry]. by rewrite I2, I1.
Qed.

End Robots.

Section Runs.
Context {PF : Platform} {TC : Reg.Toolchain} {CR : Auth.Crypto}.
#[local] Existing Instance sim_transport.
Variable print_g17 : Z -> list Z.
Variable uniform : Z -> Z -> nat -> Z.
Variable seeds : nat -> nat * nat.
Variable clk : nat -> Z * Z.
Variable tid : Z.
Variable d : demo.
Hypothesis types_distinct : distinct_ids.
Abbreviation fits := (fit silent_handler unused_system unused_tick).
Abbreviation good := (sim_ok silent_handler unused_system unused_tick).
Implicit Types s : @sim unit.
Implicit Types wd : @world nat bus unit.

(** The identity a robot was given, for as long as it keeps it. *)
Definition owned wd : option (outcome Id.HierarchicalID) := if permanent wd then Some (identity wd.(core_)) else None.

Lemma owned_stable : stable silent_handler unused_system unused_tick owned.
Proof.
  intros n cc c i wd wd' W Et. unfold owned. assert (permanent wd' = permanent wd) as Ep.
  { destruct (tick_ok silent_handler unused_system unused_tick (silent_sound n) cc c i wd W) as (w2 & E2 & W2 & Es).
    rewrite Et in E2. apply Ok_inj in E2 as <-. unfold permanent. rewrite Es.
    pose proof (f_equal fst (snd_context _ _ (wo_core _ _ _ _ _ W2))) as C2.
    pose proof (f_equal fst (snd_context _ _ (wo_core _ _ _ _ _ W))) as C1. cbn [fst next_context] in C1, C2. by rewrite C1, C2. }
  rewrite Ep. destruct (permanent wd) eqn:Hp; [|done]. f_equal.
  exact (@tick_identity nat bus unit PF TC CR sim_transport (sim_reliable n) sim_sends silent_handler unused_system unused_tick
    silent_private types_distinct cc c i wd wd' W Hp Et).
Qed.
Lemma robot_permanent config (m : @member unit) p cc wd :
  fits cc wd -> cc = start_context config m ->
  wd.(scheduler_).(Sched.systems_) = constructed (robot_calls p) -> permanent wd = true.
Proof.
  intros (n & e & [S _]) -> Es. pose proof (f_equal fst (snd_context _ _ S)) as C. cbn [fst map_core core_ with_env config_] in C.
  unfold permanent. rewrite Es, C. reflexivity.
Qed.

Lemma add_robot_ok config p adjust i ccs s :
  adjusts (adjust i) -> good ccs s -> s.(sim_bus).(bus_config) = config -> clock_after 0 s.(sim_clock) ->
  exists s' cc wd id, add_robot seeds p adjust i s = Ok s' /\ good (ccs ++ [cc]) s' /\ s'.(sim_bus).(bus_config) = config /\
    clock_after 0 s'.(sim_clock) /\ s'.(sim_worlds) = s.(sim_worlds) ++ [wd] /\
    wd.(scheduler_).(Sched.systems_) = [SBeacon; SFlocking; SKinematics] /\ owned wd = Some (Ok id) /\ Id.wf_hid id.
Proof.
  intros Hf Hs Hcfg [K1 K2]. unfold add_robot. set (m := robot seeds p i).
  destruct (add_member_ok silent_handler unused_system unused_tick silent_sound types_distinct config m ccs s)
    as (s1 & -> & H1 & B1 & T1 & E1 & D1 & wd & id & Ew & Ey & Ei & Wi); [apply robot_calls_good|done|done|]. cbn [obind].
  rewrite Ew, last_snoc. destruct H1 as [Hp Hc Hw Hg]. rewrite Ew, length_app in *. cbn [length] in *.
  apply Forall2_app_inv in Hw as [Hw [F _]%Forall2_cons_1]; [|by eapply Forall2_length, (so_worlds _ _ _ _ _ Hs)].
  destruct (Hf _ wd F) as (w & -> & F' & Iw). cbn [obind].
  rewrite Nat.add_sub, insert_app_r_alt, Nat.sub_diag by lia. cbn [list_insert].
  eexists _, _, _, id. split; [done|]. cbn [sim_bus sim_clock sim_worlds]. split.
  - constructor; cbn [sim_bus sim_worlds sim_clock]; rewrite ?length_app; cbn [length]; try done.
    apply Forall2_app; [exact Hw|]. by constructor.
  - split; [done|]. split; [by unfold clock_after; rewrite T1, E1, D1|]. split; [done|]. split; [exact Ey|]. split; [|apply Wi; done].
    unfold owned. rewrite (robot_permanent config m p _ _ F' eq_refl) by exact Ey. f_equal. rewrite <- Ei. exact Iw.
Qed.

(** The worlds of [s] are robots with these identities. *)
Record robots_are s (ids : list Id.HierarchicalID) : Prop := {
  ra_owned : owned <$> s.(sim_worlds) = (fun id => Some (Ok id)) <$> ids;
  ra_systems : systems_of s = (fun _ => [SBeacon; SFlocking; SKinematics]) <$> ids;
}.

Lemma robots_unchanged s s' ids : unchanged silent_handler unused_system unused_tick s s' -> robots_are s ids -> robots_are s' ids.
Proof.
  intros Y [Ho Hs]. constructor.
  - by rewrite (Y _ owned owned_stable).
  - by rewrite (systems_unchanged _ _ _ silent_sound s s' Y).
Qed.

Lemma add_robots_ok config p adjust todo : (forall i, adjusts (adjust i)) -> forall ccs ids s,
  good ccs s -> s.(sim_bus).(bus_config) = config -> clock_after 0 s.(sim_clock) -> robots_are s ids -> Forall Id.wf_hid ids ->
  exists s' ccs' ids', add_robots seeds p adjust todo s = Ok s' /\ good ccs' s' /\ clock_after 0 s'.(sim_clock) /\
    robots_are s' ids' /\ Forall Id.wf_hid ids' /\ length ids' = (length ids + length todo)%nat.
Proof.
  intros Hf. induction todo as [|i todo IH]; intros ccs ids s Hs Hc Hk Hi Wi.
  { exists s, ccs, ids. cbn [length]. rewrite Nat.add_0_r. by split_and!. }
  cbn [add_robots]. destruct (add_robot_ok config p adjust i ccs s (Hf i) Hs Hc Hk)
    as (s1 & cc & wd & id & -> & H1 & B1 & K1 & Ew & Ey & Eo & W).
  cbn [obind]. destruct (IH (ccs ++ [cc]) (ids ++ [id]) s1 H1 B1 K1) as (s' & ccs' & ids' & E & H' & K' & I' & W' & L').
  - destruct Hi as [Ho Hy]. unfold systems_of in Hy. constructor; unfold systems_of; rewrite Ew, !fmap_app, ?Ho, ?Hy;
      cbn [fmap list_fmap]; by rewrite ?Eo, ?Ey.
  - apply Forall_app. split; [done|]. by constructor.
  - exists s', ccs', ids'. split_and!; try done. rewrite L', length_app. cbn [length]. lia.
Qed.

Lemma advance_succ t s :
  advance silent_handler unused_system unused_tick clk tid (S t) s =
  (let! s := advance silent_handler unused_system unused_tick clk tid 1 s in
   advance silent_handler unused_system unused_tick clk tid t s).
Proof.
  cbn [advance]. destruct (rebuild_grid_ (view s)) as [b| |]; cbn [obind]; [|done..].
  by destruct (clock_step _ _ _ _ _ _).
Qed.

(** What a world of a simulation in good order shows. *)
Lemma robots_show ccs ids s :
  good ccs s -> robots_are s ids ->
  exists rs, Forall2 shows s.(sim_worlds) rs /\ rs.*1 = ids.
Proof.
  intros Hs Hi. pose proof (so_worlds _ _ _ _ _ Hs) as Hw. apply ra_owned in Hi. clear Hs. revert ccs ids Hw Hi.
  induction (sim_worlds s) as [|wd wds IH]; intros ccs ids Hw Hi.
  { destruct ids; [|done]. exists []. split; [constructor|done]. }
  destruct ids as [|id ids]; [done|]. cbn [fmap list_fmap] in Hi. injection Hi as Ho Hi.
  apply Forall2_cons_inv_r in Hw as (cc & ccs' & F & Hw & ->). destruct (IH _ _ Hw Hi) as (rs & Hrs & E).
  destruct (fit_readable _ _ _ silent_sound _ _ F) as [[pos Hp] _]. exists ((id, pos) :: rs). split; [|cbn; by rewrite E].
  constructor; [|done]. split; [|exact Hp]. unfold owned in Ho. destruct (permanent wd); [|done]. by injection Ho.
Qed.

Lemma frames_ok ids rest : forall tick ccs k s,
  good ccs s -> clock_after k s.(sim_clock) -> robots_are s ids ->
  exists lines, frames print_g17 clk tid d rest tick s = Ok lines /\ length lines = S rest /\
    forall t line, lines !! t = Some line -> exists s' rs,
      advance silent_handler unused_system unused_tick clk tid t s = Ok s' /\
      Forall2 shows s'.(sim_worlds) rs /\ rs.*1 = ids /\
      line = JW.render print_g17 (frame_json d (tick + t) rs) ++ [10].
Proof.
  induction rest as [|rest IH]; intros tick ccs k s Hs Hk Hi; cbn [frames];
    destruct (robots_show ccs ids s Hs Hi) as (rs & Hrs & Ers); rewrite (print_frame_spec print_g17 d tick _ rs Hrs); cbn [obind].
  { eexists. split; [done|]. split; [done|]. intros t line Ht. apply list_lookup_singleton_Some in Ht as [-> <-].
    exists s, rs. rewrite Nat.add_0_r. by split_and!. }
  destruct (advance_ok silent_handler unused_system unused_tick silent_sound clk tid 1 k ccs s Hs Hk) as (s1 & E1 & H1 & K1 & _ & Y1).
  rewrite E1. cbn [obind]. destruct (IH (S tick) _ _ s1 H1 K1) as (lines & -> & L & G).
  { by apply (robots_unchanged s s1). }
  cbn [obind]. eexists. split; [done|]. split; [cbn [length]; by rewrite L|]. intros [|t] line Ht.
  - apply (inj Some) in Ht as <-. exists s, rs. rewrite Nat.add_0_r. by split_and!.
  - destruct (G t line Ht) as (s' & rs' & Ea & R & I & ->). exists s', rs'. rewrite advance_succ, E1. cbn [obind].
    rewrite Nat.add_succ_r. by split_and!.
Qed.

Lemma set_up_ok :
  exists s ccs ids, set_up uniform seeds d = Ok s /\ good ccs s /\
    clock_after 0 s.(sim_clock) /\ robots_are s ids /\ Forall Id.wf_hid ids /\ length ids = d.(N_ROBOTS).
Proof.
  unfold set_up. set (config := mk_bus_config _ _ _ _).
  destruct (add_robots_ok config d.(flock_p) (fun i => put_robot (d.(place) uniform i)) (seq 0 d.(N_ROBOTS))
    (fun i => put_robot_ok _) [] [] (empty_sim config)) as (s & ccs & ids & E & Hs & K & I & W & L);
    [by apply empty_ok|done|done|done|constructor|].
  exists s, ccs, ids. split_and!; try done. by rewrite L, length_seq.
Qed.
End Runs.

(** The two programs of [examples]. *)
Definition demos : list demo := [flocking_demo; flocking_demo_3d].

Lemma axes_named_by d names :
  (forall p, (coordinates d p).*1 = names) -> bool_decide (NoDup names /\ codes "id" ∉ names) && forallb MI.bytesb names = true ->
  axes_named d.
Proof.
  intros Hn Hb p. rewrite Hn. apply andb_true_iff in Hb as [[N I]%bool_decide_eq_true Hb]. split_and!; [done..|].
  apply Forall_forall. intros k Hk. rewrite forallb_forall in Hb. by apply MI.bytesb_spec, Hb, list_elem_of_In.
Qed.

Lemma demos_named d : d ∈ demos -> axes_named d /\ Z.of_nat d.(N_TICKS) < 2 ^ 63.
Proof.
  intros [->|[->|Hd%not_elem_of_nil]%elem_of_cons]%elem_of_cons; [..|done].
  - split; [by apply (axes_named_by _ [codes "x"; codes "y"])|reflexivity].
  - split; [by apply (axes_named_by _ [codes "x"; codes "y"; codes "z"])|reflexivity].
Qed.

(** C3: the demonstrations print what the robots do.  Each of the two programs sets its
    robots up, runs to its end and prints one line for the start and one after each
    tick of the bus.  Line [t] is printable text that a reader of JSON accepts; it
    holds the tick's number and one entry per robot, in the order of creation: the
    identifiers, read back, are those the robots were given and never change, and
    under each axis is the coordinate that the robot has after [t] ticks ([null]
    when it is not finite), as [%.17g] prints it.  Nothing is asked of the random
    numbers. *)
Theorem demo_prints_robots `{!Platform} {TC : Reg.Toolchain} `{!Auth.Crypto} (print_g17 : Z -> list Z)
    (uniform : Z -> Z -> nat -> Z) (seeds : nat -> nat * nat) (clk : nat -> Z * Z) (tid : Z) (d : demo) :
  d ∈ demos -> distinct_ids -> (forall x, JW.isfinite x = true -> JW.number_like (print_g17 x)) ->
  exists s0 ids lines, set_up uniform seeds d = Ok s0 /\ main print_g17 uniform seeds clk tid d = Ok lines /\
    length ids = d.(N_ROBOTS) /\ length lines = S d.(N_TICKS) /\
    forall t line, lines !! t = Some line -> exists s text v robots tok,
      @advance _ _ _ _ silent_handler unused_system unused_tick clk tid t s0 = Ok s /\
      line = text ++ [10] /\ Forall (fun c => 32 <= c) text /\ JW.parse_json text = Some v /\
      Dump.member_of (codes "tick") v = Some (JW.VNum tok) /\ JW.int_value tok = Z.of_nat t /\
      robots_of v = Some robots /\ mapM Dump.id_of robots = Some ids /\
      Forall2 (fun wd r => exists pos, Reg.get PositionComponent wd.(core_).(registry_) Reg.SELF_ENTITY = Ok pos /\
        at_position print_g17 d pos r) s.(sim_worlds) robots.
Proof.
  intros Hd Ht Hg. destruct (demos_named d Hd) as [Ha Hn].
  destruct (set_up_ok uniform seeds d Ht) as (s0 & ccs & ids & E0 & S0 & K0 & I0 & W0 & L0).
  destruct (frames_ok print_g17 clk tid d Ht ids d.(N_TICKS) 0 ccs 0 s0 S0 K0 I0) as (lines & El & Ll & G).
  exists s0, ids, lines. unfold main. rewrite E0. split; [done|]. split; [exact El|]. split; [done|]. split; [done|].
  intros t line Hl. destruct (G t line Hl) as (s & rs & Es & Hs & Hi & ->). cbn [Nat.add].
  apply lookup_lt_Some in Hl. assert (Forall (fun r => Id.wf_hid r.1) rs) as Wr by (rewrite <- Hi, Forall_fmap in W0; exact W0).
  assert (JW.wf_json (frame_json d t rs)) as W by (apply frame_wf; [done|lia|done]).
  exists s, (JW.render print_g17 (frame_json d t rs)), (JW.denote print_g17 (frame_json d t rs)),
    (JW.denote print_g17 <$> (robot_json d <$> rs)), (JW.print_u64 (Z.of_nat t)).
  split; [exact Es|]. split; [done|]. split; [by apply JW.render_printable|]. split; [by apply JW.parse_json_render|].
  split; [reflexivity|]. split; [apply JW.print_u64_value; unfold MI.is_u64; lia|]. split; [reflexivity|]. rewrite <- Hi. split.
  - apply mapM_Some, Forall2_fmap_l, Forall2_fmap, Forall_Forall2_diag. eapply Forall_impl; [exact Wr|]. intros r Hr.
    by apply (robot_read print_g17 d r).
  - apply Forall2_fmap_r, Forall2_fmap_r. apply Forall2_same_length_lookup_2; [by eapply Forall2_length|].
    intros i wd r Ew Er. exists r.2. destruct (Forall2_lookup_lr _ _ _ _ _ _ Hs Ew Er) as [_ Hp]. split; [exact Hp|].
    apply robot_read; [done|]. by apply (Forall_lookup_1 _ _ _ _ Wr Er).
Qed.

(** Ten robots on a platform of [gcc], all numbers drawn zero. *)
Lemma demo_prints_robots_witness :
  exists s0 ids lines,
    @set_up (sample_platform true) Reg.gcc Auth.toy_crypto (fun _ _ _ => 0) (fun i => (i, i)) flocking_demo = Ok s0 /\
    @main (sample_platform true) Reg.gcc Auth.toy_crypto (fun _ => [49]) (fun _ _ _ => 0) (fun i => (i, i)) (fun _ => (0, 0)) 7
      flocking_demo = Ok lines /\
    length ids = 10%nat /\ length lines = 201%nat /\
    forall t line, lines !! t = Some line -> exists text v robots, line = text ++ [10] /\ JW.parse_json text = Some v /\
      robots_of v = Some robots /\ mapM Dump.id_of robots = Some ids.
Proof.
  destruct (@demo_prints_robots (sample_platform true) Reg.gcc Auth.toy_crypto (fun _ => [49]) (fun _ _ _ => 0)
    (fun i => (i, i)) (fun _ => (0, 0)) 7 flocking_demo) as (s0 & ids & lines & E0 & El & Ln & Ll & G).
  - apply elem_of_cons. by left.
  - exact Reg.gcc_builtin_ids.
  - intros x _. split; [discriminate|]. constructor; [reflexivity|constructor].
  - exists s0, ids, lines. split; [exact E0|]. split; [exact El|]. split; [exact Ln|]. split; [exact Ll|].
    intros t line Hl. destruct (G t line Hl) as (s & text & v & robots & tok & _ & Et & _ & Ep & _ & _ & Er & Ei & _).
    exists text, v, robots. split; [exact Et|]. split; [exact Ep|]. split; [exact Er|exact Ei].
Defined.
End Demo.
