(* ===== verification/SimNeighbours.v ===== *)
(** What the worlds of a simulation learn of each other: a beacon sent over the bus
    ends in the neighbour tables of the robots that hear it, with or without
    signatures, whatever the order in which the clock ticks them; and the tables hold
    nothing else.

    The worlds are those of [Demos], with the beacon, flocking and kinematics systems. *)

From S2P Require Import Prelude MachineInt Float32 Identity BoundedQueue Components Trace JsonWriter.
From S2P Require Import Scheduler NeighbourTable Registry PeerKeys Transport FaultMonitor TaskAlloc.
From S2P Require Import ClockSync PartitionMerge Flocking Actions WorldState Discovery Beacon World WorldSafety.
From S2P Require Import WorldFootprint WorldDump Sim SimSafety Demos.
Local Open Scope Z_scope.

Module Hear.
Import Comp WS World Safe Sim SimSafe Demo.

(** The configured period of the beacons, the tick of the bus at 20 Hz, and the time
    since the last beacon from one tick to the next. *)
Definition PERIOD : Z := F32.div F32.one default_config.(beacon_rate_hz).
Definition DT : Z := F32.div F32.one (F32.of_Z 20).
Definition due (since : Z) : bool := F32.geb (F32.add since DT) PERIOD.
Definition next_since (since : Z) : Z := if due since then F32.zero else F32.add since DT.

Section Robot.
Context {PF : Platform} {TC : Reg.Toolchain} {CR : Auth.Crypto}.
#[local] Existing Instance sim_transport.
Abbreviation app := (core nat bus unit).
Implicit Types w : app.

(** ** One robot's beacon system *)

(** The configuration of every world at 20 Hz. *)
Definition robot_config : WorldConfig := make_world_config (mk_bus (mk_bus_config (F32.of_Z 20) 0 0 0) [] ∅ 0) 1.

(** The beacon system of participant [i]. *)
Definition tuned (i : nat) (since : Z) w : Prop :=
  exists rejected, MI.is_u64 rejected /\
    Bcn.bcn w = mk_beacon (Some i) (Some i) PERIOD default_config.(WS.neighbour_timeout_s) since rejected.

Lemma route_plain ms w w' :
  w.(message_handlers_) = [] -> Bcn.route silent_handler ms w = Ok w' -> exists reg, w' = with_registry reg w.
Proof.
  intros Hh. revert w Hh. induction ms as [|m ms IH]; intros w Hh E.
  { apply Ok_inj in E as <-. exists w.(registry_). by destruct w. }
  cbn [Bcn.route] in E. rewrite Hh in E. cbn [Bcn.offer obind] in E. unfold Bcn.push_message in E.
  destruct (Reg.get CommBufferComponent _ _) as [cb| |]; [|discriminate E..]. cbn [obind] in E.
  destruct (Reg.set _ _ _) as [reg| |]; [|discriminate E..]. cbn [obind] in E.
  destruct (IH (with_registry reg w) Hh E) as [reg' ->]. by exists reg'.
Qed.

Lemma drain_messages_plain i since w w' :
  tuned i since w -> w.(message_handlers_) = [] -> Bcn.drain_messages silent_handler w = Ok w' ->
  exists reg, w' = with_registry reg (with_env (drain_inbox_messages_ i w.(env_)).1 w).
Proof.
  intros (rej & _ & Hb) Hh E. unfold Bcn.drain_messages in E. rewrite Hb in E. cbn [b_message_transport] in E.
  cbn [Net.supports_messages Net.poll_messages sim_transport negb] in E.
  destruct (drain_inbox_messages_ i _) as [b ms]. cbn [fst].
  destruct (Reg.get CommBufferComponent _ _) as [cb| |]; [|discriminate E..]. cbn [obind] in E.
  by apply route_plain in E.
Qed.
(** The beacon of a robot: its identity and position, signed in authenticated mode by
    a generated key pair. *)
Definition beacon_of w (a : Id.HierarchicalID) (p : PositionComponent) (v : StateVector) : Prop :=
  v.(sv_id) = a /\ v.(sv_position) = p /\
  (auth_enabled = true -> forall kp, w.(current_keypair_) = Some kp ->
     v.(sv_sender_pubkey) = kp.(Auth.pair_public) /\
     (Auth.CryptoLaws CR -> (exists n, kp = Auth.generate_identity_keypair n) -> Bcn.authentic v = true)).

(** The bus after the robot's emission. *)
Definition emitted (i : nat) (since : Z) w (a : Id.HierarchicalID) (p : PositionComponent) (b : bus) : Prop :=
  if due since then exists v, beacon_of w a p v /\ deliver_beacon_ i w.(registry_) v w.(env_) = Ok b else b = w.(env_).

Lemma emit_spec i since w w' sv a p :
  tuned i since w -> sv.(sv_id) = a -> sv.(sv_position) = p -> Bcn.emit_beacon sv DT w = Ok w' ->
  exists b, emitted i since w a p b /\ tuned i (next_since since) w' /\ w' = Bcn.with_bcn (Bcn.bcn w') (with_env b w).
Proof.
  intros (rej & Hr & Hb) Ha Hp E. unfold Bcn.emit_beacon in E. rewrite Hb in E.
  cbn [time_since_last_beacon_s_ beacon_period_s_ b_beacon_transport] in E.
  change (F32.gtb PERIOD F32.zero) with true in E. cbn [andb] in E. fold (due since) in E. unfold emitted, next_since.
  set (w1 := Bcn.with_bcn _ w) in E. destruct (due since); [|apply Ok_inj in E as <-; exists w.(env_); split_and!; [done|by exists rej|done]].
  cbn [Net.supports_beacons sim_transport negb Net.send_beacon] in E.
  set (v := if auth_enabled then _ else sv) in E. change (registry_ w1) with (registry_ w) in E.
  change (env_ w1) with (env_ w) in E. destruct (deliver_beacon_ i _ v _) as [b| |] eqn:Ed; [|discriminate E..].
  cbn [obind] in E. apply Ok_inj in E as <-. exists b. split; [|split; [by exists rej|done]].
  exists v. split; [|done]. unfold v. change (current_keypair_ w1) with (current_keypair_ w). split; [|split].
  - by destruct auth_enabled, (current_keypair_ w).
  - by destruct auth_enabled, (current_keypair_ w).
  - intros -> kp ->. split; [done|]. intros L [n ->]. apply Auth.sign_verify.
Qed.

(** What the robot makes of the beacons in its inbox. *)
Definition received i (now : Z) (a : Id.HierarchicalID) w (b : bus) (table : NT.t) (rejected : Z) : Bcn.rx :=
  Bcn.receive_all a now (drain_inbox_beacons_ i b).2 (Bcn.mk_rx table w.(peer_keys_) rejected).
Definition aged (now : Z) w : NT.t := NT.age_out f2i_oob w.(neighbour_table_) now default_config.(WS.neighbour_timeout_s).

(** The whole tick of the beacon system. *)
Record heard_tick (i : nat) (since : Z) (now : Z) w w' (a : Id.HierarchicalID) (p : PositionComponent) (b : bus) (r : Bcn.rx) : Prop := {
  ht_emitted : emitted i since w a p b;
  ht_received : exists rejected, MI.is_u64 rejected /\ r = received i now a w b (aged now w) rejected;
  ht_env : w'.(env_) = (drain_inbox_messages_ i (drain_inbox_beacons_ i b).1).1;
  ht_table : w'.(neighbour_table_) = r.(Bcn.rx_table);
  ht_keys : w'.(peer_keys_) = r.(Bcn.rx_keys);
  ht_tuned : tuned i (next_since since) w';
  ht_handlers : w'.(message_handlers_) = w.(message_handlers_);
  ht_config : w'.(config_) = w.(config_);
  ht_now : w'.(context_).(Sched.elapsed_time_s) = now;
  ht_keypair : w'.(current_keypair_) = w.(current_keypair_);
}.

Lemma beacon_tick_spec i since ctx w w' a p :
  tuned i since w -> w.(message_handlers_) = [] -> NT.wf f2i_oob w.(neighbour_table_) -> identity w = Ok a ->
  Reg.get PositionComponent w.(registry_) Reg.SELF_ENTITY = Ok p ->
  ctx = w.(context_) -> Bcn.tick silent_handler ctx DT w = Ok w' ->
  exists b r, heard_tick i since ctx.(Sched.elapsed_time_s) w w' a p b r.
Proof.
  intros Ht Hh W Hi Hp Hx E. pose proof Ht as (rej & Hr & Hb). unfold Bcn.tick in E. rewrite Hb in E.
  cbn [neighbour_timeout_s_] in E. fold (aged ctx.(Sched.elapsed_time_s) w) in E. set (now := Sched.elapsed_time_s ctx) in *.
  set (w1 := with_neighbour_table (aged now w) w) in E. assert (tuned i since w1) as T1 by (exists rej; exact (conj Hr Hb)).
  change (Bcn.bcn w1) with (Bcn.bcn w) in E. rewrite Hb in E. cbn [b_beacon_transport] in E.
  destruct (Bcn.own_state ctx w1) as [sv| |] eqn:Es; [|discriminate E..]. cbn [obind] in E.
  assert (sv.(sv_id) = a /\ sv.(sv_position) = p) as [Ea Ep].
  { unfold Bcn.own_state in Es. change (registry_ w1) with (registry_ w) in Es. unfold identity in Hi.
    destruct (Reg.get IdentityComponent _ _) as [c| |]; [|discriminate Hi..]. cbn [obind] in Hi, Es. apply Ok_inj in Hi as <-.
    rewrite Hp in Es. cbn [obind] in Es. repeat (match type of Es with obind ?o _ = _ => destruct o; [|discriminate Es..] end; cbn [obind] in Es).
    by apply Ok_inj in Es as <-. }
  destruct (Bcn.emit_beacon sv DT w1) as [w2| |] eqn:Ee; [|discriminate E..]. cbn [obind] in E.
  destruct (emit_spec i since w1 w2 sv a p T1 Ea Ep Ee) as (b & He & T2 & E2). rewrite Ea in E.
  pose proof T2 as (rej2 & Hr2 & Hb2). rewrite Hb2 in E2. unfold Bcn.drain_beacons in E. rewrite Hb2 in E.
  cbn [b_beacon_transport Net.supports_beacons Net.poll_beacons sim_transport negb rejected_beacons_] in E.
  assert (env_ w2 = b /\ neighbour_table_ w2 = aged now w /\ peer_keys_ w2 = peer_keys_ w) as (V2 & N2 & K2)
    by (split_and!; [exact (f_equal env_ E2)|exact (f_equal neighbour_table_ E2)|exact (f_equal peer_keys_ E2)]).
  rewrite V2, N2, K2 in E. destruct (drain_inbox_beacons_ i b) as [b1 bs] eqn:Eb.
  set (r := fold_left _ bs _) in E. set (w3 := Bcn.with_bcn _ _) in E. exists b, r.
  assert (tuned i (next_since since) w3) as T3.
  { exists r.(Bcn.rx_rejected). split; [|reflexivity].
    destruct (Bcn.receive_all_spec a now bs (Bcn.mk_rx (aged now w) (peer_keys_ w) rej2)) as (_ & _ & Rj);
      [apply NT.age_out_spec, W|exact Hr2|].
    change (MI.is_u64 (Bcn.receive_all a now bs (Bcn.mk_rx (aged now w) (peer_keys_ w) rej2)).(Bcn.rx_rejected)).
    rewrite Rj. apply MI.u64_range. }
  assert (message_handlers_ w3 = []) as H3 by (etransitivity; [exact (f_equal message_handlers_ E2)|exact Hh]).
  destruct (drain_messages_plain i _ w3 w' T3 H3 E) as [reg ->]. constructor.
  - exact He.
  - exists rej2. split; [exact Hr2|]. unfold received. rewrite Eb. reflexivity.
  - rewrite Eb. reflexivity.
  - reflexivity.
  - reflexivity.
  - exact T3.
  - etransitivity; [exact H3|symmetry; exact Hh].
  - exact (f_equal config_ E2).
  - unfold now. rewrite Hx. exact (f_equal (fun w => w.(context_).(Sched.elapsed_time_s)) E2).
  - exact (f_equal current_keypair_ E2).
Qed.
(** ** One robot's tick *)

(** A robot that is participant [i] of the bus. *)
Record radio (i : nat) (key : IdentityKey) (since : Z) (wd : @world nat bus unit) : Prop := {
  rd_systems : wd.(scheduler_).(Sched.systems_) = [SBeacon; SFlocking; SKinematics];
  rd_config : wd.(core_).(config_) = robot_config;
  rd_handlers : wd.(core_).(message_handlers_) = [];
  rd_tuned : tuned i since wd.(core_);
  rd_keypair : auth_enabled = true -> exists n, wd.(core_).(current_keypair_) = Some (Auth.generate_identity_keypair n) /\
    key = (Auth.generate_identity_keypair n).(Auth.pair_public);
}.

#[local] Hint Extern 0 (Sched.SystemOps _ _) =>
  exact (system_ops silent_handler unused_system unused_tick) : typeclass_instances.

Lemma robot_order : Sched.sort_by_name [SBeacon; SFlocking; SKinematics] = [0; 1; 2]%nat.
Proof. reflexivity. Qed.

(** After the beacons, flocking and kinematics write the registry only. *)
Lemma robot_tick_all ctx dt w w' :
  Sched.tick_all [SBeacon; SFlocking; SKinematics] ctx dt w = Ok w' ->
  exists w1 reg, Bcn.tick silent_handler ctx dt w = Ok w1 /\ w' = with_registry reg w1.
Proof.
  intros E. cbn [Sched.tick_all Sched.sys_tick system_ops tick_system] in E.
  destruct (Bcn.tick silent_handler ctx dt w) as [w1| |]; [|discriminate E..]. cbn [obind] in E.
  destruct (Flock.tick _ _ _ _ _) as [r1| |]; [|discriminate E..]. cbn [obind] in E.
  destruct (Flock.tick_kinematics _ _) as [r2| |]; [|discriminate E..]. cbn [obind] in E. apply Ok_inj in E as <-.
  exists w1, r2. split; reflexivity.
Qed.

(** The time goes on and the window of a merge closes; the rest stays. *)
Lemma tick_starts w : exists m, decay_window (advance_context w) = with_merge_window_remaining_s m (advance_context w).
Proof.
  unfold decay_window. destruct (F32.gtb _ _); [by eexists|]. exists (merge_window_remaining_s_ (advance_context w)).
  by destruct w.
Qed.

Lemma heard_tick_frame i since now w0 w1 w2 w3 a p b r :
  heard_tick i since now w1 w2 a p b r ->
  w0.(registry_) = w1.(registry_) -> w0.(env_) = w1.(env_) -> w0.(current_keypair_) = w1.(current_keypair_) ->
  w0.(peer_keys_) = w1.(peer_keys_) -> w0.(neighbour_table_) = w1.(neighbour_table_) ->
  w0.(message_handlers_) = w1.(message_handlers_) -> w0.(config_) = w1.(config_) ->
  (exists reg tr, w3 = with_trace tr (with_registry reg w2)) -> heard_tick i since now w0 w3 a p b r.
Proof.
  intros [He Hr Hv Ht Hk Hu Hh Hc Hn Hp] R V K P N M C (reg & tr & ->). constructor.
  - unfold emitted, beacon_of in *. by rewrite R, V, K.
  - unfold received, aged in *. by rewrite P, N.
  - exact Hv.
  - exact Ht.
  - exact Hk.
  - exact Hu.
  - by rewrite M.
  - by rewrite C.
  - exact Hn.
  - by rewrite K.
Qed.

Lemma robot_tick n cc clk tid i key since (wd wd' : @world nat bus unit) a p :
  @world_ok _ _ _ _ _ _ _ (sim_reliable n) silent_handler unused_system unused_tick cc wd -> radio i key since wd ->
  identity wd.(core_) = Ok a -> Reg.get PositionComponent wd.(core_).(registry_) Reg.SELF_ENTITY = Ok p ->
  tick silent_handler unused_system unused_tick clk tid wd = Ok wd' ->
  radio i key (next_since since) wd' /\
  exists b r, heard_tick i since wd'.(core_).(context_).(Sched.elapsed_time_s) wd.(core_) wd'.(core_) a p b r.
Proof.
  intros [S [[_ Ho _ _ _] Hb]] [Ry Rc Rh Rt Rk] Hi Hp E. unfold tick in E. rewrite (snd_init _ _ S) in E. cbn [negb] in E.
  destruct (tick_starts wd.(core_)) as [m Em]. rewrite Em in E. set (w1 := with_merge_window_remaining_s m _) in E.
  unfold Sched.tick_sequential in E. rewrite Hb in E. cbn [negb] in E.
  rewrite Sched.dispatch_loop_spec, (Ho Hb), Ry, robot_order in E by (rewrite (Ho Hb); intros j; apply Sched.order_lt).
  cbn [omap list_omap lookup list_lookup] in E.
  destruct (Sched.tick_all _ _ _ w1) as [w3| |] eqn:E3; [|discriminate E..]. cbn [obind] in E.
  apply robot_tick_all in E3 as (w2 & reg & E2 & ->).
  assert (Sched.delta_time_s (context_ w1) = DT) as Ed by (cbn; rewrite Rc; reflexivity). rewrite Ed in E2.
  destruct (beacon_tick_spec i since (context_ w1) w1 w2 a p Rt Rh (snd_table _ _ S) Hi Hp eq_refl E2) as (b & r & Hd).
  unfold rotate_periodic in E. change (config_ (emit _ _)) with (config_ w2) in E.
  rewrite (ht_config _ _ _ _ _ _ _ _ _ Hd) in E. change (config_ w1) with (config_ wd.(core_)) in E. rewrite Rc in E.
  cbn [identity_rotation_policy robot_config make_world_config] in E. rewrite bool_decide_eq_false_2 in E by discriminate.
  cbn [andb obind] in E. apply Ok_inj in E as <-. split.
  - constructor; cbn [core_ scheduler_]; [reflexivity| | | |].
    + etransitivity; [exact (ht_config _ _ _ _ _ _ _ _ _ Hd)|exact Rc].
    + etransitivity; [exact (ht_handlers _ _ _ _ _ _ _ _ _ Hd)|exact Rh].
    + exact (ht_tuned _ _ _ _ _ _ _ _ _ Hd).
    + intros Hae. destruct (Rk Hae) as (x & Ex & Ek). exists x. split; [|exact Ek]. etransitivity; [exact (ht_keypair _ _ _ _ _ _ _ _ _ Hd)|exact Ex].
  - exists b, r. rewrite <- (ht_now _ _ _ _ _ _ _ _ _ Hd) in Hd. refine (heard_tick_frame _ _ _ _ _ _ _ _ _ _ _ Hd _ _ _ _ _ _ _ _); try reflexivity.
    by eexists reg, _.
Qed.
End Robot.
(** ** Honest beacons *)

(** The identifiers of the participants, and their keys. *)
Section Trust.
Context {PF : Platform} {CR : Auth.Crypto}.
Variable ids : list Id.HierarchicalID.
Variable keys : nat -> IdentityKey.

Definition honest (v : StateVector) : Prop := exists k, ids !! k = Some v.(sv_id) /\
  (auth_enabled = true -> v.(sv_sender_pubkey) = keys k /\ Bcn.authentic v = true).
Definition honest_keys (ks : Auth.PeerKeyRegistry) : Prop := auth_enabled = true -> forall h pk k,
  Auth.find ks h = Some pk -> ids !! k = Some h -> pk = keys k.

Hypothesis distinct : NoDup ids.

Lemma first_key_claimed l h k : (h, k) ∈ l -> is_Some (Auth.first_key l h).
Proof.
  induction l as [|[h' k'] l IH]; intros Hl; [by apply not_elem_of_nil in Hl|]. cbn [Auth.first_key].
  case_decide; [by eexists|]. apply elem_of_cons in Hl as [[= -> _]|Hl]; [done|exact (IH Hl)].
Qed.

Lemma honest_claim self bs h pk k :
  auth_enabled = true -> Forall honest bs -> Auth.first_key (Bcn.claims self bs) h = Some pk -> ids !! k = Some h -> pk = keys k.
Proof.
  intros Ha Hb. unfold Bcn.claims. induction Hb as [|b bs Hh _ IH]; [done|]. rewrite filter_cons. case_decide; [|exact IH].
  cbn [fmap list_fmap Auth.first_key]. case_decide as Eh; [|exact IH]. intros [= <-] Hk. destruct Hh as (l & Hl & Hv).
  rewrite Eh in Hl. rewrite (NoDup_lookup _ _ _ _ distinct Hk Hl). by apply Hv.
Qed.

(** Everything honest is accepted, and the keys learnt are those of their holders. *)
Lemma honest_accepted self now bs r :
  Forall honest bs -> honest_keys r.(Bcn.rx_keys) -> honest_keys (Bcn.receive_all self now bs r).(Bcn.rx_keys) /\
  forall b, b ∈ bs -> b.(sv_id) <> self -> Bcn.accepted self (Bcn.receive_all self now bs r).(Bcn.rx_keys) b = true.
Proof.
  intros Hb Hr. assert (honest_keys (Bcn.receive_all self now bs r).(Bcn.rx_keys)) as Hk.
  { intros Ha h pk k. rewrite Bcn.receive_all_keys. destruct (Auth.find r.(Bcn.rx_keys) h) as [pk0|] eqn:E.
    - intros [= <-]. by apply Hr.
    - by apply (honest_claim self bs). }
  split; [exact Hk|]. intros b Hin Hs. unfold Bcn.accepted.
  assert (Bcn.foreign self b = true) as Hf by (apply negb_true_iff, not_true_iff_false; by intros ?%Id.hid_eqb_eq).
  rewrite Hf. destruct (Bcn.checked b) eqn:Hc; [|reflexivity]. pose proof Hc as [Ha _]%andb_true_iff.
  rewrite Forall_forall in Hb. destruct (Hb b Hin) as (k & Ek & Hv). destruct (Hv Ha) as [Ev Hau]. rewrite Hau. cbn [negb orb andb].
  apply bool_decide_eq_true. assert (is_Some (Auth.find (Bcn.receive_all self now bs r).(Bcn.rx_keys) b.(sv_id))) as [pk Epk].
  { rewrite Bcn.receive_all_keys. destruct (Auth.find r.(Bcn.rx_keys) _); [by eexists|].
    apply (first_key_claimed _ _ b.(sv_sender_pubkey)), list_elem_of_fmap. exists b. split; [reflexivity|]. apply list_elem_of_filter.
    split; [by rewrite Hf, Hc, Hau|exact Hin]. }
  rewrite Epk, Ev. f_equal. by apply (Hk Ha b.(sv_id)).
Qed.

Lemma observe_app now bs1 bs2 m : Bcn.observe now m (bs1 ++ bs2) = Bcn.observe now (Bcn.observe now m bs1) bs2.
Proof. apply fold_left_app. Qed.
Lemma observe_other now bs m h : Forall (fun b => b.(sv_id) <> h) bs -> Bcn.observe now m bs !! h = m !! h.
Proof.
  intros Hb. revert m. induction Hb as [|b bs Hh _ IH]; intros m; [reflexivity|]. cbn [Bcn.observe fold_left].
  etransitivity; [apply IH|]. by apply lookup_insert_ne.
Qed.

(** The last beacon of a neighbour is what the table holds of it. *)
Lemma last_heard self now r l1 v l2 :
  NT.wf f2i_oob r.(Bcn.rx_table) -> MI.is_u64 r.(Bcn.rx_rejected) -> honest_keys r.(Bcn.rx_keys) ->
  Forall honest (l1 ++ v :: l2) -> v.(sv_id) <> self -> Forall (fun b => b.(sv_id) <> v.(sv_id)) l2 ->
  NT.find (Bcn.receive_all self now (l1 ++ v :: l2) r).(Bcn.rx_table) v.(sv_id) = Some (NT.entry_of v now NT.UNKNOWN_RSSI).
Proof.
  intros W Hu Hr Hb Hs Hl. destruct (Bcn.receive_all_spec self now (l1 ++ v :: l2) r W Hu) as (W' & A & _).
  destruct (honest_accepted self now _ r Hb Hr) as [_ Hacc]. unfold NT.find. rewrite NT.find_abs by apply W'. rewrite A.
  rewrite filter_app, filter_cons, decide_True by (apply Hacc; [set_solver|done]). rewrite observe_app. cbn [Bcn.observe fold_left].
  etransitivity; [apply observe_other|apply lookup_insert_eq]. apply Forall_forall. intros b [_ Hin]%list_elem_of_filter.
  rewrite Forall_forall in Hl. by apply Hl.
Qed.

Lemma observe_from now bs h e : forall m, Bcn.observe now m bs !! h = Some e ->
  m !! h = Some e \/ exists b, b ∈ bs /\ b.(sv_id) = h /\ e = NT.entry_of b now NT.UNKNOWN_RSSI.
Proof.
  induction bs as [|b bs IH]; intros m E; [by left|]. cbn [Bcn.observe fold_left] in E. destruct (IH _ E) as [E'|(b' & Hb & Hh & ->)].
  - apply lookup_insert_Some in E' as [[Hh <-]|[_ E']]; [|by left]. right. exists b. split_and!; [by left|exact Hh|reflexivity].
  - right. exists b'. split_and!; [by right|exact Hh|reflexivity].
Qed.

(** An entry stems from the table before or from a foreign beacon. *)
Lemma heard_from self now r bs h e :
  NT.wf f2i_oob r.(Bcn.rx_table) -> MI.is_u64 r.(Bcn.rx_rejected) ->
  NT.find (Bcn.receive_all self now bs r).(Bcn.rx_table) h = Some e ->
  NT.find r.(Bcn.rx_table) h = Some e \/ exists b, b ∈ bs /\ b.(sv_id) = h /\ h <> self /\ e.(NT.position) = b.(sv_position).
Proof.
  intros W Hu. destruct (Bcn.receive_all_spec self now bs r W Hu) as (W' & A & _). unfold NT.find.
  rewrite !NT.find_abs by (apply W' || apply W). rewrite A. intros [E|(b & Hb & Hh & ->)]%observe_from; [by left|right].
  apply list_elem_of_filter in Hb as [Ha Hb]. exists b. split; [exact Hb|]. split; [exact Hh|]. split; [|reflexivity]. intros Hs.
  unfold Bcn.accepted, Bcn.foreign in Ha. rewrite (proj2 (Id.hid_eqb_eq _ _)) in Ha by congruence. discriminate Ha.
Qed.
End Trust.
(** ** One robot's tick on the bus *)

Section Bus.
Context {PF : Platform} {TC : Reg.Toolchain} {CR : Auth.Crypto}.
#[local] Existing Instance sim_transport.
Abbreviation good := (sim_ok silent_handler unused_system unused_tick).
Implicit Types s : @sim unit.
Implicit Types b : bus.
Implicit Types wd : @world nat bus unit.

(** The identifiers and the positions of the robots, in order. *)
Definition ids_of s : list (outcome Id.HierarchicalID) := (fun wd => identity wd.(core_)) <$> s.(sim_worlds).
Definition positions_of s : list (outcome PositionComponent) :=
  (fun wd => Reg.get PositionComponent wd.(core_).(registry_) Reg.SELF_ENTITY) <$> s.(sim_worlds).

Lemma shown s rs : Forall2 shows s.(sim_worlds) rs -> positions_of s = Ok <$> rs.*2 /\ ids_of s = Ok <$> rs.*1.
Proof.
  unfold positions_of, ids_of. induction 1 as [|wd r wds rs [Hi Hp] _ [IH1 IH2]]; [done|]. cbn [fmap list_fmap].
  split; f_equal; [exact Hp|exact IH1|exact Hi|exact IH2].
Qed.

(** The beacons that wait for a participant. *)
Definition box b (j : nat) : list StateVector := match b.(participants_) !! j with Some p => p.(inbound_beacons) | None => [] end.

Lemma view_part ccs s i wd : good ccs s -> s.(sim_worlds) !! i = Some wd ->
  exists p, (view s).(participants_) !! i = Some p /\ p.(p_world) = Some wd.(core_).(registry_).
Proof.
  intros Hs Hw. cbn [view with_participants participants_]. rewrite list_lookup_imap, Hw.
  destruct (lookup_lt_is_Some_2 s.(sim_bus).(participants_) i) as [p ->].
  { rewrite (so_parts _ _ _ _ _ Hs). by eapply lookup_lt_Some. }
  by eexists.
Qed.

Lemma view_box s j : box (view s) j = box s.(sim_bus) j.
Proof.
  unfold box. cbn [view with_participants participants_]. rewrite list_lookup_imap.
  destruct (s.(sim_bus).(participants_) !! j); [|reflexivity]. cbn [fmap option_fmap option_map]. by destruct (s.(sim_worlds) !! j).
Qed.

Lemma located_view ccs s rs :
  good ccs s -> Forall2 shows s.(sim_worlds) rs -> located (view s).(participants_) rs.*2 rs.*1.
Proof.
  intros Hs Hr. pose proof (Forall2_length _ _ _ Hr) as L. pose proof (so_parts _ _ _ _ _ Hs) as Lp.
  assert (length (view s).(participants_) = length rs) as Lv by (cbn; rewrite length_imap; congruence).
  split; [by rewrite length_fmap|]. split; [by rewrite length_fmap|]. intros i p Hp.
  destruct (lookup_lt_is_Some_2 s.(sim_worlds) i) as [wd Hw]; [rewrite L, <- Lv; by eapply lookup_lt_Some|].
  destruct (Forall2_lookup_l _ _ _ _ _ Hr Hw) as (r & Er & [Hi Hq]).
  destruct (view_part ccs s i wd Hs Hw) as (p' & Hp' & Ew). rewrite Hp in Hp'. apply (inj Some) in Hp' as <-.
  exists wd.(core_).(registry_), r.2, r.1. rewrite !list_lookup_fmap, Er. split_and!; [exact Ew|reflexivity..|exact Hq|].
  unfold identity in Hi. destruct (Reg.get IdentityComponent _ _) as [[c]| |]; [|discriminate Hi..]. cbn [obind ic_id] in Hi.
  apply Ok_inj in Hi as ->. reflexivity.
Qed.

(** What a robot sends in its tick. *)
Definition sends (since : Z) (w : core nat bus unit) a p (sent : list StateVector) : Prop :=
  if due since then exists v, sent = [v] /\ beacon_of w a p v else sent = [].

Lemma emitted_box i since (w : core nat bus unit) a p b snap pos ids part :
  located w.(env_).(participants_) pos ids -> grid_from w.(env_) snap ->
  w.(env_).(participants_) !! i = Some part -> part.(p_world) = Some w.(registry_) -> emitted i since w a p b ->
  exists sent, sends since w a p sent /\ same_bus w.(env_) b /\ b.(participants_) !! i = Some part /\
    forall j, box b j = box w.(env_) j ++ (if hears w.(env_) snap pos i j then sent else []).
Proof.
  intros L G Hi Hw. unfold emitted, sends. destruct (due since).
  - intros (v & Hv & E). exists [v]. split; [by exists v|]. unfold deliver_beacon_ in E. rewrite Hi, Hw in E.
    destruct (broadcast_ok (put_beacon v) _ snap pos ids i part (fun _ => eq_refl) L G Hi) as (q & ps & Eq & Eo & Lp & Hp).
    unfold registry_of in Eq. rewrite Hi, Hw in Eq. cbn [default] in Eq. change (pos_fn (registry_ w) = Ok q) in Eq.
    rewrite Eq in E. cbn [obind] in E. rewrite Eo in E. cbn [obind] in E. apply Ok_inj in E as <-.
    split; [by split_and!|]. split.
    { cbn [with_participants participants_]. rewrite (Hp i part Hi). unfold hears. by rewrite Nat.eqb_refl. }
    intros j. unfold box. cbn [with_participants participants_]. destruct (participants_ (env_ w) !! j) as [pj|] eqn:Ej.
    + rewrite (Hp j pj Ej). destruct (hears _ _ _ _ _); [reflexivity|by rewrite app_nil_r].
    + rewrite (lookup_ge_None_2 ps j) by (rewrite Lp; by apply lookup_ge_None). unfold hears.
      destruct L as (L & _ & _). rewrite (lookup_ge_None_2 pos j) by (rewrite L; by apply lookup_ge_None).
      destruct (pos !! i); by rewrite andb_false_r.
  - intros ->. exists []. split; [reflexivity|]. split; [by split_and!|]. split; [exact Hi|]. intros j.
    destruct (hears _ _ _ _ _); by rewrite app_nil_r.
Qed.

(** Polling empties one's own inbox. *)
Lemma polled_box i b j : box (drain_inbox_messages_ i (drain_inbox_beacons_ i b).1).1 j = if decide (j = i) then [] else box b j.
Proof.
  unfold drain_inbox_beacons_, drain_inbox_messages_, box.
  destruct (participants_ b !! i) as [p|] eqn:Ei; cbn [fst with_participants participants_].
  - rewrite list_lookup_insert_eq by (by eapply lookup_lt_Some). cbn [fst with_participants participants_].
    rewrite list_insert_insert_eq. case_decide as Hj; [subst j|].
    + by rewrite list_lookup_insert_eq by (by eapply lookup_lt_Some).
    + by rewrite list_lookup_insert_ne by done.
  - rewrite Ei. cbn [fst]. case_decide as Hj; [subst j; by rewrite Ei|reflexivity].
Qed.

Lemma polled_same i b : same_bus b (drain_inbox_messages_ i (drain_inbox_beacons_ i b).1).1.
Proof.
  unfold drain_inbox_beacons_, drain_inbox_messages_. destruct (participants_ b !! i) eqn:Ei; cbn [fst with_participants participants_].
  - destruct (<[i:=_]> (participants_ b) !! i); split_and!; try reflexivity; cbn [fst with_participants participants_]; by rewrite !length_insert.
  - rewrite Ei. by split_and!.
Qed.
End Bus.
(** ** Rounds of the clock *)

Lemma advance_add `{!Platform} {TC : Reg.Toolchain} `{!Auth.Crypto} clk tid m n (s : @sim unit) :
  advance silent_handler unused_system unused_tick clk tid (m + n) s =
  (let! s := advance silent_handler unused_system unused_tick clk tid m s in
   advance silent_handler unused_system unused_tick clk tid n s).
Proof.
  revert s. induction m as [|m IH]; intros s; [reflexivity|]. rewrite Nat.add_succ_l, (advance_succ clk tid (m + n)), (advance_succ clk tid m).
  destruct (advance _ _ _ _ _ 1 s) as [s1| |]; [exact (IH s1)|reflexivity..].
Qed.

Section Rounds.
Context {PF : Platform} {TC : Reg.Toolchain} {CR : Auth.Crypto}.
#[local] Existing Instance sim_transport.
Variable clk : nat -> Z * Z.
Variable tid : Z.
Variable range : Z.
Variable ids : list Id.HierarchicalID.
Variable keys : nat -> IdentityKey.
Hypothesis types_distinct : distinct_ids.
Hypothesis distinct : NoDup ids.
Hypothesis laws : auth_enabled = true -> Auth.CryptoLaws CR.
Implicit Types s : @sim unit.
Implicit Types wd : @world nat bus unit.
Abbreviation good := (sim_ok silent_handler unused_system unused_tick).
Abbreviation tick_one := (tick_world silent_handler unused_system unused_tick clk tid).
Abbreviation tick_many := (tick_worlds silent_handler unused_system unused_tick clk tid).

Lemma same_view s : same_bus s.(sim_bus) (view s).
Proof. split_and!; try reflexivity. cbn. apply length_imap. Qed.
Lemma same_trans b1 b2 b3 : same_bus b1 b2 -> same_bus b2 b3 -> same_bus b1 b3.
Proof. intros (A1 & A2 & A3 & A4) (B1 & B2 & B3 & B4). split_and!; congruence. Qed.

Record effect (i : nat) (since : Z) (snap pos : list PositionComponent) s s' wd wd' a p (sent : list StateVector) : Prop := {
  ef_worlds : s'.(sim_worlds) = <[i := wd']> s.(sim_worlds);
  ef_radio : radio i (keys i) (next_since since) wd';
  ef_same : same_bus s.(sim_bus) s'.(sim_bus);
  ef_sends : sends since wd.(core_) a p sent;
  ef_box : forall j, box s'.(sim_bus) j =
    if decide (j = i) then [] else box s.(sim_bus) j ++ (if hears (view s) snap pos i j then sent else []);
  ef_heard : exists rejected, MI.is_u64 rejected /\
    let now := wd'.(core_).(context_).(Sched.elapsed_time_s) in
    let r := Bcn.receive_all a now (box s.(sim_bus) i) (Bcn.mk_rx (aged now wd.(core_)) wd.(core_).(peer_keys_) rejected) in
    wd'.(core_).(neighbour_table_) = r.(Bcn.rx_table) /\ wd'.(core_).(peer_keys_) = r.(Bcn.rx_keys);
}.

Lemma tick_effect ccs i since snap s s' wd rs a p :
  good ccs s -> Forall2 shows s.(sim_worlds) rs -> rs !! i = Some (a, p) -> s.(sim_worlds) !! i = Some wd ->
  radio i (keys i) since wd -> grid_from (view s) snap -> tick_one i s = Ok s' ->
  exists wd' sent, effect i since snap rs.*2 s s' wd wd' a p sent.
Proof.
  intros Hs Hr Er Ew R G E. pose proof (view_ok _ _ _ silent_sound ccs s Hs) as Hv.
  destruct (Forall2_lookup_r _ _ _ _ _ (so_worlds _ _ _ _ _ Hs) Ew) as (cc & _ & F).
  pose proof (fit_env _ _ _ cc wd _ _ F Hv) as W. destruct (Forall2_lookup_lr _ _ _ _ _ _ Hr Ew Er) as [Hi Hp]. cbn [fst snd] in Hi, Hp.
  unfold tick_world in E. rewrite Ew in E. destruct (tick _ _ _ clk tid _) as [wd'| |] eqn:Et; [|discriminate E..].
  cbn [obind] in E. apply Ok_inj in E as <-.
  destruct (robot_tick _ cc clk tid i (keys i) since _ wd' a p W ltac:(by destruct R) Hi Hp Et) as (R' & b & r & Hd).
  destruct (view_part ccs s i wd Hs Ew) as (part & Epart & Ewp).
  destruct (emitted_box i since (core_ (map_core (with_env (view s)) wd)) a p b snap rs.*2 rs.*1 part (located_view ccs s rs Hs Hr) G Epart Ewp
    (ht_emitted _ _ _ _ _ _ _ _ _ Hd)) as (sent & Hsent & Sb & _ & Hb).
  assert (forall j, box b j = box s.(sim_bus) j ++ (if hears (view s) snap rs.*2 i j then sent else [])) as Hb'.
  { intros j. rewrite Hb. cbn [map_core core_ with_env env_]. by rewrite view_box. }
  exists wd', sent. constructor; cbn [sim_worlds sim_bus].
  - reflexivity.
  - exact R'.
  - rewrite (ht_env _ _ _ _ _ _ _ _ _ Hd). eapply same_trans; [|apply polled_same].
    eapply same_trans; [apply same_view|exact Sb].
  - exact Hsent.
  - intros j. rewrite (ht_env _ _ _ _ _ _ _ _ _ Hd), polled_box. by rewrite Hb'.
  - destruct (ht_received _ _ _ _ _ _ _ _ _ Hd) as (rej & Hrej & Er'). exists rej. split; [exact Hrej|]. cbv zeta.
    unfold received in Er'. replace (drain_inbox_beacons_ i b).2 with (box s.(sim_bus) i) in Er'.
    + rewrite (ht_table _ _ _ _ _ _ _ _ _ Hd), (ht_keys _ _ _ _ _ _ _ _ _ Hd), Er'. split; reflexivity.
    + transitivity (box b i).
      * rewrite Hb'. unfold hears. rewrite Nat.eqb_refl. cbn [negb andb]. by rewrite app_nil_r.
      * unfold box, drain_inbox_beacons_. by destruct (participants_ b !! i).
Qed.
(** The robots between two ticks: [since k] is the time since the last beacon of
    robot [k]. *)
Record rest (since : nat -> Z) s : Prop := {
  rt_good : exists ccs, good ccs s;
  rt_robots : robots_are s ids;
  rt_radio : forall k wd, s.(sim_worlds) !! k = Some wd -> radio k (keys k) (since k) wd;
  rt_mail : forall k, Forall (honest ids keys) (box s.(sim_bus) k);
  rt_keys : forall k wd, s.(sim_worlds) !! k = Some wd -> honest_keys ids keys wd.(core_).(peer_keys_);
  rt_range : s.(sim_bus).(bus_config).(comm_range_m) = range;
}.

(** In a round of the clock whose first [m] ticks are over; [snap] are the positions
    at its start. *)
Definition turn (since : Z) (m k : nat) : Z := if (k <? m)%nat then next_since since else since.
Record live (since : Z) (m : nat) (snap : list PositionComponent) s : Prop := {
  lv_rest : rest (turn since m) s;
  lv_cell : s.(sim_bus).(grid_cell_size_m_) = range;
  lv_grid : grid_from (view s) snap;
}.

Lemma rest_shows since s : rest since s -> exists rs, Forall2 shows s.(sim_worlds) rs /\ rs.*1 = ids.
Proof. intros [[ccs Hs] Hi _ _ _ _]. by apply (robots_show ccs). Qed.
Lemma identities_at_rest since s : rest since s -> ids_of s = Ok <$> ids.
Proof. intros Hr. destruct (rest_shows since s Hr) as (rs & Hrs & Ers). rewrite <- Ers. exact (proj2 (shown s rs Hrs)). Qed.
Lemma rest_length since s : rest since s -> length s.(sim_worlds) = length ids.
Proof. intros H. destruct (rest_shows since s H) as (rs & Hr & <-). rewrite length_fmap. by eapply Forall2_length. Qed.

Lemma sent_honest i since wd a p sent :
  ids !! i = Some a -> radio i (keys i) since wd -> sends since wd.(core_) a p sent -> Forall (honest ids keys) sent.
Proof.
  intros Hi R. unfold sends. destruct (due since); [|intros ->; constructor]. intros (v & -> & Ev & _ & Hv). constructor; [|constructor].
  exists i. rewrite Ev. split; [exact Hi|]. intros Ha. destruct (rd_keypair _ _ _ _ R Ha) as (n & En & ->).
  destruct (Hv Ha _ En) as [Ek Hau]. split; [exact Ek|]. apply Hau; [by apply laws|by exists n].
Qed.

Lemma live_tick since m snap s :
  live since m snap s -> (m < length ids)%nat ->
  exists s' rs a p wd wd' sent, tick_one m s = Ok s' /\ live since (S m) snap s' /\
    Forall2 shows s.(sim_worlds) rs /\ rs.*1 = ids /\ rs !! m = Some (a, p) /\ s.(sim_worlds) !! m = Some wd /\
    effect m since snap rs.*2 s s' wd wd' a p sent /\ s'.(sim_clock) = s.(sim_clock).
Proof.
  intros [Hr Hc Hg] Hm. pose proof (rest_length _ s Hr) as L. destruct (rest_shows _ s Hr) as (rs & Hrs & Ers).
  destruct Hr as [[ccs Hs] Hi Hra Hma Hke Hra']. destruct (lookup_lt_is_Some_2 s.(sim_worlds) m) as [wd Ew]; [lia|].
  destruct (Forall2_lookup_l _ _ _ _ _ Hrs Ew) as ([a p] & Er & _).
  assert (ids !! m = Some a) as Ea by (by rewrite <- Ers, list_lookup_fmap, Er).
  destruct (tick_world_ok _ _ _ silent_sound clk tid m ccs s Hs) as (s' & E & Hs' & Ec & Hu); [lia|].
  pose proof (Hra m wd Ew) as Rm. unfold turn in Rm. rewrite Nat.ltb_irrefl in Rm.
  destruct (tick_effect ccs m since snap s s' wd rs a p Hs Hrs Er Ew Rm Hg E) as (wd' & sent & Ef).
  exists s', rs, a, p, wd, wd', sent. split; [exact E|]. split; [|by split_and!].
  pose proof (ef_same _ _ _ _ _ _ _ _ _ _ _ Ef) as Sb. pose proof (sent_honest m since wd a p sent Ea Rm (ef_sends _ _ _ _ _ _ _ _ _ _ _ Ef)) as Hh.
  assert (forall k wk, s'.(sim_worlds) !! k = Some wk -> k = m /\ wk = wd' \/ k <> m /\ s.(sim_worlds) !! k = Some wk) as Hw.
  { intros k wk. rewrite (ef_worlds _ _ _ _ _ _ _ _ _ _ _ Ef). intros [(<- & <- & _)|[Hn Hk]]%list_lookup_insert_Some; [by left|right].
    split; [congruence|exact Hk]. }
  constructor; [constructor| |].
  - by eexists.
  - by apply (robots_unchanged types_distinct s s').
  - intros k wk [[-> ->]|[Hn Hk]]%Hw.
    + unfold turn. rewrite (proj2 (Nat.ltb_lt m (S m))) by lia. exact (ef_radio _ _ _ _ _ _ _ _ _ _ _ Ef).
    + assert (turn since (S m) k = turn since m k) as ->; [|by apply Hra].
      unfold turn. destruct (Nat.ltb_spec k m), (Nat.ltb_spec k (S m)); (reflexivity || lia).
  - intros k. rewrite (ef_box _ _ _ _ _ _ _ _ _ _ _ Ef). case_decide; [constructor|]. apply Forall_app. split; [by apply Hma|].
    destruct (hears _ _ _ _ _); [exact Hh|constructor].
  - intros k wk [[-> ->]|[Hn Hk]]%Hw; [|by apply (Hke k)]. destruct (ef_heard _ _ _ _ _ _ _ _ _ _ _ Ef) as (rej & _ & _ & ->).
    apply honest_accepted; [exact distinct|by apply Hma|by apply (Hke m)].
  - destruct Sb as (-> & _). exact Hra'.
  - destruct Sb as (_ & _ & -> & _). exact Hc.
  - apply (grid_same (view s)); [|exact Hg]. destruct (same_view s) as (A1 & A2 & A3 & A4), (same_view s') as (B1 & B2 & B3 & B4), Sb as (C1 & C2 & C3 & C4).
    split_and!; congruence.
Qed.

(** A beacon that waits for a participant and is the last of its sender. *)
Definition mail (j : nat) (v : StateVector) s : Prop := exists l1 l2,
  box s.(sim_bus) j = l1 ++ v :: l2 /\ Forall (fun b => b.(sv_id) <> v.(sv_id)) l2.
Definition world_at (j : nat) wd s : Prop := s.(sim_worlds) !! j = Some wd.

(** What the other robots' ticks leave alone. *)
Lemma world_kept k j wd since snap pos s s' w w' a p sent :
  effect k since snap pos s s' w w' a p sent -> k <> j -> world_at j wd s -> world_at j wd s'.
Proof. intros Ef Hn Hw. unfold world_at. rewrite (ef_worlds _ _ _ _ _ _ _ _ _ _ _ Ef). by rewrite list_lookup_insert_ne. Qed.

Lemma mail_kept k j v since snap pos s s' w w' a p sent :
  effect k since snap pos s s' w w' a p sent -> k <> j -> a <> v.(sv_id) -> mail j v s -> mail j v s'.
Proof.
  intros Ef Hn Ha (l1 & l2 & Eb & Hl). exists l1, (l2 ++ if hears (view s) snap pos k j then sent else []). split.
  - rewrite (ef_box _ _ _ _ _ _ _ _ _ _ _ Ef), decide_False by congruence. by rewrite Eb, <- app_assoc.
  - apply Forall_app. split; [exact Hl|]. destruct (hears _ _ _ _ _); [|constructor].
    pose proof (ef_sends _ _ _ _ _ _ _ _ _ _ _ Ef) as Hs. unfold sends in Hs. destruct (due since); [|subst; constructor].
    destruct Hs as (u & -> & Eu & _). constructor; [congruence|constructor].
Qed.
Lemma round_part since snap r : forall m s,
  live since m snap s -> (m + r <= length ids)%nat ->
  exists s', tick_many (seq m r) s = Ok s' /\ live since (m + r) snap s' /\ s'.(sim_clock) = s.(sim_clock) /\
    forall j, (j < m \/ m + r <= j)%nat ->
      (forall wd, world_at j wd s -> world_at j wd s') /\
      (forall v, (forall k, (m <= k < m + r)%nat -> ids !! k <> Some v.(sv_id)) -> mail j v s -> mail j v s').
Proof.
  induction r as [|r IH]; intros m s Hl Hm; [exists s; rewrite Nat.add_0_r; by split_and!|]. cbn [seq tick_worlds].
  destruct (live_tick since m snap s Hl) as (s1 & rs & a & p & wd & wd' & sent & -> & H1 & Hrs & Ers & Er & _ & Ef & C1); [lia|].
  cbn [obind]. destruct (IH (S m) s1 H1) as (s' & E & H' & C' & K); [lia|]. exists s'. split; [exact E|].
  split; [by rewrite Nat.add_succ_r|]. split; [congruence|]. intros j Hj. destruct (K j) as [Kw Km]; [lia|]. split.
  - intros w Hw. apply Kw. eapply world_kept; [exact Ef|lia|exact Hw].
  - intros v Hv Hb. apply Km; [intros k Hk; apply Hv; lia|]. eapply mail_kept; [exact Ef|lia| |exact Hb].
    intros Ha. apply (Hv m); [lia|]. by rewrite <- Ers, list_lookup_fmap, Er, <- Ha.
Qed.

(** Whether a robot at [q], in the grid since the start of the round with its position
    [q0], hears a beacon sent from [p]. *)
Definition audible (p q0 q : PositionComponent) : bool :=
  NT.near_cell (cell_for_ range p) 1 (cell_for_ range q0) && within (F32.mul range range) p q.

Lemma audible_hears since m snap s pos i j p q0 q :
  live since m snap s -> j <> i -> pos !! i = Some p -> pos !! j = Some q -> snap !! j = Some q0 -> audible p q0 q = true ->
  hears (view s) snap pos i j = true.
Proof.
  intros [Hr Hc _] Hn Hi Hj Hs [Ha Hw]%andb_true_iff. unfold hears. rewrite Hi, Hj, (proj2 (Nat.eqb_neq j i) Hn). unfold reach.
  cbn [view with_participants bus_config grid_cell_size_m_]. rewrite (rt_range _ _ Hr), Hc, Hs, Ha, Hw. by destruct (grid_on _).
Qed.

Lemma deliver since i snap pos s s' wd wd' a p sent j :
  effect i since snap pos s s' wd wd' a p sent -> due since = true -> j <> i -> hears (view s) snap pos i j = true ->
  exists v, v.(sv_id) = a /\ v.(sv_position) = p /\ mail j v s'.
Proof.
  intros Ef Hd Hn Hh. pose proof (ef_sends _ _ _ _ _ _ _ _ _ _ _ Ef) as Hs. unfold sends in Hs. rewrite Hd in Hs.
  destruct Hs as (v & -> & Ev & Ep & _). exists v. split; [exact Ev|]. split; [exact Ep|].
  exists (box s.(sim_bus) j), []. split; [|constructor]. by rewrite (ef_box _ _ _ _ _ _ _ _ _ _ _ Ef), decide_False, Hh.
Qed.

(** The neighbour [a] is in the table, where it was when it sent, and heard just now. *)
Definition knows (a : Id.HierarchicalID) (p : PositionComponent) wd : Prop := exists e,
  NT.find wd.(core_).(neighbour_table_) a = Some e /\ e.(NT.hid) = a /\ e.(NT.position) = p /\
  e.(NT.last_seen_s) = wd.(core_).(context_).(Sched.elapsed_time_s).

Lemma hear since j snap pos s s' wd wd' a p sent v :
  rest (turn since j) s -> world_at j wd s -> effect j since snap pos s s' wd wd' a p sent -> mail j v s -> v.(sv_id) <> a ->
  world_at j wd' s' /\ knows v.(sv_id) v.(sv_position) wd'.
Proof.
  intros [[ccs Hs] _ _ Hma Hke _] Hw Ef (l1 & l2 & Eb & Hl) Hn. split.
  { unfold world_at. rewrite (ef_worlds _ _ _ _ _ _ _ _ _ _ _ Ef). apply list_lookup_insert_eq. by eapply lookup_lt_Some. }
  destruct (ef_heard _ _ _ _ _ _ _ _ _ _ _ Ef) as (rej & Hrej & Et & _). rewrite Eb in Et. unfold knows. rewrite Et.
  destruct (Forall2_lookup_r _ _ _ _ _ (so_worlds _ _ _ _ _ Hs) Hw) as (cc & _ & n & e & [S _]).
  exists (NT.entry_of v wd'.(core_).(context_).(Sched.elapsed_time_s) NT.UNKNOWN_RSSI).
  split; [|split_and!; reflexivity]. apply (last_heard ids keys); [exact distinct| |exact Hrej|by apply (Hke j)| |exact Hn|exact Hl].
  - apply NT.age_out_spec. exact (snd_table _ _ S).
  - rewrite <- Eb. apply Hma.
Qed.
Lemma tick_many_app l1 l2 s : tick_many (l1 ++ l2) s = (let! s := tick_many l1 s in tick_many l2 s).
Proof. revert s. induction l1 as [|k l1 IH]; intros s; [reflexivity|]. cbn [app tick_worlds].
  destruct (tick_world _ _ _ _ _ k s); [exact (IH _)|reflexivity..].
Qed.

(** A round around the tick of robot [i]. *)
Lemma round_split since m i snap s s2 :
  live since m snap s -> (m <= i < length ids)%nat -> tick_many (seq m (length ids - m)) s = Ok s2 ->
  exists sa sb rs a p wd wd' sent,
    live since i snap sa /\ Forall2 shows sa.(sim_worlds) rs /\ rs !! i = Some (a, p) /\ ids !! i = Some a /\
    world_at i wd sa /\ effect i since snap rs.*2 sa sb wd wd' a p sent /\
    live since (S i) snap sb /\ tick_many (seq (S i) (length ids - S i)) sb = Ok s2 /\
    (forall j, (i <= j)%nat -> (forall w, world_at j w s -> world_at j w sa) /\
      (forall v, (forall k, (m <= k < i)%nat -> ids !! k <> Some v.(sv_id)) -> mail j v s -> mail j v sa)).
Proof.
  intros Hl [Hm Hi] E. destruct (round_part since snap (i - m) m s Hl) as (sa & Ea & Ha & _ & K); [lia|].
  replace (m + (i - m))%nat with i in Ha, K by lia.
  destruct (live_tick since i snap sa Ha Hi) as (sb & rs & a & p & wd & wd' & sent & Eb & Hb & Hrs & Ers & Er & Ew & Ef & _).
  replace (length ids - m)%nat with ((i - m) + S (length ids - S i))%nat in E by lia.
  rewrite seq_app, tick_many_app, Ea in E. cbn [obind] in E. replace (m + (i - m))%nat with i in E by lia.
  cbn [seq tick_worlds] in E. rewrite Eb in E. cbn [obind] in E.
  exists sa, sb, rs, a, p, wd, wd', sent. split_and!; try done; [by rewrite <- Ers, list_lookup_fmap, Er|].
  intros j Hj. apply K. lia.
Qed.

(** What waits for a robot whose turn is to come is heard in this round. *)
Lemma heard_in_turn since m j v snap s s2 :
  live since m snap s -> (m <= j < length ids)%nat -> mail j v s ->
  (forall k, (m <= k <= j)%nat -> ids !! k <> Some v.(sv_id)) -> tick_many (seq m (length ids - m)) s = Ok s2 ->
  exists wd, world_at j wd s2 /\ knows v.(sv_id) v.(sv_position) wd.
Proof.
  intros Hl Hj Hv Hk E.
  destruct (round_split since m j snap s s2 Hl Hj E) as (sa & sb & rs & a & p & wd & wd' & sent & Ha & _ & _ & Ea & Ew & Ef & Hb & E2 & K).
  destruct (hear since j snap rs.*2 sa sb wd wd' a p sent v (lv_rest _ _ _ _ Ha) Ew Ef) as [Hw Hkn].
  - apply K; [done|intros k ?; apply Hk; lia|exact Hv].
  - intros Hs. apply (Hk j); [lia|]. by rewrite Ea, Hs.
  - exists wd'. split; [|exact Hkn]. destruct (round_part since snap (length ids - S j) (S j) sb Hb) as (s3 & E3 & _ & _ & K3); [lia|].
    rewrite E2 in E3. apply Ok_inj in E3 as <-. apply (K3 j); [lia|exact Hw].
Qed.

(** ** Whole rounds *)

Lemma rest_ext f g s : (forall k, (k < length ids)%nat -> f k = g k) -> rest f s -> rest g s.
Proof.
  intros He Hr. pose proof (rest_length f s Hr) as L. destruct Hr as [Hg Hi Hra Hm Hk Hb]. constructor; try done.
  intros k wd Hw. rewrite <- He; [by apply Hra|]. rewrite <- L. by eapply lookup_lt_Some.
Qed.

Lemma shows_eq wd r r' : shows wd r -> shows wd r' -> r = r'.
Proof. destruct r, r'. intros [A B] [A' B']. cbn [fst snd] in *. rewrite A in A'. rewrite B in B'. apply Ok_inj in A' as ->. by apply Ok_inj in B' as ->. Qed.
Lemma shows_same s s' rs rs' j wd r :
  Forall2 shows s.(sim_worlds) rs -> Forall2 shows s'.(sim_worlds) rs' -> world_at j wd s -> world_at j wd s' ->
  rs !! j = Some r -> rs' !! j = Some r.
Proof.
  intros H1 H2 W1 W2 Er. destruct (Forall2_lookup_l _ _ _ _ _ H2 W2) as (r' & Er' & S'). rewrite Er'. f_equal.
  apply (shows_eq wd); [exact S'|]. exact (Forall2_lookup_lr _ _ _ _ _ _ H1 W1 Er).
Qed.

Lemma start_round since s rs :
  rest (fun _ => since) s -> Forall2 shows s.(sim_worlds) rs ->
  exists b, rebuild_grid_ (view s) = Ok b /\ b.(participants_) = (view s).(participants_) /\
    live since 0 rs.*2 (mk_sim b s.(sim_clock) s.(sim_worlds)).
Proof.
  intros Hr Hrs. destruct Hr as [[ccs Hs] Hi Hra Hma Hke Hran].
  destruct (rebuild_safe _ _ (view_ok _ _ _ silent_sound ccs s Hs)) as (b & E & [Bl _ Bg] & Bp).
  destruct (bus_rebuild_ok (view s) rs.*2 rs.*1 (located_view ccs s rs Hs Hrs)) as (b' & E' & _ & Ec & Es & Hg).
  rewrite E in E'. apply Ok_inj in E' as <-. exists b. split; [exact E|]. split; [exact Bp|].
  change (bus_config (view s)) with (bus_config (sim_bus s)) in *.
  assert (length b.(participants_) = length s.(sim_worlds)) as Lb by (rewrite Bp; cbn; rewrite length_imap; by apply (so_parts _ _ _ _ _ Hs)).
  constructor; [constructor| |].
  - exists ccs. destruct Hs. by constructor.
  - destruct Hi. by constructor.
  - intros k wd Hw. exact (Hra k wd Hw).
  - intros k. cbn [sim_bus]. unfold box. rewrite Bp. fold (box (view s) k). rewrite view_box. apply Hma.
  - exact Hke.
  - cbn [sim_bus]. by rewrite Ec.
  - cbn [sim_bus]. by rewrite Es.
  - unfold grid_from. cbn [view sim_bus with_participants participants_ grid_cell_size_m_ grid_]. split.
    + rewrite length_imap, Lb, length_fmap. by rewrite (Forall2_length _ _ _ Hrs).
    + unfold grid_on. cbn [view sim_bus with_participants grid_cell_size_m_ grid_]. rewrite Es. intros [_ Hne]%andb_true_iff.
      destruct (F32.leb _ F32.zero); [|exact Hg]. rewrite Hg, bool_decide_eq_true_2 in Hne by reflexivity. discriminate Hne.
Qed.

Lemma one_round since s rs :
  rest (fun _ => since) s -> Forall2 shows s.(sim_worlds) rs ->
  exists s0 s2 s', live since 0 rs.*2 s0 /\ s0.(sim_worlds) = s.(sim_worlds) /\ (forall k, box s0.(sim_bus) k = box s.(sim_bus) k) /\
    tick_many (seq 0 (length ids)) s0 = Ok s2 /\
    advance silent_handler unused_system unused_tick clk tid 1 s = Ok s' /\
    s'.(sim_worlds) = s2.(sim_worlds) /\ s'.(sim_bus) = s2.(sim_bus) /\ rest (fun _ => next_since since) s'.
Proof.
  intros Hr Hrs. destruct (start_round since s rs Hr Hrs) as (b & E & Bp & Hl). set (s0 := mk_sim b _ _) in Hl.
  destruct (round_part since rs.*2 (length ids) 0 s0 Hl) as (s2 & E2 & H2 & C2 & _); [lia|]. rewrite Nat.add_0_l in H2.
  pose proof (rest_length _ s Hr) as L. destruct Hr as [[ccs Hs] _ _ _ _ _].
  eexists s0, s2, _. split; [exact Hl|]. split; [reflexivity|]. split.
  { intros k. unfold box. cbn [s0 sim_bus]. rewrite Bp. apply view_box. }
  split; [exact E2|]. split.
  { cbn [advance]. rewrite E. cbn [obind]. fold s0. unfold clock_step. change (clk_worlds (sim_clock s0)) with (clk_worlds (sim_clock s)).
    rewrite (so_clock _ _ _ _ _ Hs), L, E2. reflexivity. }
  split; [reflexivity|]. split; [reflexivity|]. destruct H2 as [H2 _ _]. apply (rest_ext _ (fun _ => next_since since)) in H2.
  - destruct H2 as [[ccs2 [G1 G2 G3 G4]] [I1 I2] Hra Hma Hke Hran]. constructor; [exists ccs2; by constructor|by constructor|done..].
  - intros k Hk. unfold turn. by rewrite (proj2 (Nat.ltb_lt _ _) Hk).
Qed.
(** A robot later in the order hears in the round of the sending. *)
Lemma heard_early since s rs s' i j a p q0 :
  rest (fun _ => since) s -> due since = true -> Forall2 shows s.(sim_worlds) rs -> (i < j)%nat ->
  rs !! i = Some (a, p) -> rs.*2 !! j = Some q0 -> audible p q0 q0 = true ->
  advance silent_handler unused_system unused_tick clk tid 1 s = Ok s' ->
  exists wd, world_at j wd s' /\ knows a p wd.
Proof.
  intros Hr Hd Hrs Hij Ei Ej Ha E.
  assert (j < length ids)%nat as Hj.
  { rewrite <- (rest_length _ s Hr), (Forall2_length _ _ _ Hrs), <- (length_fmap snd). by eapply lookup_lt_Some. }
  destruct (one_round since s rs Hr Hrs) as (s0 & s2 & s1 & Hl & Hw & _ & E2 & E1 & W1 & _ & _). rewrite E in E1. apply Ok_inj in E1 as <-.
  destruct (round_split since 0 i rs.*2 s0 s2 Hl) as (sa & sb & rsa & a' & p' & wd & wd' & sent & La & Hra & Ea & Ia & _ & Ef & Lb & E3 & K);
    [lia|by rewrite Nat.sub_0_r|].
  assert (forall k r, (i <= k)%nat -> rs !! k = Some r -> rsa !! k = Some r) as Same.
  { intros k r Hk Er. destruct (Forall2_lookup_r _ _ _ _ _ Hrs Er) as (wk & Wk & _). apply (shows_same s sa rs rsa k wk r Hrs Hra Wk); [|exact Er].
    apply (K k Hk). unfold world_at. by rewrite Hw. }
  rewrite (Same i _ (Nat.le_refl _) Ei) in Ea. apply (inj Some) in Ea as [= <- <-].
  pose proof Ej as Ej'. rewrite list_lookup_fmap in Ej'. apply fmap_Some in Ej' as (rj & Erj & ->).
  destruct (deliver since i rs.*2 rsa.*2 sa sb wd wd' a p sent j Ef Hd) as (v & Ev & Ep & Hv); [lia| |].
  { apply (audible_hears since i rs.*2 sa rsa.*2 i j p rj.2 rj.2 La); [lia| | |exact Ej|exact Ha]; rewrite list_lookup_fmap.
    - by rewrite (Same i _ (Nat.le_refl _) Ei).
    - by rewrite (Same j rj) by (lia || done). }
  unfold world_at. rewrite W1, <- Ev, <- Ep. apply (heard_in_turn since (S i) j v rs.*2 sb s2 Lb); [lia|exact Hv| |exact E3].
  intros k Hk He. rewrite Ev in He. pose proof (NoDup_lookup _ _ _ _ distinct Ia He). lia.
Qed.

(** For an earlier one the beacon waits until the next round. *)
Lemma sent_late since s rs s' rs' i j a p q0 q :
  rest (fun _ => since) s -> due since = true -> Forall2 shows s.(sim_worlds) rs -> Forall2 shows s'.(sim_worlds) rs' -> (j < i)%nat ->
  rs !! i = Some (a, p) -> rs.*2 !! j = Some q0 -> rs'.*2 !! j = Some q -> audible p q0 q = true ->
  advance silent_handler unused_system unused_tick clk tid 1 s = Ok s' ->
  exists v, v.(sv_id) = a /\ v.(sv_position) = p /\ ids !! i = Some a /\ mail j v s'.
Proof.
  intros Hr Hd Hrs Hrs' Hij Ei Ej Ej' Ha E.
  assert (i < length ids)%nat as Hi by (rewrite <- (rest_length _ s Hr), (Forall2_length _ _ _ Hrs); by eapply lookup_lt_Some).
  destruct (one_round since s rs Hr Hrs) as (s0 & s2 & s1 & Hl & Hw & _ & E2 & E1 & W1 & B1 & _). rewrite E in E1. apply Ok_inj in E1 as <-.
  destruct (round_split since 0 i rs.*2 s0 s2 Hl) as (sa & sb & rsa & a' & p' & wd & wd' & sent & La & Hra & Ea & Ia & Wa & Ef & Lb & E3 & K);
    [lia|by rewrite Nat.sub_0_r|].
  assert (rsa !! i = Some (a, p)) as Eai.
  { destruct (Forall2_lookup_r _ _ _ _ _ Hrs Ei) as (wi & Wi & _). apply (shows_same s sa rs rsa i wi _ Hrs Hra Wi); [|exact Ei].
    apply (K i (Nat.le_refl _)). unfold world_at. by rewrite Hw. }
  rewrite Eai in Ea. apply (inj Some) in Ea as [= <- <-].
  destruct (round_part since rs.*2 (length ids - S i) (S i) sb Lb) as (s3 & E4 & _ & _ & K3); [lia|].
  rewrite E3 in E4. apply Ok_inj in E4 as <-.
  rewrite list_lookup_fmap in Ej'. apply fmap_Some in Ej' as ([b' q'] & Erj & ->).
  assert (rsa !! j = Some (b', q')) as Eaj.
  { destruct (lookup_lt_is_Some_2 sa.(sim_worlds) j) as [wj Wj]; [rewrite (rest_length _ sa (lv_rest _ _ _ _ La)); lia|].
    assert (world_at j wj s') as Wj'.
    { unfold world_at. rewrite W1. apply (K3 j); [lia|]. eapply world_kept; [exact Ef|lia|exact Wj]. }
    by apply (shows_same s' sa rs' rsa j wj _ Hrs' Hra Wj' Wj). }
  destruct (deliver since i rs.*2 rsa.*2 sa sb wd wd' a p sent j Ef Hd) as (v & Ev & Ep & Hv); [lia| |].
  { apply (audible_hears since i rs.*2 sa rsa.*2 i j p q0 q' La); [lia| | |exact Ej|exact Ha]; rewrite list_lookup_fmap; [by rewrite Eai|by rewrite Eaj]. }
  exists v. split; [exact Ev|]. split; [exact Ep|]. split; [exact Ia|]. unfold mail. rewrite B1. apply (K3 j); [lia| |exact Hv].
  intros k Hk He. rewrite Ev in He. pose proof (NoDup_lookup _ _ _ _ distinct Ia He). lia.
Qed.

Lemma heard_late since s rs s' i j v :
  rest (fun _ => since) s -> Forall2 shows s.(sim_worlds) rs -> (j < i)%nat -> ids !! i = Some v.(sv_id) -> mail j v s ->
  advance silent_handler unused_system unused_tick clk tid 1 s = Ok s' ->
  exists wd, world_at j wd s' /\ knows v.(sv_id) v.(sv_position) wd.
Proof.
  intros Hr Hrs Hij Ei Hv E. pose proof (lookup_lt_Some _ _ _ Ei) as Hi.
  destruct (one_round since s rs Hr Hrs) as (s0 & s2 & s1 & Hl & _ & Hb & E2 & E1 & W1 & _ & _). rewrite E in E1. apply Ok_inj in E1 as <-.
  unfold world_at. rewrite W1. apply (heard_in_turn since 0 j v rs.*2 s0 s2 Hl); [lia| | |by rewrite Nat.sub_0_r].
  - unfold mail. by rewrite Hb.
  - intros k Hk He. pose proof (NoDup_lookup _ _ _ _ distinct Ei He). lia.
Qed.

(** Rounds alternate between silence and beacons. *)
Definition since_at (t : nat) : Z := if Nat.odd t then DT else F32.zero.

Lemma since_next t : next_since (since_at t) = since_at (S t) /\ due (since_at t) = Nat.odd t.
Proof. unfold since_at. rewrite Nat.odd_succ, <- Nat.negb_odd. destruct (Nat.odd t); by vm_compute. Qed.

Lemma rest_from t : forall k s0, rest (fun _ => since_at k) s0 ->
  exists s, advance silent_handler unused_system unused_tick clk tid t s0 = Ok s /\ rest (fun _ => since_at (t + k)) s.
Proof.
  induction t as [|t IH]; intros k s0 Hr; [by exists s0|].
  destruct (rest_shows _ s0 Hr) as (rs & Hrs & _). destruct (one_round _ s0 rs Hr Hrs) as (_ & _ & s1 & _ & _ & _ & _ & E1 & _ & _ & H1).
  rewrite (proj1 (since_next k)) in H1. destruct (IH (S k) s1 H1) as (s & E & H). exists s. rewrite Nat.add_succ_r in H. split; [|exact H].
  rewrite advance_succ, E1. exact E.
Qed.
(** ** No false neighbours *)

(** The beacons under way and the entries of the tables satisfy [P]; no robot is its
    own neighbour. *)
Definition genuine (P : Id.HierarchicalID -> PositionComponent -> Prop) s : Prop :=
  (forall k, Forall (fun v => P v.(sv_id) v.(sv_position)) (box s.(sim_bus) k)) /\
  (forall k wd h e, world_at k wd s -> NT.find wd.(core_).(neighbour_table_) h = Some e -> P h e.(NT.position) /\ ids !! k <> Some h).

Lemma genuine_mono (P Q : Id.HierarchicalID -> PositionComponent -> Prop) s :
  (forall a p, P a p -> Q a p) -> genuine P s -> genuine Q s.
Proof.
  intros HPQ [Hb Ht]. split.
  - intros k. eapply Forall_impl; [apply Hb|]. intros v. apply HPQ.
  - intros k wd h e Hw He. destruct (Ht k wd h e Hw He) as [Hp Hn]. split; [by apply HPQ|exact Hn].
Qed.

Lemma aged_find now wd h e : NT.wf f2i_oob wd.(core_).(neighbour_table_) ->
  NT.find (aged now wd.(core_)) h = Some e -> NT.find wd.(core_).(neighbour_table_) h = Some e.
Proof.
  intros W. unfold aged. destruct (NT.age_out_spec f2i_oob _ now default_config.(WS.neighbour_timeout_s) W) as (W' & A & _).
  unfold NT.find. rewrite !NT.find_abs by (apply W' || apply W). rewrite A. by intros [E _]%map_lookup_filter_Some.
Qed.

Lemma tick_genuine P since i snap pos s s' wd wd' a p sent :
  rest (turn since i) s -> world_at i wd s -> ids !! i = Some a -> effect i since snap pos s s' wd wd' a p sent -> P a p ->
  genuine P s -> genuine P s'.
Proof.
  intros [[ccs Hs] _ _ _ _ _] Hw Ha Ef Hp [Hb Ht]. split.
  - intros k. rewrite (ef_box _ _ _ _ _ _ _ _ _ _ _ Ef). case_decide; [constructor|]. apply Forall_app. split; [apply Hb|].
    destruct (hears _ _ _ _ _); [|constructor]. pose proof (ef_sends _ _ _ _ _ _ _ _ _ _ _ Ef) as Hse. unfold sends in Hse.
    destruct (due since); [|subst; constructor]. destruct Hse as (v & -> & Ev & Ep & _). constructor; [|constructor]. by rewrite Ev, Ep.
  - intros k wk h e Hk He. unfold world_at in Hk. rewrite (ef_worlds _ _ _ _ _ _ _ _ _ _ _ Ef) in Hk.
    apply list_lookup_insert_Some in Hk as [(<- & <- & _)|[_ Hk]]; [|by apply (Ht k wk)].
    destruct (ef_heard _ _ _ _ _ _ _ _ _ _ _ Ef) as (rej & Hrej & Et & _). rewrite Et in He.
    destruct (Forall2_lookup_r _ _ _ _ _ (so_worlds _ _ _ _ _ Hs) Hw) as (cc & _ & n & e0 & [S _]).
    assert (NT.wf f2i_oob wd.(core_).(neighbour_table_)) as W by exact (snd_table _ _ S).
    apply heard_from in He as [He|(b & Hin & <- & Hn & ->)]; [| |apply NT.age_out_spec, W|exact Hrej].
    + apply (Ht i wd); [exact Hw|]. exact (aged_find _ _ _ _ W He).
    + pose proof (Hb i) as Hbi. rewrite Forall_forall in Hbi. split; [by apply Hbi|]. rewrite Ha. congruence.
Qed.

Lemma part_genuine P since snap r : forall m s s', live since m snap s -> (m + r <= length ids)%nat ->
  (forall k wd a p, (m <= k)%nat -> world_at k wd s -> shows wd (a, p) -> P a p) ->
  genuine P s -> tick_many (seq m r) s = Ok s' -> genuine P s'.
Proof.
  induction r as [|r IH]; intros m s s' Hl Hm Hp Hg E; [by apply Ok_inj in E as <-|]. cbn [seq tick_worlds] in E.
  destruct (live_tick since m snap s Hl) as (s1 & rs & a & p & wd & wd' & sent & E1 & H1 & Hrs & Ers & Er & Ew & Ef & _); [lia|].
  rewrite E1 in E. cbn [obind] in E. apply (IH (S m) s1 s' H1); [lia| | |exact E].
  - intros k wk b q Hk Wk. apply (Hp k wk b q); [lia|].
    destruct (lookup_lt_is_Some_2 s.(sim_worlds) k) as [w0 W0].
    { apply lookup_lt_Some in Wk. by rewrite (ef_worlds _ _ _ _ _ _ _ _ _ _ _ Ef), length_insert in Wk. }
    assert (world_at k w0 s1) as W1 by (eapply world_kept; [exact Ef|lia|exact W0]). unfold world_at in *. congruence.
  - apply (tick_genuine P since m snap rs.*2 s s1 wd wd' a p sent (lv_rest _ _ _ _ Hl) Ew); [|exact Ef| |exact Hg].
    + by rewrite <- Ers, list_lookup_fmap, Er.
    + exact (Hp m wd a p (Nat.le_refl _) Ew (Forall2_lookup_lr _ _ _ _ _ _ Hrs Ew Er)).
Qed.

(** A robot that was [a] and at [p] after some of the first [t] ticks. *)
Definition been s0 (t : nat) (a : Id.HierarchicalID) (p : PositionComponent) : Prop := exists u s k wd,
  (u < t)%nat /\ advance silent_handler unused_system unused_tick clk tid u s0 = Ok s /\ world_at k wd s /\ shows wd (a, p).

Lemma genuine_from s0 t : rest (fun _ => since_at 0) s0 -> genuine (fun _ _ => False) s0 ->
  exists s, advance silent_handler unused_system unused_tick clk tid t s0 = Ok s /\ rest (fun _ => since_at t) s /\
    genuine (been s0 t) s.
Proof.
  intros Hr Hg. induction t as [|t (s & E & H & G)].
  { exists s0. split; [reflexivity|]. split; [exact Hr|]. by apply (genuine_mono (fun _ _ => False)). }
  destruct (rest_shows _ s H) as (rs & Hrs & _).
  destruct (one_round _ s rs H Hrs) as (s1 & s2 & s' & Hl & Hw & Hb & E2 & E' & W' & B' & H'). exists s'.
  rewrite (proj1 (since_next t)) in H'. split; [by rewrite <- Nat.add_1_r, advance_add, E|]. split; [exact H'|].
  assert (genuine (been s0 (S t)) s2) as [G1 G2].
  { apply (part_genuine _ (since_at t) rs.*2 (length ids) 0 s1 s2 Hl); [lia| | |exact E2].
    - intros k wd a p _ Wk Hsh. exists t, s, k, wd. unfold world_at in Wk. rewrite Hw in Wk. split_and!; [lia|exact E|exact Wk|exact Hsh].
    - apply (genuine_mono (been s0 t)).
      + intros a p (u & su & k & wd & Hu & Hrest). exists u, su, k, wd. split; [lia|exact Hrest].
      + destruct G as [G1 G2]. split; [intros k; rewrite Hb; apply G1|]. unfold world_at. rewrite Hw. exact G2. }
  split; [intros k; rewrite B'; apply G1|]. unfold world_at. rewrite W'. exact G2.
Qed.
End Rounds.
(** ** Robots just created *)

Section Birth.
Context {PF : Platform} {TC : Reg.Toolchain} {CR : Auth.Crypto}.
#[local] Existing Instance sim_transport.
Variable uniform : Z -> Z -> nat -> Z.
Variable seeds : nat -> nat * nat.
Implicit Types s : @sim unit.
Implicit Types wd : @world nat bus unit.
Implicit Types w : core nat bus unit.

(** Only what the beacons do not depend on differs. *)
Definition same_radio w w' : Prop :=
  w'.(config_) = w.(config_) /\ w'.(message_handlers_) = w.(message_handlers_) /\ Bcn.bcn w' = Bcn.bcn w /\
  w'.(peer_keys_) = w.(peer_keys_) /\ w'.(neighbour_table_) = w.(neighbour_table_).
#[local] Instance same_radio_preorder : PreOrder same_radio.
Proof. split; [intros w; by split_and!|]. intros w1 w2 w3 (A1 & A2 & A3 & A4 & A5) (B1 & B2 & B3 & B4 & B5). split_and!; congruence. Qed.

Lemma builtins_radio w : same_radio w (register_builtins w).
Proof.
  unfold register_builtins. revert w. induction Reg.builtin_types as [|ty l IH]; intros w; [reflexivity|]. cbn [fold_left].
  etransitivity; [|apply IH]. destruct (Reg.register_impl _ _ _) as [[reg st] ev]. by split_and!.
Qed.

Lemma init_radio (wd wd' : @world nat bus unit) :
  init silent_handler unused_system unused_tick wd = Ok wd' ->
  same_radio wd.(core_) wd'.(core_) /\ wd'.(scheduler_).(Sched.systems_) = wd.(scheduler_).(Sched.systems_) /\
  (auth_enabled = true -> exists n, wd'.(core_).(current_keypair_) = Some (Auth.generate_identity_keypair n)).
Proof.
  unfold init, fresh_hid, fresh_keypair. destruct (initialized_ _); [discriminate|]. pose proof (builtins_radio wd.(core_)) as H0.
  cbv beta iota zeta. generalize dependent (register_builtins wd.(core_)). intros w0 H0.
  destruct (emplace_defaults _ _) as [reg| |]; [|discriminate..]. cbn [obind]. intros E. apply Ok_inj in E as <-.
  cbn [core_ scheduler_]. split; [|split].
  - etransitivity; [exact H0|]. destruct auth_enabled; split_and!; reflexivity.
  - apply Sched.build_graph_built.
  - intros ->. eexists. reflexivity.
Qed.

Lemma robot_constructed (config : WorldConfig) (idx : nat) (b : bus) e n p :
  exists w sch, exec_calls silent_handler unused_system unused_tick (robot_calls p)
      (new_world_unified config (Some idx) b tt e n) = Ok (mk_world w sch) /\
    sch.(Sched.systems_) = [SBeacon; SFlocking; SKinematics] /\ w.(config_) = config /\ w.(message_handlers_) = [] /\
    w.(peer_keys_) = ∅ /\ w.(neighbour_table_) = NT.empty_table /\
    Bcn.bcn w = Bcn.bcn (Bcn.new_beacon (new_core (H := nat) (U := unit) config (Some idx) None None b tt e n)).
Proof. eexists _, _. split; [reflexivity|]. by split_and!. Qed.

(** A robot whose radio has not been used. *)
Definition newborn (i : nat) wd : Prop := (exists key, radio i key F32.zero wd) /\
  wd.(core_).(peer_keys_) = ∅ /\ wd.(core_).(neighbour_table_) = NT.empty_table.
Record nursery (config : SimBusConfig) s : Prop := {
  nu_config : s.(sim_bus).(bus_config) = config;
  nu_length : length s.(sim_bus).(participants_) = length s.(sim_worlds);
  nu_worlds : forall k wd, s.(sim_worlds) !! k = Some wd -> newborn k wd;
  nu_boxes : forall k, box s.(sim_bus) k = [];
}.

Lemma put_robot_frame place w w' : put_robot place w = Ok w' -> exists reg, w' = with_registry reg w.
Proof.
  unfold put_robot. destruct (Reg.get PositionComponent _ _); [|discriminate..]. cbn [obind].
  destruct (Reg.get VelocityComponent _ _); [|discriminate..]. cbn [obind]. destruct (place _ _) as [p v].
  destruct (Reg.set _ _ p) as [reg| |]; [|discriminate..]. cbn [obind].
  destruct (Reg.set reg _ v) as [reg'| |]; [|discriminate..]. cbn [obind]. intros E. apply Ok_inj in E as <-. by exists reg'.
Qed.

Lemma robot_born config idx b e n p wd1 wd2 place w :
  make_world_config (mk_bus config [] ∅ 0) 1 = robot_config ->
  exec_calls silent_handler unused_system unused_tick (robot_calls p)
    (new_world_unified (make_world_config (mk_bus config [] ∅ 0) 1) (Some idx) b tt e n) = Ok wd1 ->
  init silent_handler unused_system unused_tick wd1 = Ok wd2 -> put_robot place wd2.(core_) = Ok w ->
  newborn idx (mk_world w wd2.(scheduler_)).
Proof.
  intros Ec E1 E2 E3. rewrite Ec in E1. destruct (robot_constructed robot_config idx b e n p) as (w1 & sch & E & Hy & Hc & Hh & Hk & Hn & Hb).
  rewrite E in E1. apply Ok_inj in E1 as <-. apply init_radio in E2 as ((R1 & R2 & R3 & R4 & R5) & Ry & Rk).
  apply put_robot_frame in E3 as [reg ->]. cbn [core_ scheduler_] in *. split; [|exact (conj (eq_trans R4 Hk) (eq_trans R5 Hn))].
  assert (tuned idx F32.zero (with_registry reg wd2.(core_))) as Ht.
  { exists 0. split; [unfold MI.is_u64; lia|]. change (Bcn.bcn wd2.(core_) = mk_beacon (Some idx) (Some idx) PERIOD default_config.(WS.neighbour_timeout_s) F32.zero 0).
    rewrite R3, Hb. reflexivity. }
  destruct auth_enabled eqn:Ea.
  - destruct (Rk eq_refl) as [x Ex]. exists (Auth.generate_identity_keypair x).(Auth.pair_public). constructor;
      [exact (eq_trans Ry Hy)|exact (eq_trans R1 Hc)|exact (eq_trans R2 Hh)|exact Ht|]. intros _. by exists x.
  - exists zero_key. constructor; [exact (eq_trans Ry Hy)|exact (eq_trans R1 Hc)|exact (eq_trans R2 Hh)|exact Ht|].
    intros Ha. congruence.
Qed.
Lemma alter_box f k i ps b : (forall p, (f p).(inbound_beacons) = p.(inbound_beacons)) ->
  box (with_participants (alter f i ps) b) k = box (with_participants ps b) k.
Proof.
  intros Hf. unfold box. cbn [with_participants participants_]. destruct (decide (i = k)) as [<-|Hn].
  - rewrite list_lookup_alter_eq. destruct (ps !! i); [apply Hf|reflexivity].
  - by rewrite list_lookup_alter_ne.
Qed.

Lemma add_robot_nursery config p place i s s' :
  make_world_config (mk_bus config [] ∅ 0) 1 = robot_config -> nursery config s ->
  add_robot seeds p (fun i => put_robot (place i)) i s = Ok s' -> nursery config s'.
Proof.
  intros Hc [Nc Nl Nw Nb] E. unfold add_robot, add_member, create_world in E. cbn [robot mb_swarm mb_user mb_entropy mb_draws mb_calls] in E.
  set (b := with_participants (_ ++ _) _) in E. cbn [sim_worlds sim_bus sim_clock] in E. rewrite last_snoc in E.
  change (make_world_config b 1) with (make_world_config (mk_bus (s.(sim_bus).(bus_config)) [] ∅ 0) 1) in E. rewrite Nc, Nl in E.
  set (idx := length s.(sim_worlds)) in *. set (wd0 := new_world_unified _ _ _ _ _ _) in E.
  destruct (exec_calls _ _ _ _ wd0) as [wd1| |] eqn:E1; [|discriminate E..]. cbn [obind] in E.
  destruct (init _ _ _ wd1) as [wd2| |] eqn:E2; [|discriminate E..]. cbn [obind sim_worlds] in E.
  rewrite length_app, Nat.add_sub, insert_app_r_alt, Nat.sub_diag in E by reflexivity.
  change (<[0%nat := wd2]> [wd0]) with [wd2] in E. rewrite last_snoc in E. cbn [sim_worlds sim_bus sim_clock] in E.
  destruct (put_robot (place i) (core_ wd2)) as [w| |] eqn:E3; [|discriminate E..]. cbn [obind] in E. apply Ok_inj in E as <-.
  rewrite length_app, Nat.add_sub. pose proof (insert_app_r_alt s.(sim_worlds) [wd2] idx (mk_world w wd2.(scheduler_)) (Nat.le_refl _)) as Ei.
  fold idx. rewrite Ei. replace (idx - length s.(sim_worlds))%nat with 0%nat by (unfold idx; lia).
  change (<[0%nat := mk_world w wd2.(scheduler_)]> [wd2]) with [mk_world w wd2.(scheduler_)].
  constructor; cbn [sim_bus sim_worlds with_participants participants_ bus_config].
  - exact Nc.
  - rewrite length_alter. cbn [b with_participants participants_ view]. by rewrite !length_app, length_imap, Nl.
  - intros k wk [Hk|[Hk Ek]]%lookup_app_Some; [by apply Nw|]. apply list_lookup_singleton_Some in Ek as [Hk0 <-].
    assert (k = idx) as -> by (unfold idx; lia). exact (robot_born config idx b _ _ p wd1 wd2 (place i) w Hc E1 E2 E3).
  - intros k. rewrite alter_box by reflexivity. unfold box. cbn [b with_participants participants_].
    destruct (decide (k < length (participants_ (view s)))%nat) as [Hk|Hk].
    + rewrite lookup_app_l by exact Hk. pose proof (view_box s k) as V. unfold box in V. rewrite V. apply Nb.
    + rewrite lookup_app_r by lia. destruct (k - length (participants_ (view s)))%nat as [|[|?]]; reflexivity.
Qed.

Lemma add_robots_nursery config p place todo : make_world_config (mk_bus config [] ∅ 0) 1 = robot_config ->
  forall s s', nursery config s -> add_robots seeds p (fun i => put_robot (place i)) todo s = Ok s' -> nursery config s'.
Proof.
  intros Hc. induction todo as [|i todo IH]; intros s s' Hn E; [by apply Ok_inj in E as <-|]. cbn [add_robots] in E.
  destruct (add_robot _ _ _ _ _) as [s1| |] eqn:E1; [|discriminate E..]. cbn [obind] in E.
  apply (IH s1 s'); [|exact E]. by apply (add_robot_nursery config p place i s).
Qed.

(** The keys of the robots of a simulation. *)
Definition key_of s (k : nat) : IdentityKey :=
  match s.(sim_worlds) !! k with
  | Some wd => match wd.(core_).(current_keypair_) with Some kp => kp.(Auth.pair_public) | None => zero_key end
  | None => zero_key
  end.

Lemma set_up_rest d : distinct_ids -> exists s ids, set_up uniform seeds d = Ok s /\ length ids = d.(N_ROBOTS) /\
  rest d.(comm_range) ids (key_of s) (fun _ => F32.zero) s /\ genuine ids (fun _ _ => False) s.
Proof.
  intros Ht. destruct (set_up_ok uniform seeds d Ht) as (s & ccs & ids & E & Hs & _ & Hi & _ & L). exists s, ids.
  split; [exact E|]. split; [exact L|].
  assert (nursery (mk_bus_config (F32.of_Z 20) d.(comm_range) F32.zero F32.zero) s) as [Nc Nl Nw Nb].
  { refine (add_robots_nursery (mk_bus_config (F32.of_Z 20) d.(comm_range) F32.zero F32.zero) _ _ _ eq_refl _ _ _ E). constructor; [reflexivity|reflexivity|intros k wd Hk; discriminate Hk|].
    intros k. by destruct k. }
  split; [constructor; [by exists ccs|exact Hi| | | |by rewrite Nc]|split].
  - intros k wd Hw. destruct (Nw k wd Hw) as [[key [R1 R2 R3 R4 R5]] _]. constructor; try done. intros Ha.
    destruct (R5 Ha) as (n & En & _). exists n. split; [exact En|]. unfold key_of. by rewrite Hw, En.
  - intros k. rewrite Nb. constructor.
  - intros k wd Hw Ha h pk l. destruct (Nw k wd Hw) as (_ & -> & _). intros Hf. discriminate Hf.
  - intros k. rewrite Nb. constructor.
  - intros k wd h e Hw. destruct (Nw k wd Hw) as (_ & _ & ->). intros He. discriminate He.
Qed.
End Birth.
(** C4: robots learn of each other over the bus.  In a demonstration of any size and
    range, in unsigned mode or with signatures whose scheme satisfies its laws, every
    other tick of the bus, from the second on, each robot sends a beacon from where it
    is.  A robot [j] is within earshot of robot [i] when the cell of the grid it had at
    the start of the round is next to that of the sender and the distance computed in
    floats is within the range, where [j] counts with its old position if its turn is
    after that of [i] and with its new one if it has moved already.  Such a robot has
    [i] in its neighbour table, with the position that [i] sent, seen at this
    very moment of its clock: at the end of the same round if its turn is after that of
    [i], at the end of the next round otherwise.  The identifiers are assumed distinct,
    since they are random. *)
Theorem robots_learn_of_neighbours {PF : Platform} {TC : Reg.Toolchain} {CR : Auth.Crypto} (uniform : Z -> Z -> nat -> Z)
    (seeds : nat -> nat * nat) (clk : nat -> Z * Z) (tid : Z) (d : demo) :
  distinct_ids -> (auth_enabled = true -> Auth.CryptoLaws CR) ->
  exists s0 ids, set_up uniform seeds d = Ok s0 /\ length ids = d.(N_ROBOTS) /\
    ids_of s0 = Ok <$> ids /\
    (NoDup ids -> forall t, Nat.odd t = true -> exists s s' rs rs',
      @advance _ _ _ _ silent_handler unused_system unused_tick clk tid t s0 = Ok s /\
      @advance _ _ _ _ silent_handler unused_system unused_tick clk tid (S t) s0 = Ok s' /\
      Forall2 shows s.(sim_worlds) rs /\ Forall2 shows s'.(sim_worlds) rs' /\ rs.*1 = ids /\
      forall i j a p q0 q, i <> j -> rs !! i = Some (a, p) -> rs.*2 !! j = Some q0 -> rs'.*2 !! j = Some q ->
        audible d.(comm_range) p q0 (if (i <? j)%nat then q0 else q) = true ->
        exists s'' wd, @advance _ _ _ _ silent_handler unused_system unused_tick clk tid (if (i <? j)%nat then S t else S (S t)) s0 = Ok s'' /\
          s''.(sim_worlds) !! j = Some wd /\ knows a p wd).
Proof.
  intros Ht Hl. destruct (set_up_rest uniform seeds d Ht) as (s0 & ids & E0 & L0 & R0 & G0). exists s0, ids.
  split; [exact E0|]. split; [exact L0|]. split; [exact (identities_at_rest _ _ _ _ s0 R0)|].
  intros Hn t Hodd. destruct (rest_from clk tid _ ids _ Ht Hn Hl t 0 s0 R0) as (s & E & H). rewrite Nat.add_0_r in H.
  destruct (since_next t) as [Ns Ds]. rewrite Hodd in Ds.
  destruct (rest_shows _ _ _ _ s H) as (rs & Hrs & Ers).
  destruct (one_round clk tid _ ids _ Ht Hn Hl _ s rs H Hrs) as (_ & _ & s' & _ & _ & _ & _ & E' & _ & _ & H').
  destruct (rest_shows _ _ _ _ s' H') as (rs' & Hrs' & Ers').
  exists s, s', rs, rs'. split; [exact E|]. split.
  { rewrite <- Nat.add_1_r, advance_add, E. exact E'. }
  split; [exact Hrs|]. split; [exact Hrs'|]. split; [exact Ers|]. intros i j a p q0 q Hij Ei Ej Ej' Ha.
  destruct (Nat.ltb_spec i j) as [Hlt|Hge].
  - destruct (heard_early clk tid _ ids _ Ht Hn Hl _ s rs s' i j a p q0 H Ds Hrs Hlt Ei Ej Ha E') as (wd & Hw & Hk).
    exists s', wd. split; [|by split]. rewrite <- Nat.add_1_r, advance_add, E. exact E'.
  - destruct (sent_late clk tid _ ids _ Ht Hn Hl _ s rs s' rs' i j a p q0 q H Ds Hrs Hrs') as (v & Ev & Ep & Iv & Hv);
      [lia|exact Ei|exact Ej|exact Ej'|exact Ha|exact E'|].
    destruct (one_round clk tid _ ids _ Ht Hn Hl _ s' rs' H' Hrs') as (_ & _ & s'' & _ & _ & _ & _ & E'' & _).
    destruct (heard_late clk tid _ ids _ Ht Hn Hl _ s' rs' s'' i j v H' Hrs') as (wd & Hw & Hk); [lia|by rewrite Ev|exact Hv|exact E''|].
    exists s'', wd. rewrite <- Ev, <- Ep. split; [|by split].
    replace (S (S t)) with (t + 2)%nat by lia. rewrite advance_add, E. cbn [obind]. rewrite advance_succ, E'. exact E''.
Qed.
(** C5: there are no false neighbours.  In a demonstration, after any number of ticks,
    whatever entry the neighbour table of a robot holds is of another robot: one that,
    after some earlier tick, had that identifier and was at the position in the entry.
    No beacon is altered, misattributed or returned to its sender, with or without
    signatures.  The identifiers are assumed distinct. *)
Theorem neighbours_are_real {PF : Platform} {TC : Reg.Toolchain} {CR : Auth.Crypto} (uniform : Z -> Z -> nat -> Z)
    (seeds : nat -> nat * nat) (clk : nat -> Z * Z) (tid : Z) (d : demo) :
  distinct_ids -> (auth_enabled = true -> Auth.CryptoLaws CR) ->
  exists s0 ids, set_up uniform seeds d = Ok s0 /\ length ids = d.(N_ROBOTS) /\
    ids_of s0 = Ok <$> ids /\
    (NoDup ids -> forall t, exists s,
      @advance _ _ _ _ silent_handler unused_system unused_tick clk tid t s0 = Ok s /\
      forall k wd h e, s.(sim_worlds) !! k = Some wd -> NT.find wd.(core_).(neighbour_table_) h = Some e ->
        ids !! k <> Some h /\
        exists u s' i wd', (u < t)%nat /\ @advance _ _ _ _ silent_handler unused_system unused_tick clk tid u s0 = Ok s' /\
          s'.(sim_worlds) !! i = Some wd' /\ shows wd' (h, e.(NT.position))).
Proof.
  intros Ht Hl. destruct (set_up_rest uniform seeds d Ht) as (s0 & ids & E0 & L0 & R0 & G0). exists s0, ids.
  split; [exact E0|]. split; [exact L0|]. split; [exact (identities_at_rest _ _ _ _ s0 R0)|].
  intros Hn t. destruct (genuine_from clk tid _ ids _ Ht Hn Hl s0 t R0 G0) as (s & E & _ & _ & G).
  exists s. split; [exact E|]. intros k wd h e Hw He. destruct (G k wd h e Hw He) as [Hp Hk]. exact (conj Hk Hp).
Qed.

(** ** Example: two robots five metres apart, with signatures *)

Definition couple : demo :=
  mk_demo (F32.of_Z 30) 2 10 flocking_demo.(flock_p) place_grid flocking_demo.(coordinates).
Definition still_clk (_ : nat) : Z * Z := (0, 0).
Definition couple_at (t : nat) : outcome (@sim unit) :=
  let! s := @set_up (sample_platform true) Reg.gcc Auth.toy_crypto (fun _ _ _ => 0) (fun i => ((4 * i)%nat, i)) couple in
  @advance unit (sample_platform true) Reg.gcc Auth.toy_crypto silent_handler unused_system unused_tick still_clk 7 t s.
Definition couple_ids : list Id.HierarchicalID :=
  [Id.mk_hid 1 (Id.mk_uuid [0; 0; 0; 0; 1; 0; 64; 0; 130; 0; 0; 0; 3; 0; 0; 0]);
   Id.mk_hid 1 (Id.mk_uuid [4; 0; 0; 0; 5; 0; 64; 0; 134; 0; 0; 0; 7; 0; 0; 0])].
Definition couple_positions : list PositionComponent := [default_pos; mk_pos (F32.of_Z 5) 0 0].

Lemma oks_inj {A : Type} (l l' : list A) : Ok <$> l = Ok <$> l' -> l = l'.
Proof. apply list_fmap_eq_inj. intros a b. apply Ok_inj. Qed.

(** The right one has moved towards the left one at the second tick. *)
Definition couple_moved : list PositionComponent := [default_pos; mk_pos 1084211855 0 0].

Lemma couple_computed :
  (let! s := couple_at 0 in Ok (@ids_of Reg.gcc s)) = Ok (Ok <$> couple_ids) /\
  (let! s := couple_at 1 in Ok (@positions_of Reg.gcc s)) = Ok (Ok <$> couple_positions) /\
  (let! s := couple_at 2 in Ok (@positions_of Reg.gcc s)) = Ok (Ok <$> couple_moved).
Proof. split_and!; vm_compute; reflexivity. Qed.

Lemma robots_learn_of_neighbours_witness :
  exists s2 s3 wd1 wd0, couple_at 2 = Ok s2 /\ couple_at 3 = Ok s3 /\
    s2.(sim_worlds) !! 1%nat = Some wd1 /\ s3.(sim_worlds) !! 0%nat = Some wd0 /\
    (exists a, couple_ids !! 0%nat = Some a /\ knows a default_pos wd1) /\
    (exists a, couple_ids !! 1%nat = Some a /\ knows a (mk_pos (F32.of_Z 5) 0 0) wd0).
Proof.
  destruct (@robots_learn_of_neighbours (sample_platform true) Reg.gcc Auth.toy_crypto (fun _ _ _ => 0) (fun i => ((4 * i)%nat, i))
    still_clk 7 couple Reg.gcc_builtin_ids (fun _ => Auth.toy_laws)) as (s0 & ids & E0 & _ & I & G).
  assert (forall t s, @advance unit (sample_platform true) Reg.gcc Auth.toy_crypto silent_handler unused_system unused_tick still_clk 7 t s0 = Ok s ->
    couple_at t = Ok s) as At by (intros t s E; unfold couple_at; rewrite E0; exact E).
  destruct couple_computed as (C0 & C1 & C2). rewrite (At 0%nat s0 eq_refl) in C0. apply Ok_inj in C0.
  rewrite C0 in I. apply oks_inj in I as <-.
  destruct (G ltac:(apply (bool_decide_unpack _); vm_compute; exact Logic.I) 1%nat eq_refl) as (s & s' & rs & rs' & E1 & E2 & R1 & R2 & I1 & K).
  rewrite (At 1%nat s E1) in C1. rewrite (At 2%nat s' E2) in C2. apply Ok_inj in C1, C2.
  rewrite (proj1 (shown _ _ R1)) in C1. rewrite (proj1 (shown _ _ R2)) in C2.
  apply oks_inj in C1, C2.
  assert (rs = zip couple_ids couple_positions) as -> by (rewrite <- I1, <- C1; symmetry; apply zip_fst_snd).
  destruct (K 0%nat 1%nat _ default_pos (mk_pos (F32.of_Z 5) 0 0) (mk_pos 1084211855 0 0) ltac:(discriminate) eq_refl eq_refl)
    as (s2 & wd1 & Ea & Ew & Ek); [by rewrite C2|vm_compute; reflexivity|].
  destruct (K 1%nat 0%nat _ (mk_pos (F32.of_Z 5) 0 0) default_pos default_pos ltac:(discriminate) eq_refl eq_refl)
    as (s3 & wd0 & Eb & Ev & El); [by rewrite C2|vm_compute; reflexivity|].
  exists s2, s3, wd1, wd0. split; [exact (At _ _ Ea)|]. split; [exact (At _ _ Eb)|]. split; [exact Ew|]. split; [exact Ev|].
  split; eexists; (split; [reflexivity|]); [exact Ek|exact El].
Defined.
Lemma couple_found :
  (let! s := couple_at 2 in
   Ok (wd ← s.(sim_worlds) !! 1%nat; a ← couple_ids !! 0%nat; NT.position <$> NT.find wd.(core_).(neighbour_table_) a)) =
  Ok (Some default_pos).
Proof. vm_compute. reflexivity. Qed.

(** The entry that the right one has of the left one. *)
Lemma neighbours_are_real_witness :
  exists s wd h e, couple_at 2 = Ok s /\ s.(sim_worlds) !! 1%nat = Some wd /\
    NT.find wd.(core_).(neighbour_table_) h = Some e /\ e.(NT.position) = default_pos /\
    exists u s' i wd', (u < 2)%nat /\ couple_at u = Ok s' /\ s'.(sim_worlds) !! i = Some wd' /\
      @shows Reg.gcc wd' (h, default_pos).
Proof.
  destruct (@neighbours_are_real (sample_platform true) Reg.gcc Auth.toy_crypto (fun _ _ _ => 0) (fun i => ((4 * i)%nat, i))
    still_clk 7 couple Reg.gcc_builtin_ids (fun _ => Auth.toy_laws)) as (s0 & ids & E0 & _ & I & G).
  assert (forall t s, @advance unit (sample_platform true) Reg.gcc Auth.toy_crypto silent_handler unused_system unused_tick still_clk 7 t s0 = Ok s ->
    couple_at t = Ok s) as At by (intros t s E; unfold couple_at; rewrite E0; exact E).
  destruct couple_computed as (C0 & _). rewrite (At 0%nat s0 eq_refl) in C0. apply Ok_inj in C0. rewrite C0 in I. apply oks_inj in I as <-.
  destruct (G ltac:(apply (bool_decide_unpack _); vm_compute; exact Logic.I) 2%nat) as (s & E & K). pose proof couple_found as F.
  rewrite (At 2%nat s E) in F. apply Ok_inj in F. apply bind_Some in F as (wd & Ew & F). cbn [couple_ids lookup list_lookup mbind option_bind] in F.
  apply fmap_Some in F as (e & Ee & Ep). destruct (K _ _ _ _ Ew Ee) as (_ & u & s' & i & wd' & Hu & Eu & Ei & Hs).
  eexists s, wd, _, e. split; [exact (At _ _ E)|]. split; [exact Ew|]. split; [exact Ee|]. split; [by rewrite Ep|].
  exists u, s', i, wd'. split; [exact Hu|]. split; [exact (At _ _ Eu)|]. split; [exact Ei|]. rewrite Ep. exact Hs.
Defined.
End Hear.
