(* ===== verification/Benchmarks.v ===== *)
(** The benchmarks: [examples/swarm_benchmark] as a program over the simulation, and
    [examples/spatial_index_benchmark] over the neighbour table.

    The numbers the programs print are modelled, not the text [printf] makes of them;
    wall times and the memory in use are what the system reports, so the times are a
    parameter ([elapsed t] for tick [t]) and the memory is left out.  The texts of the
    command line are read by functions of the C library, which are parameters too. *)

From Stdlib Require Import Floats.SpecFloat Sorting.Sorted.
From stdpp Require Import sorting.
From S2P Require Import Prelude MachineInt Float32 Identity BoundedQueue Components Trace JsonWriter.
From S2P Require Import Scheduler NeighbourTable Registry PeerKeys Transport FaultMonitor TaskAlloc.
From S2P Require Import ClockSync PartitionMerge Flocking Actions WorldState Discovery Beacon World WorldSafety.
From S2P Require Import WorldFootprint WorldDump Sim SimSafety Demos.
Local Open Scope Z_scope.

Module Bench.
Import Comp WS World Safe Sim SimSafe Demo.

(** ** Doubles *)

(** Values of binary64, in the Standard Library's specification of floats. *)
Abbreviation double := spec_float.
Definition dadd : double -> double -> double := SFadd 53 1024.
Definition ddiv : double -> double -> double := SFdiv 53 1024.
Definition dmul : double -> double -> double := SFmul 53 1024.
Definition of_nat (n : nat) : double := binary_normalize 53 1024 (Z.of_nat n) 0 false.
(** The value of a 64-bit pattern. *)
Definition dec64 (b : Z) : double :=
  let s := Z.testbit b 63 in
  let ex := Z.land (Z.shiftr b 52) 2047 in
  let m := Z.land b (2 ^ 52 - 1) in
  if ex =? 2047 then (if m =? 0 then S754_infinity s else S754_nan)
  else if ex =? 0 then match m with Zpos p => S754_finite s p (-1074) | _ => S754_zero s end
  else match m + 2 ^ 52 with Zpos p => S754_finite s p (ex - 1075) | _ => S754_nan end.

(** [static_cast<std::size_t>]: the integral part; [oob] is what the compiled code
    produces for a value that is none or out of range. *)
Definition to_size_t (oob : double -> Z) (d : double) : Z :=
  let z := match d with
           | S754_zero _ => Some 0
           | S754_finite s m e => let i := Z.shiftl (Zpos m) e in Some (if s then - i else i)
           | _ => None
           end in
  match z with Some z => if (0 <=? z) && (z <? 2 ^ 64) then z else oob d | None => oob d end.

(** [a <= b] as the sort sees it: not [b < a]. *)
Definition dle (a b : double) : Prop := SFltb b a = false.
#[global] Instance dle_dec a b : Decision (dle a b) := bool_eq_dec (SFltb b a) false.
Definition number (a : double) : Prop := a <> S754_nan.

Lemma dltb_rank a b : SFltb a b =
  match F32.rank a, F32.rank b with Some x, Some y => match F32.lex x y with Lt => true | _ => false end | _, _ => false end.
Proof. unfold SFltb. rewrite F32.compare_rank. by destruct (F32.rank a), (F32.rank b). Qed.

Lemma number_rank a : number a -> exists x, F32.rank a = Some x.
Proof. intros N. destruct a; [by eexists|by eexists|by destruct N|by eexists]. Qed.

Lemma dle_lex a b x y : F32.rank a = Some x -> F32.rank b = Some y -> dle a b <-> F32.lex y x <> Lt.
Proof. intros Ha Hb. unfold dle. rewrite dltb_rank, Ha, Hb. by destruct (F32.lex y x). Qed.

Lemma dle_refl a : dle a a.
Proof.
  unfold dle. rewrite dltb_rank. destruct (F32.rank a) as [x|]; [|done]. destruct (F32.lex x x) eqn:E; try done.
  apply F32.lex_lt in E. lia.
Qed.

#[global] Instance dle_total : Total dle.
Proof.
  intros a b. unfold dle. rewrite !dltb_rank. destruct (F32.rank a) as [x|], (F32.rank b) as [y|]; try by left.
  destruct (F32.lex y x) eqn:E1, (F32.lex x y) eqn:E2; auto. apply F32.lex_lt in E1, E2. lia.
Qed.

Lemma dle_trans a b c : number a -> number b -> number c -> dle a b -> dle b c -> dle a c.
Proof.
  intros [x Ex]%number_rank [y Ey]%number_rank [z Ez]%number_rank.
  rewrite (dle_lex a b x y), (dle_lex b c y z), (dle_lex a c x z), !F32.lex_lt by done. lia.
Qed.

Lemma sorted_strongly l : Forall number l -> Sorted dle l -> StronglySorted dle l.
Proof.
  induction l as [|a l IH]; intros N S; [constructor|]. apply Forall_cons in N as [Na Nl].
  apply Sorted_inv in S as [S Hd]. specialize (IH Nl S). constructor; [done|]. destruct Hd as [|b l Hab]; [constructor|].
  apply Forall_cons in Nl as [Nb Nl]. apply StronglySorted_inv in IH as [_ F]. constructor; [done|].
  rewrite Forall_forall in F, Nl |- *. intros c Hc. by apply (dle_trans a b c); auto.
Qed.

Lemma strongly_sorted_le l i j a b :
  StronglySorted dle l -> (i <= j)%nat -> l !! i = Some a -> l !! j = Some b -> dle a b.
Proof.
  intros S. revert i j. induction S as [|c l S IH F]; intros i j Hij Hi Hj; [done|].
  destruct i as [|i], j as [|j]; [..|lia|by apply (IH i j); [lia| |]].
  - cbn in Hi, Hj. simplify_eq. apply dle_refl.
  - apply (inj Some) in Hi as <-. rewrite Forall_forall in F. by apply F, (list_elem_of_lookup_2 _ j).
Qed.

(** ** The swarm benchmark *)

Section Swarm.
Context {PF : Platform} {TC : Reg.Toolchain} {CR : Auth.Crypto}.
#[local] Existing Instance sim_transport.
Implicit Types s : @sim unit.

(** The numbers of the command line. *)
Record settings := mk_settings { N : Z; T : Z; BOX_M : Z; COMM_R : Z; VISION_R : Z }.

(** [atoi] and [stof] of the C++ library, on the text of an argument; the second
    throws ([None]) for a text that is no number of its type. *)
(* @src examples/swarm_benchmark/main.cpp:61-65 main *)
Definition settings_of (atoi : list Z -> Z) (stof : list Z -> option Z) (args : list (list Z)) : outcome settings :=
  let int_arg k v := match args !! k with Some a => atoi a | None => v end in
  let float_arg k v :=
    match args !! k with
    | Some a => match stof a with Some x => Ok x | None => Aborted "std::stof" end
    | None => Ok (F32.of_Z v)
    end in
  let! box := float_arg 2%nat 100 in
  let! comm := float_arg 3%nat 15 in
  let! vision := float_arg 4%nat 15 in
  Ok (mk_settings (int_arg 0%nat 1000) (int_arg 1%nat 200) box comm vision).

Variable uniform : Z -> Z -> nat -> Z.
Variable seeds : nat -> nat * nat.
Variable clk : nat -> Z * Z.
Variable tid : Z.
(** The wall time of tick [t], in milliseconds: the difference of two readings of the
    steady clock. *)
Variable elapsed : nat -> double.
Variable size_oob : double -> Z.
Variable c : settings.

(** [1.5f] is 1069547520. *)
(* @src examples/swarm_benchmark/main.cpp:80-86 main *)
Definition swarm_flocking : Flock.Params :=
  Flock.mk_params (F32.of_Z 2) 1069547520 F32.one F32.one (F32.of_Z 5) c.(VISION_R).

(* @src examples/swarm_benchmark/main.cpp:103-110 main *)
Definition place_box (i : nat) (pos : PositionComponent) (vel : VelocityComponent) : PositionComponent * VelocityComponent :=
  let two := F32.of_Z 2 in
  let pos_d := uniform (F32.div (F32.neg c.(BOX_M)) two) (F32.div c.(BOX_M) two) in
  let vel_d := uniform (F32.neg F32.one) F32.one in
  (mk_pos (pos_d (6 * i)%nat) (pos_d (6 * i + 1)%nat) (pos_d (6 * i + 2)%nat),
   mk_vel (vel_d (6 * i + 3)%nat) (vel_d (6 * i + 4)%nat) (vel_d (6 * i + 5)%nat)).

(* @src examples/swarm_benchmark/main.cpp:99-110 main *)
Definition tune (i : nat) (w : core nat bus unit) : outcome (core nat bus unit) :=
  put_robot (place_box i) (with_neighbour_table (NT.set_cell_size_m f2i_oob w.(neighbour_table_) c.(COMM_R)) w).

(** A distribution on [lo, hi] must have [lo <= hi] and [hi - lo] no greater than the
    largest float, which is 2139095039. *)
Definition proper (lo hi : Z) : bool := F32.leb lo hi && F32.leb (F32.sub hi lo) 2139095039.
Definition uniform_real_distribution (lo hi : Z) : outcome unit :=
  if proper lo hi then Ok tt else Undefined "uniform_real_distribution".
Definition proper_box : bool :=
  proper (F32.div (F32.neg c.(BOX_M)) (F32.of_Z 2)) (F32.div c.(BOX_M) (F32.of_Z 2)).

(** A negative number becomes a huge [std::size_t], for which [reserve] throws. *)
(* @src examples/swarm_benchmark/main.cpp:88-89 main *)
Definition reserve (n : Z) : outcome unit := if n <? 0 then Aborted "std::length_error" else Ok tt.

(* @src examples/swarm_benchmark/main.cpp:71-113 main *)
Definition set_up_swarm : outcome (@sim unit) :=
  let s := empty_sim (mk_bus_config (F32.of_Z 20) c.(COMM_R) F32.zero F32.zero) in
  let! _ := uniform_real_distribution (F32.div (F32.neg c.(BOX_M)) (F32.of_Z 2)) (F32.div c.(BOX_M) (F32.of_Z 2)) in
  let! _ := uniform_real_distribution (F32.neg F32.one) F32.one in
  let! _ := reserve c.(N) in
  add_robots seeds swarm_flocking tune (seq 0 (Z.to_nat c.(N))) s.

(* @src examples/swarm_benchmark/main.cpp:130-135 main *)
Definition mean_neighbours s : double :=
  let total_n := sum_list ((fun wd => NT.count wd.(core_).(neighbour_table_)) <$> s.(sim_worlds)) in
  ddiv (of_nat total_n) (of_nat (Z.to_nat c.(N))).

(** A row of the table on [stdout], with the element of [mean_n_x100] of its tick. *)
Record row := mk_row { r_tick : nat; wall_ms : double; r_mean : double; r_x100 : Z }.
(* @src examples/swarm_benchmark/main.cpp:130-138 main *)
Definition row_of (t : nat) s : row :=
  let mean_n := mean_neighbours s in
  mk_row t (elapsed t) mean_n (to_size_t size_oob (dmul mean_n (of_nat 100))).

(** [rest] ticks from [t]. *)
(* @src examples/swarm_benchmark/main.cpp:124-140 main *)
Fixpoint tick_loop (rest t : nat) s : outcome (@sim unit * list row) :=
  match rest with
  | O => Ok (s, [])
  | S rest =>
      let! s := advance silent_handler unused_system unused_tick clk tid 1 s in
      let r := row_of t s in
      let! (s, rows) := tick_loop rest (S t) s in
      Ok (s, r :: rows)
  end.

Record statistics := mk_stats { total_ms : double; min_ms : double; median : double; p95 : double; max_ms : double }.

(** The order of equal times does not matter, so the algorithm of the sort does not. *)
(* @src examples/swarm_benchmark/main.cpp:143-148 main *)
Definition statistics_of (tick_ms : list double) : outcome statistics :=
  let total := fold_left dadd tick_ms (S754_zero false) in
  let sorted := merge_sort dle tick_ms in
  let n := length sorted in
  match sorted !! 0%nat, sorted !! (n / 2)%nat, sorted !! (n * 95 / 100)%nat, last sorted with
  | Some lo, Some med, Some p, Some hi => Ok (mk_stats total lo med p hi)
  | _, _, _, _ => Undefined "tick_ms is empty"
  end.

Record report := mk_report { rows : list row; aggregate : statistics; per_system : list (list Z * double) }.

(** The times of the systems of world 0 in the last tick, in milliseconds. *)
(* @src examples/swarm_benchmark/main.cpp:163-168 main *)
Definition system_times s : outcome (list (list Z * double)) :=
  match s.(sim_worlds) with
  | [] => Undefined "worlds.front()"
  | wd :: _ =>
      Ok ((fun st => (st.(Sched.tm_name), ddiv (dec64 st.(Sched.duration_us)) (of_nat 1000)))
            <$> wd.(scheduler_).(Sched.last_timings_))
  end.

(** The program once its arguments are read. *)
(* @src examples/swarm_benchmark/main.cpp:71-171 main *)
Definition swarm_run : outcome report :=
  let! s := set_up_swarm in
  let! _ := reserve c.(T) in
  let! (s, rows) := tick_loop (Z.to_nat c.(T)) 0 s in
  let! aggregate := statistics_of (wall_ms <$> rows) in
  let! per_system := system_times s in
  Ok (mk_report rows aggregate per_system).

(** *** Order statistics *)

Lemma statistics_ok l : l <> [] -> Forall number l ->
  exists st, statistics_of l = Ok st /\
    dle st.(min_ms) st.(median) /\ dle st.(median) st.(p95) /\ dle st.(p95) st.(max_ms) /\
    forall x, x ∈ l -> dle st.(min_ms) x /\ dle x st.(max_ms).
Proof.
  intros Hl Nl. unfold statistics_of. pose proof (merge_sort_Permutation dle l) as P.
  assert (StronglySorted dle (merge_sort dle l)) as S
    by (apply sorted_strongly; [by rewrite P|apply Sorted_merge_sort; apply _]).
  revert P S. generalize (merge_sort dle l). intros k P S. pose proof (fun i j a b => strongly_sorted_le k i j a b S) as O.
  pose proof (Permutation_length P) as L.
  assert (0 < length k)%nat as Lk by (rewrite L; destruct l; [done|cbn; lia]).
  assert (length k / 2 <= length k * 95 / 100)%nat as D1.
  { apply Nat.div_le_lower_bound; [lia|]. pose proof (Nat.Div0.mul_div_le (length k) 2). lia. }
  assert (length k * 95 / 100 < length k)%nat as D2 by (apply Nat.Div0.div_lt_upper_bound; lia).
  destruct (lookup_lt_is_Some_2 k 0) as [lo El]; [lia|]. destruct (lookup_lt_is_Some_2 k (length k / 2)) as [m Em]; [lia|].
  destruct (lookup_lt_is_Some_2 k (length k * 95 / 100)) as [p Ep]; [lia|].
  destruct (last k) as [hi|] eqn:Eh; [|apply last_None in Eh; subst; cbn in Lk; lia].
  rewrite El, Em, Ep. eexists. split; [done|]. cbn [min_ms median p95 max_ms].
  rewrite last_lookup in Eh. split_and!.
  - apply (O 0%nat (length k / 2)%nat); [lia|done..].
  - by apply (O (length k / 2)%nat (length k * 95 / 100)%nat).
  - apply (O (length k * 95 / 100)%nat (pred (length k))); [lia|done..].
  - intros x Hx. rewrite <- P in Hx. apply list_elem_of_lookup in Hx as [i Ei]. pose proof (lookup_lt_Some _ _ _ Ei).
    split; [apply (O 0%nat i); [lia|done..]|apply (O i (pred (length k))); [lia|done..]].
Qed.

(** *** The run *)

Hypothesis types_distinct : distinct_ids.
Abbreviation good := (sim_ok silent_handler unused_system unused_tick).

Lemma tune_ok i : adjusts (tune i).
Proof.
  intros cc wd F. pose proof F as (n & e & W). pose proof (snd_table _ _ (wo_core _ _ _ _ _ W)) as Wt.
  cbn [map_core core_ with_env neighbour_table_] in Wt. unfold tune.
  set (nt := NT.set_cell_size_m _ _ _). assert (NT.wf f2i_oob nt) as Wn by by apply NT.set_cell_size_spec.
  destruct (put_robot_ok (place_box i) cc _ (fit_table cc wd nt Wn F)) as (w & E & F' & I). cbn [core_ scheduler_] in E, F', I.
  exists w. split; [exact E|]. split; [exact F'|]. rewrite I. reflexivity.
Qed.

Lemma improper_box : proper_box = false -> exists u, set_up_swarm = Undefined u.
Proof. intros Hb. unfold set_up_swarm, uniform_real_distribution. fold proper_box. rewrite Hb. by eexists. Qed.

Lemma proper_set_up : proper_box = true -> set_up_swarm =
  (let! _ := reserve c.(N) in
   add_robots seeds swarm_flocking tune (seq 0 (Z.to_nat c.(N)))
     (empty_sim (mk_bus_config (F32.of_Z 20) c.(COMM_R) F32.zero F32.zero))).
Proof. intros Hb. unfold set_up_swarm, uniform_real_distribution. fold proper_box. by rewrite Hb. Qed.

Lemma set_up_swarm_ok : proper_box = true -> 0 <= c.(N) ->
  exists s ccs ids, set_up_swarm = Ok s /\ good ccs s /\ clock_after 0 s.(sim_clock) /\ robots_are s ids /\
    length ids = Z.to_nat c.(N).
Proof.
  intros Hb Hn. rewrite (proper_set_up Hb). unfold reserve. destruct (Z.ltb_spec c.(N) 0); [lia|]. cbn [obind].
  set (config := mk_bus_config _ _ _ _).
  destruct (add_robots_ok seeds types_distinct config swarm_flocking tune (seq 0 (Z.to_nat c.(N))) tune_ok [] [] (empty_sim config))
    as (s & ccs & ids & E & Hs & K & I & _ & L); [by apply empty_ok|done|done|done|constructor|].
  exists s, ccs, ids. split_and!; try done. by rewrite L, length_seq.
Qed.

Lemma tick_loop_ok ids rest : forall t ccs k s,
  good ccs s -> clock_after k s.(sim_clock) -> robots_are s ids ->
  exists s' ccs' rows, tick_loop rest t s = Ok (s', rows) /\ good ccs' s' /\ robots_are s' ids /\ length rows = rest /\
    wall_ms <$> rows = elapsed <$> seq t rest /\
    forall i r, rows !! i = Some r -> exists si,
      advance silent_handler unused_system unused_tick clk tid (S i) s = Ok si /\
      r = row_of (t + i) si.
Proof.
  induction rest as [|rest IH]; intros t ccs k s Hs Hk Hi; cbn [tick_loop].
  { exists s, ccs, []. by split_and!. }
  destruct (advance_ok silent_handler unused_system unused_tick silent_sound clk tid 1 k ccs s Hs Hk) as (s1 & E1 & H1 & K1 & _ & Y1).
  rewrite E1. cbn [obind]. pose proof (robots_unchanged types_distinct s s1 ids Y1 Hi) as I1.
  destruct (IH (S t) _ _ s1 H1 K1 I1) as (s' & ccs' & rows & -> & H' & I' & L & Ew & G). cbn [obind].
  exists s', ccs', (row_of t s1 :: rows). split; [done|]. split; [done|]. split; [done|].
  split; [cbn [length]; by rewrite L|]. split; [cbn [fmap list_fmap seq row_of wall_ms]; by rewrite Ew|]. intros [|i] r Hr.
  - apply (inj Some) in Hr as <-. exists s1. rewrite Nat.add_0_r. by split.
  - destruct (G i r Hr) as (si & Ea & ->). exists si. split; [by rewrite advance_succ, E1|]. by rewrite Nat.add_succ_r.
Qed.

(** The names are those of the systems, in the order of their registration. *)
Lemma system_times_ok ccs ids s : good ccs s -> robots_are s ids -> ids <> [] ->
  exists ts, system_times s = Ok ts /\ ts.*1 = system_name unused_system <$> [SBeacon; SFlocking; SKinematics].
Proof.
  intros Hs Hi Hn. pose proof (so_worlds _ _ _ _ _ Hs) as Hw. apply ra_systems in Hi. unfold systems_of in Hi.
  unfold system_times. destruct (sim_worlds s) as [|wd wds]; [by destruct ids|]. destruct ids as [|id ids]; [done|].
  cbn [fmap list_fmap] in Hi. injection Hi as Hy _. apply Forall2_cons_inv_r in Hw as (cc & ccs' & (n & e & W) & _).
  eexists. split; [done|]. destruct (wo_sched _ _ _ _ _ W) as [Wf Hb]. pose proof (Sched.sw_timings _ Wf Hb) as Et.
  cbn [map_core scheduler_] in Et. rewrite Hy in Et. etransitivity; [|exact Et]. symmetry. etransitivity; [|apply list_fmap_compose].
  reflexivity.
Qed.

(** What a run that sets up [s0] reports. *)
Record sound_report s0 (r : report) : Prop := {
  sr_worlds : Z.of_nat (length s0.(sim_worlds)) = c.(N);
  sr_times : wall_ms <$> r.(rows) = elapsed <$> seq 0 (Z.to_nat c.(T));
  sr_rows : forall t row, r.(rows) !! t = Some row -> exists s,
    advance silent_handler unused_system unused_tick clk tid (S t) s0 = Ok s /\ row = row_of t s;
  sr_ordered : dle r.(aggregate).(min_ms) r.(aggregate).(median) /\ dle r.(aggregate).(median) r.(aggregate).(p95) /\
    dle r.(aggregate).(p95) r.(aggregate).(max_ms);
  sr_bounds : forall t, (t < Z.to_nat c.(T))%nat ->
    dle r.(aggregate).(min_ms) (elapsed t) /\ dle (elapsed t) r.(aggregate).(max_ms);
  sr_systems : r.(per_system).*1 = [codes "BeaconSystem"; codes "FlockingSystem"; codes "KinematicsSystem"];
}.

Lemma run_aborts : proper_box = true -> c.(N) < 0 \/ 0 <= c.(N) /\ c.(T) < 0 -> exists m, swarm_run = Aborted m.
Proof.
  intros Hb H. unfold swarm_run. destruct (Z.ltb_spec c.(N) 0) as [Hn|Hn].
  { rewrite (proper_set_up Hb). unfold reserve. rewrite (proj2 (Z.ltb_lt _ _)) by done. by eexists. }
  destruct (set_up_swarm_ok Hb Hn) as (s0 & _ & _ & -> & _). cbn [obind]. unfold reserve.
  rewrite (proj2 (Z.ltb_lt c.(T) 0)) by lia. by eexists.
Qed.

Lemma run_to_report : proper_box = true -> 0 <= c.(N) -> 0 <= c.(T) -> exists s0 ccs ids s rws,
  set_up_swarm = Ok s0 /\ length ids = Z.to_nat c.(N) /\ length s0.(sim_worlds) = length ids /\ good ccs s /\ robots_are s ids /\
  wall_ms <$> rws = elapsed <$> seq 0 (Z.to_nat c.(T)) /\
  (forall t row, rws !! t = Some row -> exists st,
     advance silent_handler unused_system unused_tick clk tid (S t) s0 = Ok st /\ row = row_of t st) /\
  swarm_run = (let! st := statistics_of (elapsed <$> seq 0 (Z.to_nat c.(T))) in
               let! ts := system_times s in Ok (mk_report rws st ts)).
Proof.
  intros Hb Hn HT. destruct (set_up_swarm_ok Hb Hn) as (s0 & ccs & ids & E0 & S0 & K0 & I0 & L0).
  destruct (tick_loop_ok ids (Z.to_nat c.(T)) 0 ccs 0 s0 S0 K0 I0) as (s & ccs' & rws & E & S1 & I1 & L1 & Ew & G).
  exists s0, ccs', ids, s, rws. split; [done|]. split; [done|]. split.
  { pose proof (f_equal length (ra_owned _ _ I0)) as L. by rewrite !length_fmap in L. }
  split; [done|]. split; [done|]. split; [done|]. split; [exact G|].
  unfold swarm_run. rewrite E0. cbn [obind]. unfold reserve. rewrite (proj2 (Z.ltb_ge _ _)) by done. cbn [obind]. rewrite E.
  cbn [obind]. by rewrite Ew.
Qed.

Lemma run_undefined : proper_box = true -> 0 <= c.(N) -> 0 <= c.(T) -> c.(N) = 0 \/ c.(T) = 0 ->
  exists u, swarm_run = Undefined u.
Proof.
  intros Hb Hn HT H. destruct (run_to_report Hb Hn HT) as (s0 & ccs & ids & s & rws & _ & L & _ & _ & I & _ & _ & ->).
  destruct (statistics_of _) as [st|m|u] eqn:Est; cbn [obind]; [|unfold statistics_of in Est; by repeat case_match|by eexists].
  destruct H as [H|H].
  - pose proof (f_equal length (ra_owned _ _ I)) as L1. rewrite !length_fmap, L, H in L1. unfold system_times.
    destruct (sim_worlds s); [by eexists|discriminate L1].
  - rewrite H in Est. discriminate Est.
Qed.

Lemma run_reports : (forall t, number (elapsed t)) -> proper_box = true -> 1 <= c.(N) -> 1 <= c.(T) ->
  exists s0 r, set_up_swarm = Ok s0 /\ swarm_run = Ok r /\ sound_report s0 r.
Proof.
  intros He Hb Hn HT. destruct (run_to_report Hb ltac:(lia) ltac:(lia)) as (s0 & ccs & ids & s & rws & E0 & L & Lw & S1 & I1 & Ew & G & ->).
  destruct (statistics_ok (elapsed <$> seq 0 (Z.to_nat c.(T)))) as (st & -> & O1 & O2 & O3 & O4).
  { intros E%(f_equal length). rewrite length_fmap, length_seq in E. cbn in E. lia. }
  { by apply Forall_fmap, Forall_true. }
  destruct (system_times_ok ccs ids s S1 I1) as (ts & -> & En); [intros ->; cbn in L; lia|]. cbn [obind].
  exists s0, (mk_report rws st ts). split; [done|]. split; [done|].
  constructor; [by lia|exact Ew|exact G|by split_and!| |exact En].
  intros t Hlt. apply O4, list_elem_of_fmap_2, elem_of_seq. lia.
Qed.
End Swarm.

(** The whole program, from the arguments that follow its name. *)
Section Main.
Context {PF : Platform} {TC : Reg.Toolchain} {CR : Auth.Crypto}.
Variable atoi : list Z -> Z.
Variable stof : list Z -> option Z.
Variable uniform : Z -> Z -> nat -> Z.
Variable seeds : nat -> nat * nat.
Variable clk : nat -> Z * Z.
Variable tid : Z.
Variable elapsed : nat -> double.
Variable size_oob : double -> Z.

(* @src examples/swarm_benchmark/main.cpp:58-171 main *)
Definition swarm_benchmark (args : list (list Z)) : outcome report :=
  let! c := settings_of atoi stof args in
  swarm_run uniform seeds clk tid elapsed size_oob c.

(** The arguments that must be floats are. *)
Definition readable_floats (args : list (list Z)) : Prop :=
  forall k a, (2 <= k <= 4)%nat -> args !! k = Some a -> stof a <> None.

Lemma settings_cases args :
  (readable_floats args /\ exists c, settings_of atoi stof args = Ok c) \/
  (~ readable_floats args /\ exists m, settings_of atoi stof args = Aborted m).
Proof.
  assert (forall k v, match args !! k with
                      | Some a => match stof a with Some x => Ok x | None => Aborted "std::stof" end
                      | None => Ok v end = Aborted "std::stof" /\ (exists a, args !! k = Some a /\ stof a = None) \/
          (exists x, match args !! k with
                     | Some a => match stof a with Some x => Ok x | None => Aborted "std::stof" end
                     | None => Ok v end = Ok x) /\ (forall a, args !! k = Some a -> stof a <> None)) as F.
  { intros k v. destruct (args !! k) as [a|]; [|right; by eauto]. destruct (stof a) as [x|] eqn:Ea; [right|left; by eauto].
    split; [by eexists|]. intros a' [= <-]. congruence. }
  assert (forall k a, (2 <= k <= 4)%nat -> args !! k = Some a -> stof a = None -> ~ readable_floats args) as Bad
    by (intros k a Hk Ha Hn Hr; by apply (Hr k a)).
  unfold settings_of. destruct (F 2%nat (F32.of_Z 100)) as [(-> & a & Ha & Hn)|[[b ->] H2]]; cbn [obind].
  { right. split; [by apply (Bad 2%nat a); [lia|..]|by eexists]. }
  destruct (F 3%nat (F32.of_Z 15)) as [(-> & a & Ha & Hn)|[[co ->] H3]]; cbn [obind].
  { right. split; [by apply (Bad 3%nat a); [lia|..]|by eexists]. }
  destruct (F 4%nat (F32.of_Z 15)) as [(-> & a & Ha & Hn)|[[vi ->] H4]]; cbn [obind].
  { right. split; [by apply (Bad 4%nat a); [lia|..]|by eexists]. }
  left. split; [|by eexists]. intros k a Hk. assert (k = 2 \/ k = 3 \/ k = 4)%nat as [->|[->| ->]] by lia; auto.
Qed.
End Main.

(** The default box, an empty one and the largest can be drawn from; a negative, an
    infinite and a NaN box cannot. *)
Example proper_boxes :
  (fun b => proper_box (mk_settings 1 1 b 0 0)) <$>
    [F32.of_Z 100; F32.zero; 2139095039; F32.neg F32.one; 2139095040; F32.quiet_nan] = [true; true; true; false; false; false].
Proof. vm_compute. reflexivity. Qed.

(** ** The spatial index benchmark *)

Section Spatial.
(** Conversions out of range, and the identifiers the generator yields. *)
Variable oob : Z -> Z.
Variable ids : nat -> Id.HierarchicalID.

(** The generator's state and the number drawn; the cast to [std::int32_t] takes the
    upper half as a signed number. *)
(* @src examples/spatial_index_benchmark/main.cpp:19-23 lcg *)
Definition lcg (s : Z) : Z * Z :=
  let s := MI.u64 (s * 6364136223846793005 + 1442695040888963407) in
  let hi := Z.shiftr s 32 in
  let n := if hi <? 2 ^ 31 then hi else hi - 2 ^ 32 in
  (s, F32.div (F32.of_Z n) (F32.of_Z 2000000000)).
(* @src examples/spatial_index_benchmark/main.cpp:20-20 lcg *)
Definition LCG_SEED : Z := 0xCAFEBABE12345678.

(** Three numbers in a row, scaled to the box. *)
(* @src examples/spatial_index_benchmark/main.cpp:69-71 main *)
Definition draw_point (box_m s : Z) : Z * PositionComponent :=
  let '(s, a) := lcg s in
  let '(s, b) := lcg s in
  let '(s, c) := lcg s in
  (s, mk_pos (F32.mul a box_m) (F32.mul b box_m) (F32.mul c box_m)).

(** [i] counts the identifiers generated before. *)
(* @src examples/spatial_index_benchmark/main.cpp:25-37 seed *)
Fixpoint seed (n i : nat) (box_m : Z) (nt : NT.t) (s : Z) : NT.t * Z :=
  match n with
  | O => (nt, s)
  | S n =>
      let '(s, p) := draw_point box_m s in
      let sv := mk_sv (ids i) p default_sv.(sv_velocity) default_sv.(sv_health) default_sv.(sv_role) default_sv.(sv_state)
                  default_sv.(sv_tick) default_sv.(sv_sync_time_s) default_sv.(sv_sender_pubkey) default_sv.(sv_signature) in
      seed n (S i) box_m (NT.upsert oob nt sv F32.zero NT.UNKNOWN_RSSI) s
  end.

(** Both measured loops: draw a centre and count what a query yields, [q] times. *)
(* @src examples/spatial_index_benchmark/main.cpp:66-96 main *)
Fixpoint queries (q : nat) (query : PositionComponent -> list NT.Entry) (box_m s : Z) : nat * Z :=
  match q with
  | O => (O, s)
  | S q =>
      let '(s, centre) := draw_point box_m s in
      let '(total, s) := queries q query box_m s in
      ((length (query centre) + total)%nat, s)
  end.
(* @src examples/spatial_index_benchmark/main.cpp:72-78 main *)
Definition linear_query (nt : NT.t) (radius : Z) (centre : PositionComponent) : list NT.Entry :=
  filter (fun e => NT.in_range centre radius e = true) nt.(NT.entries_).
Definition indexed_query (nt : NT.t) (radius : Z) (centre : PositionComponent) : list NT.Entry :=
  NT.for_each_within oob nt centre radius.

(* @src examples/spatial_index_benchmark/main.cpp:53-56 main *)
Definition SIZES : list nat := [64; 128; 256; 512; 1024]%nat.
Definition BOX : Z := F32.of_Z 100.
Definition RADIUS : Z := F32.of_Z 8.
Definition N_QUERIES : nat := 200.

(** The totals of one size, with the state of the generators after it. *)
(* @src examples/spatial_index_benchmark/main.cpp:60-96 main *)
Definition measure_size (n i : nat) (s : Z) : nat * nat * nat * Z :=
  let nt := NT.set_cell_size_m oob NT.empty_table RADIUS in
  let '(nt, s) := seed n i BOX nt s in
  let '(linear, s) := queries N_QUERIES (linear_query nt RADIUS) BOX s in
  let '(indexed, s) := queries N_QUERIES (indexed_query nt RADIUS) BOX s in
  (linear, indexed, (n + i)%nat, s).

(* @src examples/spatial_index_benchmark/main.cpp:49-104 main *)
Fixpoint measure_sizes (sizes : list nat) (i : nat) (s : Z) : list (nat * nat) :=
  match sizes with
  | [] => []
  | n :: sizes => let '(linear, indexed, i, s) := measure_size n i s in (linear, indexed) :: measure_sizes sizes i s
  end.

Lemma seed_ok n : forall i box nt s,
  NT.wf oob nt -> (NT.count (seed n i box nt s).1 <= NT.count nt + n)%nat /\ NT.wf oob (seed n i box nt s).1 /\
  (seed n i box nt s).1.(NT.cell_size_m_) = nt.(NT.cell_size_m_).
Proof.
  induction n as [|n IH]; intros i box nt s W; cbn [seed fst]; [split_and!; [lia|done|done]|].
  destruct (draw_point box s) as [s' p]. set (sv := mk_sv _ _ _ _ _ _ _ _ _ _).
  destruct (IH (S i) box (NT.upsert oob nt sv F32.zero NT.UNKNOWN_RSSI) s' (proj1 (NT.upsert_spec oob nt sv _ _ W))) as (A & B & C).
  split_and!; [|done|].
  - assert (NT.count (NT.upsert oob nt sv F32.zero NT.UNKNOWN_RSSI) <= S (NT.count nt))%nat; [|lia].
    unfold NT.count, NT.upsert. destruct (NT.find_ _ _) as [idx|]; [destruct (NT.entries_ nt !! idx)|]; cbn [NT.entries_];
      rewrite ?length_insert, ?length_app; cbn [length]; lia.
  - rewrite C. unfold NT.upsert. destruct (NT.find_ _ _) as [idx|]; [by destruct (NT.entries_ nt !! idx)|done].
Qed.

(** With identifiers that do not repeat every point is a neighbour of its own. *)
Lemma seed_count n : Inj (=) (=) ids -> forall i box nt s,
  NT.wf oob nt -> (forall j, (i <= j)%nat -> NT.abs nt.(NT.entries_) !! ids j = None) ->
  NT.count (seed n i box nt s).1 = (NT.count nt + n)%nat.
Proof.
  intros J. induction n as [|n IH]; intros i box nt s W Hf; cbn [seed fst]; [lia|].
  destruct (draw_point box s) as [s' p]. set (sv := mk_sv _ _ _ _ _ _ _ _ _ _).
  destruct (NT.upsert_spec oob nt sv F32.zero NT.UNKNOWN_RSSI W) as (W' & A & _). rewrite IH; [|done|].
  - unfold NT.count at 1. rewrite <- (NT.abs_size _ (NT.wf_unique _ _ W')), A, map_size_insert_None by (apply Hf; done).
    rewrite (NT.abs_size _ (NT.wf_unique _ _ W)). unfold NT.count. lia.
  - intros j Hj. rewrite A. cbn [sv sv_id]. rewrite lookup_insert_ne by (intros ?%J; lia). apply Hf. lia.
Qed.

Lemma queries_le q f g box : (forall p, (length (f p) <= length (g p))%nat) -> forall s,
  ((queries q f box s).1 <= (queries q g box s).1)%nat /\ (queries q f box s).2 = (queries q g box s).2.
Proof.
  intros Hl. induction q as [|q IH]; intros s; [split; [done|done]|]. cbn [queries]. destruct (draw_point box s) as [s' p].
  destruct (IH s') as [A B]. destruct (queries q f box s') as [tf sf], (queries q g box s') as [tg sg]. cbn [fst snd] in *.
  split; [|done]. specialize (Hl p). lia.
Qed.

(** The table of one size, and what the two loops count on it from the same state of
    the generator: the index never counts more than the scan. *)
Theorem index_counts_within_scan n i s s' q :
  let nt := (seed n i BOX (NT.set_cell_size_m oob NT.empty_table RADIUS) s).1 in
  let linear := queries q (linear_query nt RADIUS) BOX s' in
  let indexed := queries q (indexed_query nt RADIUS) BOX s' in
  (NT.count nt <= n)%nat /\ (Inj (=) (=) ids -> NT.count nt = n) /\ (indexed.1 <= linear.1)%nat /\ (linear.1 <= q * n)%nat /\ indexed.2 = linear.2.
Proof.
  destruct (seed_ok n i BOX (NT.set_cell_size_m oob NT.empty_table RADIUS) s) as (Hc & W & Ec);
    [by apply NT.set_cell_size_spec, NT.empty_table_wf|].
  intros nt linear indexed. fold nt in Hc, W, Ec. assert (NT.count nt <= n)%nat as Hn by exact Hc. split; [done|].
  split.
  { intros J. apply (seed_count n J); [by apply NT.set_cell_size_spec, NT.empty_table_wf|]. intros j _. apply lookup_empty. }
  assert (forall p, (length (indexed_query nt RADIUS p) <= length (linear_query nt RADIUS p))%nat) as Hl.
  { intros p. unfold indexed_query. rewrite (Permutation_length (NT.for_each_within_on oob nt p RADIUS W ltac:(by rewrite Ec))).
    apply length_filter_impl. by intros e [_ Hr]%andb_true_iff. }
  destruct (queries_le q _ _ BOX Hl s') as [A B]. split; [exact A|]. split; [|exact B].
  unfold linear. clear - Hn. revert s'. induction q as [|q IH]; intros s'; [done|]. cbn [queries].
  destruct (draw_point BOX s') as [s2 p]. specialize (IH s2). destruct (queries q _ BOX s2) as [tl sl]. cbn [fst] in *.
  assert (length (linear_query nt RADIUS p) <= n)%nat; [|lia]. etransitivity; [apply length_filter|exact Hn].
Qed.
End Spatial.

(** [lcg] leaves the interval its comment gives, [-1, 1]: its second number is greater
    than one. *)
Example lcg_exceeds_one : F32.gtb (lcg (lcg LCG_SEED).1).2 F32.one = true.
Proof. vm_compute. reflexivity. Qed.


End Bench.
